(* ===== verification/_CoqProject ===== *)
-Q . S2P
Prelude.v
Net.v
NetText.v
IpamBitset.v
IpamAllocator.v
IpamManager.v
BgpFsm.v
BgpFamily.v
BgpPrefix.v
BgpCapability.v
BgpAttribute.v
BgpMessage.v
BgpCodec.v
BgpPath.v
BgpRib.v
BgpLocRib.v
BgpRibManager.v
BgpEvent.v
BgpPeer.v
BgpPeerFacts.v
BgpPeerSession.v
BgpServer.v
BgpApi.v
BgpApiFacts.v
FibRoute.v
FibRib.v
FibWorld.v
FibKernel.v
KubeApi.v
KubeService.v
KubeServiceFacts.v
KubeServiceWorld.v
KubePool.v
KubePoolFacts.v
KubeRecover.v
KubeBgpApi.v
KubeAdvertise.v
AgentBlock.v
AgentBgp.v
AgentBgpFacts.v
AgentApi.v
SartCli.v
FibApi.v
AdvertWorld.v
CniLink.v
CniServer.v
CniFacts.v
CniExample.v
CniPlugin.v
CniWorld.v
CniRecovery.v
Daemon.v
