(* ===== verification/Prelude.v ===== *)
(** * sart: a BGP daemon, its FIB server and their Kubernetes controllers

    sart is a network load balancer and CNI for Kubernetes. [sartd] runs in
    several roles that talk to each other over channels and gRPC:

    - [bgp] speaks BGP with the neighbors, selects the best path of every
      network and tells its FIB server and its other neighbors about it;
    - [fib] keeps the routes of several protocols and writes the preferred one of
      each destination to the kernel;
    - [ipam] hands out the addresses of a block and the blocks of a pool;
    - [kubernetes] watches the API server: its controller gives addresses to
      services and blocks to nodes, its agent configures the BGP speaker and the
      network of the pods.

    [sart] is the command line tool that talks to the speaker and to the FIB
    server, and [sartcni] the CNI plugin that talks to the agent. The development
    follows these parts; sources are named relative to [sartd/src] unless they
    begin with [sart/] or [sartcni/].

    ** Files

    - [Prelude]: results with panics ([res]), the monad of a method that changes
      its receiver and may fail ([M]: the state reached so far is kept when it
      returns early), loops, invariants of handlers ([maintains], tactic [keep]),
      machine integers ([ovf], [wrap], under a build [Profile]: debug builds
      panic on overflow, release builds wrap), big-endian byte strings.
    - [Net], [NetText]: addresses and networks, byte buffers, texts. The crates
      [ipnet] and [bytes] and the text form of addresses are interfaces
      ([NetApi]/[IpNetApi], [BufApi], [TextApi]) with their documented laws
      ([NetLaws]/[IpNetLaws], [BufLaws], [TextLaws]); each has an instance that
      satisfies the laws, with which the witnesses are computed.
    - [IpamBitset], [IpamAllocator], [IpamManager]: [ipam/src/bitset.rs],
      [allocator.rs], [manager.rs].
    - [BgpFsm], [BgpFamily], [BgpPrefix], [BgpCapability], [BgpAttribute],
      [BgpMessage], [BgpCodec]: the state machine, the errors and families, and
      the messages with their wire form ([bgp/src/packet], [peer/fsm.rs],
      [family.rs], [capability.rs], [error.rs]).
    - [BgpPath], [BgpRib], [BgpLocRib], [BgpRibManager]: paths, the tables of a
      peer, best path selection, and the task that owns the local RIB ([path.rs],
      [rib.rs]).
    - [BgpEvent], [BgpPeer], [BgpPeerFacts], [BgpPeerSession], [BgpServer]: events
      and configuration, the task of a peer with its connections, timers and
      tables, and the server that starts and stops peers ([event.rs],
      [config.rs], [peer/peer.rs], [server.rs]).
    - [BgpApi], [BgpApiFacts]: the protobuf messages of attributes, families, paths
      and peers, and every request of the gRPC interface of the speaker
      ([api_server.rs], [util/src/lib.rs]); the encoding of [prost] is an
      interface with its law ([ProtoApi], [ProtoLaws]).
    - [FibRoute], [FibRib], [FibKernel]: routes and their gRPC messages, the table
      and the channels, and the netlink side ([fib/src]).
    - [FibWorld]: the requests of the RIB manager as the FIB server reads them and a
      channel handles them.
    - [FibApi]: the FIB server as a whole ([fib/src/server.rs], [Channel::register],
      [Bgp::publish]): the start that ties channels to the poller, the manager
      interface, and what a channel publishes as a speaker serves it.
    - [KubeApi], [KubeService], [KubeServiceFacts], [KubeServiceWorld]: the
      objects, errors and helpers of [kubernetes/src], the service watcher and
      the webhook of services, and the services over time
      ([controller/reconciler/service_watcher.rs], [controller/webhook/service.rs]).
    - [KubePool], [KubePoolFacts]: the controllers and webhooks of pools, blocks
      and block requests ([controller/reconciler/address_pool.rs],
      [address_block.rs], [block_request.rs], [controller/webhook]).
    - [KubeRecover]: what the controller reads back when it starts
      ([recover_or_create] of [controller/server.rs]).
    - [KubeBgpApi]: the custom resources of BGP ([crd]) and the controllers that
      give peers to nodes ([cluster_bgp.rs], [node_watcher.rs], the webhooks of
      peers and advertisements).
    - [KubeAdvertise], [AgentBlock], [AdvertWorld]: how an address or a block is
      advertised ([endpointslice_watcher.rs], [bgp_advertisement.rs] of the
      controller and of the agent, [agent/reconciler/address_block.rs]), and an
      advertisement over time.
    - [AgentBgp], [AgentBgpFacts]: the agent's controllers of a speaker and its
      peers and the service that is told the states of sessions
      ([agent/reconciler/node_bgp.rs], [bgp_peer.rs], [bgp_peer_watcher.rs]).
    - [AgentApi]: the requests of these controllers as the interface of the speaker
      serves them and its server handles them.
    - [SartCli]: the commands of [sart/src], which call these interfaces, down to
      what the server of the speaker asks of its RIB manager.
    - [CniLink], [CniServer], [CniFacts], [CniExample], [CniWorld],
      [CniRecovery]: the links of pods, the CNI server and its garbage collector
      ([agent/cni]), their effect on the addresses of a node, an example node, a
      node over time, and restarts.
    - [CniPlugin]: the configuration, conversions and commands of [sartcni/src], with
      the gRPC side of the CNI server; [serde_json] is an interface with its law.
    - [Daemon]: the commands of [cmd/src] with their flags, the configurations of
      [kubernetes/src/config.rs], [agent/config.rs] and [controller/config.rs], and
      the tasks that an agent and a controller start in each mode.

    A Rust method that takes [&mut self] is an action of [M] on the record of its
    fields; a task that reads events from a channel is a function from one event
    and its state to the new state; what it sends is a trace in its state. What
    the outside does is a parameter: whether a send or write succeeds is a
    function of what was sent before ([accepts]), what a read returns likewise,
    the order in which a hash map is iterated is any permutation of its entries
    ([NetIter], [block_iter], [alloc_iter]), the clock and the hash that makes
    path identifiers are functions. Loops over vectors are recursive on them; the
    loops of the decoders have the length of the buffer as fuel, which is enough:
    every round takes bytes, and the loops have the results of rounds without fuel
    ([decoding_terminates], [rounds] of [Net]).

    ** Theorems

    Each theorem states the conditions it needs; where the code does not ensure
    one, a theorem shows what happens without it.

    - Addresses: the allocator refines a set of held addresses; blocks and pools
      keep their invariants; no two services hold the same address as long as no
      turn of the watcher fails half way and no release note is acted upon too
      late, and a turn that succeeds gives a service what it asks for; runs in
      which an address is given away twice are theorems.
    - Wire formats: prefixes, capabilities and attributes are decoded to what was
      encoded, and so are streams of messages unless an OPEN is followed by so many
      bytes that the truncated check of its options refuses it; what a path keeps
      when it is advertised; routes survive their gRPC and netlink messages.
    - BGP: a session is Established only after its handshake; colliding connections
      are resolved alike at both ends when all are in OpenConfirm, and not when each
      end has seen the OPEN of another one; the hold time is negotiated; the RIB
      manager was told what the peer keeps, without re-announcements and second
      connections, and agrees with the server; the first path of a network is the
      best; in runs without errors and multipath a peer that only listens mirrors the
      best paths; the split horizon.
    - FIB: in such runs with paths from peers only, a channel of the FIB server that
      only this speaker writes has the route of every IPv4 best path, and keeps
      those of withdrawn networks; the last request the kernel's task gets for a
      destination is for its preferred route, when requests are fair; a table of
      the kernel has one subscriber, its routes reach the RIB of a speaker, and the
      manager interface reports the tables in messages that are read back.
    - Interfaces: attributes go through the messages of the speaker as they are
      exactly if the speaker makes such ones; every query gets its answer until one
      comes too late; the requests of agents and of the command line reach the
      server and the RIB manager; the CNI plugin reports what the CNI server
      returns; every loop of the decoders ends for every input.
    - Restarts: the controller finds the pools that the API server lists and their
      numbered blocks, loses the first request for a block of a pool that has one,
      and does not start with a numbered block that has no status; the flags of a
      daemon decide its mode, not its file.
    - Pods: as long as the blocks of a node are disjoint and report that they are
      empty only when they are, no two pods of the node have the same address and ADD
      takes a free one; DEL gives it back; a restart recovers the addresses from the
      links, and the garbage collector deletes only blocks that an earlier tick has
      marked and that report that they are empty; aliases of links and arguments of
      commands are read as written.
    - Advertisements: the peers of an advertisement follow the nodes of its
      service, an advertisement that is gone is announced by no speaker unless a peer
      was taken from it while its node announced it, and a deletion comes to an end
      when speakers and the API server answer.
    - Nodes: a node is marked available only if its speaker has, or was given and
      accepted, the configured AS number and router id; the states of sessions that
      the speaker reports are recorded, and one that is missed is not recorded later.
    - Error behaviour: theorems that show where the code departs from its
      intent or its documentation.

    ** Not modelled

    Generated protobuf code ([proto]) and the transport of gRPC: a request is a call
    of its handler. The parsers of arguments, YAML and JSON and the layout of
    tables (clap, serde, tabled): what they return is a parameter. Sockets, web
    servers, certificates and the runtime; the loops of the [kube] library that call
    the controllers: any sequence of turns. Logging, metrics registries and tracing;
    mocks, fixtures and tests. A poisoned mutex is not modelled:
    taking a lock succeeds. *)

From Stdlib Require Export ZArith Lia.
From stdpp Require Export base tactics list gmap strings numbers sorting.

#[export] Set Default Goal Selector "!".
#[global] Set Warnings "-clear-no-such-hyp".
Open Scope Z_scope.

(** ** Results, panics and the handler monad *)

(** What a Rust call can do: return [Ok], return [Err], or panic. *)
Inductive res (E A : Type) : Type :=
| Ok (a : A)
| Err (e : E)
| Panic.
Arguments Ok {E A} a.
Arguments Err {E A} e.
Arguments Panic {E A}.

#[global] Instance res_ret E : MRet (res E) := fun A a => Ok a.
#[global] Instance res_bind E : MBind (res E) := fun A B f m =>
  match m with Ok a => f a | Err e => Err e | Panic => Panic end.

(** A method that takes [&mut self] and returns a [Result]: the state is the
    receiver, and the state reached so far is kept when the method returns early. *)
Definition M (S E A : Type) : Type := S -> res E A * S.

#[global] Instance M_ret S E : MRet (M S E) := fun A a s => (Ok a, s).
#[global] Instance M_bind S E : MBind (M S E) := fun A B f m s =>
  match m s with
  | (Ok a, s') => f a s'
  | (Err e, s') => (Err e, s')
  | (Panic, s') => (Panic, s')
  end.

Section monad.
Context {S E : Type}.

Definition lift {A} (r : res E A) : M S E A := fun s => (r, s).
Definition throw {A} (e : E) : M S E A := fun s => (Err e, s).
Definition panic {A} : M S E A := fun s => (Panic, s).
Definition get_st : M S E S := fun s => (Ok s, s).
Definition put_st (s' : S) : M S E unit := fun _ => (Ok tt, s').
Definition modify (f : S -> S) : M S E unit := fun s => (Ok tt, f s).
Definition gets {A} (f : S -> A) : M S E A := fun s => (Ok (f s), s).

(** [for x in l { f(x)?; }] *)
Fixpoint for_each {A} (f : A -> M S E unit) (l : list A) : M S E unit :=
  match l with
  | [] => mret tt
  | x :: l' => f x ;; for_each f l'
  end.

(** A loop that collects what its body pushes. *)
Fixpoint for_collect {A B} (f : A -> M S E B) (l : list A) : M S E (list B) :=
  match l with
  | [] => mret []
  | x :: l' => y ← f x; ys ← for_collect f l'; mret (y :: ys)
  end.

(** A loop that carries a local variable. *)
Fixpoint for_fold {A B} (f : B -> A -> M S E B) (l : list A) (b : B) : M S E B :=
  match l with
  | [] => mret b
  | x :: l' => b' ← f b x; for_fold f l' b'
  end.

Lemma bind_ok {A B} (m : M S E A) (f : A -> M S E B) s a s' :
  m s = (Ok a, s') -> (m ≫= f) s = f a s'.
Proof. intros H. unfold mbind, M_bind. by rewrite H. Qed.

Lemma bind_err {A B} (m : M S E A) (f : A -> M S E B) s e s' :
  m s = (Err e, s') -> (m ≫= f) s = (Err e, s').
Proof. intros H. unfold mbind, M_bind. by rewrite H. Qed.

Lemma bind_panic {A B} (m : M S E A) (f : A -> M S E B) s s' :
  m s = (Panic, s') -> (m ≫= f) s = (Panic, s').
Proof. intros H. unfold mbind, M_bind. by rewrite H. Qed.

Lemma assoc_bind {A B C} (m : M S E A) (f : A -> M S E B) (g : B -> M S E C) s :
  ((m ≫= f) ≫= g) s = (m ≫= (fun a => f a ≫= g)) s.
Proof. unfold mbind, M_bind. by destruct (m s) as [[] ?]. Qed.

Lemma bind_modify {B} (g : S -> S) (f : unit -> M S E B) s : (modify g ≫= f) s = f tt (g s).
Proof. done. Qed.

Lemma bind_get {B} (f : S -> M S E B) s : (get_st ≫= f) s = f s s.
Proof. done. Qed.

Lemma bind_inv_ok {A B} (m : M S E A) (f : A -> M S E B) s b s2 :
  (m ≫= f) s = (Ok b, s2) -> exists a s1, m s = (Ok a, s1) /\ f a s1 = (Ok b, s2).
Proof.
  unfold mbind, M_bind. destruct (m s) as [[a|e|] s1]; [|done|done]. eauto.
Qed.
End monad.

(** [.map_err(f)] *)
Definition map_err {S E E' A} (f : E -> E') (m : M S E A) : M S E' A := fun s =>
  match m s with
  | (Ok a, s') => (Ok a, s')
  | (Err e, s') => (Err (f e), s')
  | (Panic, s') => (Panic, s')
  end.

Definition res_map_err {E E' A} (f : E -> E') (r : res E A) : res E' A :=
  match r with Ok a => Ok a | Err e => Err (f e) | Panic => Panic end.

(** Run a method of a field of the receiver. *)
Definition zoom {S T E A} (get : S -> T) (set : T -> S -> S) (m : M T E A) : M S E A := fun s =>
  let '(r, t) := m (get s) in (r, set t s).

(** ** Invariants of handlers *)

(** Whatever its result, the action preserves the predicate. *)
Definition maintains {S E A} (J : S -> Prop) (act : M S E A) : Prop :=
  forall s r s', J s -> act s = (r, s') -> J s'.

Section maintains.
Context {S E : Type} (J : S -> Prop).

Lemma maintains_bind {A B} (m : M S E A) (f : A -> M S E B) :
  maintains J m -> (forall a, maintains J (f a)) -> maintains J (m ≫= f).
Proof.
  intros Hm Hf s r s' Hs H. unfold mbind, M_bind in H. destruct (m s) as [[a|e|] s1] eqn:E1.
  - eapply Hf; [|exact H]. by eapply Hm.
  - injection H as <- <-. by eapply Hm.
  - injection H as <- <-. by eapply Hm.
Qed.

Lemma maintains_ret {A} (a : A) : maintains (E:=E) J (mret a).
Proof. intros s r s' Hs [= <- <-]. done. Qed.

Lemma maintains_lift {A} (x : res E A) : maintains J (lift x).
Proof. intros s r s' Hs [= <- <-]. done. Qed.

Lemma maintains_throw {A} (e : E) : maintains (A:=A) J (throw e).
Proof. intros s r s' Hs [= <- <-]. done. Qed.

Lemma maintains_panic {A} : maintains (E:=E) (A:=A) J panic.
Proof. intros s r s' Hs [= <- <-]. done. Qed.

Lemma maintains_get : maintains (E:=E) J get_st.
Proof. intros s r s' Hs [= <- <-]. done. Qed.

Lemma maintains_modify f : (forall s, J s -> J (f s)) -> maintains (E:=E) J (modify f).
Proof. intros Hf s r s' Hs [= <- <-]. auto. Qed.

Lemma maintains_for_each {A} (f : A -> M S E unit) l : (forall x, maintains J (f x)) -> maintains J (for_each f l).
Proof. intros Hf. induction l as [|x l IH]; [apply maintains_ret|]. apply maintains_bind; auto. Qed.

Lemma maintains_for_fold {A B} (f : B -> A -> M S E B) l b :
  (forall b x, maintains J (f b x)) -> maintains J (for_fold f l b).
Proof.
  intros Hf. revert b. induction l as [|x l IH]; intros b; [apply maintains_ret|]. apply maintains_bind; auto.
Qed.

Lemma maintains_map_err {E' A} (f : E -> E') (m : M S E A) : maintains J m -> maintains J (map_err f m).
Proof.
  intros Hm s r s' Hs H. unfold map_err in H. destruct (m s) as [[a|e|] s1] eqn:E1; injection H as <- <-;
    by eapply Hm.
Qed.

Lemma maintains_zoom {T A} (get : S -> T) (set : T -> S -> S) (m : M T E A) :
  (forall s t, J s -> J (set t s)) -> maintains J (zoom get set m).
Proof.
  intros Hs s r s' HJ H. unfold zoom in H. destruct (m (get s)) as [r0 t]. injection H as <- <-. auto.
Qed.
End maintains.

(** Take a handler apart; what is left are the actions that need an argument. *)
Ltac keep1 :=
  lazymatch goal with
  | |- maintains _ (_ ≫= _) => apply maintains_bind; [|intros ?]
  | |- maintains _ (mret _) => apply maintains_ret
  | |- maintains _ (lift _) => apply maintains_lift
  | |- maintains _ (throw _) => apply maintains_throw
  | |- maintains _ panic => apply maintains_panic
  | |- maintains _ get_st => apply maintains_get
  | |- maintains _ (modify _) => apply maintains_modify
  | |- maintains _ (for_each _ _) => apply maintains_for_each; intros ?
  | |- maintains _ (for_fold _ _ _) => apply maintains_for_fold; intros ? ?
  | |- maintains _ (map_err _ _) => apply maintains_map_err
  | |- maintains _ (zoom _ _ _) => apply maintains_zoom
  | |- maintains _ (match ?x with _ => _ end) => destruct x
  | |- maintains _ (let _ := _ in _) => cbv zeta
  end.
Ltac keep := repeat keep1.

(** ** Machine integers *)

(** The build profile: whether overflow checks are compiled in (a debug build)
    or arithmetic wraps around (a release build). *)
Class Profile : Type := { overflow_checks : bool }.

Definition debug_profile : Profile := {| overflow_checks := true |}.
Definition release_profile : Profile := {| overflow_checks := false |}.

(** [x as uW] *)
Definition wrap (w z : Z) : Z := z mod 2 ^ w.

Definition uint (w z : Z) : Prop := 0 <= z < 2 ^ w.

#[global] Instance uint_dec w z : Decision (uint w z).
Proof. unfold uint. apply _. Defined.

(** The result [z] of an arithmetic operator at width [w]. *)
Definition ovf {P : Profile} {E} (w z : Z) : res E Z :=
  if decide (uint w z) then Ok z
  else if overflow_checks then Panic else Ok (wrap w z).

(** [v[i]] on a vector: an index out of range panics. *)
Definition vec_get {E A} (l : list A) (i : Z) : res E A :=
  match l !! Z.to_nat i with Some x => Ok x | None => Panic end.

Arguments wrap : simpl never.
Arguments ovf : simpl never.
Arguments vec_get : simpl never.
Arguments uint : simpl never.

Lemma vec_get_some {E A} (l : list A) i x : l !! Z.to_nat i = Some x -> vec_get (E:=E) l i = Ok x.
Proof. intros H. unfold vec_get. by rewrite H. Qed.

Lemma vec_get_none {E A} (l : list A) i : l !! Z.to_nat i = None -> vec_get (E:=E) l i = Panic.
Proof. intros H. unfold vec_get. by rewrite H. Qed.

Lemma wrap_small w z : uint w z -> wrap w z = z.
Proof. intros H. apply Z.mod_small, H. Qed.

Lemma wrap_uint w z : 0 <= w -> uint w (wrap w z).
Proof. intros Hw. apply Z.mod_pos_bound, Z.pow_pos_nonneg; lia. Qed.

Lemma ovf_small {P : Profile} {E} w z : uint w z -> ovf (E:=E) w z = Ok z.
Proof. intros H. unfold ovf. by rewrite decide_True. Qed.

Lemma ovf_debug {E} w z : ~ uint w z -> @ovf debug_profile E w z = Panic.
Proof. intros H. unfold ovf. by rewrite decide_False. Qed.

Lemma ovf_release {E} w z : @ovf release_profile E w z = Ok (wrap w z).
Proof. unfold ovf. case_decide; [by rewrite wrap_small|done]. Qed.

(** ** Big-endian byte strings *)

Definition is_byte (b : Z) : Prop := 0 <= b < 256.
Definition bytes_ok (l : list Z) : Prop := Forall is_byte l.

#[global] Instance is_byte_dec b : Decision (is_byte b).
Proof. unfold is_byte. apply _. Defined.
#[global] Instance bytes_ok_dec l : Decision (bytes_ok l).
Proof. unfold bytes_ok. apply _. Defined.

Fixpoint be_bytes (n : nat) (z : Z) : list Z :=
  match n with
  | O => []
  | S m => be_bytes m (z / 256) ++ [z mod 256]
  end.

Definition be_val (l : list Z) : Z := foldl (fun acc b => acc * 256 + b) 0 l.

Lemma be_val_snoc l b : be_val (l ++ [b]) = be_val l * 256 + b.
Proof. unfold be_val. by rewrite foldl_app. Qed.

Lemma length_be_bytes n z : length (be_bytes n z) = n.
Proof. revert z; induction n; intros z; simpl; [done|]. rewrite length_app, IHn. simpl. lia. Qed.

Lemma be_bytes_ok n z : bytes_ok (be_bytes n z).
Proof.
  revert z; induction n as [|n IH]; intros z; simpl; [constructor|].
  apply Forall_app. split; [apply IH|]. constructor; [|done].
  unfold is_byte. apply Z.mod_pos_bound. lia.
Qed.

Lemma be_val_bytes n z : be_val (be_bytes n z) = z mod 256 ^ Z.of_nat n.
Proof.
  revert z; induction n as [|n IH]; intros z.
  { simpl. by rewrite Z.mod_1_r. }
  cbn [be_bytes]. rewrite be_val_snoc, IH, Nat2Z.inj_succ, Z.pow_succ_r by lia.
  rewrite Z.rem_mul_r by lia. lia.
Qed.

Lemma pow256 n : 256 ^ Z.of_nat n = 2 ^ (8 * Z.of_nat n).
Proof. rewrite Z.pow_mul_r by lia. done. Qed.

Lemma be_val_bytes_small n z : uint (8 * Z.of_nat n) z -> be_val (be_bytes n z) = z.
Proof. intros H. rewrite be_val_bytes, pow256. apply Z.mod_small, H. Qed.

Lemma be_val_bound l : bytes_ok l -> uint (8 * Z.of_nat (length l)) (be_val l).
Proof.
  unfold uint. rewrite <-pow256.
  induction l as [|b l IH] using rev_ind; intros H; [done|].
  apply Forall_app in H as [Hl Hb]. inversion Hb; subst.
  specialize (IH Hl). rewrite be_val_snoc, length_app, Nat2Z.inj_add. simpl.
  rewrite Z.pow_add_r by lia. unfold is_byte in *. lia.
Qed.

Lemma be_bytes_val l : bytes_ok l -> be_bytes (length l) (be_val l) = l.
Proof.
  induction l as [|b l IH] using rev_ind; intros H; [done|].
  apply Forall_app in H as [Hl Hb]. inversion Hb as [|?? Hb' _]; subst.
  rewrite length_app, Nat.add_comm, be_val_snoc. simpl. unfold is_byte in Hb'.
  rewrite Z.div_add_l, Z.div_small, Z.add_0_r, IH by (done || lia).
  by rewrite Z.add_comm, Z.mod_add, Z.mod_small by lia.
Qed.

Lemma be_bytes_1 b : is_byte b -> be_bytes 1 b = [b].
Proof. intros H. simpl. by rewrite Z.mod_small. Qed.

Lemma be_bytes_2 a b : is_byte a -> is_byte b ->
  be_bytes 2 (a * 256 + b) = be_bytes 1 a ++ be_bytes 1 b.
Proof.
  intros Ha Hb. unfold is_byte in *. simpl.
  rewrite Z.div_add_l, (Z.div_small b), Z.add_0_r by lia.
  by rewrite (Z.add_comm (a * 256)), Z.mod_add, !Z.mod_small by lia.
Qed.

#[global] Opaque be_bytes.

(** ** Filters that keep everything or nothing *)

Lemma filter_all {A} (f : A -> bool) l : Forall (fun x => f x = true) l -> List.filter f l = l.
Proof. induction 1 as [|x l Hx _ IH]; [done|]. cbn [List.filter]. by rewrite Hx, IH. Qed.

Lemma filter_none {A} (f : A -> bool) l : Forall (fun x => f x = false) l -> List.filter f l = [].
Proof. induction 1 as [|x l Hx _ IH]; [done|]. cbn [List.filter]. by rewrite Hx, IH. Qed.

(** The same for [filter] of a decidable predicate, and a pointwise relation that
    is weakened on the elements of the list. *)
Section filters.
Context {A B : Type} (Q : A -> Prop) `{!forall x, Decision (Q x)}.

Lemma filter_every l : Forall Q l -> filter Q l = l.
Proof. induction 1 as [|x l Hx _ IH]; [done|]. rewrite filter_cons, decide_True by done. by rewrite IH. Qed.

Lemma filter_nothing l : Forall (fun x => ~ Q x) l -> filter Q l = [].
Proof. induction 1 as [|x l Hx _ IH]; [done|]. by rewrite filter_cons, decide_False. Qed.

Lemma Forall2_weaken (R R' : A -> B -> Prop) l k :
  Forall2 R l k -> (forall x y, x ∈ l -> R x y -> R' x y) -> Forall2 R' l k.
Proof.
  induction 1 as [|x y l k Hxy _ IH]; intros HR; [constructor|]. constructor; [by apply HR; [left|]|].
  apply IH. intros x' y' Hx'. apply HR. by right.
Qed.
End filters.

(** ** Automation *)

Create HintDb sart.
#[export] Hint Resolve be_bytes_ok length_be_bytes wrap_uint : sart.
#[export] Hint Constructors Forall : sart.

(** Step through a monadic computation whose first action is known. *)
Ltac mstep := first
  [ erewrite bind_ok by first [eassumption | reflexivity]
  | erewrite bind_err by first [eassumption | reflexivity]
  | erewrite bind_panic by first [eassumption | reflexivity] ].

(** Compute the monad's own operations. *)
Tactic Notation "mred" := cbv beta iota zeta delta
  [mbind M_bind mret M_ret res_bind res_ret get_st put_st modify gets lift throw panic
   map_err res_map_err zoom].
Tactic Notation "mred" "in" hyp(H) := cbv beta iota zeta delta
  [mbind M_bind mret M_ret res_bind res_ret get_st put_st modify gets lift throw panic
   map_err res_map_err zoom] in H.

(** Destruct every [Z] comparison the goal branches on. *)
Ltac zcase :=
  repeat match goal with
  | |- context [ ?a <? ?b ] => destruct (Z.ltb_spec a b)
  | |- context [ ?a <=? ?b ] => destruct (Z.leb_spec a b)
  | |- context [ ?a =? ?b ] => destruct (Z.eqb_spec a b)
  end.

(** Take the branch of a chain of closed comparisons. *)
Ltac ground_eqb x y :=
  lazymatch x with Z.of_nat _ => fail | _ => idtac end;
  let v := eval vm_compute in (x =? y) in
  change (x =? y) with v; cbv iota.

Ltac ground_if :=
  repeat match goal with
  | |- (if ?x =? ?y then _ else _) _ = _ => ground_eqb x y
  | |- ((if ?x =? ?y then _ else _) _).1 = _ => ground_eqb x y
  end.
