(* ===== verification/Net.v ===== *)
(** * Addresses, networks and byte buffers

    The data the daemons exchange. [IpAddr] is the standard library's address
    type (a [w]-bit number per family). The [ipnet] and [bytes] crates are not
    part of the repository: what the code uses of them is an interface class,
    [NetApi]/[IpNetApi] and [BufApi], with the documented behaviour as a class
    of laws. Each interface has an instance ([simple_net], [simple_ipnet],
    [simple_buf]) that satisfies its laws, so that witnesses can evaluate the
    model by making it a local instance. *)

From S2P Require Import Prelude.

(** ** [std::net::IpAddr] *)

Inductive IpAddr : Type :=
| AV4 (a : Z)
| AV6 (a : Z).

#[global] Instance IpAddr_eq_dec : EqDecision IpAddr.
Proof. solve_decision. Defined.

#[global] Program Instance IpAddr_countable : Countable IpAddr :=
  inj_countable' (fun a => match a with AV4 z => inl z | AV6 z => inr z end)
                 (fun s => match s with inl z => AV4 z | inr z => AV6 z end) _.
Next Obligation. by intros []. Qed.

Definition addr_ok (a : IpAddr) : Prop :=
  match a with AV4 z => uint 32 z | AV6 z => uint 128 z end.

(** [Ord for IpAddr]: every IPv4 address is below every IPv6 address. *)
Definition addr_cmp (a b : IpAddr) : comparison :=
  match a, b with
  | AV4 x, AV4 y => Z.compare x y
  | AV6 x, AV6 y => Z.compare x y
  | AV4 _, AV6 _ => Lt
  | AV6 _, AV4 _ => Gt
  end.

(** ** The [ipnet] crate: [Ipv4Net] ([w = 32]) and [Ipv6Net] ([w = 128]) *)

Class NetApi (w : Z) : Type := {
  Net : Type;
  Net_eq_dec :: EqDecision Net;
  Net_countable :: Countable Net;
  net_new : Z -> Z -> option Net;      (* [new(addr, prefix_len)], None = Err *)
  net_addr : Net -> Z;                 (* [addr()] *)
  net_prefix_len : Net -> Z;           (* [prefix_len()] *)
  net_network : Net -> Z;              (* [network()] *)
  net_contains : Net -> Z -> bool;     (* [contains(&addr)] *)
}.
Arguments Net w {_}.

Class NetLaws (w : Z) {N : NetApi w} : Prop := {
  net_new_ok a l : uint w a -> 0 <= l <= w ->
    exists n, net_new a l = Some n /\ net_addr n = a /\ net_prefix_len n = l;
  net_new_err a l : w < l -> net_new a l = None;
  net_eta n : net_new (net_addr n) (net_prefix_len n) = Some n;
  net_addr_range n : uint w (net_addr n);
  net_prefix_len_range n : 0 <= net_prefix_len n <= w;
  net_network_spec n :
    net_network n = net_addr n - net_addr n mod 2 ^ (w - net_prefix_len n);
  net_contains_spec n a :
    net_contains n a = bool_decide
      (net_network n <= a < net_network n + 2 ^ (w - net_prefix_len n));
}.

(** [ipnet::IpNet] and its [Contains<&IpAddr>] implementation. *)
Inductive IpNet {N4 : NetApi 32} {N6 : NetApi 128} : Type :=
| NV4 (n : Net 32)
| NV6 (n : Net 128).

Class IpNetApi : Type := {
  N4 :: NetApi 32;
  N6 :: NetApi 128;
  ipnet_contains : IpNet -> IpAddr -> bool;
}.

Class IpNetLaws {I : IpNetApi} : Prop := {
  L4 :: NetLaws 32;
  L6 :: NetLaws 128;
  ipnet_contains_v4 n a : ipnet_contains (NV4 n) (AV4 a) = net_contains n a;
  ipnet_contains_v6 n a : ipnet_contains (NV6 n) (AV6 a) = net_contains n a;
  ipnet_contains_46 n a : ipnet_contains (NV4 n) (AV6 a) = false;
  ipnet_contains_64 n a : ipnet_contains (NV6 n) (AV4 a) = false;
}.

Section ipnet.
Context {I : IpNetApi}.

#[global] Instance IpNet_eq_dec : EqDecision IpNet.
Proof. solve_decision. Defined.

#[global] Program Instance IpNet_countable : Countable IpNet :=
  inj_countable' (fun a => match a with NV4 z => inl z | NV6 z => inr z end)
                 (fun s => match s with inl z => NV4 z | inr z => NV6 z end) _.
Next Obligation. by intros []. Qed.

Definition ipnet_prefix_len (n : IpNet) : Z :=
  match n with NV4 c => net_prefix_len c | NV6 c => net_prefix_len c end.
End ipnet.

(** Facts every [NetApi] satisfies through its laws. *)
Section net_facts.
Context {w : Z} {N : NetApi w} {L : NetLaws w}.

Lemma net_ext n m :
  net_addr n = net_addr m -> net_prefix_len n = net_prefix_len m -> n = m.
Proof.
  intros Ha Hl. pose proof (net_eta n) as Hn. pose proof (net_eta m) as Hm.
  rewrite Ha, Hl in Hn. congruence.
Qed.

Lemma net_size_pos n : 0 < 2 ^ (w - net_prefix_len n).
Proof. pose proof (net_prefix_len_range n). apply Z.pow_pos_nonneg; lia. Qed.

(** The network address is a multiple of the block size, so the block stays
    inside the address space. *)
Lemma net_network_range n :
  0 <= net_network n /\ net_network n + 2 ^ (w - net_prefix_len n) <= 2 ^ w.
Proof.
  pose proof (net_prefix_len_range n) as Hl. pose proof (net_addr_range n) as [Ha1 Ha2].
  pose proof (net_size_pos n) as Hs. rewrite net_network_spec.
  set (s := 2 ^ (w - net_prefix_len n)) in *.
  assert (Hw : 2 ^ w = s * 2 ^ net_prefix_len n).
  { unfold s. rewrite <-Z.pow_add_r by lia. f_equal. lia. }
  pose proof (Z.pow_pos_nonneg 2 (net_prefix_len n) ltac:(lia) ltac:(lia)) as Hp.
  pose proof (Z.div_mod (net_addr n) s ltac:(lia)) as Hd.
  pose proof (Z.mod_pos_bound (net_addr n) s Hs) as Hm.
  assert (net_addr n / s < 2 ^ net_prefix_len n).
  { apply Z.div_lt_upper_bound; lia. }
  pose proof (Z.div_pos (net_addr n) s Ha1 Hs).
  set (q := net_addr n / s) in *. set (k := 2 ^ net_prefix_len n) in *.
  replace (net_addr n - net_addr n mod s) with (s * q) by lia.
  split; [nia|]. rewrite Hw. nia.
Qed.
End net_facts.

(** A model of [ipnet]'s interface: the address and the prefix length. *)
Definition net_valid (w : Z) (p : Z * Z) : bool :=
  (0 <=? p.1) && (p.1 <? 2 ^ w) && (0 <=? p.2) && (p.2 <=? w).

Definition simple_new (w : Z) (a l : Z) : option { p : Z * Z | Is_true (net_valid w p) } :=
  match decide (Is_true (net_valid w (a, l))) with
  | left H => Some (exist (fun p => Is_true (net_valid w p)) (a, l) H)
  | right _ => None
  end.

Definition simple_net (w : Z) : NetApi w := {|
  Net := { p : Z * Z | Is_true (net_valid w p) };
  net_new := simple_new w;
  net_addr n := (`n).1;
  net_prefix_len n := (`n).2;
  net_network n := (`n).1 - (`n).1 mod 2 ^ (w - (`n).2);
  net_contains n a :=
    let lo := (`n).1 - (`n).1 mod 2 ^ (w - (`n).2) in
    bool_decide (lo <= a < lo + 2 ^ (w - (`n).2));
|}.

Lemma net_valid_spec w p : Is_true (net_valid w p) <-> uint w p.1 /\ 0 <= p.2 <= w.
Proof.
  unfold net_valid, uint. rewrite Is_true_true, !andb_true_iff, !Z.leb_le, Z.ltb_lt. lia.
Qed.

Lemma simple_net_laws w : @NetLaws w (simple_net w).
Proof.
  split; simpl; unfold simple_new.
  - intros a l Ha Hl. case_decide as H; [by eexists|].
    destruct H. by apply (proj2 (net_valid_spec _ _)).
  - intros a l Hl. case_decide as H; [|done].
    pose proof (proj1 (net_valid_spec _ _) H) as [_ H2]. simpl in H2. lia.
  - intros [[a l] H]; simpl. case_decide as H'; [|done]. do 2 f_equal. apply proof_irrel.
  - intros [p H]; simpl. apply (proj1 (net_valid_spec _ _)) in H. tauto.
  - intros [p H]; simpl. apply (proj1 (net_valid_spec _ _)) in H. tauto.
  - done.
  - done.
Qed.

Definition simple_contains (n : @IpNet (simple_net 32) (simple_net 128)) (a : IpAddr) : bool :=
  match n, a with
  | NV4 c, AV4 z => @net_contains 32 (simple_net 32) c z
  | NV6 c, AV6 z => @net_contains 128 (simple_net 128) c z
  | _, _ => false
  end.

Definition simple_ipnet : IpNetApi := {|
  N4 := simple_net 32;
  N6 := simple_net 128;
  ipnet_contains := simple_contains;
|}.

Lemma simple_ipnet_laws : @IpNetLaws simple_ipnet.
Proof. split; try apply simple_net_laws; done. Qed.

(** ** The [bytes] crate: [Buf] and [BufMut] on a [BytesMut]

    A [BytesMut] is the sequence of bytes it holds. [get_uint n] is
    [get_u8/u16/u32/u64/u128] for [n = 1, 2, 4, 8, 16]; [None] is the panic the
    crate documents for a buffer with too few bytes left. *)
Class BufApi : Type := {
  get_uint : nat -> list Z -> option (Z * list Z);
  take_out : nat -> list Z -> list Z * list Z;  (* [d.put(&mut data.take(n))] *)
  put_uint : nat -> Z -> list Z -> list Z;    (* [put_u8/u16/...] *)
  put_slice : list Z -> list Z -> list Z;
}.

Class BufLaws {B : BufApi} : Prop := {
  get_uint_app bs rest :
    get_uint (length bs) (bs ++ rest) = Some (be_val bs, rest);
  get_uint_short n l : (length l < n)%nat -> get_uint n l = None;
  take_out_spec n l : take_out n l = (take n l, drop n l);
  put_uint_spec n v l : put_uint n v l = l ++ be_bytes n v;
  put_slice_spec d l : put_slice d l = l ++ d;
}.

Definition simple_buf : BufApi := {|
  get_uint n l := if (n <=? length l)%nat then Some (be_val (take n l), drop n l) else None;
  take_out n l := (take n l, drop n l);
  put_uint n v l := l ++ be_bytes n v;
  put_slice d l := l ++ d;
|}.

Lemma simple_buf_laws : @BufLaws simple_buf.
Proof.
  split; simpl; try done.
  - intros bs rest. rewrite length_app.
    destruct (Nat.leb_spec (length bs) (length bs + length rest)); [|lia].
    by rewrite take_app_length, drop_app_length.
  - intros n l H. by destruct (Nat.leb_spec n (length l)); [lia|].
Qed.

(** The buffer operations as actions on the buffer. *)
Section buf.
Context {B : BufApi} {E : Type}.

Definition get_u (n : nat) : M (list Z) E Z := fun l =>
  match get_uint n l with Some (v, l') => (Ok v, l') | None => (Panic, l) end.

Definition remaining : M (list Z) E Z := fun l => (Ok (Z.of_nat (length l)), l).

Definition put_u (n : nat) (v : Z) : M (list Z) E unit := fun l => (Ok tt, put_uint n v l).

Definition put_bytes (d : list Z) : M (list Z) E unit := fun l => (Ok tt, put_slice d l).

Definition take_bytes (n : Z) : M (list Z) E (list Z) := fun l =>
  let '(d, l') := take_out (Z.to_nat n) l in (Ok d, l').
End buf.

Section buf_facts.
Context {B : BufApi} {L : BufLaws} {E : Type}.

Lemma get_u_app bs rest n :
  length bs = n -> get_u (E:=E) n (bs ++ rest) = (Ok (be_val bs), rest).
Proof. intros <-. unfold get_u. by rewrite get_uint_app. Qed.

Lemma get_u_be n v rest : uint (8 * Z.of_nat n) v ->
  get_u (E:=E) n (be_bytes n v ++ rest) = (Ok v, rest).
Proof.
  intros Hv. rewrite get_u_app by apply length_be_bytes. by rewrite be_val_bytes_small.
Qed.

Lemma get_u_short n l : (length l < n)%nat -> get_u (E:=E) n l = (Panic, l).
Proof. intros H. unfold get_u. by rewrite get_uint_short. Qed.

(** A read either panics on a short buffer or consumes exactly [n] bytes. *)
Lemma get_u_case n l :
  ((length l < n)%nat /\ get_u (E:=E) n l = (Panic, l)) \/
  ((n <= length l)%nat /\ get_u (E:=E) n l = (Ok (be_val (take n l)), drop n l)).
Proof.
  destruct (decide (length l < n)%nat) as [H|H]; [left; auto using get_u_short|right].
  split; [lia|]. rewrite <-(take_drop n l) at 1. apply get_u_app. rewrite length_take. lia.
Qed.

Lemma take_bytes_app d rest :
  take_bytes (E:=E) (Z.of_nat (length d)) (d ++ rest) = (Ok d, rest).
Proof.
  unfold take_bytes. rewrite take_out_spec.
  by rewrite Nat2Z.id, take_app_length, drop_app_length.
Qed.

Lemma bind_remaining {A} (f : Z -> M (list Z) E A) l :
  (remaining ≫= f) l = f (Z.of_nat (length l)) l.
Proof. done. Qed.

Lemma put_u_spec n v l : put_u (E:=E) n v l = (Ok tt, l ++ be_bytes n v).
Proof. unfold put_u. by rewrite put_uint_spec. Qed.

Lemma put_bytes_spec d l : put_bytes (E:=E) d l = (Ok tt, l ++ d).
Proof. unfold put_bytes. by rewrite put_slice_spec. Qed.
End buf_facts.

(** ** Loops over a buffer

    [while cond { body }] where the body reads from the buffer. The fuel is one
    more than the bytes in the buffer; [while_acc_unfold] shows that it is enough
    when every round that returns has consumed a byte. *)
Fixpoint while_fuel {E A} (fuel : nat) (cond : A -> M (list Z) E bool)
    (body : A -> M (list Z) E A) (acc : A) : M (list Z) E A :=
  match fuel with
  | O => panic
  | S k => cond acc ≫= fun b : bool =>
      if b then acc' ← body acc; while_fuel k cond body acc' else mret acc
  end.

(** The condition may depend on the variables [acc] the loop updates. *)
Definition while_acc {E A} (cond : A -> M (list Z) E bool) (body : A -> M (list Z) E A) (acc : A) :
    M (list Z) E A := fun l => while_fuel (S (length l)) cond body acc l.

Definition while {E A} (cond : M (list Z) E bool) (body : A -> M (list Z) E A) (acc : A) :
    M (list Z) E A := while_acc (fun _ => cond) body acc.

(** A condition looks at the buffer without changing it. *)
Definition pure_cond {E} (cond : M (list Z) E bool) : Prop :=
  forall l : list Z, (cond l).2 = l.

(** A round that returns has consumed a byte. *)
Definition consumes {E A} (m : M (list Z) E A) : Prop :=
  forall (l : list Z) a l', m l = (Ok a, l') -> (length l' < length l)%nat.

Definition shrinks {E A} (m : M (list Z) E A) : Prop :=
  forall (l : list Z) a l', m l = (Ok a, l') -> (length l' <= length l)%nat.

Section loops.
Context {E A : Type} (cond : A -> M (list Z) E bool) (body : A -> M (list Z) E A).
Hypothesis Hcond : forall acc, pure_cond (cond acc).
Hypothesis Hbody : forall acc, consumes (body acc).

Lemma while_fuel_enough k1 k2 acc l : (length l < k1)%nat -> (length l < k2)%nat ->
  while_fuel k1 cond body acc l = while_fuel k2 cond body acc l.
Proof.
  revert k2 acc l. induction k1 as [|k1 IH]; intros [|k2] acc l H1 H2; try lia. simpl.
  mred. pose proof (Hcond acc l) as Hc. destruct (cond acc l) as [[[]|e|] l0]; simpl in Hc; subst; try done.
  destruct (body acc l) as [[a|e|] l'] eqn:Hb; try done.
  apply Hbody in Hb. apply IH; lia.
Qed.

Lemma while_acc_unfold acc l :
  while_acc cond body acc l =
  (cond acc ≫= fun b : bool => if b then acc' ← body acc; while_acc cond body acc' else mret acc) l.
Proof.
  unfold while_acc at 1. cbn [while_fuel]. mred.
  pose proof (Hcond acc l) as Hc. destruct (cond acc l) as [[[]|e|] l0]; simpl in Hc; subst; try done.
  destruct (body acc l) as [[a|e|] l'] eqn:Hb; try done.
  apply Hbody in Hb. unfold while_acc. apply while_fuel_enough; lia.
Qed.
End loops.

(** A loop without fuel: [rounds cond body n acc l out] says that it ends with
    [out] after [n] rounds. *)
Inductive rounds {E A} (cond : A -> M (list Z) E bool) (body : A -> M (list Z) E A) :
    nat -> A -> list Z -> res E A * list Z -> Prop :=
| rounds_stop acc l l1 : cond acc l = (Ok false, l1) -> rounds cond body 0 acc l (Ok acc, l1)
| rounds_cond_err acc l e l1 : cond acc l = (Err e, l1) -> rounds cond body 0 acc l (Err e, l1)
| rounds_cond_panic acc l l1 : cond acc l = (Panic, l1) -> rounds cond body 0 acc l (Panic, l1)
| rounds_err acc l l1 e l2 : cond acc l = (Ok true, l1) -> body acc l1 = (Err e, l2) ->
    rounds cond body 0 acc l (Err e, l2)
| rounds_panic acc l l1 l2 : cond acc l = (Ok true, l1) -> body acc l1 = (Panic, l2) ->
    rounds cond body 0 acc l (Panic, l2)
| rounds_next n acc l l1 acc' l2 out : cond acc l = (Ok true, l1) -> body acc l1 = (Ok acc', l2) ->
    rounds cond body n acc' l2 out -> rounds cond body (S n) acc l out.

(** A round that returns has consumed [k] bytes. *)
Definition consumes_at_least {E A} (k : nat) (m : M (list Z) E A) : Prop :=
  forall (l : list Z) a l', m l = (Ok a, l') -> (k + length l' <= length l)%nat.

(** The loop ends, with at most one round for every [k] bytes, and the fuel it was
    given does not show in its result. *)
Definition ends {E A} (k : nat) (cond : A -> M (list Z) E bool) (body : A -> M (list Z) E A) : Prop :=
  forall acc l, exists n, (n * k <= length l)%nat /\ rounds cond body n acc l (while_acc cond body acc l).

Lemma loop_ends {E A} k cond (body : A -> M (list Z) E A) : (0 < k)%nat ->
  (forall acc, pure_cond (cond acc)) -> (forall acc, consumes_at_least k (body acc)) -> ends k cond body.
Proof.
  intros Hk Hc Hb. assert (Hb1 : forall acc, consumes (body acc)).
  { intros acc l a l' H%Hb. lia. }
  intros acc l. remember (length l) as len eqn:Hlen. revert acc l Hlen. induction (lt_wf len) as [len _ IH].
  intros acc l ->. rewrite while_acc_unfold by done. mred. pose proof (Hc acc l) as Hl.
  destruct (cond acc l) as [[[]|e|] l1] eqn:Hcl; simpl in Hl; subst l1;
    [|exists 0%nat; split; [lia|by constructor]..].
  destruct (body acc l) as [[acc'|e|] l2] eqn:Hbl; [|exists 0%nat; split; [lia|by econstructor]..].
  pose proof (Hb _ _ _ _ Hbl) as Hle. destruct (IH (length l2) ltac:(lia) acc' l2 eq_refl) as (n & Hn & Hr).
  exists (S n). split; [lia|]. by econstructor.
Qed.

Lemma while_unfold {E A} cond (body : A -> M (list Z) E A) acc l :
  pure_cond cond -> (forall acc, consumes (body acc)) ->
  while cond body acc l =
  (cond ≫= fun b : bool => if b then acc' ← body acc; while cond body acc' else mret acc) l.
Proof. intros Hc Hb. unfold while at 1. by rewrite while_acc_unfold. Qed.

Section consume_facts.
Context {B : BufApi} {L : BufLaws} {E : Type}.

Lemma get_u_consumes n : (0 < n)%nat -> consumes (get_u (E:=E) n).
Proof.
  intros Hn l a l' H. destruct (get_u_case (E:=E) n l) as [[? Hg]|[? Hg]]; rewrite Hg in H; simplify_eq.
  rewrite length_drop. lia.
Qed.

Lemma get_u_takes n : consumes_at_least n (get_u (E:=E) n).
Proof.
  intros l a l' H. destruct (get_u_case (E:=E) n l) as [[? Hg]|[? Hg]]; rewrite Hg in H; simplify_eq.
  rewrite length_drop. lia.
Qed.

Lemma consumes_one {A} (m : M (list Z) E A) : consumes m -> consumes_at_least 1 m.
Proof. intros H l a l' Hm%H. lia. Qed.

Lemma bind_consumes_l {A C} (m : M (list Z) E A) (f : A -> M (list Z) E C) :
  consumes m -> (forall a, shrinks (f a)) -> consumes (m ≫= f).
Proof.
  intros Hm Hf l c l' (a & l1 & H1 & H2)%bind_inv_ok.
  apply Hm in H1. apply Hf in H2. lia.
Qed.

Lemma bind_shrinks {A C} (m : M (list Z) E A) (f : A -> M (list Z) E C) :
  shrinks m -> (forall a, shrinks (f a)) -> shrinks (m ≫= f).
Proof.
  intros Hm Hf l c l' (a & l1 & H1 & H2)%bind_inv_ok.
  apply Hm in H1. apply Hf in H2. lia.
Qed.

Lemma consumes_shrinks {A} (m : M (list Z) E A) : consumes m -> shrinks m.
Proof. intros H l a l' Hm%H. lia. Qed.

Lemma get_u_shrinks n : shrinks (get_u (E:=E) n).
Proof.
  intros l a l' H. destruct (get_u_case (E:=E) n l) as [[? Hg]|[? Hg]]; rewrite Hg in H; simplify_eq.
  rewrite length_drop. lia.
Qed.

Lemma ret_shrinks {A} (a : A) : shrinks (mret a : M (list Z) E A).
Proof. intros l a' l' H. injection H as <- <-. lia. Qed.

Lemma lift_shrinks {A} (r : res E A) : shrinks (lift r : M (list Z) E A).
Proof. intros l a l' H. injection H as _ <-. lia. Qed.

Lemma throw_shrinks {A} (e : E) : shrinks (throw e : M (list Z) E A).
Proof. intros l a l' H. done. Qed.

Lemma panic_shrinks {A} : shrinks (panic : M (list Z) E A).
Proof. intros l a l' H. done. Qed.

Lemma remaining_shrinks : shrinks (remaining (E:=E)).
Proof. intros l a l' H. injection H as _ <-. lia. Qed.

Lemma take_bytes_shrinks n : shrinks (take_bytes (E:=E) n).
Proof.
  intros l a l'. unfold take_bytes. rewrite take_out_spec. intros [= _ <-].
  rewrite length_drop. lia.
Qed.

Lemma map_err_shrinks {E' A} (g : E' -> E) (m : M (list Z) E' A) : shrinks m -> shrinks (map_err g m).
Proof.
  intros Hm l a l'. unfold map_err. specialize (Hm l).
  destruct (m l) as [[]?]; intros [=]; subst; eauto.
Qed.

Lemma while_fuel_shrinks {A} k cond (body : A -> M (list Z) E A) acc :
  (forall acc, pure_cond (cond acc)) -> (forall acc, shrinks (body acc)) ->
  shrinks (while_fuel k cond body acc).
Proof.
  intros Hc Hb. revert acc. induction k as [|k IH]; intros acc; [apply panic_shrinks|].
  apply bind_shrinks.
  - intros l a l' H. specialize (Hc acc l). rewrite H in Hc. simpl in Hc. subst. lia.
  - intros []; [|apply ret_shrinks]. apply bind_shrinks; auto.
Qed.

Lemma while_acc_shrinks {A} cond (body : A -> M (list Z) E A) acc :
  (forall acc, pure_cond (cond acc)) -> (forall acc, shrinks (body acc)) ->
  shrinks (while_acc cond body acc).
Proof. intros Hc Hb l a l'. by apply while_fuel_shrinks. Qed.

Lemma while_shrinks {A} cond (body : A -> M (list Z) E A) acc :
  pure_cond cond -> (forall acc, shrinks (body acc)) -> shrinks (while cond body acc).
Proof. intros Hc Hb. by apply while_acc_shrinks. Qed.
End consume_facts.

(** [data.remaining() > remain - length], the guard of the loops that read a
    region of [length] bytes of a buffer that had [remain] bytes. *)
Definition more {P : Profile} {E} (remain length : Z) : M (list Z) E bool :=
  r ← remaining;
  d ← lift (ovf 64 (remain - length));
  mret (bool_decide (d < r)).

Lemma more_pure {P : Profile} {E} remain len : pure_cond (more (E:=E) remain len).
Proof. intros l. unfold more, remaining. mred. by destruct (ovf _ _). Qed.

Lemma more_run {P : Profile} {E} remain len l : uint 64 (remain - len) ->
  more (E:=E) remain len l = (Ok (bool_decide (remain - len < Z.of_nat (length l))), l).
Proof. intros H. unfold more, remaining. mred. by rewrite ovf_small. Qed.

(** A loop that reads a list of items off the front of the buffer. *)
Section read_list.
Context {P : Profile} {E A : Type} (enc : A -> list Z) (wf : A -> Prop).
Context (body : list A -> M (list Z) E (list A)).
Hypothesis Henc : forall x, wf x -> enc x <> [].
Hypothesis Hcons : forall acc, consumes (body acc).

Lemma while_list_gen cond N xs acc rest :
  (forall x acc (l : list Z), wf x -> (length l <= N)%nat ->
     body acc (enc x ++ l) = (Ok (acc ++ [x]), l)) ->
  pure_cond cond ->
  (forall l : list Z, (length l <= N)%nat ->
     cond l = (Ok (bool_decide (length rest < length l)%nat), l)) ->
  Forall wf xs -> (length (flat_map enc xs ++ rest) <= N)%nat ->
  while cond body acc (flat_map enc xs ++ rest) = (Ok (acc ++ xs), rest).
Proof.
  intros Hbody Hpure Hcond Hxs. revert acc. induction Hxs as [|x xs Hx Hxs IH]; intros acc HN;
    rewrite while_unfold by auto; rewrite (bind_ok _ _ _ _ _ (Hcond _ HN)); cbn [flat_map] in *.
  - rewrite bool_decide_eq_false_2 by (simpl; lia). by rewrite app_nil_r.
  - rewrite <-app_assoc in *. rewrite length_app in HN. rewrite bool_decide_eq_true_2.
    2:{ rewrite length_app. specialize (Henc _ Hx).
        destruct (enc x); [done|]. rewrite length_app. simpl. lia. }
    rewrite (bind_ok _ _ _ (acc ++ [x]) (flat_map enc xs ++ rest)) by (apply Hbody; [done|lia]).
    rewrite IH by lia. by rewrite <-app_assoc.
Qed.

Lemma while_list remain len xs acc rest :
  (forall x acc (l : list Z), wf x -> body acc (enc x ++ l) = (Ok (acc ++ [x]), l)) ->
  Forall wf xs -> remain - len = Z.of_nat (length rest) -> uint 64 (remain - len) ->
  while (more remain len) body acc (flat_map enc xs ++ rest) = (Ok (acc ++ xs), rest).
Proof.
  intros Hb Hxs Hr Hu. eapply while_list_gen; auto using more_pure. intros l _.
  rewrite (more_run _ _ _ Hu), Hr. do 2 f_equal. apply bool_decide_ext. lia.
Qed.
End read_list.

(** ** Sequences of items on the wire *)

Lemma length_flat_map_const {A} (f : A -> list Z) n l :
  (forall x, length (f x) = n) -> length (flat_map f l) = (length l * n)%nat.
Proof. intros Hf. induction l; simpl; [done|]. rewrite length_app, Hf. lia. Qed.

Section wire_lists.
Context {E : Type}.

Lemma for_each_put {A} (f : A -> M (list Z) E unit) (enc : A -> list Z) l dst :
  (forall x d, f x d = (Ok tt, d ++ enc x)) -> for_each f l dst = (Ok tt, dst ++ flat_map enc l).
Proof.
  intros Hf. revert dst. induction l as [|x l IH]; intros dst; simpl.
  - by rewrite app_nil_r.
  - rewrite (bind_ok _ _ _ _ _ (Hf x dst)), IH. by rewrite app_assoc.
Qed.

(** [for _ in 0..n { v.push(read()) }] *)
Lemma for_collect_read {A} (m : M (list Z) E A) (enc : A -> list Z) (wf : A -> Prop) xs rest :
  (forall x l, wf x -> m (enc x ++ l) = (Ok x, l)) -> Forall wf xs -> forall k,
  for_collect (fun _ => m) (seqZ k (Z.of_nat (length xs))) (flat_map enc xs ++ rest) = (Ok xs, rest).
Proof.
  intros Hm Hxs. induction Hxs as [|x xs Hx Hxs IH]; intros k; [done|].
  cbn [length flat_map]. rewrite seqZ_cons by lia. cbn [for_collect].
  rewrite <-app_assoc. rewrite (bind_ok _ _ _ _ _ (Hm _ _ Hx)).
  replace (Z.pred (Z.of_nat (S (length xs)))) with (Z.of_nat (length xs)) by lia.
  by rewrite (bind_ok _ _ _ _ _ (IH _)).
Qed.

Lemma for_collect_shrinks {A C} (f : C -> M (list Z) E A) l :
  (forall x, shrinks (f x)) -> shrinks (for_collect f l).
Proof.
  intros Hf. induction l as [|x l IH]; simpl; [apply ret_shrinks|].
  apply bind_shrinks; [done|intros y]. apply bind_shrinks; [done|intros ys]. apply ret_shrinks.
Qed.
End wire_lists.

(** The reading actions never give bytes back. *)
Create HintDb buf.
#[export] Hint Resolve get_u_shrinks ret_shrinks lift_shrinks throw_shrinks
  panic_shrinks remaining_shrinks take_bytes_shrinks map_err_shrinks : buf.

Ltac shrink := repeat first
  [ assumption | solve [auto 3 with buf typeclass_instances] | apply bind_shrinks; [|intros ?] | apply get_u_shrinks | apply ret_shrinks
  | apply lift_shrinks | apply throw_shrinks | apply panic_shrinks | apply remaining_shrinks
  | apply take_bytes_shrinks | apply map_err_shrinks | apply for_collect_shrinks; intros ? | case_match ].

(** Range side conditions. *)
Ltac solve_uint :=
  try match goal with
  | |- uint (8 * Z.of_nat ?n) _ =>
      let w := eval vm_compute in (8 * Z.of_nat n) in change (8 * Z.of_nat n) with w
  end;
  first [ assumption | solve [eauto with sart] | unfold uint, is_byte in *; lia ].

(** One step of a reader on a buffer that starts with the bytes of a known value. *)
Ltac rd := erewrite bind_ok by (apply get_u_be; solve_uint); cbv beta.

(** One step of a writer. *)
Ltac wr := erewrite bind_ok by first [apply put_u_spec | apply put_bytes_spec]; cbv beta.
