(* ===== verification/NetText.v ===== *)
(** * Texts

    [to_string] and [parse] of [IpAddr] and of the [ipnet] crate's [IpNet] are an
    interface, [TextApi], with their documented laws and an instance; [split] and
    [join] at commas, with which lists of names and addresses are kept in the
    annotations of Kubernetes objects, are the standard library's. *)

From Stdlib Require Import Ascii.
From S2P Require Import Prelude.
From S2P Require Import Net.

(** ** Lists in a text *)

(** [s.split(d)]: the pieces between the delimiters, one more than there are
    delimiters. *)
Fixpoint split_on (d : ascii) (s : string) : list string :=
  match s with
  | "" => [""]
  | String c s' =>
      if (c =? d)%char then "" :: split_on d s'
      else match split_on d s' with
           | p :: ps => String c p :: ps
           | [] => [String c ""]
           end
  end%string.

(** [l.join(d)] *)
Fixpoint join_on (d : ascii) (l : list string) : string :=
  match l with
  | [] => ""
  | [p] => p
  | p :: ps => p +:+ String d (join_on d ps)
  end%string.

(** The text has no [d] in it. *)
Fixpoint free_of (d : ascii) (s : string) : Prop :=
  match s with
  | "" => True
  | String c s' => (c =? d)%char = false /\ free_of d s'
  end%string.

#[global] Instance free_of_dec d s : Decision (free_of d s).
Proof. induction s as [|c s IH]; cbn; apply _. Defined.

#[local] Arguments Ascii.eqb : simpl never.

Section split.
Context (d : ascii).

Lemma split_on_free p : free_of d p -> split_on d p = [p].
Proof. induction p as [|c p IH]; [done|]. intros [Hc Hp]. cbn. by rewrite Hc, (IH Hp). Qed.

Lemma split_on_app p s : free_of d p -> split_on d (p +:+ String d s) = p :: split_on d s.
Proof.
  induction p as [|c p IH]; [intros _|intros [Hc Hp]].
  - change ("" +:+ String d s) with (String d s). cbn. by rewrite Ascii.eqb_refl.
  - change (String c p +:+ String d s) with (String c (p +:+ String d s)).
    cbn [split_on]. by rewrite Hc, (IH Hp).
Qed.

(** A list that is written into a text is read back, unless it is empty: the
    empty text is a list of one empty text. *)
Lemma split_join_on l : Forall (free_of d) l ->
  split_on d (join_on d l) = match l with [] => [""%string] | _ => l end.
Proof.
  induction 1 as [|p ps Hp _ IH]; [done|]. destruct ps as [|q ps].
  - by apply split_on_free.
  - change (join_on d (p :: q :: ps)) with (p +:+ String d (join_on d (q :: ps))).
    by rewrite split_on_app, IH.
Qed.

Lemma free_of_app s t : free_of d s -> free_of d t -> free_of d (s +:+ t).
Proof. induction s as [|c s IH]; [done|]. intros [Hc Hs] Ht. split; [done|]. by apply IH. Qed.
End split.

(** Lists at commas *)
Abbreviation split_comma := (split_on ","%char).
Abbreviation join_comma := (join_on ","%char).
Abbreviation comma_free := (free_of ","%char).

(** ** Addresses as text *)

Class TextApi {I : IpNetApi} : Type := {
  show_addr : IpAddr -> string;
  parse_addr : string -> option IpAddr;
  show_net : IpNet -> string;
  parse_net : string -> option IpNet;
}.

Class TextLaws {I : IpNetApi} {T : TextApi} : Prop := {
  parse_show_addr a : parse_addr (show_addr a) = Some a;
  parse_show_net n : parse_net (show_net n) = Some n;
  parse_addr_empty : parse_addr "" = None;
  show_addr_no_comma a : comma_free (show_addr a);
}.

(** A text form that satisfies the laws: the bits of the encoding. *)
Fixpoint bits_text (p : positive) : string :=
  match p with
  | xH => "."
  | xO p => String "0"%char (bits_text p)
  | xI p => String "1"%char (bits_text p)
  end%string.

Fixpoint text_bits (s : string) : option positive :=
  match s with
  | "" => None
  | String "0"%char s => xO <$> text_bits s
  | String "1"%char s => xI <$> text_bits s
  | String _ s => Some xH
  end%string.

Lemma text_bits_text p : text_bits (bits_text p) = Some p.
Proof. induction p as [p IH|p IH|]; simpl; [by rewrite IH..|done]. Qed.

Definition simple_text {I : IpNetApi} : TextApi := {|
  show_addr a := bits_text (encode a);
  parse_addr s := text_bits s ≫= decode;
  show_net n := bits_text (encode n);
  parse_net s := text_bits s ≫= decode;
|}.

Lemma bits_comma_free p : comma_free (bits_text p).
Proof. by induction p. Qed.

Lemma simple_text_laws {I : IpNetApi} : @TextLaws I simple_text.
Proof.
  split; [intros x; cbn; by rewrite text_bits_text; cbn; rewrite decode_encode..|done|].
  intros a. apply bits_comma_free.
Qed.

(** The addresses of a comma separated list; what is not an address is passed over. *)
Definition read_addrs {I : IpNetApi} {T : TextApi} (s : string) : list IpAddr :=
  omap parse_addr (split_comma s).

Definition write_addrs {I : IpNetApi} {T : TextApi} (l : list IpAddr) : string :=
  join_comma (show_addr <$> l).

Lemma omap_parse_show {I : IpNetApi} {T : TextApi} {TL : TextLaws} (l : list IpAddr) : omap parse_addr (show_addr <$> l) = l.
Proof. induction l as [|a l IH]; [done|]. cbn. by rewrite parse_show_addr, IH. Qed.

Lemma read_write_addrs {I : IpNetApi} {T : TextApi} {TL : TextLaws} l : read_addrs (write_addrs l) = l.
Proof.
  unfold read_addrs, write_addrs. rewrite split_join_on.
  - destruct l as [|a l]; [cbn; by rewrite parse_addr_empty|]. apply (omap_parse_show (a :: l)).
  - rewrite Forall_fmap. apply Forall_forall. intros a _. apply show_addr_no_comma.
Qed.
