(* ===== verification/IpamBitset.v ===== *)
(** * The allocation bit set ([sartd/src/ipam/src/bitset.rs])

    [BitSet] keeps [size] bits in a vector of 128-bit words. The operations
    below are the methods of the source; a method that indexes [inner] out of
    range panics. [mem] is the abstraction: the bit at an index. *)

From S2P Require Import Prelude.

Module BitSet.

Inductive BitSetError : Type :=
| InvalidIndex
| Full
| AlreadySet.

#[global] Instance BitSetError_eq_dec : EqDecision BitSetError.
Proof. solve_decision. Defined.

Record BitSet : Type := mkBitSet {
  inner : list Z;
  size : Z;
}.

Definition new (size : Z) : BitSet :=
  let l := size / 128 + (if 0 <? size mod 128 then 1 else 0) in
  mkBitSet (replicate (Z.to_nat (wrap 64 l)) 0) size.

Definition get_inner_index (index : Z) : Z * Z :=
  (wrap 64 index / 128, wrap 64 index mod 128).
Arguments get_inner_index : simpl never.

Definition is_set (b : BitSet) (index : Z) : res BitSetError bool :=
  if size b <? index then Ok false
  else
    let '(v, i) := get_inner_index index in
    let a := Z.shiftl 1 i in
    w ← vec_get (inner b) v;
    mret (negb (Z.land w a =? 0)).

Definition set (index : Z) (value : bool) : M BitSet BitSetError Z :=
  b ← get_st;
  if size b <? index then throw InvalidIndex
  else
    let '(v, n) := get_inner_index index in
    w ← lift (vec_get (inner b) v);
    let w' := match value with
              | true => Z.lor w (Z.shiftl 1 n)
              | false => Z.land w (wrap 128 (Z.lnot (Z.shiftl 1 n)))
              end in
    put_st (mkBitSet (<[Z.to_nat v := w']> (inner b)) (size b)) ;;
    mret index.

Definition set_true (index : Z) : M BitSet BitSetError Z :=
  b ← get_st;
  s ← lift (is_set b index);
  if (s : bool) then throw AlreadySet else set index true.

(** The inner loop of [get_min_unset_index]: [cnt] iterations left, at bit [i]. *)
Fixpoint scan_word (cnt : nat) (i b : Z) : option Z :=
  match cnt with
  | O => None
  | S cnt' => if b mod 2 =? 0 then Some i else scan_word cnt' (i + 1) (Z.shiftr b 1)
  end.

(** The outer loop, over the words from index [n]. *)
Fixpoint scan_words (max_vec_idx max_idx n : Z) (ws : list Z) : option Z :=
  match ws with
  | [] => None
  | v :: ws' =>
      let idx := if max_vec_idx =? n then max_idx else 128 in
      match scan_word (Z.to_nat idx) 0 v with
      | Some i => Some (n * 128 + i)
      | None => scan_words max_vec_idx max_idx (n + 1) ws'
      end
  end.

Definition get_min_unset_index (b : BitSet) : res BitSetError Z :=
  let '(max_vec_idx, max_idx) := get_inner_index (size b) in
  match scan_words max_vec_idx max_idx 0 (inner b) with
  | Some i => Ok i
  | None => Err Full
  end.

Definition set_next : M BitSet BitSetError Z :=
  b ← get_st;
  index ← lift (get_min_unset_index b);
  set index true.

Definition clear_all (b : BitSet) : BitSet :=
  mkBitSet (replicate (length (inner b)) 0) (size b).

(** [self.inner.iter().sum::<u128>() == 0] *)
Definition add_word {P : Profile} (acc : res BitSetError Z) (w : Z) : res BitSetError Z :=
  a ← acc; ovf 128 (a + w).

Definition sum_words {P : Profile} (ws : list Z) : res BitSetError Z :=
  foldl add_word (Ok 0) ws.

Definition is_empty {P : Profile} (b : BitSet) : res BitSetError bool :=
  s ← sum_words (inner b); mret (s =? 0).

Definition is_full (b : BitSet) : bool :=
  match get_min_unset_index b with Ok _ => false | _ => true end.

(** ** Abstraction and invariant *)

(** The bit the set holds at [i]. *)
Definition mem (b : BitSet) (i : Z) : bool :=
  match inner b !! Z.to_nat (i / 128) with
  | Some w => Z.testbit w (i mod 128)
  | None => false
  end.

Definition words_for (n : Z) : Z := n / 128 + (if 0 <? n mod 128 then 1 else 0).

Record wf (b : BitSet) : Prop := {
  wf_size : 0 <= size b < 2 ^ 64;
  wf_length : Z.of_nat (length (inner b)) = words_for (size b);
  wf_words : Forall (uint 128) (inner b);
}.

Lemma wf_alt b : wf b <-> 0 <= size b < 2 ^ 64 /\
  Z.of_nat (length (inner b)) = words_for (size b) /\ Forall (uint 128) (inner b).
Proof. split; [by intros [] | by intros (?&?&?)]. Qed.

#[global] Instance wf_dec b : Decision (wf b).
Proof.
  destruct (decide (0 <= size b < 2 ^ 64 /\
    Z.of_nat (length (inner b)) = words_for (size b) /\ Forall (uint 128) (inner b)))
    as [H|H]; [left|right]; by rewrite wf_alt.
Defined.

(** ** Arithmetic of word and bit positions *)

Lemma words_for_bound n i : 0 <= i < n -> i / 128 < words_for n.
Proof.
  intros H. unfold words_for. pose proof (Z.div_mod n 128 ltac:(lia)).
  pose proof (Z.mod_pos_bound n 128 ltac:(lia)). pose proof (Z.div_mod i 128 ltac:(lia)).
  pose proof (Z.mod_pos_bound i 128 ltac:(lia)). zcase; nia.
Qed.

Lemma words_for_nonneg n : 0 <= n -> 0 <= words_for n.
Proof. intros H. unfold words_for. pose proof (Z.div_pos n 128). zcase; lia. Qed.

Lemma get_inner_index_small i : uint 64 i -> get_inner_index i = (i / 128, i mod 128).
Proof. intros H. unfold get_inner_index. by rewrite wrap_small. Qed.

Lemma testbit_land_pow w i : 0 <= i -> negb (Z.land w (Z.shiftl 1 i) =? 0) = Z.testbit w i.
Proof.
  intros Hi. rewrite Z.shiftl_1_l. destruct (Z.testbit w i) eqn:E.
  - apply negb_true_iff, Z.eqb_neq. intros H0.
    apply (f_equal (fun z => Z.testbit z i)) in H0.
    by rewrite Z.land_spec, Z.pow2_bits_true, E, Z.bits_0 in H0 by done.
  - apply negb_false_iff, Z.eqb_eq. apply Z.bits_inj'. intros k Hk.
    rewrite Z.land_spec, Z.bits_0, Z.pow2_bits_eqb by done.
    destruct (Z.eqb_spec i k) as [->|]; [by rewrite E|by rewrite andb_false_r].
Qed.

Lemma testbit_high w k : uint 128 w -> 128 <= k -> Z.testbit w k = false.
Proof.
  intros [H1 H2] Hk. destruct (Z.eq_dec w 0) as [->|]; [apply Z.bits_0|].
  apply Z.bits_above_log2; [done|]. apply Z.log2_lt_pow2; [lia|].
  eapply Z.lt_le_trans; [exact H2|]. apply Z.pow_le_mono_r; lia.
Qed.

Lemma uint128_testbit w : (forall k, 128 <= k -> Z.testbit w k = false) -> 0 <= w -> uint 128 w.
Proof.
  intros H Hw. split; [done|]. destruct (Z.eq_dec w 0) as [->|]; [done|].
  apply Z.log2_lt_pow2; [lia|]. destruct (Z.lt_ge_cases (Z.log2 w) 128) as [|Hge]; [done|].
  specialize (H _ Hge). rewrite Z.bit_log2 in H by lia. done.
Qed.

Lemma lor_bit_uint w n : uint 128 w -> 0 <= n < 128 -> uint 128 (Z.lor w (Z.shiftl 1 n)).
Proof.
  intros Hw Hn. rewrite Z.shiftl_1_l. apply uint128_testbit.
  - intros k Hk. rewrite Z.lor_spec, testbit_high, Z.pow2_bits_false by (done || lia). done.
  - apply Z.lor_nonneg. destruct Hw. split; [done|]. apply Z.pow_nonneg. lia.
Qed.

Lemma land_clear_uint w m : uint 128 w -> 0 <= m -> uint 128 (Z.land w m).
Proof.
  intros Hw Hm. apply uint128_testbit.
  - intros k Hk. by rewrite Z.land_spec, testbit_high.
  - apply Z.land_nonneg. by right.
Qed.

Lemma lor_bit_spec w n k : 0 <= n -> 0 <= k ->
  Z.testbit (Z.lor w (Z.shiftl 1 n)) k = (k =? n) || Z.testbit w k.
Proof.
  intros Hn Hk. rewrite Z.shiftl_1_l, Z.lor_spec, Z.pow2_bits_eqb by done.
  by rewrite Z.eqb_sym, orb_comm.
Qed.

Lemma clear_bit_spec w n k : uint 128 w -> 0 <= n < 128 -> 0 <= k ->
  Z.testbit (Z.land w (wrap 128 (Z.lnot (Z.shiftl 1 n)))) k = negb (k =? n) && Z.testbit w k.
Proof.
  intros Hw Hn Hk. unfold wrap. rewrite Z.land_spec, Z.shiftl_1_l.
  destruct (Z.lt_ge_cases k 128) as [Hlt|Hge].
  - rewrite Z.mod_pow2_bits_low, Z.lnot_spec, Z.pow2_bits_eqb by lia.
    by rewrite (Z.eqb_sym n k), andb_comm.
  - rewrite testbit_high by done. by rewrite andb_false_r.
Qed.

(** ** Reading and writing one bit *)

Lemma mem_lookup b i w : inner b !! Z.to_nat (i / 128) = Some w -> mem b i = Z.testbit w (i mod 128).
Proof. intros H. unfold mem. by rewrite H. Qed.

Lemma mem_pos b k i w : inner b !! k = Some w -> 0 <= i < 128 ->
  mem b (Z.of_nat k * 128 + i) = Z.testbit w i.
Proof.
  intros Hw Hi. rewrite (mem_lookup _ _ w).
  - by rewrite Z.add_comm, Z.mod_add, Z.mod_small by lia.
  - by rewrite Z.div_add_l, Z.div_small, Z.add_0_r, Nat2Z.id by lia.
Qed.

Lemma word_at b i : wf b -> 0 <= i < size b ->
  exists w, inner b !! Z.to_nat (i / 128) = Some w /\ uint 128 w.
Proof.
  intros [Hs Hl Hw] Hi. pose proof (words_for_bound _ _ Hi). pose proof (Z.div_pos i 128).
  destruct (lookup_lt_is_Some_2 (inner b) (Z.to_nat (i / 128))) as [w Hw']; [lia|].
  exists w. split; [done|]. eapply Forall_lookup_1; eauto.
Qed.

Lemma is_set_mem b i : wf b -> 0 <= i < size b -> is_set b i = Ok (mem b i).
Proof.
  intros Hwf Hi. destruct (word_at b i Hwf Hi) as (w & Hw & _).
  unfold is_set. destruct (Z.ltb_spec (size b) i); [lia|].
  rewrite get_inner_index_small by (unfold uint; destruct Hwf; lia).
  rewrite (vec_get_some _ _ _ Hw). mred. rewrite testbit_land_pow, (mem_lookup _ _ _ Hw); [done|].
  apply Z.mod_pos_bound. lia.
Qed.

(** The word [set] stores. *)
Definition upd_word (w n : Z) (v : bool) : Z :=
  match v with
  | true => Z.lor w (Z.shiftl 1 n)
  | false => Z.land w (wrap 128 (Z.lnot (Z.shiftl 1 n)))
  end.

Lemma upd_word_uint w n v : uint 128 w -> 0 <= n < 128 -> uint 128 (upd_word w n v).
Proof.
  intros Hw Hn. destruct v; [by apply lor_bit_uint|].
  apply land_clear_uint; [done|]. by apply wrap_uint.
Qed.

Lemma upd_word_spec w n v k : uint 128 w -> 0 <= n < 128 -> 0 <= k ->
  Z.testbit (upd_word w n v) k = if k =? n then v else Z.testbit w k.
Proof.
  intros Hw Hn Hk. destruct v; simpl.
  - rewrite lor_bit_spec by lia. by destruct (k =? n).
  - rewrite clear_bit_spec by done. by destruct (k =? n).
Qed.

Lemma set_run b i v w : 0 <= i <= size b -> uint 64 i ->
  inner b !! Z.to_nat (i / 128) = Some w ->
  set i v b = (Ok i, mkBitSet (<[Z.to_nat (i / 128) := upd_word w (i mod 128) v]> (inner b)) (size b)).
Proof.
  intros Hi H64 Hw. unfold set. mred. destruct (Z.ltb_spec (size b) i); [lia|].
  rewrite get_inner_index_small by done. mred. rewrite (vec_get_some _ _ _ Hw). by destruct v.
Qed.

Lemma set_spec b i v : wf b -> 0 <= i < size b ->
  exists b', set i v b = (Ok i, b') /\ wf b' /\ size b' = size b /\
    forall j, 0 <= j -> mem b' j = if j =? i then v else mem b j.
Proof.
  intros Hwf Hi. destruct (word_at b i Hwf Hi) as (w & Hw & Hwu).
  pose proof (Z.mod_pos_bound i 128 ltac:(lia)) as Hm.
  eexists. split; [apply set_run; [lia| unfold uint; destruct Hwf; lia | done]|].
  split; [|split; [done|]].
  - destruct Hwf as [? Hl Hf]. split; cbn; [done | by rewrite length_insert |].
    apply Forall_insert; [done|]. by apply upd_word_uint.
  - intros j Hj. unfold mem. cbn. pose proof (Z.div_pos i 128). pose proof (Z.div_pos j 128).
    pose proof (Z.mod_pos_bound j 128 ltac:(lia)) as Hmj.
    destruct (decide (j / 128 = i / 128)) as [Hq|Hq].
    + rewrite Hq, list_lookup_insert_eq by (eapply lookup_lt_Some; eauto).
      rewrite upd_word_spec, Hw by (done || lia).
      pose proof (Z.div_mod i 128 ltac:(lia)). pose proof (Z.div_mod j 128 ltac:(lia)).
      destruct (Z.eqb_spec j i) as [->|]; [by rewrite Z.eqb_refl|].
      destruct (Z.eqb_spec (j mod 128) (i mod 128)); [lia|done].
    + rewrite list_lookup_insert_ne by lia. destruct (Z.eqb_spec j i); [congruence|done].
Qed.

(** ** The search for a free bit *)

Lemma scan_word_some cnt i b r : scan_word cnt i b = Some r ->
  i <= r < i + Z.of_nat cnt /\ Z.testbit b (r - i) = false /\
  forall k, 0 <= k < r - i -> Z.testbit b k = true.
Proof.
  revert i b. induction cnt as [|cnt IH]; intros i b H; [done|]. cbn [scan_word] in H.
  rewrite <-Z.bit0_mod in H. destruct (Z.testbit b 0) eqn:Hb0; cbn in H.
  - destruct (IH _ _ H) as (Hr & Hbit & Hlow). rewrite Z.shiftr_spec in Hbit by lia.
    split; [lia|]. split; [by replace (r - i) with (r - (i + 1) + 1) by lia|].
    intros k Hk. destruct (Z.eq_dec k 0) as [->|]; [done|].
    specialize (Hlow (k - 1) ltac:(lia)). rewrite Z.shiftr_spec in Hlow by lia.
    by replace k with (k - 1 + 1) by lia.
  - injection H as <-. rewrite Z.sub_diag. repeat split; [lia|lia|done|lia].
Qed.

Lemma scan_word_none cnt i b : scan_word cnt i b = None ->
  forall k, 0 <= k < Z.of_nat cnt -> Z.testbit b k = true.
Proof.
  revert i b. induction cnt as [|cnt IH]; intros i b H k Hk; [lia|]. cbn [scan_word] in H.
  rewrite <-Z.bit0_mod in H. destruct (Z.testbit b 0) eqn:Hb0; cbn in H; [|done].
  destruct (Z.eq_dec k 0) as [->|]; [done|].
  specialize (IH _ _ H (k - 1) ltac:(lia)). rewrite Z.shiftr_spec in IH by lia.
  by replace k with (k - 1 + 1) by lia.
Qed.

(** The number of bits of word [n] the search looks at. *)
Definition lim (mv mi n : Z) : Z := if mv =? n then mi else 128.

Lemma scan_words_some mv mi n ws r : 0 <= mi -> scan_words mv mi n ws = Some r ->
  exists k i w, ws !! k = Some w /\ r = (n + Z.of_nat k) * 128 + i /\
    0 <= i < lim mv mi (n + Z.of_nat k) /\ Z.testbit w i = false /\
    (forall i', 0 <= i' < i -> Z.testbit w i' = true) /\
    (forall k' w' i', (k' < k)%nat -> ws !! k' = Some w' ->
       0 <= i' < lim mv mi (n + Z.of_nat k') -> Z.testbit w' i' = true).
Proof.
  intros Hmi. revert n. induction ws as [|v ws IH]; intros n H; [done|]. cbn in H.
  change (if mv =? n then mi else 128) with (lim mv mi n) in H.
  assert (0 <= lim mv mi n) by (unfold lim; destruct (mv =? n); lia).
  destruct (scan_word _ 0 v) as [i|] eqn:Hs.
  - injection H as <-. apply scan_word_some in Hs as (Hi & Hb & Hlow).
    exists 0%nat, i, v. rewrite Z.sub_0_r in *. rewrite Z.add_0_r. repeat split; try done || lia.
  - destruct (IH _ H) as (k & i & w & Hw & -> & Hi & Hb & Hlow & Hprev).
    exists (S k), i, w. rewrite Nat2Z.inj_succ. replace (n + Z.succ (Z.of_nat k)) with (n + 1 + Z.of_nat k) by lia.
    repeat split; try done || lia. intros [|k'] w' i' Hk' Hw' Hi'.
    + rewrite Z.add_0_r in Hi'. injection Hw' as <-. eapply scan_word_none; [done|]. lia.
    + eapply (Hprev k'); [lia|done|].
      by replace (n + 1 + Z.of_nat k') with (n + Z.of_nat (S k')) by lia.
Qed.

Lemma scan_words_none mv mi n ws : 0 <= mi -> scan_words mv mi n ws = None ->
  forall k w i, ws !! k = Some w -> 0 <= i < lim mv mi (n + Z.of_nat k) -> Z.testbit w i = true.
Proof.
  intros Hmi. revert n. induction ws as [|v ws IH]; intros n H k w i Hk Hi; [done|]. cbn in H.
  change (if mv =? n then mi else 128) with (lim mv mi n) in H.
  destruct (scan_word _ 0 v) as [i'|] eqn:Hs; [done|]. destruct k as [|k].
  - injection Hk as <-. rewrite Z.add_0_r in Hi. eapply scan_word_none; [done|]. lia.
  - eapply IH; [done|done|]. by replace (n + 1 + Z.of_nat k) with (n + Z.of_nat (S k)) by lia.
Qed.

(** Positions the search visits are exactly the indices below [size]. *)
Lemma lim_index sz j : 0 <= j < sz ->
  0 <= j mod 128 < lim (sz / 128) (sz mod 128) (j / 128).
Proof.
  intros Hj. pose proof (Z.mod_pos_bound j 128 ltac:(lia)). unfold lim.
  pose proof (Z.div_mod j 128 ltac:(lia)). pose proof (Z.div_mod sz 128 ltac:(lia)).
  destruct (Z.eqb_spec (sz / 128) (j / 128)); lia.
Qed.

Lemma index_lim sz k i : 0 <= sz -> 0 <= k < words_for sz -> 0 <= i < lim (sz / 128) (sz mod 128) k ->
  0 <= k * 128 + i < sz /\ i < 128.
Proof.
  intros Hsz. unfold words_for, lim. pose proof (Z.div_mod sz 128 ltac:(lia)).
  pose proof (Z.mod_pos_bound sz 128 ltac:(lia)).
  destruct (Z.ltb_spec 0 (sz mod 128)), (Z.eqb_spec (sz / 128) k); lia.
Qed.

Lemma get_min_unset_index_spec b : wf b ->
  (exists r, get_min_unset_index b = Ok r /\ 0 <= r < size b /\ mem b r = false /\
     forall j, 0 <= j < r -> mem b j = true) \/
  (get_min_unset_index b = Err Full /\ forall j, 0 <= j < size b -> mem b j = true).
Proof.
  intros Hwf. pose proof Hwf as [Hs Hl Hw]. unfold get_min_unset_index.
  rewrite get_inner_index_small by done.
  pose proof (Z.mod_pos_bound (size b) 128 ltac:(lia)) as Hm.
  destruct (scan_words _ _ 0 (inner b)) as [r|] eqn:Hscan;
    [left; exists r | right]; (split; [done|]).
  - apply scan_words_some in Hscan as (k & i & w & Hk & -> & Hi & Hb & Hlow & Hprev); [|lia].
    rewrite Z.add_0_l in *. pose proof (lookup_lt_Some _ _ _ Hk).
    destruct (index_lim (size b) (Z.of_nat k) i) as [Hr Hi128]; [lia|lia|done|].
    split; [done|]. rewrite (mem_pos _ _ _ w) by (done || lia). split; [done|].
    intros j Hj. destruct (word_at b j Hwf ltac:(lia)) as (w' & Hw' & _).
    rewrite (mem_lookup _ _ _ Hw'). pose proof (lim_index (size b) j ltac:(lia)) as Hlj.
    pose proof (Z.div_mod j 128 ltac:(lia)). pose proof (Z.mod_pos_bound j 128 ltac:(lia)).
    pose proof (Z.div_pos j 128 ltac:(lia) ltac:(lia)).
    destruct (decide (j / 128 = Z.of_nat k)) as [Hq|Hq].
    + rewrite Hq, Nat2Z.id, Hk in Hw'. injection Hw' as <-. apply Hlow. lia.
    + eapply (Hprev _ _ _ _ Hw'). by rewrite Z.add_0_l, Z2Nat.id by lia.
  - intros j Hj. destruct (word_at b j Hwf Hj) as (w & Hk & _). rewrite (mem_lookup _ _ _ Hk).
    pose proof (Z.div_pos j 128 ltac:(lia) ltac:(lia)).
    eapply scan_words_none; [|exact Hscan|exact Hk|]; [lia|].
    rewrite Z.add_0_l, Z2Nat.id by lia. by apply lim_index.
  Unshelve. lia.
Qed.

Lemma is_full_iff b : wf b ->
  is_full b = true <-> forall j, 0 <= j < size b -> mem b j = true.
Proof.
  intros Hwf. unfold is_full.
  destruct (get_min_unset_index_spec b Hwf) as [(r & -> & Hr & Hm & _)|(-> & Hall)]; [|done].
  split; [done|]. intros H. rewrite H in Hm by done. done.
Qed.

Lemma mem_new n i : mem (new n) i = false.
Proof.
  unfold mem, new. cbn. destruct (replicate _ 0 !! _) as [w|] eqn:H; [|done].
  apply lookup_replicate in H as [-> _]. apply Z.bits_0.
Qed.

Lemma wf_new n : 0 <= n < 2 ^ 64 -> wf (new n).
Proof.
  intros Hn. fold (words_for n). split; [done| |].
  - unfold new. cbn. fold (words_for n). rewrite length_replicate.
    assert (uint 64 (words_for n)).
    { split; [apply words_for_nonneg; lia|]. unfold words_for.
      pose proof (Z.div_mod n 128 ltac:(lia)). pose proof (Z.mod_pos_bound n 128 ltac:(lia)).
      zcase; lia. }
    rewrite wrap_small by done. apply Z2Nat.id. by destruct H.
  - apply Forall_replicate. done.
Qed.

Lemma wf_clear_all b : wf b -> wf (clear_all b).
Proof.
  intros [Hs Hl Hw]. split; cbn; [done|by rewrite length_replicate|]. by apply Forall_replicate.
Qed.

Lemma mem_clear_all b i : mem (clear_all b) i = false.
Proof.
  unfold mem, clear_all. cbn. destruct (replicate _ 0 !! _) as [w|] eqn:H; [|done].
  apply lookup_replicate in H as [-> _]. apply Z.bits_0.
Qed.

(** All bits clear is the same as all words zero. *)
Lemma all_clear_words b : wf b ->
  (forall i, 0 <= i -> mem b i = false) <-> Forall (fun w => w = 0) (inner b).
Proof.
  intros [_ _ Hw]. split.
  - intros H. apply Forall_lookup_2. intros k w Hk. apply Z.bits_inj'. intros j Hj.
    rewrite Z.bits_0. destruct (Z.lt_ge_cases j 128).
    + rewrite <-(mem_pos b k j w) by (done || lia). apply H. lia.
    + apply testbit_high; [|done]. eapply Forall_lookup_1; eauto.
  - intros H i Hi. unfold mem. destruct (inner b !! _) as [w|] eqn:Hk; [|done].
    rewrite Forall_lookup in H. rewrite (H _ _ Hk). apply Z.bits_0.
Qed.

Lemma sum_words_stuck (r : res BitSetError Z) ws P :
  (forall z, r <> Ok z) -> foldl (@add_word P) r ws = r.
Proof.
  revert r. induction ws as [|w ws IH]; intros r Hr; [done|]. cbn [foldl].
  destruct r; [by destruct (Hr a)|..]; by apply IH.
Qed.

(** With overflow checks the sum, when there is one, is the mathematical sum. *)
Lemma sum_words_debug ws a s : Forall (uint 128) ws ->
  foldl (@add_word debug_profile) (Ok a) ws = Ok s ->
  s = a + foldr Z.add 0 ws.
Proof.
  intros Hws. revert a. induction Hws as [|w ws Hw Hws IH]; intros a H; cbn [foldl foldr] in H |- *.
  { injection H as ->. lia. }
  change (@add_word debug_profile (Ok a) w) with (@ovf debug_profile BitSetError 128 (a + w)) in H.
  destruct (decide (uint 128 (a + w))) as [Hu|Hu].
  - rewrite ovf_small in H by done. apply IH in H. lia.
  - rewrite ovf_debug, (sum_words_stuck Panic) in H by done. done.
Qed.

Lemma sum_zero ws : Forall (uint 128) ws -> foldr Z.add 0 ws = 0 <-> Forall (fun w => w = 0) ws.
Proof.
  induction 1 as [|w ws Hw Hws IH]; [done|]. cbn [foldr].
  assert (0 <= foldr Z.add 0 ws) by (clear IH; induction Hws as [|?? []]; cbn; lia).
  destruct Hw as [Hw _]. rewrite Forall_cons_iff. destruct IH as [IH1 IH2]. split.
  - intros H0. split; [|apply IH1]; lia.
  - intros [-> H0]. rewrite IH2 by done. lia.
Qed.

(** What [set_next] does on a well-formed set. *)
Lemma set_next_run (b : BitSet) (Hwf : wf b) :
  (exists i b', set_next b = (Ok i, b') /\ 0 <= i < size b /\ mem b i = false /\
     (forall j, 0 <= j < i -> mem b j = true) /\ wf b' /\ size b' = size b /\
     (forall j, 0 <= j -> mem b' j = (j =? i) || mem b j)) \/
  (set_next b = (Err Full, b) /\ forall j, 0 <= j < size b -> mem b j = true).
Proof.
  unfold set_next. mred.
  destruct (get_min_unset_index_spec b Hwf) as [(r & -> & Hr & Hm & Hlow)|(-> & Hall)];
    [left|right; auto].
  destruct (set_spec b r true Hwf Hr) as (b' & Hset & Hwf' & Hsz & Hmem).
  exists r, b'. split_and!; try done || lia.
Qed.


(** ** Properties *)

(** [set_next] hands out the smallest free index below [size] and marks
    exactly that index, and reports [Full] precisely when every index below
    [size] is taken, leaving the set unchanged. It never panics and keeps the
    representation invariant. *)
Theorem set_next_spec (b : BitSet) (Hwf : wf b) :
  (exists i b', set_next b = (Ok i, b') /\ 0 <= i < size b /\ mem b i = false /\
     (forall j, 0 <= j < i -> mem b j = true) /\ wf b' /\ size b' = size b /\
     (forall j, 0 <= j -> mem b' j = (j =? i) || mem b j)) \/
  (set_next b = (Err Full, b) /\ forall j, 0 <= j < size b -> mem b j = true).
Proof. exact (set_next_run b Hwf). Qed.

Definition sample : BitSet := mkBitSet [2 ^ 128 - 1; 7] 256.

Lemma set_next_spec_witness :
  wf sample /\ set_next sample = (Ok 131, mkBitSet [2 ^ 128 - 1; 15] 256) /\
  ((exists i b', set_next sample = (Ok i, b') /\ 0 <= i < size sample /\ mem sample i = false /\
     (forall j, 0 <= j < i -> mem sample j = true) /\ wf b' /\ size b' = size sample /\
     (forall j, 0 <= j -> mem b' j = (j =? i) || mem sample j)) \/
  (set_next sample = (Err Full, sample) /\ forall j, 0 <= j < size sample -> mem sample j = true)).
Proof.
  assert (H : wf sample) by (by apply (bool_decide_unpack _); vm_compute).
  split; [exact H|]. split; [vm_compute; reflexivity|]. exact (set_next_spec sample H).
Defined.

(** A write through [set] is what [is_set] reads back at every index below
    [size]: the written index has the written value and every other index is
    untouched; [set_true] refuses an index that is already taken. *)
Theorem set_is_set_spec (b : BitSet) (i : Z) (v : bool) (Hwf : wf b) (Hi : 0 <= i < size b) :
  exists b', set i v b = (Ok i, b') /\ wf b' /\ size b' = size b /\
    (forall j, 0 <= j < size b -> is_set b' j = if j =? i then Ok v else is_set b j) /\
    (is_set b i = Ok true -> set_true i b = (Err AlreadySet, b)) /\
    (is_set b i = Ok false -> set_true i b = set i true b).
Proof.
  destruct (set_spec b i v Hwf Hi) as (b' & Hset & Hwf' & Hsz & Hmem).
  exists b'. split_and!; try done.
  - intros j Hj. rewrite !is_set_mem by (done || congruence). rewrite Hmem by lia.
    by destruct (j =? i).
  - intros H. unfold set_true. mred. by rewrite H.
  - intros H. unfold set_true. mred. by rewrite H.
Qed.

Lemma set_is_set_spec_witness :
  exists b', set 200 true sample = (Ok 200, b') /\ wf b' /\ size b' = size sample /\
    (forall j, 0 <= j < size sample -> is_set b' j = if j =? 200 then Ok true else is_set sample j) /\
    (is_set sample 200 = Ok true -> set_true 200 sample = (Err AlreadySet, sample)) /\
    (is_set sample 200 = Ok false -> set_true 200 sample = set 200 true sample).
Proof.
  apply set_is_set_spec.
  - by apply (bool_decide_unpack _); vm_compute.
  - cbn; lia.
Defined.

(** The bound checks of [is_set] and [set] are [index > size], so [size]
    itself passes them: when [size] is a multiple of 128 both methods index the
    word vector out of range and panic, and otherwise [set] succeeds and stores
    a bit that is not part of the set. *)
Theorem index_equal_to_size (b : BitSet) (v : bool) (Hwf : wf b) :
  (size b mod 128 = 0 -> is_set b (size b) = Panic /\ set (size b) v b = (Panic, b)) /\
  (size b mod 128 <> 0 -> exists b', set (size b) true b = (Ok (size b), b') /\ mem b' (size b) = true).
Proof.
  pose proof Hwf as [Hs Hl Hw]. pose proof (Z.mod_pos_bound (size b) 128 ltac:(lia)) as Hm.
  pose proof (Z.div_pos (size b) 128 ltac:(lia) ltac:(lia)). split; intros Hmod.
  - assert (Hnone : inner b !! Z.to_nat (size b / 128) = None).
    { apply lookup_ge_None_2. unfold words_for in Hl. rewrite Hmod in Hl. cbn in Hl. lia. }
    unfold is_set, set. mred. rewrite Z.ltb_irrefl, get_inner_index_small by done.
    by rewrite !vec_get_none.
  - destruct (lookup_lt_is_Some_2 (inner b) (Z.to_nat (size b / 128))) as [w Hk].
    { unfold words_for in Hl. destruct (Z.ltb_spec 0 (size b mod 128)); lia. }
    eexists. split; [apply (set_run _ _ _ w); [lia|done|done]|].
    unfold mem. cbn. rewrite list_lookup_insert_eq by (eapply lookup_lt_Some; eauto).
    cbn. rewrite lor_bit_spec, Z.eqb_refl by lia. done.
Qed.

Lemma index_equal_to_size_witness :
  (size sample mod 128 = 0 -> is_set sample (size sample) = Panic /\
     set (size sample) true sample = (Panic, sample)) /\
  (size sample mod 128 <> 0 -> exists b', set (size sample) true sample = (Ok (size sample), b') /\
     mem b' (size sample) = true).
Proof. apply index_equal_to_size. by apply (bool_decide_unpack _); vm_compute. Defined.

(** With overflow checks compiled in, an answer of [is_empty] is right: it
    says [true] exactly when no bit is set. *)
Theorem is_empty_debug_spec (b : BitSet) (e : bool) (Hwf : wf b)
  (H : @is_empty debug_profile b = Ok e) :
  e = true <-> forall i, 0 <= i -> mem b i = false.
Proof.
  unfold is_empty, sum_words in H. pose proof (wf_words _ Hwf) as Hw.
  destruct (foldl _ _ _) as [s| |] eqn:Hs; try done. injection H as <-.
  apply sum_words_debug in Hs; [|done]. rewrite all_clear_words, <-sum_zero, Z.eqb_eq by done. lia.
Qed.

Lemma is_empty_debug_spec_witness :
  false = true <-> forall i, 0 <= i -> mem (mkBitSet [0; 4] 200) i = false.
Proof.
  apply (is_empty_debug_spec (mkBitSet [0; 4] 200) false).
  - by apply (bool_decide_unpack _); vm_compute.
  - vm_compute. reflexivity.
Defined.

(** [is_empty] adds the words up as [u128]: two words with their top bit set
    sum to zero in a release build, which reports a set with two allocated
    addresses as empty, and the same sum panics in a debug build. *)
Theorem is_empty_overflow :
  let b := mkBitSet [2 ^ 127; 2 ^ 127] 256 in
  wf b /\ mem b 127 = true /\ mem b 255 = true /\
  @is_empty release_profile b = Ok true /\ @is_empty debug_profile b = Panic.
Proof. split; [by apply (bool_decide_unpack _); vm_compute|]. by vm_compute. Qed.

End BitSet.
