(* ===== verification/IpamAllocator.v ===== *)
(** * The address allocator ([sartd/src/ipam/src/allocator.rs], [error.rs])

    [BitAllocator] hands out the addresses of a CIDR, one bit of a [BitSet] per
    address. The file models the methods of [BitAllocator] and of the [Allocator]
    enum around it, and proves that they implement a set of held addresses
    ([spec_step]). *)

From S2P Require Import Prelude Net IpamBitset.

Module Ipam.
Inductive Error : Type :=
| BitSetE (e : BitSet.BitSetError)
| ProtocolMistmatch
| NotContains
| NoReleasableAddress
| CIDRTooLarge (len : Z)
| Full
| BlockNotFound
| AutoAssignableBlockAlreadyExists.
End Ipam.

Module BitAllocator.
Section defs.
Context {I : IpNetApi} {P : Profile}.

Record BitAllocator : Type := mkBitAllocator {
  cidr : IpNet;
  allocator : BitSet.BitSet;
  allocated : Z;
}.

Definition new (cidr : IpNet) : BitAllocator :=
  let size := match cidr with
              | NV4 c => 32 - net_prefix_len c
              | NV6 c => 128 - net_prefix_len c
              end in
  mkBitAllocator cidr (BitSet.new (2 ^ size)) 0.

Definition prefix_len (a : BitAllocator) : Z := ipnet_prefix_len (cidr a).

Definition size (a : BitAllocator) : Z := BitSet.size (allocator a).

(** [octs[i]] of an octet array. *)
Definition oct (o : list Z) (i : nat) : Z := default 0 (o !! i).

(** The IPv4 octets added up, and the IPv6 loop over 16 octets. *)
Definition v4_bits (o : list Z) : Z :=
  oct o 3 + Z.shiftl (oct o 2) 8 + Z.shiftl (oct o 1) 16 + Z.shiftl (oct o 0) 24.

Definition v6_bits (o : list Z) : Z :=
  foldl (fun bits i => bits + Z.shiftl (oct o (15 - i)) (Z.of_nat i * 8)) 0 (seq 0 16).

Definition addr_to_index (addr : IpAddr) (cidr : IpNet) : res Ipam.Error Z :=
  match cidr with
  | NV4 c =>
      let min_bits := v4_bits (be_bytes 4 (net_network c)) in
      match addr with
      | AV4 a =>
          if negb (ipnet_contains cidr addr) then Err Ipam.NotContains
          else ovf 32 (v4_bits (be_bytes 4 a) - min_bits)
      | AV6 _ => Err Ipam.ProtocolMistmatch
      end
  | NV6 c =>
      let min_octs := be_bytes 16 (net_network c) in
      match addr with
      | AV4 _ => Err Ipam.ProtocolMistmatch
      | AV6 a =>
          if negb (ipnet_contains cidr addr) then Err Ipam.NotContains
          else ovf 128 (v6_bits (be_bytes 16 a) - v6_bits min_octs)
      end
  end.

Definition index_to_addr (index : Z) (cidr : IpNet) : res Ipam.Error IpAddr :=
  match cidr with
  | NV4 c =>
      let a_bits := v4_bits (be_bytes 4 (net_network c)) in
      new_bits ← ovf 32 (a_bits + wrap 32 index);
      mret (AV4 (be_val (be_bytes 4 new_bits)))
  | NV6 c =>
      let a_bits := v6_bits (be_bytes 16 (net_network c)) in
      new_bits ← ovf 128 (a_bits + index);
      mret (AV6 (be_val (be_bytes 16 new_bits)))
  end.

Definition set_allocator (b : BitSet.BitSet) (a : BitAllocator) : BitAllocator :=
  mkBitAllocator (cidr a) b (allocated a).

Definition set_allocated (n : Z) : M BitAllocator Ipam.Error unit :=
  a ← get_st;
  k ← lift (ovf 64 n);
  put_st (mkBitAllocator (cidr a) (allocator a) k).

Definition allocate (addr : IpAddr) (force : bool) : M BitAllocator Ipam.Error IpAddr :=
  a ← get_st;
  idx ← lift (addr_to_index addr (cidr a));
  zoom allocator set_allocator (map_err Ipam.BitSetE
    (match force with
     | true => BitSet.set idx true
     | false => BitSet.set_true idx
     end)) ;;
  a ← get_st;
  set_allocated (allocated a + 1) ;;
  mret addr.

Definition next_error (e : BitSet.BitSetError) : Ipam.Error :=
  match e with BitSet.Full => Ipam.Full | _ => Ipam.BitSetE e end.

Definition allocate_next : M BitAllocator Ipam.Error IpAddr :=
  index ← zoom allocator set_allocator (map_err next_error BitSet.set_next);
  a ← get_st;
  set_allocated (allocated a + 1) ;;
  lift (index_to_addr index (cidr a)).

Definition is_allocated (a : BitAllocator) (addr : IpAddr) : res BitSet.BitSetError bool :=
  match addr_to_index addr (cidr a) with
  | Ok i => BitSet.is_set (allocator a) i
  | Err _ => Ok false
  | Panic => Panic
  end.

Definition is_empty (a : BitAllocator) : res BitSet.BitSetError bool :=
  BitSet.is_empty (allocator a).

Definition is_full (a : BitAllocator) : bool := BitSet.is_full (allocator a).

Definition release (addr : IpAddr) : M BitAllocator Ipam.Error IpAddr :=
  a ← get_st;
  if allocated a =? 0 then throw Ipam.NoReleasableAddress
  else
    idx ← lift (addr_to_index addr (cidr a));
    zoom allocator set_allocator (map_err Ipam.BitSetE (BitSet.set idx false)) ;;
    a ← get_st;
    set_allocated (allocated a - 1) ;;
    mret addr.
End defs.

(** ** Indices and addresses of a CIDR *)
Section facts.
Context {I : IpNetApi} {L : IpNetLaws} {P : Profile}.

Definition cidr_size (c : IpNet) : Z :=
  match c with
  | NV4 n => 2 ^ (32 - net_prefix_len n)
  | NV6 n => 2 ^ (128 - net_prefix_len n)
  end.

(** The [i]-th address of a CIDR, and the position of an address in it. *)
Definition addr_at (c : IpNet) (i : Z) : IpAddr :=
  match c with
  | NV4 n => AV4 (net_network n + i)
  | NV6 n => AV6 (net_network n + i)
  end.

Definition index_of (c : IpNet) (x : IpAddr) : Z :=
  match c, x with
  | NV4 n, AV4 a => a - net_network n
  | NV6 n, AV6 a => a - net_network n
  | _, _ => -1
  end.

Lemma cidr_size_pos c : 0 < cidr_size c.
Proof. destruct c; apply net_size_pos. Qed.

Lemma contains_index c x :
  ipnet_contains c x = true <-> 0 <= index_of c x < cidr_size c /\ x = addr_at c (index_of c x).
Proof.
  destruct c as [n|n], x as [a|a]; cbn.
  - rewrite ipnet_contains_v4, net_contains_spec, bool_decide_eq_true. split; [|lia].
    intros H. split; [lia|]. f_equal. lia.
  - rewrite ipnet_contains_46. split; [done|lia].
  - rewrite ipnet_contains_64. split; [done|lia].
  - rewrite ipnet_contains_v6, net_contains_spec, bool_decide_eq_true. split; [|lia].
    intros H. split; [lia|]. f_equal. lia.
Qed.

Lemma index_of_addr_at c i : index_of c (addr_at c i) = i.
Proof. destruct c; cbn; lia. Qed.

Lemma addr_at_contains c i : 0 <= i < cidr_size c -> ipnet_contains c (addr_at c i) = true.
Proof. intros H. apply contains_index. by rewrite index_of_addr_at. Qed.

Lemma v4_bits_be z : uint 32 z -> v4_bits (be_bytes 4 z) = z.
Proof.
  intros Hz. rewrite <-(be_val_bytes_small 4 z Hz) at 2. pose proof (length_be_bytes 4 z) as Hl.
  destruct (be_bytes 4 z) as [|a [|b [|c [|d [|]]]]]; try done.
  unfold v4_bits, oct, be_val. cbn [lookup list_lookup default foldl from_option id].
  rewrite !Z.shiftl_mul_pow2 by lia. lia.
Qed.

Lemma v6_bits_be z : uint 128 z -> v6_bits (be_bytes 16 z) = z.
Proof.
  intros Hz. rewrite <-(be_val_bytes_small 16 z Hz) at 2. pose proof (length_be_bytes 16 z) as Hl.
  generalize dependent (be_bytes 16 z). intros l Hl.
  do 16 (destruct l as [|? l]; [done|]). destruct l; [|done]. clear Hl.
  unfold v6_bits, oct, be_val. cbn [lookup list_lookup default foldl from_option id seq Nat.sub].
  rewrite !Z.shiftl_mul_pow2 by lia. lia.
Qed.

Lemma addr_to_index_ok c x : ipnet_contains c x = true -> addr_to_index x c = Ok (index_of c x).
Proof.
  intros Hc. pose proof Hc as Hx. apply contains_index in Hx as [Hi Hx]. unfold addr_to_index.
  destruct c as [n|n], x as [a|a]; cbn in Hi; try lia; cbn [index_of] in *; rewrite Hc; cbn [negb];
    pose proof (net_network_range n); pose proof (net_size_pos n).
  - rewrite !v4_bits_be by (unfold uint; lia). apply ovf_small. unfold uint. lia.
  - rewrite !v6_bits_be by (unfold uint; lia). apply ovf_small. unfold uint. lia.
Qed.

Lemma addr_to_index_err c x : ipnet_contains c x = false ->
  exists e, addr_to_index x c = Err e /\ (e = Ipam.NotContains \/ e = Ipam.ProtocolMistmatch).
Proof.
  intros Hc. unfold addr_to_index.
  destruct c, x; try rewrite Hc; cbn [negb]; eexists; (split; [done|]); auto.
Qed.

Lemma index_to_addr_ok c i : 0 <= i < cidr_size c -> index_to_addr i c = Ok (addr_at c i).
Proof.
  intros Hi. unfold index_to_addr. destruct c as [n|n]; cbn in Hi;
    pose proof (net_network_range n); pose proof (net_size_pos n).
  - rewrite v4_bits_be, wrap_small by (unfold uint; lia). rewrite ovf_small by (unfold uint; lia).
    mred. rewrite be_val_bytes_small; [done|]. unfold uint. cbn. lia.
  - rewrite v6_bits_be by (unfold uint; lia). rewrite ovf_small by (unfold uint; lia).
    mred. rewrite be_val_bytes_small; [done|]. unfold uint. cbn. lia.
Qed.

(** ** The specification: a set of held addresses and a counter *)

Inductive op : Type :=
| OAllocate (x : IpAddr) (force : bool)
| ONext
| ORelease (x : IpAddr).

Definition run_op (o : op) : M BitAllocator Ipam.Error IpAddr :=
  match o with
  | OAllocate x force => allocate x force
  | ONext => allocate_next
  | ORelease x => release x
  end.

Definition out_of_cidr (e : Ipam.Error) : Prop := e = Ipam.NotContains \/ e = Ipam.ProtocolMistmatch.

Inductive spec_step (c : IpNet) (H : gset IpAddr) (n : Z) :
  op -> res Ipam.Error IpAddr -> gset IpAddr -> Z -> Prop :=
| sp_allocate x force :
    ipnet_contains c x = true -> force = true \/ x ∉ H ->
    spec_step c H n (OAllocate x force) (Ok x) ({[x]} ∪ H) (n + 1)
| sp_allocate_held x :
    ipnet_contains c x = true -> x ∈ H ->
    spec_step c H n (OAllocate x false) (Err (Ipam.BitSetE BitSet.AlreadySet)) H n
| sp_allocate_out x force e :
    ipnet_contains c x = false -> out_of_cidr e ->
    spec_step c H n (OAllocate x force) (Err e) H n
| sp_next i :
    0 <= i < cidr_size c -> addr_at c i ∉ H -> (forall j, 0 <= j < i -> addr_at c j ∈ H) ->
    spec_step c H n ONext (Ok (addr_at c i)) ({[addr_at c i]} ∪ H) (n + 1)
| sp_next_full :
    (forall x, ipnet_contains c x = true -> x ∈ H) ->
    spec_step c H n ONext (Err Ipam.Full) H n
| sp_release x :
    ipnet_contains c x = true -> n <> 0 ->
    spec_step c H n (ORelease x) (Ok x) (H ∖ {[x]}) (n - 1)
| sp_release_none x :
    n = 0 -> spec_step c H n (ORelease x) (Err Ipam.NoReleasableAddress) H n
| sp_release_out x e :
    ipnet_contains c x = false -> n <> 0 -> out_of_cidr e ->
    spec_step c H n (ORelease x) (Err e) H n.

(** The allocator represents the set [H] of held addresses and the count [n]. *)
Record repr (a : BitAllocator) (H : gset IpAddr) (n : Z) : Prop := {
  r_wf : BitSet.wf (allocator a);
  r_size : BitSet.size (allocator a) = cidr_size (cidr a);
  r_mem x : x ∈ H <-> ipnet_contains (cidr a) x = true /\
                      BitSet.mem (allocator a) (index_of (cidr a) x) = true;
  r_count : allocated a = n;
  r_nonneg : 0 <= n;
}.

Lemma mem_held a H n x : repr a H n -> ipnet_contains (cidr a) x = true ->
  BitSet.mem (allocator a) (index_of (cidr a) x) = bool_decide (x ∈ H).
Proof.
  intros [_ _ Hm _ _] Hx. case_bool_decide as Hin; rewrite Hm in Hin.
  - by destruct Hin.
  - destruct (BitSet.mem _ _); naive_solver.
Qed.

Lemma repr_write a H n x (v : bool) b' k :
  repr a H n -> ipnet_contains (cidr a) x = true -> BitSet.wf b' ->
  BitSet.size b' = BitSet.size (allocator a) -> 0 <= k ->
  (forall j, 0 <= j -> BitSet.mem b' j =
     if j =? index_of (cidr a) x then v else BitSet.mem (allocator a) j) ->
  repr (mkBitAllocator (cidr a) b' k) (if v then {[x]} ∪ H else H ∖ {[x]}) k.
Proof.
  intros [Hwf Hsz Hm Hc Hn] Hx Hwf' Hsz' Hk Hmem. split; cbn; [done|congruence| |done|done].
  intros y. destruct (decide (y = x)) as [->|Hne].
  - apply contains_index in Hx as Hi. rewrite Hmem, Z.eqb_refl by lia. destruct v; set_solver.
  - assert (Heq : y ∈ (if v then {[x]} ∪ H else H ∖ {[x]}) <-> y ∈ H) by (destruct v; set_solver).
    rewrite Heq, Hm. split; intros [Hy Hbit]; (split; [done|]);
      apply contains_index in Hy as Hiy; apply contains_index in Hx as Hix;
      rewrite Hmem in * by lia; destruct (Z.eqb_spec (index_of (cidr a) y) (index_of (cidr a) x));
      try done; destruct Hne, Hiy as [_ ->], Hix as [_ ->]; congruence.
Qed.

Lemma set_allocated_ok a k : uint 64 k ->
  set_allocated k a = (Ok tt, mkBitAllocator (cidr a) (allocator a) k).
Proof. intros Hk. unfold set_allocated. mred. by rewrite ovf_small. Qed.

Lemma index_lt_size a H n x : repr a H n -> ipnet_contains (cidr a) x = true ->
  0 <= index_of (cidr a) x < BitSet.size (allocator a).
Proof. intros [_ -> _ _ _] Hx. by apply contains_index in Hx as [? _]. Qed.

(** How each method runs, given how the bit set answers. *)
Lemma allocate_run a x force i r b' :
  addr_to_index x (cidr a) = Ok i ->
  (match force with true => BitSet.set i true | false => BitSet.set_true i end) (allocator a) = (r, b') ->
  allocate x force a =
    match r with
    | Ok _ => (set_allocated (allocated a + 1) ;; mret x) (mkBitAllocator (cidr a) b' (allocated a))
    | Err e => (Err (Ipam.BitSetE e), mkBitAllocator (cidr a) b' (allocated a))
    | Panic => (Panic, mkBitAllocator (cidr a) b' (allocated a))
    end.
Proof.
  intros Hi Hset. unfold allocate. mred. rewrite Hi. destruct force; rewrite Hset; by destruct r.
Qed.

Lemma next_run a r b' : BitSet.set_next (allocator a) = (r, b') ->
  allocate_next a =
    match r with
    | Ok i => (set_allocated (allocated a + 1) ;; lift (index_to_addr i (cidr a)))
                (mkBitAllocator (cidr a) b' (allocated a))
    | Err e => (Err (next_error e), mkBitAllocator (cidr a) b' (allocated a))
    | Panic => (Panic, mkBitAllocator (cidr a) b' (allocated a))
    end.
Proof. intros Hset. unfold allocate_next. mred. rewrite Hset. by destruct r. Qed.

Lemma release_run a x i r b' : allocated a <> 0 ->
  addr_to_index x (cidr a) = Ok i -> BitSet.set i false (allocator a) = (r, b') ->
  release x a =
    match r with
    | Ok _ => (set_allocated (allocated a - 1) ;; mret x) (mkBitAllocator (cidr a) b' (allocated a))
    | Err e => (Err (Ipam.BitSetE e), mkBitAllocator (cidr a) b' (allocated a))
    | Panic => (Panic, mkBitAllocator (cidr a) b' (allocated a))
    end.
Proof.
  intros Hn Hi Hset. unfold release. mred. destruct (Z.eqb_spec (allocated a) 0); [done|].
  rewrite Hi, Hset. by destruct r.
Qed.

Lemma set_allocated_then {A} a b k (m : M BitAllocator Ipam.Error A) : uint 64 k ->
  (set_allocated k ;; m) (mkBitAllocator (cidr a) b (allocated a)) = m (mkBitAllocator (cidr a) b k).
Proof. intros Hk. mred. by rewrite set_allocated_ok. Qed.

(** One method call is one step of the specification, and no call panics. *)
Definition simulated (a : BitAllocator) (H : gset IpAddr) (n : Z) (o : op) : Prop :=
  exists r a' H' n', run_op o a = (r, a') /\ spec_step (cidr a) H n o r H' n' /\
    repr a' H' n' /\ cidr a' = cidr a.

Lemma eta a : mkBitAllocator (cidr a) (allocator a) (allocated a) = a.
Proof. by destruct a. Qed.

Lemma allocate_simulated a H n x force : repr a H n -> n + 1 < 2 ^ 64 ->
  simulated a H n (OAllocate x force).
Proof.
  intros R Hn. pose proof R as [Hwf _ _ Hc Hpos]. unfold simulated. cbn [run_op].
  destruct (ipnet_contains (cidr a) x) eqn:Hx.
  2: { destruct (addr_to_index_err _ _ Hx) as (e & Hidx & He). exists (Err e), a, H, n.
       split; [unfold allocate; mred; by rewrite Hidx|]. by split_and!; [constructor|..]. }
  pose proof (addr_to_index_ok _ _ Hx) as Hidx. pose proof (index_lt_size _ _ _ _ R Hx) as Hi.
  destruct (BitSet.set_spec _ _ true Hwf Hi) as (b' & Hset & Hwf' & Hsz & Hmem).
  destruct (decide (force = true \/ x ∉ H)) as [Hok|Hheld].
  - erewrite allocate_run; [|done|].
    2: { destruct force; [done|]. unfold BitSet.set_true. mred.
         rewrite BitSet.is_set_mem, (mem_held _ _ _ _ R Hx), bool_decide_false by naive_solver. done. }
    rewrite set_allocated_then by (split; lia).
    eexists _, _, ({[x]} ∪ H), (n + 1). split; [done|]. split_and!; [by constructor| |done].
    rewrite Hc. eapply (repr_write _ _ _ x true); eauto with lia.
  - assert (force = false /\ x ∈ H) as [-> Hin]
      by (destruct force; destruct (decide (x ∈ H)); tauto).
    erewrite allocate_run; [|done|].
    2: { unfold BitSet.set_true. mred.
         rewrite BitSet.is_set_mem, (mem_held _ _ _ _ R Hx), bool_decide_true by done. done. }
    rewrite eta. eexists _, _, H, n. split; [done|]. by split_and!; [constructor|..].
Qed.

Lemma next_simulated a H n : repr a H n -> n + 1 < 2 ^ 64 -> simulated a H n ONext.
Proof.
  intros R Hn. pose proof R as [Hwf Hsize Hm Hc Hpos]. unfold simulated. cbn [run_op].
  assert (Hheld : forall j, 0 <= j < cidr_size (cidr a) ->
    BitSet.mem (allocator a) j = bool_decide (addr_at (cidr a) j ∈ H)).
  { intros j Hj. by rewrite <-(mem_held _ _ _ _ R (addr_at_contains _ _ Hj)), index_of_addr_at. }
  destruct (BitSet.set_next_run _ Hwf) as [(i & b' & Hnext & Hi & Hfree & Hlow & Hwf' & Hsz & Hmem)|(Hnext & Hall)].
  - rewrite (next_run _ _ _ Hnext), set_allocated_then by (split; lia).
    rewrite Hsize in Hi. unfold lift. cbn. rewrite index_to_addr_ok by done.
    eexists _, _, ({[addr_at (cidr a) i]} ∪ H), (n + 1). split; [done|]. split_and!; [|rewrite Hc|done].
    + constructor; [done| |].
      * rewrite Hheld in Hfree by done. by apply bool_decide_eq_false_1 in Hfree.
      * intros j Hj. specialize (Hlow j Hj). rewrite Hheld in Hlow by lia.
        by apply bool_decide_eq_true_1 in Hlow.
    + eapply (repr_write _ _ _ _ true); eauto using addr_at_contains with lia.
      intros j Hj. rewrite index_of_addr_at. by apply Hmem.
  - rewrite (next_run _ _ _ Hnext), eta. eexists _, _, H, n. split; [done|].
    split_and!; [|done|done]. constructor. intros x Hx. apply contains_index in Hx as [Hi Hx].
    rewrite Hsize in Hall. specialize (Hall _ Hi). rewrite Hheld, <-Hx in Hall by done.
    by apply bool_decide_eq_true_1 in Hall.
Qed.

Lemma release_simulated a H n x : repr a H n -> n + 1 < 2 ^ 64 -> simulated a H n (ORelease x).
Proof.
  intros R Hn. pose proof R as [Hwf _ _ Hc Hpos]. unfold simulated. cbn [run_op].
  destruct (decide (n = 0)) as [Hn0|Hn0].
  { exists (Err Ipam.NoReleasableAddress), a, H, n. split; [|by split_and!; [constructor|..]].
    unfold release. mred. by rewrite Hc, Hn0. }
  destruct (ipnet_contains (cidr a) x) eqn:Hx.
  2: { destruct (addr_to_index_err _ _ Hx) as (e & Hidx & He). exists (Err e), a, H, n.
       split; [|by split_and!; [constructor|..]].
       unfold release. mred. rewrite Hc, Hidx. by destruct (Z.eqb_spec n 0). }
  pose proof (addr_to_index_ok _ _ Hx) as Hidx. pose proof (index_lt_size _ _ _ _ R Hx) as Hi.
  destruct (BitSet.set_spec _ _ false Hwf Hi) as (b' & Hset & Hwf' & Hsz & Hmem).
  erewrite release_run by (done || congruence). rewrite set_allocated_then by (split; lia).
  eexists _, _, (H ∖ {[x]}), (n - 1). split; [done|]. split_and!; [by constructor| |done].
  rewrite Hc. eapply (repr_write _ _ _ x false); eauto with lia.
Qed.

Lemma simulation a H n o : repr a H n -> n + 1 < 2 ^ 64 -> simulated a H n o.
Proof.
  destruct o; eauto using allocate_simulated, next_simulated, release_simulated.
Qed.

Lemma repr_new c : cidr_size c < 2 ^ 64 -> repr (new c) ∅ 0.
Proof.
  intros Hc. pose proof (cidr_size_pos c). destruct c as [n|n]; (split; cbn; [|done| |done|done];
    [by apply BitSet.wf_new; cbn in *; lia|]);
    intros x; rewrite BitSet.mem_new; set_solver.
Qed.

(** ** Handing out a whole block *)

Definition take_n (k : nat) : M BitAllocator Ipam.Error (list IpAddr) :=
  for_collect (fun _ => allocate_next) (seq 0 k).

(** The first [i] addresses of a CIDR. *)
Definition first_k (c : IpNet) (i : Z) : gset IpAddr := list_to_set (addr_at c <$> seqZ 0 i).

Lemma elem_of_first_k c i j : addr_at c j ∈ first_k c i <-> 0 <= j < i.
Proof.
  unfold first_k. rewrite elem_of_list_to_set, list_elem_of_fmap. setoid_rewrite elem_of_seqZ. split.
  - intros (k & Hk & Hr). apply (f_equal (index_of c)) in Hk. rewrite !index_of_addr_at in Hk. lia.
  - intros Hj. exists j. split; [done|lia].
Qed.

Lemma first_k_succ c i : 0 <= i -> first_k c (i + 1) = {[addr_at c i]} ∪ first_k c i.
Proof.
  intros Hi. unfold first_k. rewrite (seqZ_app 0 i 1) by lia.
  rewrite fmap_app, list_to_set_app_L, Z.add_0_l. cbn. set_solver.
Qed.

Lemma next_from_prefix a i n : repr a (first_k (cidr a) i) n -> 0 <= i < cidr_size (cidr a) ->
  n + 1 < 2 ^ 64 ->
  exists a', allocate_next a = (Ok (addr_at (cidr a) i), a') /\ cidr a' = cidr a /\
    repr a' (first_k (cidr a) (i + 1)) (n + 1).
Proof.
  intros R Hi Hn. destruct (next_simulated _ _ _ R Hn) as (r & a' & H' & n' & Hrun & Hst & R' & Hc).
  cbn in Hrun. inversion Hst as [| | |i' Hi' Hfree Hlow| Hfull | | |]; subst.
  - assert (i' = i) as ->.
    { rewrite elem_of_first_k in Hfree. destruct (Z.lt_trichotomy i' i) as [?|[?|Hgt]]; [lia|done|].
      specialize (Hlow i ltac:(lia)). rewrite elem_of_first_k in Hlow. lia. }
    exists a'. split; [done|]. split; [done|]. by rewrite first_k_succ by lia.
  - specialize (Hfull _ (addr_at_contains _ _ Hi)). rewrite elem_of_first_k in Hfull. lia.
Qed.

Lemma take_from_prefix k s a i n : repr a (first_k (cidr a) i) n -> 0 <= i ->
  i + Z.of_nat k <= cidr_size (cidr a) -> n + Z.of_nat k < 2 ^ 64 ->
  exists a', for_collect (fun _ => allocate_next) (seq s k) a =
    (Ok (addr_at (cidr a) <$> seqZ i (Z.of_nat k)), a') /\ cidr a' = cidr a /\
    repr a' (first_k (cidr a) (i + Z.of_nat k)) (n + Z.of_nat k).
Proof.
  revert s a i n. induction k as [|k IH]; intros s a i n R Hi Hk Hn.
  { exists a. split_and!; [done..|]. by rewrite !Z.add_0_r. }
  destruct (next_from_prefix _ _ _ R) as (a1 & Hnext & Hc1 & R1); [lia|lia|].
  rewrite <-Hc1 in R1, Hk. destruct (IH (S s) a1 (i + 1) (n + 1) R1) as (a2 & Hrec & Hc2 & R2); [lia..|].
  exists a2. cbn [seq for_collect]. rewrite (bind_ok _ _ _ _ _ Hnext), (bind_ok _ _ _ _ _ Hrec).
  rewrite Nat2Z.inj_succ, (seqZ_cons i) by lia. rewrite Z.pred_succ, Hc1 in *.
  split_and!; [done|congruence|].
  by replace (i + Z.succ (Z.of_nat k)) with (i + 1 + Z.of_nat k) by lia;
     replace (n + Z.succ (Z.of_nat k)) with (n + 1 + Z.of_nat k) by lia.
Qed.

(** ** Properties *)

(** C1: every call of [allocate], [allocate_next] and [release] on an allocator
    that represents a set of held addresses and a count is a step of the set
    specification [spec_step], error cases included: it returns what the
    specification returns, leaves an allocator that represents the new set, and
    does not panic. *)
Theorem allocator_refines_set (a : BitAllocator) (H : gset IpAddr) (n : Z) (o : op)
  (R : repr a H n) (Hn : n + 1 < 2 ^ 64) :
  exists r a' H' n', run_op o a = (r, a') /\ spec_step (cidr a) H n o r H' n' /\
    repr a' H' n' /\ cidr a' = cidr a.
Proof. exact (simulation a H n o R Hn). Qed.

(** On a fresh allocator [k] calls of [allocate_next] return the first [k]
    addresses of the CIDR in order (so no address twice), and once the whole
    block is handed out the next call returns [Full] and changes nothing. *)
Theorem allocate_next_exhausts (c : IpNet) (k : nat) (Hc : cidr_size c < 2 ^ 64)
  (Hk : Z.of_nat k <= cidr_size c) :
  exists a', take_n k (new c) = (Ok (addr_at c <$> seqZ 0 (Z.of_nat k)), a') /\
    NoDup (addr_at c <$> seqZ 0 (Z.of_nat k)) /\
    (Z.of_nat k = cidr_size c -> allocate_next a' = (Err Ipam.Full, a') /\ is_full a' = true).
Proof.
  assert (Hcn : cidr (new c) = c) by (by destruct c).
  assert (R0 : repr (new c) (first_k (cidr (new c)) 0) 0) by (by apply repr_new).
  destruct (take_from_prefix k 0 (new c) 0 0 R0) as (a' & Htake & Hca & R); [lia|rewrite Hcn; lia|lia|].
  rewrite Hcn in *. exists a'. split; [done|]. split.
  { apply NoDup_fmap_2; [|apply NoDup_seqZ]. intros x y Hxy.
    apply (f_equal (index_of c)) in Hxy. by rewrite !index_of_addr_at in Hxy. }
  intros Hfull. rewrite Z.add_0_l in R. rewrite Hfull in R.
  assert (Hall : forall j, 0 <= j < BitSet.size (allocator a') -> BitSet.mem (allocator a') j = true).
  { intros j Hj. rewrite (r_size _ _ _ R), Hca in Hj.
    pose proof (mem_held _ _ _ (addr_at c j) R) as Hm. rewrite Hca, index_of_addr_at in Hm.
    rewrite Hm by (by apply addr_at_contains). apply bool_decide_eq_true, elem_of_first_k. lia. }
  split; [|by apply BitSet.is_full_iff; [apply R|]].
  destruct (BitSet.set_next_run _ (r_wf _ _ _ R)) as [(i & ? & _ & Hi & Hfree & _)|[Hnext _]].
  { by rewrite Hall in Hfree. }
  by rewrite (next_run _ _ _ Hnext), eta.
Qed.

(** Index and address of a CIDR determine each other: [index_to_addr] of an
    index below the block size is an address of the CIDR whose [addr_to_index]
    is that index, every address of the CIDR has such an index, and an address
    outside the CIDR or of the other family is an error. *)
Theorem index_addr_roundtrip (c : IpNet) :
  (forall i, 0 <= i < cidr_size c -> exists x, index_to_addr i c = Ok x /\
     ipnet_contains c x = true /\ addr_to_index x c = Ok i) /\
  (forall x, ipnet_contains c x = true -> exists i, addr_to_index x c = Ok i /\
     0 <= i < cidr_size c /\ index_to_addr i c = Ok x) /\
  (forall x, ipnet_contains c x = false ->
     exists e, addr_to_index x c = Err e /\ out_of_cidr e).
Proof.
  split_and!.
  - intros i Hi. exists (addr_at c i). pose proof (addr_at_contains _ _ Hi) as Hx.
    by rewrite index_to_addr_ok, addr_to_index_ok, index_of_addr_at by done.
  - intros x Hx. exists (index_of c x). rewrite addr_to_index_ok by done.
    apply contains_index in Hx as [Hi Hx]. rewrite index_to_addr_ok by done. by rewrite <-Hx.
  - intros x Hx. by apply addr_to_index_err.
Qed.

(** [release] does not check that the address is held: releasing a free
    address of the block succeeds and uses up the count, after which the one
    address still held can no longer be released. *)
Theorem release_of_free_address (a : BitAllocator) (x y : IpAddr)
  (R : repr a {[x]} 1) (Hx : ipnet_contains (cidr a) x = true)
  (Hy : ipnet_contains (cidr a) y = true) (Hxy : x <> y) :
  exists a', release y a = (Ok y, a') /\ is_allocated a' x = Ok true /\
    release x a' = (Err Ipam.NoReleasableAddress, a').
Proof.
  destruct (simulation _ _ _ (ORelease y) R) as (r & a' & H' & n' & Hrun & Hst & R' & Hc); [done|].
  inversion Hst; subst; try congruence. exists a'. split; [done|]. rewrite <-Hc in Hx.
  split; [unfold is_allocated; rewrite addr_to_index_ok by done;
    rewrite BitSet.is_set_mem, (mem_held _ _ _ _ R' Hx), bool_decide_true; [done|set_solver|apply R'|by eapply index_lt_size]|].
  unfold release. mred. by rewrite (r_count _ _ _ R').
Qed.
End facts.

(** Witnesses, on 10.0.0.0/30. *)
Section witnesses.
#[local] Existing Instance simple_ipnet.
#[local] Existing Instance simple_ipnet_laws.
#[local] Existing Instance debug_profile.

Definition net30 : IpNet := NV4 (exist _ (167772160, 30) I : Net 32).

Lemma allocator_refines_set_witness :
  exists r a' H' n', run_op ONext (new net30) = (r, a') /\
    spec_step net30 ∅ 0 ONext r H' n' /\ repr a' H' n' /\ cidr a' = net30.
Proof.
  apply (allocator_refines_set (new net30) ∅ 0 ONext).
  - apply repr_new. by vm_compute.
  - lia.
Defined.

Lemma allocate_next_exhausts_witness :
  exists a', take_n 4 (new net30) = (Ok (addr_at net30 <$> seqZ 0 (Z.of_nat 4)), a') /\
    NoDup (addr_at net30 <$> seqZ 0 (Z.of_nat 4)) /\
    (Z.of_nat 4 = cidr_size net30 -> allocate_next a' = (Err Ipam.Full, a') /\ is_full a' = true).
Proof. apply (allocate_next_exhausts net30 4); by vm_compute. Defined.

Lemma index_addr_roundtrip_witness : exists x, index_to_addr 2 net30 = Ok x /\
  ipnet_contains net30 x = true /\ addr_to_index x net30 = Ok 2.
Proof. apply (proj1 (index_addr_roundtrip net30)). by vm_compute. Defined.

Definition held_one : BitAllocator := (allocate_next (new net30)).2.

Lemma release_of_free_address_witness :
  exists a', release (AV4 167772161) held_one = (Ok (AV4 167772161), a') /\
    is_allocated a' (AV4 167772160) = Ok true /\
    release (AV4 167772160) a' = (Err Ipam.NoReleasableAddress, a').
Proof.
  apply (release_of_free_address held_one (AV4 167772160) (AV4 167772161)); [|by vm_compute..].
  destruct (next_from_prefix (new net30) 0 0) as (a' & Hn & _ & R); [|by vm_compute..|].
  - apply repr_new. by vm_compute.
  - unfold held_one. rewrite Hn. exact R.
Defined.
End witnesses.
End BitAllocator.

Module Allocator.
Section defs.
Context {I : IpNetApi} {P : Profile}.

Inductive AllocatorMethod : Type := MBit.

Inductive Allocator : Type := Bit (a : BitAllocator.BitAllocator).

Definition MAX_SIZE : Z := 32.

Definition new (cidr : IpNet) (method : AllocatorMethod) : res Ipam.Error Allocator :=
  let build := match method with MBit => Ok (Bit (BitAllocator.new cidr)) end in
  match cidr with
  | NV6 c => if MAX_SIZE <? 128 - net_prefix_len c
             then Err (Ipam.CIDRTooLarge (net_prefix_len c)) else build
  | NV4 _ => build
  end.

Definition unBit (a : Allocator) : BitAllocator.BitAllocator := match a with Bit a => a end.

Definition on_bit {A} (m : M BitAllocator.BitAllocator Ipam.Error A) : M Allocator Ipam.Error A :=
  zoom unBit (fun b _ => Bit b) m.

Definition prefix_len (a : Allocator) : Z := BitAllocator.prefix_len (unBit a).
Definition allocate (addr : IpAddr) (force : bool) : M Allocator Ipam.Error IpAddr :=
  on_bit (BitAllocator.allocate addr force).
Definition allocate_next : M Allocator Ipam.Error IpAddr := on_bit BitAllocator.allocate_next.
Definition release (addr : IpAddr) : M Allocator Ipam.Error IpAddr :=
  on_bit (BitAllocator.release addr).
Definition is_allocated (a : Allocator) (addr : IpAddr) : res BitSet.BitSetError bool :=
  BitAllocator.is_allocated (unBit a) addr.
Definition is_empty (a : Allocator) : res BitSet.BitSetError bool :=
  BitAllocator.is_empty (unBit a).
Definition is_full (a : Allocator) : bool := BitAllocator.is_full (unBit a).
Definition cidr (a : Allocator) : IpNet := BitAllocator.cidr (unBit a).
End defs.
End Allocator.
