(* ===== verification/IpamManager.v ===== *)
(** * Blocks, pools and allocation records ([sartd/src/ipam/src/manager.rs])

    [AllocatorSetInner] (the blocks of a controller or agent and the one block
    that is assigned from by default), [AllocationInfo] (which addresses of
    which block an object holds), [BlockAllocatorInner] (the pools) and [Pool]
    (which blocks of a pool are in use). A [HashMap] is a [gmap]; where the code
    iterates over one, the order is a parameter. A [BTreeMap] is a [gmap] whose
    iteration is in key order. *)

From S2P Require Import Prelude Net IpamBitset IpamAllocator.

Module Block.
Section defs.
Context {I : IpNetApi}.

Record Block : Type := mkBlock {
  name : string;
  pool_name : string;
  allocator : Allocator.Allocator;
}.

Definition new (name pool_name : string) (cidr : IpNet) : res Ipam.Error Block :=
  a ← Allocator.new cidr Allocator.MBit;
  mret (mkBlock name pool_name a).
End defs.
End Block.

Module AllocationInfo.
(** [AllocationInfo::blocks]: block name to addresses. *)
Record AllocationInfo : Type := mkInfo { blocks : gmap string (list IpAddr) }.

Definition insert (block : string) (addr : IpAddr) (i : AllocationInfo) : AllocationInfo :=
  match blocks i !! block with
  | Some b => if decide (addr ∈ b) then i
              else mkInfo (<[block := b ++ [addr]]> (blocks i))
  | None => mkInfo (<[block := [addr]]> (blocks i))
  end.

Definition remove (block : string) (addr : IpAddr) (i : AllocationInfo) : AllocationInfo :=
  match blocks i !! block with
  | Some b =>
      let b' := filter (fun a => addr <> a) b in
      let blocks := <[block := b']> (blocks i) in
      match b' with
      | [] => mkInfo (delete block blocks)
      | _ => mkInfo blocks
      end
  | None => i
  end.

Definition get (block : string) (i : AllocationInfo) : option (list IpAddr) :=
  blocks i !! block.

(** [held i blk a]: the record says that [a] of block [blk] is in use. *)
Definition held (i : AllocationInfo) (blk : string) (a : IpAddr) : Prop :=
  exists l, get blk i = Some l /\ a ∈ l.

(** No block is listed without an address, and no address is listed twice. *)
Definition ok (i : AllocationInfo) : Prop :=
  forall blk l, get blk i = Some l -> NoDup l /\ l <> [].

(** [get] of the updated record, block by block. *)
Lemma get_insert i blk a blk' :
  get blk' (insert blk a i) =
    if decide (blk = blk') then
      Some (match get blk i with
            | Some l => if decide (a ∈ l) then l else l ++ [a]
            | None => [a]
            end)
    else get blk' i.
Proof.
  unfold get, insert. destruct (blocks i !! blk) as [l|] eqn:Hl.
  - destruct (decide (a ∈ l)); destruct (decide (blk = blk')) as [<-|]; cbn; by simplify_map_eq.
  - destruct (decide (blk = blk')) as [<-|]; cbn; by simplify_map_eq.
Qed.

Lemma get_remove i blk a blk' :
  get blk' (remove blk a i) =
    if decide (blk = blk') then
      match filter (fun x => a <> x) (default [] (get blk i)) with [] => None | l => Some l end
    else get blk' i.
Proof.
  unfold get, remove. destruct (blocks i !! blk) as [l|] eqn:Hl; cbn.
  - destruct (filter _ l) eqn:Hf; destruct (decide (blk = blk')) as [<-|]; cbn; by simplify_map_eq.
  - destruct (decide (blk = blk')) as [<-|]; [done|done].
Qed.

Lemma held_some (X : list IpAddr) a : (exists l, Some X = Some l /\ a ∈ l) <-> a ∈ X.
Proof. naive_solver. Qed.

Lemma held_none (a : IpAddr) : (exists l : list IpAddr, None = Some l /\ a ∈ l) <-> False.
Proof. naive_solver. Qed.

(** The allocation record of an object behaves as a set of (block, address)
    pairs: [insert] adds exactly one pair, [remove] drops exactly one, and both
    keep the lists free of duplicates and of empty entries, so a block is listed
    only while one of its addresses is in use. *)
Theorem allocation_info_spec (i : AllocationInfo) (blk : string) (a : IpAddr) (Hok : ok i) :
  ok (insert blk a i) /\ ok (remove blk a i) /\
  (forall blk' a', held (insert blk a i) blk' a' <-> (blk' = blk /\ a' = a) \/ held i blk' a') /\
  (forall blk' a', held (remove blk a i) blk' a' <-> held i blk' a' /\ ~ (blk' = blk /\ a' = a)).
Proof.
  split_and!.
  - intros blk' l. rewrite get_insert. destruct (decide (blk = blk')) as [<-|]; [|apply Hok].
    intros [= <-]. destruct (get blk i) as [l|] eqn:Hl; [|split; [apply NoDup_singleton|done]].
    destruct (Hok _ _ Hl) as [Hnd Hne]. case_decide; [done|].
    split; [|by destruct l]. apply NoDup_app. split_and!; [done|set_solver|apply NoDup_singleton].
  - intros blk' l. rewrite get_remove. destruct (decide (blk = blk')) as [<-|]; [|apply Hok].
    destruct (filter _ _) as [|x l'] eqn:Hf; [done|]. intros [= <-]. split; [|done].
    rewrite <-Hf. apply NoDup_filter. destruct (get blk i) as [l|] eqn:Hl; [|constructor].
    by destruct (Hok _ _ Hl).
  - intros blk' a'. unfold held. rewrite get_insert. destruct (decide (blk = blk')) as [<-|]; [|naive_solver].
    rewrite held_some. destruct (get blk i) as [l|]; [rewrite held_some; case_decide|rewrite held_none];
      rewrite ?elem_of_app, ?list_elem_of_singleton; naive_solver.
  - intros blk' a'. unfold held. rewrite get_remove. destruct (decide (blk = blk')) as [<-|]; [|naive_solver].
    assert (Hf : forall y, y ∈ filter (fun x => a <> x) (default [] (get blk i)) <->
      a <> y /\ y ∈ default [] (get blk i)) by (intros y; by rewrite list_elem_of_filter).
    destruct (filter _ _) as [|x l'] eqn:Hfe; destruct (get blk i) as [l|] eqn:Hl; cbn in *;
      rewrite ?held_some, ?held_none; specialize (Hf a'); rewrite ?elem_of_nil in Hf; naive_solver.
Qed.

Lemma allocation_info_spec_witness :
  let i := insert "b" (AV4 1) (mkInfo ∅) in
  ok (insert "b" (AV4 2) i) /\ ok (remove "b" (AV4 2) i) /\
  (forall blk' a', held (insert "b" (AV4 2) i) blk' a' <-> (blk' = "b" /\ a' = AV4 2) \/ held i blk' a') /\
  (forall blk' a', held (remove "b" (AV4 2) i) blk' a' <-> held i blk' a' /\ ~ (blk' = "b" /\ a' = AV4 2)).
Proof.
  apply allocation_info_spec. intros blk l. rewrite get_insert. cbn.
  case_decide; [|unfold get; cbn; by rewrite lookup_empty]. intros [= <-].
  split; [apply NoDup_singleton|done].
Defined.
End AllocationInfo.

Module AllocatorSetInner.
Section defs.
Context {I : IpNetApi}.

Record AllocatorSetInner : Type := mkSet {
  blocks : gmap string Block.Block;
  alloc_info : gmap string AllocationInfo.AllocationInfo;
  auto_assign : option string;
}.

Definition new : AllocatorSetInner := mkSet ∅ ∅ None.

Definition insert (block : Block.Block) (auto : bool) :
    M AllocatorSetInner Ipam.Error (option Block.Block) :=
  s ← get_st;
  (if auto then
     match auto_assign s with
     | Some _ => throw Ipam.AutoAssignableBlockAlreadyExists
     | None => put_st (mkSet (blocks s) (alloc_info s) (Some (Block.name block)))
     end
   else mret tt) ;;
  s ← get_st;
  put_st (mkSet (<[Block.name block := block]> (blocks s)) (alloc_info s) (auto_assign s)) ;;
  mret (blocks s !! Block.name block).

Definition remove (name : string) (s : AllocatorSetInner) : option Block.Block * AllocatorSetInner :=
  let auto := match auto_assign s with
              | Some a => if decide (a = name) then None else Some a
              | None => None
              end in
  (blocks s !! name, mkSet (delete name (blocks s)) (alloc_info s) auto).

Definition get (s : AllocatorSetInner) (name : string) : option Block.Block := blocks s !! name.

(** [get_mut]: the block found is replaced by what the caller makes of it. *)
Definition get_mut (name : string) (f : Block.Block -> Block.Block) (s : AllocatorSetInner) :
    AllocatorSetInner :=
  mkSet (alter f name (blocks s)) (alloc_info s) (auto_assign s).

(** The two loops of [get_blocks_from_addrs]; [iter] is the order in which the
    block map is visited. *)
Definition push_addr (addr : IpAddr) (r : gmap string (list IpAddr)) (nb : string * Block.Block) :
    gmap string (list IpAddr) :=
  if ipnet_contains (Allocator.cidr (Block.allocator nb.2)) addr then
    match r !! nb.1 with
    | Some a => <[nb.1 := a ++ [addr]]> r
    | None => <[nb.1 := [addr]]> r
    end
  else r.

Definition get_blocks_from_addrs (iter : gmap string Block.Block -> list (string * Block.Block))
    (s : AllocatorSetInner) (addrs : list IpAddr) : gmap string (list IpAddr) :=
  foldl (fun r addr => foldl (push_addr addr) r (iter (blocks s))) ∅ addrs.

(** ** Runs of the set's operations *)

Inductive op : Type :=
| OInsert (b : Block.Block) (auto : bool)
| ORemove (n : string)
| OUpdate (n : string) (f : Block.Block -> Block.Block).

Definition step (s : AllocatorSetInner) (o : op) : AllocatorSetInner :=
  match o with
  | OInsert b auto => (insert b auto s).2
  | ORemove n => (remove n s).2
  | OUpdate n f => get_mut n f s
  end.

(** The block assigned from by default is one of the blocks. *)
Definition auto_ok (s : AllocatorSetInner) : Prop :=
  forall n, auto_assign s = Some n -> is_Some (blocks s !! n).

Lemma insert_run b auto s :
  insert b auto s =
    if auto then
      match auto_assign s with
      | Some _ => (Err Ipam.AutoAssignableBlockAlreadyExists, s)
      | None => (Ok (blocks s !! Block.name b),
                 mkSet (<[Block.name b := b]> (blocks s)) (alloc_info s) (Some (Block.name b)))
      end
    else (Ok (blocks s !! Block.name b),
          mkSet (<[Block.name b := b]> (blocks s)) (alloc_info s) (auto_assign s)).
Proof. unfold insert. mred. destruct auto; [|done]. by destruct (auto_assign s) eqn:H. Qed.

Lemma step_auto_ok s o : auto_ok s -> auto_ok (step s o).
Proof.
  intros Hs. destruct o as [b auto|n|n f]; cbn [step].
  - rewrite insert_run. destruct auto; [destruct (auto_assign s) eqn:Ha|]; cbn [snd]; [done|..];
      intros n; cbn; rewrite lookup_insert_is_Some'; [naive_solver|]. intros Hn. auto.
  - intros m. cbn. destruct (auto_assign s) as [a|] eqn:Ha; [|done].
    case_decide as Hne; [done|]. intros [= <-]. rewrite lookup_delete_ne by congruence. by apply Hs.
  - intros m Hm. cbn in *. rewrite lookup_alter. case_decide; [|by apply Hs].
    subst. apply fmap_is_Some. by apply Hs.
Qed.

(** In every state the set of blocks reaches from [new] by inserting,
    removing and updating blocks, the block marked for automatic assignment
    exists; a second insertion with [auto_assign] is refused with
    [AutoAssignableBlockAlreadyExists] and changes nothing, and removing the
    marked block clears the mark. *)
Theorem auto_assign_block_exists (ops : list op) :
  let s := foldl step new ops in
  auto_ok s /\
  (forall b, is_Some (auto_assign s) -> insert b true s = (Err Ipam.AutoAssignableBlockAlreadyExists, s)) /\
  (forall n, auto_assign s = Some n -> auto_assign (remove n s).2 = None).
Proof.
  intros s. split_and!.
  - subst s. assert (H : auto_ok new) by done. revert H. generalize new. induction ops as [|o ops IH]; intros s0 H0; [done|].
    cbn. apply IH. by apply step_auto_ok.
  - intros b [n Hn]. by rewrite insert_run, Hn.
  - intros n Hn. cbn. rewrite Hn. by rewrite decide_True.
Qed.

(** ** Recovering the blocks of a list of addresses *)

Lemma push_addr_lookup addr r l n : NoDup l.*1 ->
  foldl (push_addr addr) r l !! n =
    match (list_to_map l : gmap string Block.Block) !! n with
    | Some b => if ipnet_contains (Allocator.cidr (Block.allocator b)) addr
                then Some (default [] (r !! n) ++ [addr]) else r !! n
    | None => r !! n
    end.
Proof.
  revert r. induction l as [|[k b] l IH]; intros r Hnd; [done|]. cbn in *.
  apply NoDup_cons in Hnd as [Hk Hnd]. rewrite IH by done. clear IH.
  assert (Hkl : (list_to_map l : gmap string Block.Block) !! k = None) by (by apply not_elem_of_list_to_map_1).
  destruct (decide (k = n)) as [->|Hne].
  - rewrite Hkl, lookup_insert_eq. unfold push_addr. cbn.
    destruct (ipnet_contains _ addr); [|done]. destruct (r !! n); by rewrite lookup_insert_eq.
  - rewrite lookup_insert_ne by done. unfold push_addr. cbn.
    destruct (ipnet_contains _ addr) eqn:Hc; [|done].
    by destruct (r !! k); rewrite lookup_insert_ne by done.
Qed.

(** Whatever order the block map is visited in, [get_blocks_from_addrs]
    gives each block exactly the addresses of the argument its CIDR contains, in
    the argument's order, and lists no block without an address. *)
Theorem get_blocks_from_addrs_spec (iter : gmap string Block.Block -> list (string * Block.Block))
  (Hiter : forall m, iter m ≡ₚ map_to_list m) (s : AllocatorSetInner) (addrs : list IpAddr) (n : string) :
  get_blocks_from_addrs iter s addrs !! n =
    match blocks s !! n with
    | Some b => match filter (fun a => ipnet_contains (Allocator.cidr (Block.allocator b)) a = true) addrs with
                | [] => None
                | l => Some l
                end
    | None => None
    end.
Proof.
  assert (Hnd : NoDup (iter (blocks s)).*1) by (rewrite Hiter; apply NoDup_fst_map_to_list).
  assert (Hmap : list_to_map (iter (blocks s)) = blocks s).
  { rewrite <-(list_to_map_to_list (blocks s)) at 2. by apply list_to_map_proper. }
  unfold get_blocks_from_addrs. induction addrs as [|a addrs IH] using rev_ind.
  { cbn. rewrite lookup_empty. by destruct (blocks s !! n). }
  rewrite foldl_app. cbn. rewrite push_addr_lookup, Hmap, IH by done.
  destruct (blocks s !! n) as [b|]; [|done]. rewrite filter_app, filter_cons, filter_nil.
  case_decide as Hc; destruct (ipnet_contains _ a) eqn:Hc'; try done.
  - by destruct (filter _ addrs).
  - by rewrite app_nil_r.
Qed.
End defs.

Section witnesses.
#[local] Existing Instance simple_ipnet.

Definition block30 : Block.Block :=
  Block.mkBlock "b" "p" (Allocator.Bit (BitAllocator.new BitAllocator.net30)).

Lemma get_blocks_from_addrs_spec_witness :
  get_blocks_from_addrs map_to_list (mkSet {["b" := block30]} ∅ None)
    [AV4 167772161; AV4 5; AV4 167772160] !! "b" = Some [AV4 167772161; AV4 167772160].
Proof.
  rewrite (get_blocks_from_addrs_spec map_to_list); [by vm_compute|]. intros m. reflexivity.
Defined.
End witnesses.
End AllocatorSetInner.

Module Pool.
Section defs.
Context {I : IpNetApi} {P : Profile}.

Record Pool : Type := mkPool {
  cidr : IpNet;
  size : Z;
  block_size : Z;
  allocator : BitSet.BitSet;
  blocks : gmap string Z;
  counter : Z;
}.

Definition new (cidr : IpNet) (block_size : Z) : res Ipam.Error Pool :=
  let prefix_len := ipnet_prefix_len cidr in
  e ← ovf 32 (block_size - prefix_len);
  bitset_size ← ovf 128 (2 ^ e);
  mret (mkPool cidr prefix_len block_size (BitSet.new bitset_size) ∅ 0).

Definition set_allocator (b : BitSet.BitSet) (p : Pool) : Pool :=
  mkPool (cidr p) (size p) (block_size p) b (blocks p) (counter p).
Definition set_blocks (m : gmap string Z) (p : Pool) : Pool :=
  mkPool (cidr p) (size p) (block_size p) (allocator p) m (counter p).

Definition allocate (name : string) : M Pool Ipam.Error Z :=
  index ← zoom allocator set_allocator (map_err Ipam.BitSetE BitSet.set_next);
  modify (fun p => set_blocks (<[name := wrap 32 index]> (blocks p)) p) ;;
  p ← get_st;
  c ← lift (ovf 32 (counter p + 1));
  put_st (mkPool (cidr p) (size p) (block_size p) (allocator p) (blocks p) c) ;;
  mret index.

Definition allocate_with (index : Z) (name : string) : M Pool Ipam.Error Z :=
  index ← zoom allocator set_allocator (map_err Ipam.BitSetE (BitSet.set index true));
  modify (fun p => set_blocks (<[name := wrap 32 index]> (blocks p)) p) ;;
  mret index.

(** Iteration over a [BTreeMap<String, _>]. *)
Definition key_le (a b : string * Z) : Prop := String.leb a.1 b.1 = true.
#[global] Instance key_le_dec a b : Decision (key_le a b).
Proof. unfold key_le. apply _. Defined.
Definition btree_iter (m : gmap string Z) : list (string * Z) := merge_sort key_le (map_to_list m).

Definition find_name (index : Z) (m : gmap string Z) : string :=
  match list_find (fun ni => index = ni.2) (btree_iter m) with
  | Some (_, (n, _)) => n
  | None => EmptyString
  end.

Definition release (index : Z) : M Pool Ipam.Error unit :=
  zoom allocator set_allocator (map_err Ipam.BitSetE (BitSet.set index false)) ;;
  p ← get_st;
  let name := find_name index (blocks p) in
  put_st (set_blocks (delete name (blocks p)) p).

(** ** Invariant *)

(** Every recorded block is a taken index of the bit set, and no two blocks
    share an index. The index fits the [u32] it is stored in. *)
Record ok (p : Pool) : Prop := {
  ok_wf : BitSet.wf (allocator p);
  ok_size : BitSet.size (allocator p) <= 2 ^ 32;
  ok_taken n i : blocks p !! n = Some i ->
    0 <= i < BitSet.size (allocator p) /\ BitSet.mem (allocator p) i = true;
  ok_inj n m i : blocks p !! n = Some i -> blocks p !! m = Some i -> n = m;
}.

Lemma btree_iter_perm m : btree_iter m ≡ₚ map_to_list m.
Proof. apply merge_sort_Permutation. Qed.

Lemma elem_of_btree_iter m n i : (n, i) ∈ btree_iter m <-> m !! n = Some i.
Proof. rewrite btree_iter_perm. apply elem_of_map_to_list. Qed.

Lemma find_name_found m n i :
  m !! n = Some i -> (forall n', m !! n' = Some i -> n' = n) -> find_name i m = n.
Proof.
  intros Hn Huniq. unfold find_name.
  destruct (list_find _ _) as [[k [n' i']]|] eqn:Hf.
  - apply list_find_Some in Hf as (Hk & Hi & _). cbn in Hi. subst i'.
    apply Huniq, elem_of_btree_iter. by eapply list_elem_of_lookup_2.
  - eapply list_find_None, Forall_forall in Hf; [|by apply elem_of_btree_iter]. done.
Qed.

Lemma pool_allocate_run name p r b' : BitSet.set_next (allocator p) = (r, b') ->
  allocate name p =
    match r with
    | Ok i => (p ← get_st; c ← lift (ovf 32 (counter p + 1));
               put_st (mkPool (cidr p) (size p) (block_size p) (allocator p) (blocks p) c) ;; mret i)
              (mkPool (cidr p) (size p) (block_size p) b' (<[name := wrap 32 i]> (blocks p)) (counter p))
    | Err e => (Err (Ipam.BitSetE e), set_allocator b' p)
    | Panic => (Panic, set_allocator b' p)
    end.
Proof. intros H. unfold allocate. mred. rewrite H. by destruct r. Qed.

(** ** Properties *)

(** For a pool whose invariant holds, [allocate] with a new block name
    returns an index no other block of the pool has and records the block under
    it, or reports the bit set's [Full] when every index of the pool is in use;
    the invariant holds afterwards. *)
Theorem pool_allocate_spec (p : Pool) (name : string) (Hok : ok p)
  (Hname : blocks p !! name = None) (Hcount : 0 <= counter p < 2 ^ 32 - 1) :
  (exists i p', allocate name p = (Ok i, p') /\ 0 <= i < BitSet.size (allocator p) /\
     (forall n, blocks p !! n <> Some i) /\ blocks p' = <[name := i]> (blocks p) /\
     counter p' = counter p + 1 /\ ok p') \/
  (allocate name p = (Err (Ipam.BitSetE BitSet.Full), p) /\
     forall i, 0 <= i < BitSet.size (allocator p) -> BitSet.mem (allocator p) i = true).
Proof.
  destruct Hok as [Hwf Hsz Htaken Hinj].
  destruct (BitSet.set_next_run _ Hwf) as [(i & b' & Hnext & Hi & Hfree & _ & Hwf' & Hsz' & Hmem)|(Hnext & Hall)];
    [left|right; rewrite (pool_allocate_run _ _ _ _ Hnext); by destruct p].
  rewrite (pool_allocate_run _ _ _ _ Hnext). mred. cbn [counter]. rewrite ovf_small by (split; lia).
  rewrite wrap_small by (split; lia). eexists i, _. split; [done|]. cbn.
  assert (Hnew : forall n, blocks p !! n <> Some i).
  { intros n Hn. apply Htaken in Hn. naive_solver congruence. }
  split_and!; [lia|lia|done|done|done|]. split; cbn; [done|lia| |].
  - intros n k. destruct (decide (name = n)) as [<-|Hne]; simplify_map_eq.
    + intros [= <-]. split; [lia|]. by rewrite Hmem, Z.eqb_refl by lia.
    + intros Hk. destruct (Htaken _ _ Hk) as [Hr Hm]. split; [lia|].
      rewrite Hmem, Hm by lia. apply orb_true_r.
  - intros n m k. destruct (decide (name = n)) as [<-|], (decide (name = m)) as [<-|]; simplify_map_eq;
      naive_solver.
Qed.

(** Releasing the index of a recorded block clears that index, forgets
    exactly that block and keeps the pool's invariant. *)
Theorem pool_release_spec (p : Pool) (n : string) (i : Z) (Hok : ok p)
  (Hn : blocks p !! n = Some i) :
  exists p', release i p = (Ok tt, p') /\ blocks p' = delete n (blocks p) /\
    (forall j, 0 <= j -> BitSet.mem (allocator p') j = negb (j =? i) && BitSet.mem (allocator p) j) /\
    ok p'.
Proof.
  destruct Hok as [Hwf Hsz Htaken Hinj]. destruct (Htaken _ _ Hn) as [Hi _].
  destruct (BitSet.set_spec _ _ false Hwf Hi) as (b' & Hset & Hwf' & Hsz' & Hmem).
  unfold release. mred. rewrite Hset. cbn. rewrite (find_name_found _ n) by eauto.
  eexists. split; [done|]. cbn. split; [done|]. split.
  { intros j Hj. rewrite Hmem by done. by destruct (j =? i). }
  split; cbn; [done|lia| |].
  - intros m k Hk. apply lookup_delete_Some in Hk as [Hne Hk]. destruct (Htaken _ _ Hk) as [Hr Hm].
    split; [lia|]. rewrite Hmem by lia. destruct (Z.eqb_spec k i) as [->|]; [|done].
    by destruct Hne; eapply Hinj.
  - intros n1 n2 k Hk1 Hk2. apply lookup_delete_Some in Hk1 as [_ Hk1], Hk2 as [_ Hk2]. eauto.
Qed.

Lemma ok_new c bs p : 0 <= bs - ipnet_prefix_len c <= 32 -> new c bs = Ok p -> ok p.
Proof.
  intros Hbs. unfold new. rewrite ovf_small by (split; lia). mred.
  assert (2 ^ (bs - ipnet_prefix_len c) <= 2 ^ 32) by (apply Z.pow_le_mono_r; lia).
  assert (0 < 2 ^ (bs - ipnet_prefix_len c)) by (apply Z.pow_pos_nonneg; lia).
  rewrite ovf_small by (split; lia). intros [= <-]. split; cbn; [by apply BitSet.wf_new; lia|lia|..];
    intros *; by rewrite lookup_empty.
Qed.
End defs.

Section witnesses.
#[local] Existing Instance simple_ipnet.
#[local] Existing Instance release_profile.

Definition pool2 : Pool := mkPool BitAllocator.net30 30 32 (BitSet.new 4) ∅ 0.

Lemma ok_pool2 : ok pool2.
Proof. by apply (ok_new BitAllocator.net30 32); [vm_compute|]. Qed.

Lemma pool_allocate_spec_witness :
  (allocate "a" pool2).1 = Ok 0 /\
  ((exists i p', allocate "a" pool2 = (Ok i, p') /\ 0 <= i < BitSet.size (allocator pool2) /\
     (forall n, blocks pool2 !! n <> Some i) /\ blocks p' = <["a" := i]> (blocks pool2) /\
     counter p' = counter pool2 + 1 /\ ok p') \/
  (allocate "a" pool2 = (Err (Ipam.BitSetE BitSet.Full), pool2) /\
     forall i, 0 <= i < BitSet.size (allocator pool2) -> BitSet.mem (allocator pool2) i = true)).
Proof.
  split; [vm_compute; reflexivity|]. apply pool_allocate_spec; [exact ok_pool2|done|cbn; lia].
Defined.

Definition pool_a : Pool := mkPool BitAllocator.net30 30 32 (BitSet.mkBitSet [1] 4) {["a" := 0]} 1.

Lemma pool_release_spec_witness :
  exists p', release 0 pool_a = (Ok tt, p') /\ blocks p' = delete "a" (blocks pool_a) /\
    (forall j, 0 <= j -> BitSet.mem (allocator p') j = negb (j =? 0) && BitSet.mem (allocator pool_a) j) /\
    ok p'.
Proof.
  apply (pool_release_spec pool_a "a" 0); [|done].
  split; unfold pool_a; cbn [allocator blocks].
  - by apply (bool_decide_unpack _); vm_compute.
  - by vm_compute.
  - intros n i Hn. apply lookup_singleton_Some in Hn as [<- <-]. by vm_compute.
  - intros n m i Hn Hm. apply lookup_singleton_Some in Hn as [<- _], Hm as [<- _]. done.
Defined.
End witnesses.
End Pool.

Module BlockAllocatorInner.
Section defs.
Context {I : IpNetApi}.
Record BlockAllocatorInner : Type := mkInner { pools : gmap string Pool.Pool }.

Definition insert (name : string) (pool : Pool.Pool) (b : BlockAllocatorInner) : BlockAllocatorInner :=
  mkInner (<[name := pool]> (pools b)).
Definition get (b : BlockAllocatorInner) (name : string) : option Pool.Pool := pools b !! name.
Definition get_mut (name : string) (f : Pool.Pool -> Pool.Pool) (b : BlockAllocatorInner) : BlockAllocatorInner :=
  mkInner (alter f name (pools b)).
Definition release (name : string) (b : BlockAllocatorInner) : BlockAllocatorInner :=
  mkInner (delete name (pools b)).
End defs.
End BlockAllocatorInner.
