(* ===== verification/BgpFsm.v ===== *)
(** * The BGP finite state machine

    [Event] has the event numbers of [bgp/src/event.rs]; [Fsm] is
    [FiniteStateMachine] of [bgp/src/peer/fsm.rs] with its transition function
    [mv], the state diagram that [docs/design.md] gives for it, and the runs of
    the machine on a sequence of events. *)

From S2P Require Import Prelude.

Module EventCode.
Definition AMDIN_MANUAL_START : Z := 1.
Definition ADMIN_MANUAL_STOP : Z := 2.
Definition ADMIN_AUTOMATIC_START : Z := 3.
Definition ADMIN_MANUAL_START_WITH_PASSIVE_TCP_ESTABLISHMENT : Z := 4.
Definition ADMIN_AUTOMATIC_START_WITH_PASSIVE_TCP_ESTABLISHMENT : Z := 5.
Definition ADMIN_AUTOMATIC_START_WITH_DAMP_PEER_OSCILLATIONS : Z := 6.
Definition ADMIN_AUTOMATIC_START_WITH_DAMP_PEER_OSCILLATIONS_AND_PASSIVE_TCP_ESTABLISHMENT : Z := 7.
Definition ADMIN_AUTOMATIC_STOP : Z := 8.
Definition TIMER_CONNECT_RETRY_TIMER_EXPIRE : Z := 9.
Definition TIMER_HOLD_TIMER_EXPIRE : Z := 10.
Definition TIMER_KEEPALIVE_TIMER_EXPIRE : Z := 11.
Definition TIMER_DELAY_OPEN_TIMER_EXPIRE : Z := 12.
Definition TIMER_IDLE_HOLD_TIMER_EXPIRE : Z := 13.
Definition CONNECTION_TCP_CONNECTION_VALID : Z := 14.
Definition CONNECTION_TCP_CR_INVALID : Z := 15.
Definition CONNECTION_TCP_CR_ACKED : Z := 16.
Definition CONNECTION_TCP_CONNECTION_CONFIRMED : Z := 17.
Definition CONNECTION_TCP_CONNECTION_FAIL : Z := 18.
Definition MESSAGE_BGP_OPEN : Z := 19.
Definition MESSAGE_BGP_OPEN_WITH_DELAY_OPEN_TIMER_RUNNING : Z := 20.
Definition MESSAGE_BGP_HEADER_ERROR : Z := 21.
Definition MESSAGE_BGP_OPEN_MSG_ERROR : Z := 22.
Definition MESSAGE_OPEN_COLLISION_DUMP : Z := 23.
Definition MESSAGE_NOTIF_MSG_ERROR : Z := 24.
Definition MESSAGE_NOTIF_MSG : Z := 25.
Definition MESSAGE_KEEPALIVE_MSG : Z := 26.
Definition MESSAGE_UPDATE_MSG : Z := 27.
Definition MESSAGE_UPDATE_MSG_ERROR : Z := 28.
End EventCode.

Module Fsm.
Import EventCode.

Inductive State : Type :=
| Idle | Connect | Active | OpenSent | OpenConfirm | Established.

#[global] Instance State_eq_dec : EqDecision State.
Proof. solve_decision. Defined.

(** [state as u32] *)
Definition state_code (s : State) : Z :=
  match s with
  | Idle => 1 | Connect => 2 | Active => 3 | OpenSent => 4 | OpenConfirm => 5 | Established => 6
  end.

Record FiniteStateMachine : Type := { state : State }.

Definition new : FiniteStateMachine := {| state := Idle |}.

Definition get_state (f : FiniteStateMachine) : State := state f.

(** [match event { a | b | c => ..., ... }] *)
Definition one_of (event : Z) (l : list Z) : bool := existsb (Z.eqb event) l.

Definition next_state (current : State) (event : Z) : State :=
  match current with
  | Idle =>
      if one_of event [AMDIN_MANUAL_START; ADMIN_AUTOMATIC_START] then Connect
      else if one_of event
        [ADMIN_AUTOMATIC_START_WITH_PASSIVE_TCP_ESTABLISHMENT;
         ADMIN_AUTOMATIC_START_WITH_DAMP_PEER_OSCILLATIONS;
         ADMIN_AUTOMATIC_START_WITH_DAMP_PEER_OSCILLATIONS_AND_PASSIVE_TCP_ESTABLISHMENT;
         ADMIN_MANUAL_START_WITH_PASSIVE_TCP_ESTABLISHMENT] then Active
      else current
  | Connect =>
      if one_of event [TIMER_DELAY_OPEN_TIMER_EXPIRE; CONNECTION_TCP_CR_ACKED;
                   CONNECTION_TCP_CONNECTION_CONFIRMED] then OpenSent
      else if one_of event [CONNECTION_TCP_CONNECTION_FAIL] then Active
      else if one_of event [1; 3; 4; 5; 6; 7; 9; 14; 15] then current
      else Idle
  | Active =>
      if one_of event [TIMER_CONNECT_RETRY_TIMER_EXPIRE] then Connect
      else if one_of event [TIMER_DELAY_OPEN_TIMER_EXPIRE; CONNECTION_TCP_CR_ACKED;
                        CONNECTION_TCP_CONNECTION_CONFIRMED] then OpenSent
      else if one_of event [MESSAGE_BGP_OPEN] then OpenConfirm
      else if one_of event [1; 3; 4; 5; 6; 7; 14; 15] then current
      else Idle
  | OpenSent =>
      if one_of event [CONNECTION_TCP_CONNECTION_FAIL] then Active
      else if one_of event [MESSAGE_BGP_OPEN] then OpenConfirm
      else if one_of event [1; 3; 4; 5; 6; 7; 14; 15; 16; 17] then current
      else Idle
  | OpenConfirm =>
      if one_of event [MESSAGE_BGP_OPEN] then Idle
      else if one_of event [MESSAGE_KEEPALIVE_MSG] then Established
      else if one_of event [1; 3; 4; 5; 6; 7; 14; 15; TIMER_KEEPALIVE_TIMER_EXPIRE] then current
      else Idle
  | Established =>
      if one_of event [MESSAGE_KEEPALIVE_MSG; MESSAGE_UPDATE_MSG] then current
      else if one_of event [1; 3; 4; 5; 6; 7; 14; 15; TIMER_KEEPALIVE_TIMER_EXPIRE] then current
      else Idle
  end.

Definition mv (event : Z) (f : FiniteStateMachine) : State * FiniteStateMachine :=
  let current := get_state f in
  let new_state := next_state current event in
  (new_state, {| state := new_state |}).

(** The state diagram of [docs/design.md]. *)
Definition diagram (s : State) (event : Z) : State :=
  match s with
  | Idle => if one_of event [1] then Connect else Idle
  | Connect =>
      if one_of event [1; 9; 14] then Connect else if one_of event [18] then Active
      else if one_of event [16; 17] then OpenSent else Idle
  | Active =>
      if one_of event [16; 17] then OpenSent else if one_of event [19] then OpenConfirm
      else if one_of event [9] then Connect else if one_of event [1; 14] then Active else Idle
  | OpenSent =>
      if one_of event [1; 14; 16; 17] then OpenSent else if one_of event [18] then Active
      else if one_of event [19] then OpenConfirm else Idle
  | OpenConfirm =>
      if one_of event [1; 11; 14; 16; 17] then OpenConfirm
      else if one_of event [26] then Established else Idle
  | Established => if one_of event [1; 11; 26; 27] then Established else Idle
  end.

(** A sequence of events handled one after the other. *)
Inductive run : FiniteStateMachine -> list Z -> FiniteStateMachine -> Prop :=
| run_nil f : run f [] f
| run_snoc f es g e h s : run f es g -> mv e g = (s, h) -> run f (es ++ [e]) h.

Definition runs (f : FiniteStateMachine) (es : list Z) : FiniteStateMachine :=
  foldl (fun g e => (mv e g).2) f es.

Lemma run_runs f es : run f es (runs f es).
Proof.
  induction es as [|e es IH] using rev_ind; [constructor|].
  unfold runs. rewrite foldl_app. by eapply run_snoc.
Qed.

(** The events in which a machine started in [Idle] has opened a session: an
    OPEN accepted in [Active] or [OpenSent], then a KEEPALIVE, with only events
    that keep [OpenConfirm] between them. *)
Definition keeps (s : State) (e : Z) : Prop := next_state s e = s.

Inductive phase : State -> list Z -> Prop :=
| phase_any s es : s <> OpenConfirm -> s <> Established -> phase s es
| phase_confirm es mid : Forall (keeps OpenConfirm) mid ->
    phase OpenConfirm (es ++ MESSAGE_BGP_OPEN :: mid)
| phase_up es mid post : Forall (keeps OpenConfirm) mid -> Forall (keeps Established) post ->
    phase Established (es ++ MESSAGE_BGP_OPEN :: mid ++ MESSAGE_KEEPALIVE_MSG :: post).

Lemma one_of_one e k : one_of e [k] = true -> e = k.
Proof. unfold one_of; simpl. rewrite orb_false_r. by intros ->%Z.eqb_eq. Qed.

(** Which events enter the two last states. *)
Lemma enter_open_confirm s e :
  next_state s e = OpenConfirm -> s <> OpenConfirm -> e = MESSAGE_BGP_OPEN.
Proof.
  destruct s; simpl; intros H Hs; repeat case_match; simplify_eq; auto using one_of_one.
Qed.

Lemma enter_established s e :
  next_state s e = Established -> s <> Established -> s = OpenConfirm /\ e = MESSAGE_KEEPALIVE_MSG.
Proof.
  destruct s; simpl; intros H Hs; repeat case_match; simplify_eq; auto using one_of_one.
Qed.

Lemma phase_step s es e : phase s es -> phase (next_state s e) (es ++ [e]).
Proof.
  intros Hp.
  destruct (decide (next_state s e = OpenConfirm)) as [H1|H1];
    [rewrite H1|destruct (decide (next_state s e = Established)) as [H2|H2];
    [rewrite H2|by constructor]].
  - destruct (decide (s = OpenConfirm)) as [->|Hs].
    + inversion Hp; subst; [done|]. rewrite <-app_assoc. simpl. apply phase_confirm.
      apply Forall_app. auto.
    + rewrite (enter_open_confirm _ _ H1 Hs). by apply phase_confirm.
  - destruct (decide (s = Established)) as [->|Hs].
    + inversion Hp; subst; [done|]. rewrite <-app_assoc. simpl. rewrite <-app_assoc. simpl.
      apply phase_up; [done|]. apply Forall_app. auto.
    + apply enter_established in H2 as [-> ->]; [|done].
      inversion Hp; subst; [done|]. rewrite <-app_assoc. simpl. by apply phase_up.
Qed.

Lemma run_phase f es g : run f es g -> f = new -> phase (state g) es.
Proof.
  induction 1 as [|f es g e h s Hr IH Hmv]; intros ->.
  - by constructor.
  - injection Hmv as <- <-. by apply phase_step, IH.
Qed.

(** All 256 values of an event number. *)
Lemma all_events (P : Z -> bool) : forallb P (seqZ 0 256) = true ->
  forall e, 0 <= e < 256 -> P e = true.
Proof.
  intros H e He. rewrite forallb_forall in H. apply H. apply list_elem_of_In, elem_of_seqZ. lia.
Qed.

Lemma all_events_dec (P : Z -> Prop) `{!forall e, Decision (P e)} :
  forallb (fun e => bool_decide (P e)) (seqZ 0 256) = true -> forall e, 0 <= e < 256 -> P e.
Proof. intros Ha e He. by apply (bool_decide_eq_true_1 _), (all_events _ Ha). Qed.

(** C22: a machine that starts in [Idle] is in [Established] only after an OPEN
    message and a later KEEPALIVE message, with nothing but events that keep
    [OpenConfirm] between the two and nothing but events that keep
    [Established] after them. *)
Theorem established_after_handshake (es : list Z) (g : FiniteStateMachine)
  (Hr : run new es g) (Hg : state g = Established) :
  exists pre mid post,
    es = pre ++ MESSAGE_BGP_OPEN :: mid ++ MESSAGE_KEEPALIVE_MSG :: post /\
    Forall (keeps OpenConfirm) mid /\ Forall (keeps Established) post.
Proof.
  pose proof (run_phase _ _ _ Hr eq_refl) as Hp. rewrite Hg in Hp.
  inversion Hp; subst; [done|]. eauto 10.
Qed.

Lemma established_after_handshake_witness :
  exists pre mid post,
    [1; 16; 19; 11; 26; 27] = pre ++ MESSAGE_BGP_OPEN :: mid ++ MESSAGE_KEEPALIVE_MSG :: post /\
    Forall (keeps OpenConfirm) mid /\ Forall (keeps Established) post.
Proof.
  apply (established_after_handshake _ {| state := Established |}); [|reflexivity].
  apply (run_runs new [1; 16; 19; 11; 26; 27]).
Defined.

(** Every event that reports an error, a stop, an expired hold timer or a
    NOTIFICATION takes the machine from any state to [Idle]; from [Idle] only
    the six start events leave, to [Connect] or [Active]. *)
Theorem teardown_and_start (s : State) (e : Z) :
  (e ∈ [ADMIN_MANUAL_STOP; ADMIN_AUTOMATIC_STOP; TIMER_HOLD_TIMER_EXPIRE;
        TIMER_IDLE_HOLD_TIMER_EXPIRE; MESSAGE_BGP_OPEN_WITH_DELAY_OPEN_TIMER_RUNNING;
        MESSAGE_BGP_HEADER_ERROR; MESSAGE_BGP_OPEN_MSG_ERROR; MESSAGE_OPEN_COLLISION_DUMP;
        MESSAGE_NOTIF_MSG_ERROR; MESSAGE_NOTIF_MSG; MESSAGE_UPDATE_MSG_ERROR] ->
    (mv e {| state := s |}).1 = Idle) /\
  ((mv e new).1 <> Idle <-> e = 1 \/ 3 <= e <= 7).
Proof.
  split.
  - intros He. repeat (apply elem_of_cons in He as [->|He]; [by destruct s|]).
    by apply elem_of_nil in He.
  - unfold mv, new, next_state, one_of; simpl.
    unfold AMDIN_MANUAL_START, ADMIN_AUTOMATIC_START,
      ADMIN_AUTOMATIC_START_WITH_PASSIVE_TCP_ESTABLISHMENT,
      ADMIN_AUTOMATIC_START_WITH_DAMP_PEER_OSCILLATIONS,
      ADMIN_AUTOMATIC_START_WITH_DAMP_PEER_OSCILLATIONS_AND_PASSIVE_TCP_ESTABLISHMENT,
      ADMIN_MANUAL_START_WITH_PASSIVE_TCP_ESTABLISHMENT.
    zcase; simpl; split; try congruence; try lia; done.
Qed.

Lemma teardown_and_start_witness : (mv 25 {| state := Established |}).1 = Idle.
Proof. apply (teardown_and_start Established 25). by apply (bool_decide_unpack _). Defined.

(** Where the state machine departs from the diagram of [docs/design.md],
    over every state and every [u8] event: the start events 3 to 7 and the
    invalid connection request 15 that the diagram sends to [Idle] are
    accepted or ignored, the delay-open expiry 12 moves [Connect] and [Active]
    to [OpenSent], 14 keeps [Established], and a second connection (16, 17) in
    [OpenConfirm] falls back to [Idle] where the diagram stays. *)
Theorem diagram_departures (s : State) (e : Z) (He : 0 <= e < 256) :
  next_state s e = diagram s e <->
  ~ (e ∈ match s with
         | Idle => [3; 4; 5; 6; 7]
         | Connect | Active => [3; 4; 5; 6; 7; 12; 15]
         | OpenSent => [3; 4; 5; 6; 7; 15]
         | OpenConfirm => [3; 4; 5; 6; 7; 15; 16; 17]
         | Established => [3; 4; 5; 6; 7; 14; 15]
         end).
Proof.
  revert e He. destruct s; apply (all_events_dec _); by vm_compute.
Qed.

Lemma diagram_departures_witness :
  next_state OpenConfirm 16 = diagram OpenConfirm 16 <-> ~ (16 ∈ [3; 4; 5; 6; 7; 15; 16; 17]).
Proof. apply (diagram_departures OpenConfirm 16). lia. Defined.
End Fsm.
