(* ===== verification/BgpFamily.v ===== *)
(** * Errors and address families of the BGP daemon

    [BgpError] has the error enums of [bgp/src/error.rs] with the NOTIFICATION
    subcodes they convert to; [Family] is [bgp/src/family.rs]: AFI, SAFI, their
    numbers and the packed 32-bit form of the multiprotocol capability. *)

From S2P Require Import Prelude.

Module BgpError.

Inductive MessageHeaderError : Type :=
| ConnectionNotSynchronized
| BadMessageLength (length : Z)
| BadMessageType (val : Z).

Definition header_code (e : MessageHeaderError) : Z :=
  match e with
  | ConnectionNotSynchronized => 1
  | BadMessageLength _ => 2
  | BadMessageType _ => 3
  end.

Inductive OpenMessageError : Type :=
| UnsupportedVersionNumber
| BadPeerAS
| BadBGPIdentifier
| UnsupportedOptionalParameter
| UnacceptableHoldTime
| Unspecific.

Definition open_code (e : OpenMessageError) : Z :=
  match e with
  | UnsupportedVersionNumber => 1
  | BadPeerAS => 2
  | BadBGPIdentifier => 3
  | UnsupportedOptionalParameter => 4
  | UnacceptableHoldTime => 6
  | Unspecific => 0
  end.

Inductive UpdateMessageError : Type :=
| MalformedAttributeList
| UnrecognizedWellknownAttribute (code : Z)
| MissingWellKnownAttribute (code : Z)
| AttributeFlagsError (code length value : Z)
| AttributeLengthError (code length value : Z)
| InvalidOriginAttribute (val : Z)
| InvalidNextHopAttribute
| OptionalAttributeError
| InvalidNetworkField
| MalformedASPath.

Definition update_code (e : UpdateMessageError) : Z :=
  match e with
  | MalformedAttributeList => 1
  | UnrecognizedWellknownAttribute _ => 2
  | MissingWellKnownAttribute _ => 3
  | AttributeFlagsError _ _ _ => 4
  | AttributeLengthError _ _ _ => 5
  | InvalidOriginAttribute _ => 6
  | InvalidNextHopAttribute => 8
  | OptionalAttributeError => 9
  | InvalidNetworkField => 10
  | MalformedASPath => 11
  end.

Inductive ConfigError : Type :=
| AlreadyConfigured | FailedToLoad | InvalidArgument (s : string) | ConfigInvalidData.

Inductive ControlError : Type :=
| PeerAlreadyExists | ControlInvalidData | FailedToSendRecvChannel.

Inductive PeerError : Type :=
| ConnectionNotEstablished | ConnectionNotFound | FailedToSendMessage | Down
| DuplicateConnection | TooManyConnections.

Inductive RibError : Type :=
| InvalidAddressFamily | NextHopMustBeSet | AddressFamilyNotSet | PeerAlreadyRegistered
| PeerNotFound | ManagerDown | ProtocolIsAlreadyRegistered | PathNotFound
| UnhandlableEvent | FailedToConnectToFibEndpoint | UnknownRibKind.

(** [StdIoErr] and [Endpoint] carry an error of the standard library's I/O
    layer and of the RPC library; the code never looks inside them. *)
Inductive Error : Type :=
| System
| GotEmptyMessage
| MessageHeader (e : MessageHeaderError)
| OpenMessage (e : OpenMessageError)
| UpdateMessage (e : UpdateMessageError)
| RouteRefreshMessageError
| UnrecognizedNotificationCode
| UnrecognizedNotificationSubCode
| HoldTimerExpired
| FiniteStateMachineError
| Cease
| StdIoErr
| Config (e : ConfigError)
| InvalidEvent (val : Z)
| Control (e : ControlError)
| MissingMessageField
| InvalidMessageField
| UndesiredMessage
| Peer (e : PeerError)
| Rib (e : RibError)
| Endpoint.
End BgpError.

Module Family.

Inductive Afi : Type := IPv4 | IPv6.
Inductive Safi : Type := Unicast | Multicast.

#[global] Instance Afi_eq_dec : EqDecision Afi.
Proof. solve_decision. Defined.
#[global] Instance Safi_eq_dec : EqDecision Safi.
Proof. solve_decision. Defined.

#[global] Program Instance Afi_countable : Countable Afi :=
  inj_countable' (fun a => bool_decide (a = IPv4)) (fun b : bool => if b then IPv4 else IPv6) _.
Next Obligation. by intros []. Qed.

Record AddressFamily : Type := { afi : Afi; safi : Safi }.

#[global] Instance AddressFamily_eq_dec : EqDecision AddressFamily.
Proof. solve_decision. Defined.

#[global] Program Instance AddressFamily_countable : Countable AddressFamily :=
  inj_countable'
    (fun f => (bool_decide (afi f = IPv4), bool_decide (safi f = Unicast)))
    (fun p : bool * bool => {| afi := if p.1 then IPv4 else IPv6;
                               safi := if p.2 then Unicast else Multicast |}) _.
Next Obligation. by intros [[] []]. Qed.

(** [afi as u16], [safi as u8] and the [From] implementations *)
Definition afi_code (a : Afi) : Z := match a with IPv4 => 1 | IPv6 => 2 end.
Definition safi_code (s : Safi) : Z := match s with Unicast => 1 | Multicast => 2 end.

Definition afi_try_from (v : Z) : res string Afi :=
  match v with 1 => Ok IPv4 | 2 => Ok IPv6 | _ => Err "invalid AFI"%string end.

Definition safi_try_from (v : Z) : res string Safi :=
  match v with 1 => Ok Unicast | 2 => Ok Multicast | _ => Err "unsupported SAFI number"%string end.

Definition afi_inet (a : Afi) : Z := match a with IPv4 => 2 | IPv6 => 10 end.
Definition safi_inet (s : Safi) : Z := match s with Unicast => 1 | Multicast => 5 end.

Definition new (a s : Z) : res string AddressFamily :=
  x ← afi_try_from a; y ← safi_try_from s; Ok {| afi := x; safi := y |}.

Definition ipv4_unicast : AddressFamily := {| afi := IPv4; safi := Unicast |}.
Definition ipv6_unicast : AddressFamily := {| afi := IPv6; safi := Unicast |}.

(** [TryFrom<u32>]: [(value >> 16) as u16] and [value as u8] *)
Definition try_from_u32 (value : Z) : res string AddressFamily :=
  x ← afi_try_from (wrap 16 (Z.shiftr value 16));
  y ← safi_try_from (wrap 8 value);
  Ok {| afi := x; safi := y |}.

(** [From<AddressFamily> for u32] *)
Definition into_u32 (f : AddressFamily) : Z :=
  wrap 32 (Z.shiftl (afi_code (afi f)) 16) + safi_code (safi f).

Lemma new_codes f : new (afi_code (afi f)) (safi_code (safi f)) = Ok f.
Proof. by destruct f as [[] []]. Qed.

Lemma try_from_into f : try_from_u32 (into_u32 f) = Ok f.
Proof. by destruct f as [[] []]. Qed.

Lemma into_u32_range f : uint 32 (into_u32 f).
Proof. destruct f as [[] []]; by vm_compute. Qed.

Lemma afi_code_range a : uint 16 (afi_code a).
Proof. by destruct a. Qed.

Lemma safi_code_range s : uint 8 (safi_code s).
Proof. by destruct s. Qed.

Lemma safi_code_range16 s : uint 16 (safi_code s).
Proof. by destruct s. Qed.

Lemma afi_inv v a : afi_try_from v = Ok a <-> v = afi_code a.
Proof. split; [|intros ->; by destruct a]. unfold afi_try_from. intros. repeat case_match; by simplify_eq. Qed.

Lemma safi_inv v s : safi_try_from v = Ok s <-> v = safi_code s.
Proof. split; [|intros ->; by destruct s]. unfold safi_try_from. intros. repeat case_match; by simplify_eq. Qed.

(** The packed 32-bit form of a family. Packing and unpacking is the
    identity; unpacking accepts exactly the words whose upper half is an AFI
    number and whose lowest byte is a SAFI number (the second lowest byte is
    not looked at), and otherwise reports which of the two is wrong, the AFI
    first. *)
Theorem family_u32 (v : Z) (f : AddressFamily) (Hv : uint 32 v) :
  try_from_u32 (into_u32 f) = Ok f /\
  (try_from_u32 v = Ok f <->
     v / 65536 = afi_code (afi f) /\ v mod 256 = safi_code (safi f)) /\
  (try_from_u32 v = Err "invalid AFI"%string <-> ~ 1 <= v / 65536 <= 2) /\
  (try_from_u32 v = Err "unsupported SAFI number"%string <->
     1 <= v / 65536 <= 2 /\ ~ 1 <= v mod 256 <= 2).
Proof.
  split; [apply try_from_into|].
  unfold try_from_u32. rewrite Z.shiftr_div_pow2 by lia.
  rewrite (wrap_small 16).
  2:{ split; [apply Z.div_pos|apply Z.div_lt_upper_bound]; unfold uint in Hv; lia. }
  change (wrap 8 v) with (v mod 256). change (2 ^ 16) with 65536.
  set (hi := v / 65536). set (lo := v mod 256). clearbody hi lo. mred.
  split_and!.
  - destruct (afi_try_from hi) as [a|?|] eqn:Ha; [destruct (safi_try_from lo) as [s|?|] eqn:Hs|..].
    + apply afi_inv in Ha as ->. apply safi_inv in Hs as ->. destruct f as [[] []], a, s; simpl; naive_solver.
    + split; [done|]. intros [_ Hlo]. apply safi_inv in Hlo. congruence.
    + split; [done|]. intros [_ Hlo]. apply safi_inv in Hlo. congruence.
    + split; [done|]. intros [Hhi _]. apply afi_inv in Hhi. congruence.
    + split; [done|]. intros [Hhi _]. apply afi_inv in Hhi. congruence.
  - unfold afi_try_from, safi_try_from. split.
    + intros H. repeat case_match; simplify_eq; lia.
    + intros H. repeat case_match; simplify_eq; (done || lia).
  - unfold afi_try_from, safi_try_from. split.
    + intros H. repeat case_match; simplify_eq; lia.
    + intros H. repeat case_match; simplify_eq; (done || lia).
Qed.

Lemma family_u32_witness : try_from_u32 0x10001 = Ok ipv4_unicast.
Proof. apply (family_u32 0x10001 ipv4_unicast); by vm_compute. Defined.
End Family.

#[export] Hint Resolve Family.into_u32_range Family.afi_code_range Family.safi_code_range
  Family.safi_code_range16 : sart.
