(* ===== verification/BgpPrefix.v ===== *)
(** * Network prefixes on the wire

    [Prefix] is [bgp/src/packet/prefix.rs]: a network with an optional path
    identifier, decoded from and encoded to the length-prefixed form of the
    UPDATE message. *)

From S2P Require Import Prelude Net BgpFamily.

Module Prefix.
Import BgpError Family.

Section defs.
Context {I : IpNetApi} {B : BufApi}.

Record Prefix : Type := { inner : IpNet; path_id : option Z }.

#[global] Instance Prefix_eq_dec : EqDecision Prefix.
Proof. solve_decision. Defined.

Definition new (prefix : IpNet) (path_id : option Z) : Prefix :=
  {| inner := prefix; path_id := path_id |}.

Definition from_ipnet (pref : IpNet) : Prefix := {| inner := pref; path_id := None |}.
Definition into_ipnet (p : Prefix) : IpNet := inner p.

(** [for i in 0..n { b[i] = data.get_u8(); }], from index [i] on *)
Fixpoint read_octets (n i : nat) (b : list Z) : M (list Z) Error (list Z) :=
  match n with
  | O => mret b
  | S k =>
      v ← get_u 1;
      if decide (i < length b)%nat then read_octets k (S i) (<[i:=v]> b) else panic
  end.

Definition decode (family : AddressFamily) (add_path_enabled : bool) :
    M (list Z) Error Prefix :=
  path_id ← (if add_path_enabled then id ← get_u 4; mret (Some id) else mret None);
  length ← get_u 1;
  let prefix_len := if negb (length mod 8 =? 0) then length / 8 + 1 else length / 8 in
  p ← match afi family with
      | IPv4 =>
          b ← read_octets (Z.to_nat prefix_len) 0 (replicate 4 0);
          match net_new (w:=32) (be_val b) length with
          | Some pref => mret (NV4 pref)
          | None => throw (UpdateMessage InvalidNetworkField)
          end
      | IPv6 =>
          b ← read_octets (Z.to_nat prefix_len) 0 (replicate 16 0);
          match net_new (w:=128) (be_val b) length with
          | Some pref => mret (NV6 pref)
          | None => throw (UpdateMessage InvalidNetworkField)
          end
      end;
  mret {| inner := p; path_id := path_id |}.

Definition prefix_bytes_len (prefix_len : Z) : Z :=
  if prefix_len mod 8 =? 0 then prefix_len / 8 else 1 + prefix_len / 8.

(** [oct.as_slice().split_at(mid).0]: panics when [mid] is out of range *)
Definition split_at (oct : list Z) (mid : Z) : M (list Z) Error (list Z) :=
  if decide (mid <= Z.of_nat (length oct)) then mret (take (Z.to_nat mid) oct) else panic.

Definition encode (p : Prefix) : M (list Z) Error unit :=
  match path_id p with Some id => put_u 4 id | None => mret tt end ;;
  put_u 1 (ipnet_prefix_len (inner p)) ;;
  match inner p with
  | NV4 a =>
      aa ← split_at (be_bytes 4 (net_addr a)) (prefix_bytes_len (ipnet_prefix_len (inner p)));
      put_bytes aa
  | NV6 a =>
      aa ← split_at (be_bytes 16 (net_addr a)) (prefix_bytes_len (ipnet_prefix_len (inner p)));
      put_bytes aa
  end.

Definition len (p : Prefix) : Z :=
  match path_id p with Some _ => 5 | None => 1 end
  + prefix_bytes_len (ipnet_prefix_len (inner p)).

(** ** Specification *)

(** The bytes [encode] writes. *)
Definition bytes (p : Prefix) : list Z :=
  match path_id p with Some id => be_bytes 4 id | None => [] end ++
  be_bytes 1 (ipnet_prefix_len (inner p)) ++
  take (Z.to_nat (prefix_bytes_len (ipnet_prefix_len (inner p))))
    match inner p with
    | NV4 a => be_bytes 4 (net_addr a)
    | NV6 a => be_bytes 16 (net_addr a)
    end.

Definition family_of (p : Prefix) : Afi :=
  match inner p with NV4 _ => IPv4 | NV6 _ => IPv6 end.

Definition path_id_ok (p : Prefix) : Prop :=
  match path_id p with Some id => uint 32 id | None => True end.

(** The address bytes that the wire form leaves out are zero. *)
Definition tail_zero (p : Prefix) : Prop :=
  match inner p with
  | NV4 a => net_addr a mod 256 ^ (4 - prefix_bytes_len (net_prefix_len a)) = 0
  | NV6 a => net_addr a mod 256 ^ (16 - prefix_bytes_len (net_prefix_len a)) = 0
  end.

Definition same_network (p q : IpNet) : Prop :=
  match p, q with
  | NV4 a, NV4 b => net_prefix_len a = net_prefix_len b /\ net_network a = net_network b
  | NV6 a, NV6 b => net_prefix_len a = net_prefix_len b /\ net_network a = net_network b
  | _, _ => False
  end.
End defs.

Lemma be_val_app l1 l2 : be_val (l1 ++ l2) = be_val l1 * 256 ^ Z.of_nat (length l2) + be_val l2.
Proof.
  induction l2 as [|b l2 IH] using rev_ind.
  - rewrite app_nil_r. simpl. change (be_val []) with 0. lia.
  - rewrite app_assoc, !be_val_snoc, IH, length_app. simpl.
    rewrite Nat2Z.inj_add, Z.pow_add_r by lia. change (256 ^ Z.of_nat 1) with 256. lia.
Qed.

Lemma be_val_zeros n : be_val (replicate n 0) = 0.
Proof.
  induction n as [|n IH]; [done|]. rewrite replicate_S_end, be_val_snoc, IH. done.
Qed.

(** What is left of an address of which only the first [n] bytes are sent. *)
Lemma be_val_pad m n a : (n <= m)%nat -> uint (8 * Z.of_nat m) a ->
  be_val (take n (be_bytes m a) ++ replicate (m - n) 0) =
  a - a mod 256 ^ (Z.of_nat m - Z.of_nat n).
Proof.
  intros Hn Ha. set (bs := be_bytes m a).
  assert (Hlen : length bs = m) by apply length_be_bytes.
  assert (Hbs : a = be_val (take n bs) * 256 ^ Z.of_nat (m - n) + be_val (drop n bs)).
  { rewrite <-(be_val_bytes_small m a Ha) at 1. fold bs.
    rewrite <-(take_drop n bs) at 1. rewrite be_val_app, length_drop. by rewrite Hlen. }
  assert (Hd : uint (8 * Z.of_nat (m - n)) (be_val (drop n bs))).
  { pose proof (be_val_bound (drop n bs)) as H. rewrite length_drop, Hlen in H. apply H, Forall_drop, be_bytes_ok. }
  unfold uint in Hd. rewrite <-pow256 in Hd.
  rewrite be_val_app, length_replicate, be_val_zeros, Z.add_0_r.
  replace (Z.of_nat m - Z.of_nat n) with (Z.of_nat (m - n)) by lia.
  rewrite <-(Z.mod_unique_pos a (256 ^ Z.of_nat (m - n)) (be_val (take n bs)) (be_val (drop n bs)))
    by lia. lia.
Qed.

Lemma prefix_bytes_len_bounds l : 0 <= l ->
  l <= 8 * prefix_bytes_len l < l + 8.
Proof.
  intros Hl. unfold prefix_bytes_len. pose proof (Z.div_mod l 8 ltac:(lia)).
  pose proof (Z.mod_pos_bound l 8 ltac:(lia)). zcase; lia.
Qed.

Section facts.
Context {I : IpNetApi} {IL : IpNetLaws} {B : BufApi} {BL : BufLaws}.

Lemma split_at_ok oct mid l : mid <= Z.of_nat (length oct) ->
  split_at oct mid l = (Ok (take (Z.to_nat mid) oct), l).
Proof. intros H. unfold split_at. by rewrite decide_True. Qed.

Lemma prefix_encode_run p dst : encode p dst = (Ok tt, dst ++ bytes p).
Proof.
  unfold encode, bytes.
  rewrite (bind_ok _ _ _ tt (dst ++ match path_id p with Some id => be_bytes 4 id | None => [] end))
    by (destruct (path_id p); [apply put_u_spec|by rewrite app_nil_r]).
  erewrite bind_ok by apply put_u_spec. cbv beta.
  destruct (inner p) as [a|a]; pose proof (net_prefix_len_range a);
    pose proof (prefix_bytes_len_bounds (net_prefix_len a) ltac:(lia)); simpl ipnet_prefix_len;
    (erewrite bind_ok by (apply split_at_ok; rewrite length_be_bytes; lia));
    cbv beta; by rewrite put_bytes_spec, !app_assoc.
Qed.

Lemma length_bytes p : Z.of_nat (length (bytes p)) = len p.
Proof.
  unfold bytes, len. rewrite !length_app, length_take.
  destruct (inner p) as [a|a]; pose proof (net_prefix_len_range a);
    pose proof (prefix_bytes_len_bounds (net_prefix_len a) ltac:(lia)); simpl ipnet_prefix_len;
    rewrite !length_be_bytes; destruct (path_id p); rewrite ?length_be_bytes; simpl; lia.
Qed.

(** Reading [n] address bytes fills the first [n] cells. *)
Lemma read_octets_app d rest b i : (i + length d <= length b)%nat -> bytes_ok d ->
  read_octets (length d) i b (d ++ rest) =
  (Ok (take i b ++ d ++ drop (i + length d) b), rest).
Proof.
  revert b i. induction d as [|x d IH]; intros b i Hl Hd; cbn [length read_octets].
  - rewrite Nat.add_0_r. cbn [app]. by rewrite take_drop.
  - apply Forall_cons_iff in Hd as [Hx Hd]. simpl in Hl.
    rewrite (bind_ok _ _ _ x (d ++ rest)).
    2:{ change ((x :: d) ++ rest) with ([x] ++ (d ++ rest)).
        rewrite get_u_app by done. unfold be_val. simpl. done. }
    rewrite decide_True by lia. rewrite IH by (rewrite ?length_insert; auto; lia).
    do 2 f_equal.
    rewrite drop_insert_lt by lia.
    rewrite (take_S_r _ i x) by (rewrite list_lookup_insert_eq; [done|lia]).
    rewrite take_insert_ge by lia. rewrite <-app_assoc. simpl. do 3 f_equal. f_equal. lia.
Qed.

(** More address bytes announced than the address has: the array index is out
    of range. *)
Lemma read_octets_panic n i b l : (length b < i + n)%nat -> (i <= length b)%nat ->
  (read_octets n i b l).1 = Panic.
Proof.
  revert i b l. induction n as [|n IH]; intros i b l Hn Hi; [lia|]. cbn [read_octets].
  unfold mbind, M_bind.
  destruct (get_u_case (E:=Error) 1 l) as [[_ Hg]|[_ Hg]]; rewrite Hg; [done|].
  case_decide; [|done]. apply IH; rewrite length_insert; lia.
Qed.

Lemma read_octets_consumes n i b : shrinks (read_octets n i b).
Proof. revert i b. induction n as [|n IH]; intros i b; simpl; shrink. Qed.

Lemma prefix_decode_consumes f ap : consumes (decode f ap).
Proof.
  unfold decode. intros l p l' H.
  apply bind_inv_ok in H as (id & l1 & H1 & H).
  assert (length l1 <= length l)%nat by (revert H1; assert (shrinks
    (if ap then id ← get_u 4; mret (Some id) else mret None : M (list Z) Error (option Z))) as Hs
    by shrink; apply Hs).
  apply bind_inv_ok in H as (n & l2 & H2 & H). apply get_u_consumes in H2; [|lia].
  cut (length l' <= length l2)%nat; [lia|].
  revert H. cbv zeta. match goal with |- ?m l2 = _ -> _ => cut (shrinks m); [intros Hs; apply Hs|] end.
  destruct f as [[] ?]; simpl; shrink; auto using read_octets_consumes.
Qed.

(** The number of address bytes as [decode] computes it. *)
Lemma decode_prefix_len length :
  (if negb (length mod 8 =? 0) then length / 8 + 1 else length / 8) = prefix_bytes_len length.
Proof. unfold prefix_bytes_len. zcase; simpl; lia. Qed.

(** An address read back from its first bytes. *)
Lemma read_address m a l rest : (0 <= l <= 8 * Z.of_nat m) -> uint (8 * Z.of_nat m) a ->
  let n := Z.to_nat (prefix_bytes_len l) in
  exists b, read_octets n 0 (replicate m 0) (take n (be_bytes m a) ++ rest) = (Ok b, rest) /\
    be_val b = a - a mod 256 ^ (Z.of_nat m - prefix_bytes_len l).
Proof.
  intros Hl Ha n. pose proof (prefix_bytes_len_bounds l ltac:(lia)) as Hb.
  assert (Hn : (n <= m)%nat) by lia.
  assert (Hlen : length (take n (be_bytes m a)) = n) by (rewrite length_take, length_be_bytes; lia).
  eexists. split.
  - rewrite <-Hlen at 1. apply read_octets_app; [rewrite Hlen, length_replicate; lia|].
    apply Forall_take, be_bytes_ok.
  - rewrite take_0, Hlen. simpl. rewrite drop_replicate, be_val_pad by (done || lia).
    do 3 f_equal. lia.
Qed.

(** Dropping the address bytes below the prefix keeps the network. *)
Lemma network_trunc w m a l : w = 8 * m -> 0 <= l <= w -> uint w a ->
  let a' := a - a mod 256 ^ (m - prefix_bytes_len l) in
  uint w a' /\ a' - a' mod 2 ^ (w - l) = a - a mod 2 ^ (w - l).
Proof.
  intros -> Hl Ha a'. pose proof (prefix_bytes_len_bounds l ltac:(lia)) as Hb.
  set (k := prefix_bytes_len l) in *.
  assert (Hp : 256 ^ (m - k) = 2 ^ (8 * (m - k))) by (rewrite Z.pow_mul_r by lia; done).
  assert (Ha'0 : a' = a - a mod 2 ^ (8 * (m - k))) by (unfold a'; by rewrite Hp).
  clearbody a'. clear Hp. set (s := 2 ^ (8 * (m - k))) in *. set (c := 2 ^ (8 * k - l)).
  assert (Hs : 0 < s) by (apply Z.pow_pos_nonneg; lia).
  assert (Hc : 0 < c) by (apply Z.pow_pos_nonneg; lia).
  assert (HS : 2 ^ (8 * m - l) = s * c).
  { unfold s, c. rewrite <-Z.pow_add_r by lia. f_equal. lia. }
  rewrite HS. pose proof (Z.mod_pos_bound a s Hs). pose proof (Z.div_mod a s ltac:(lia)) as Hd.
  unfold uint in *. pose proof (Z.mod_le a s ltac:(lia) Hs). split; [lia|].
  assert (Ha' : a' = s * (a / s)) by lia.
  rewrite Ha', Z.mul_mod_distr_l, Z.rem_mul_r by lia. lia.
Qed.

Lemma decode_net {w} {N : NetApi w} {NL : NetLaws w} m (n : Net w) :
  w = 8 * m -> exists n', net_new (net_addr n - net_addr n mod 256 ^ (m - prefix_bytes_len (net_prefix_len n)))
      (net_prefix_len n) = Some n' /\ net_prefix_len n = net_prefix_len n' /\
    net_network n = net_network n' /\
    (net_addr n mod 256 ^ (m - prefix_bytes_len (net_prefix_len n)) = 0 -> n' = n).
Proof.
  intros Hw. pose proof (net_prefix_len_range n) as Hl. pose proof (net_addr_range n) as Ha.
  destruct (network_trunc w m _ _ Hw Hl Ha) as [Hu Hn].
  destruct (net_new_ok _ _ Hu Hl) as (n' & -> & Ha' & Hl'). exists n'.
  split_and!; [done..| |].
  - rewrite !net_network_spec, Ha', Hl'. lia.
  - intros Hz. apply net_ext; [|done]. rewrite Ha', Hz. lia.
Qed.

Lemma prefix_decode_bytes p s rest (Hp : path_id_ok p) :
  exists n', decode {| afi := family_of p; safi := s |} (bool_decide (is_Some (path_id p)))
      (bytes p ++ rest) = (Ok {| inner := n'; path_id := path_id p |}, rest) /\
    same_network (inner p) n' /\ (tail_zero p -> n' = inner p).
Proof.
  unfold decode, bytes, path_id_ok, family_of, tail_zero in *. destruct p as [n id].
  cbn [inner path_id] in *.
  rewrite <-!app_assoc.
  rewrite (bind_ok _ _ _ id (be_bytes 1 (ipnet_prefix_len n) ++ take (Z.to_nat
      (prefix_bytes_len (ipnet_prefix_len n)))
      match n with NV4 a => be_bytes 4 (net_addr a) | NV6 a => be_bytes 16 (net_addr a) end ++ rest)).
  2:{ destruct id as [v|]; [|done]. rewrite bool_decide_eq_true_2 by eauto. by rd. }
  destruct n as [a|a]; cbn [ipnet_prefix_len]; pose proof (net_prefix_len_range a) as Hl; rd;
    cbv zeta; rewrite decode_prefix_len; cbn [afi].
  - destruct (read_address 4 (net_addr a) (net_prefix_len a) rest) as (b & Hb & Hv);
      [lia|apply net_addr_range|].
    destruct (decode_net 4 a eq_refl) as (n' & Hn & ? & ? & He). exists (NV4 n').
    change (Z.of_nat 4) with 4 in Hv. mred. rewrite Hb, Hv, Hn. simpl.
    split_and!; [done..|]. intros Hz. by rewrite He.
  - destruct (read_address 16 (net_addr a) (net_prefix_len a) rest) as (b & Hb & Hv);
      [lia|apply net_addr_range|].
    destruct (decode_net 16 a eq_refl) as (n' & Hn & ? & ? & He). exists (NV6 n').
    change (Z.of_nat 16) with 16 in Hv. mred. rewrite Hb, Hv, Hn. simpl.
    split_and!; [done..|]. intros Hz. by rewrite He.
Qed.

(** A prefix that is written and read back. [encode] appends [len p] bytes;
    decoding them with the prefix's family leaves the rest of the buffer, and
    gives back the path identifier, the prefix length and the network, and the
    prefix itself when the address bytes the wire form leaves out are zero. *)
Theorem prefix_roundtrip (p : Prefix) (s : Safi) (rest : list Z) (Hp : path_id_ok p) :
  exists bs n', (forall dst, encode p dst = (Ok tt, dst ++ bs)) /\
    Z.of_nat (length bs) = len p /\
    decode {| afi := family_of p; safi := s |} (bool_decide (is_Some (path_id p)))
      (bs ++ rest) = (Ok {| inner := n'; path_id := path_id p |}, rest) /\
    same_network (inner p) n' /\ (tail_zero p -> n' = inner p).
Proof.
  destruct (prefix_decode_bytes p s rest Hp) as (n' & ? & ? & ?). exists (bytes p), n'.
  split_and!; auto using prefix_encode_run, length_bytes.
Qed.

(** A prefix length beyond the width of the address never yields an error
    value: whatever follows in the buffer, the loop that reads the address
    bytes indexes its array out of range and the decoder panics. *)
Theorem prefix_length_out_of_range (f : AddressFamily) (v : Z) (rest : list Z)
  (Hv : match afi f with IPv4 => 32 | IPv6 => 128 end < v < 256) :
  (decode f false (be_bytes 1 v ++ rest)).1 = Panic.
Proof.
  unfold decode. rewrite (bind_ok _ _ _ None (be_bytes 1 v ++ rest)) by done.
  pose proof (prefix_bytes_len_bounds v) as Hb. destruct f as [[] s]; simpl in Hv; rd;
    cbv zeta; rewrite decode_prefix_len; cbn [afi]; mred.
  - pose proof (read_octets_panic (Z.to_nat (prefix_bytes_len v)) 0 (replicate 4 0) rest) as Hr.
    rewrite length_replicate in Hr. specialize (Hr ltac:(lia) ltac:(lia)).
    destruct (read_octets _ _ _ _) as [[]?]; by simplify_eq/=.
  - pose proof (read_octets_panic (Z.to_nat (prefix_bytes_len v)) 0 (replicate 16 0) rest) as Hr.
    rewrite length_replicate in Hr. specialize (Hr ltac:(lia) ltac:(lia)).
    destruct (read_octets _ _ _ _) as [[]?]; by simplify_eq/=.
Qed.
End facts.

Section witnesses.
#[local] Existing Instance simple_ipnet.
#[local] Existing Instance simple_ipnet_laws.
#[local] Existing Instance simple_buf.
#[local] Existing Instance simple_buf_laws.

(** 10.2.0.0/24 with path identifier 1 *)
Definition prefix_ex : Prefix :=
  {| inner := NV4 (exist _ (167903232, 24) I : Net 32); path_id := Some 1 |}.

Lemma prefix_roundtrip_witness :
  exists bs n', (forall dst, encode prefix_ex dst = (Ok tt, dst ++ bs)) /\
    Z.of_nat (length bs) = len prefix_ex /\
    decode {| afi := family_of prefix_ex; safi := Unicast |}
      (bool_decide (is_Some (path_id prefix_ex)))
      (bs ++ [7]) = (Ok {| inner := n'; path_id := path_id prefix_ex |}, [7]) /\
    same_network (inner prefix_ex) n' /\ (tail_zero prefix_ex -> n' = inner prefix_ex).
Proof. apply (prefix_roundtrip prefix_ex Unicast [7]). by vm_compute. Defined.

Lemma prefix_length_out_of_range_witness :
  (decode ipv4_unicast false (be_bytes 1 33 ++ [10; 0; 0; 0; 0])).1 = Panic.
Proof. apply (prefix_length_out_of_range ipv4_unicast 33). simpl. lia. Defined.
End witnesses.
End Prefix.
