(* ===== verification/BgpCapability.v ===== *)
(** * Capabilities

    [Cap] is the wire form of a capability ([bgp/src/packet/capability.rs]);
    [Capability] is the speaker's own form and the set of capabilities it keeps
    ([bgp/src/capability.rs]). *)

From S2P Require Import Prelude Net BgpFamily.

Module Cap.
Import BgpError Family.

Inductive Cap : Type :=
| MultiProtocol (family : AddressFamily)
| RouteRefresh
| ExtendedNextHop (values : list (AddressFamily * Z))
| BGPExtendedMessage
| GracefulRestart (flag time : Z) (families : list (AddressFamily * Z))
| FourOctetASNumber (asn : Z)
| AddPath (family : AddressFamily) (sr : Z)
| EnhancedRouteRefresh
| Unsupported (code : Z) (data : list Z).

#[global] Instance Cap_eq_dec : EqDecision Cap.
Proof. solve_decision. Defined.

Definition MULTI_PROTOCOL : Z := 1.
Definition ROUTE_REFRESH : Z := 2.
Definition EXTENDED_NEXT_HOP : Z := 5.
Definition BGP_EXTENDED_MESSAGE : Z := 6.
Definition GRACEFUL_RESTART : Z := 64.
Definition FOUR_OCTET_AS_NUMBER : Z := 65.
Definition ADD_PATH : Z := 69.
Definition ENHANCED_ROUTE_REFRESH : Z := 70.

(** [From<Cap> for u8] *)
Definition cap_code (c : Cap) : Z :=
  match c with
  | MultiProtocol _ => MULTI_PROTOCOL
  | RouteRefresh => ROUTE_REFRESH
  | ExtendedNextHop _ => EXTENDED_NEXT_HOP
  | BGPExtendedMessage => BGP_EXTENDED_MESSAGE
  | GracefulRestart _ _ _ => GRACEFUL_RESTART
  | FourOctetASNumber _ => FOUR_OCTET_AS_NUMBER
  | AddPath _ _ => ADD_PATH
  | EnhancedRouteRefresh => ENHANCED_ROUTE_REFRESH
  | Unsupported code _ => code
  end.

Definition len (c : Cap) : Z :=
  match c with
  | MultiProtocol _ => 4
  | RouteRefresh => 0
  | ExtendedNextHop next_hops => Z.of_nat (length next_hops) * 6
  | BGPExtendedMessage => 0
  | GracefulRestart _ _ families => 2 + Z.of_nat (length families) * 4
  | FourOctetASNumber _ => 4
  | AddPath _ _ => 4
  | EnhancedRouteRefresh => 0
  | Unsupported _ data => Z.of_nat (length data)
  end.

Section defs.
Context {B : BufApi} {P : Profile}.

(** [.map_err(|_| Error::OpenMessage(OpenMessageError::Unspecific))?] *)
Definition or_unspecific {A} (r : res string A) : M (list Z) Error A :=
  lift (res_map_err (fun _ => OpenMessage Unspecific) r).

(** One entry of the extended next hop capability. *)
Definition next_hop_entry (values : list (AddressFamily * Z)) :
    M (list Z) Error (list (AddressFamily * Z)) :=
  a ← get_u 2;
  s ← get_u 2;
  family ← or_unspecific (Family.new a (wrap 8 s));
  v ← get_u 2;
  mret (values ++ [(family, v)]).

(** One entry of the graceful restart capability. *)
Definition restart_entry (values : list (AddressFamily * Z)) :
    M (list Z) Error (list (AddressFamily * Z)) :=
  a ← get_u 2;
  s ← get_u 1;
  family ← or_unspecific (Family.new a s);
  v ← get_u 1;
  mret (values ++ [(family, v)]).

Definition decode (code length : Z) : M (list Z) Error Cap :=
  r ← remaining;
  if r <? length then throw (OpenMessage Unspecific) else
  if code =? MULTI_PROTOCOL then
    v ← get_u 4;
    family ← or_unspecific (try_from_u32 v);
    mret (MultiProtocol family)
  else if code =? ROUTE_REFRESH then mret RouteRefresh
  else if code =? EXTENDED_NEXT_HOP then
    remain ← remaining;
    values ← while (more remain length) next_hop_entry [];
    mret (ExtendedNextHop values)
  else if code =? BGP_EXTENDED_MESSAGE then mret BGPExtendedMessage
  else if code =? GRACEFUL_RESTART then
    remain ← remaining;
    flag_time ← get_u 2;
    let flags := wrap 8 (Z.shiftr flag_time 12) in
    let time := Z.land flag_time 0x0fff in
    values ← while (more remain length) restart_entry [];
    mret (GracefulRestart flags time values)
  else if code =? FOUR_OCTET_AS_NUMBER then
    asn ← get_u 4;
    mret (FourOctetASNumber asn)
  else if code =? ADD_PATH then
    a ← get_u 2;
    s ← get_u 1;
    family ← or_unspecific (Family.new a s);
    sr ← get_u 1;
    mret (AddPath family sr)
  else if code =? ENHANCED_ROUTE_REFRESH then mret EnhancedRouteRefresh
  else
    d ← take_bytes length;
    mret (Unsupported code d).

Definition encode (c : Cap) : M (list Z) Error unit :=
  match c with
  | MultiProtocol family =>
      put_u 1 MULTI_PROTOCOL ;; put_u 1 4 ;; put_u 4 (into_u32 family)
  | RouteRefresh => put_u 1 ROUTE_REFRESH ;; put_u 1 0
  | ExtendedNextHop next_hops =>
      put_u 1 EXTENDED_NEXT_HOP ;;
      put_u 1 (wrap 8 (Z.of_nat (length next_hops) * 6)) ;;
      for_each (fun '(family, a) =>
        put_u 2 (afi_code (afi family)) ;; put_u 2 (safi_code (safi family)) ;; put_u 2 a) next_hops
  | BGPExtendedMessage => put_u 1 BGP_EXTENDED_MESSAGE ;; put_u 1 0
  | GracefulRestart flag time families =>
      put_u 1 GRACEFUL_RESTART ;;
      n ← lift (ovf 8 (2 + wrap 8 (Z.of_nat (length families) * 4)));
      put_u 1 n ;;
      ft ← lift (ovf 16 (wrap 16 (Z.shiftl flag 12) + Z.land time 0x0fff));
      put_u 2 ft ;;
      for_each (fun '(family, fa) =>
        put_u 2 (afi_code (afi family)) ;; put_u 1 (safi_code (safi family)) ;; put_u 1 fa) families
  | FourOctetASNumber asn => put_u 1 FOUR_OCTET_AS_NUMBER ;; put_u 1 4 ;; put_u 4 asn
  | AddPath family sr =>
      put_u 1 ADD_PATH ;; put_u 1 4 ;; put_u 2 (afi_code (afi family)) ;;
      put_u 1 (safi_code (safi family)) ;; put_u 1 sr
  | EnhancedRouteRefresh => put_u 1 ENHANCED_ROUTE_REFRESH ;; put_u 1 0
  | Unsupported code data =>
      put_u 1 code ;; put_u 1 (wrap 8 (Z.of_nat (length data))) ;; put_bytes data
  end.

(** ** Specification *)

(** The capabilities that fit their wire form. *)
Definition wf (c : Cap) : Prop :=
  len c < 256 /\
  match c with
  | ExtendedNextHop vs => Forall (fun v => uint 16 v.2) vs
  | GracefulRestart flag time fs => 0 <= flag < 16 /\ 0 <= time < 4096 /\ Forall (fun v => uint 8 v.2) fs
  | FourOctetASNumber asn => uint 32 asn
  | AddPath _ sr => uint 8 sr
  | Unsupported code data =>
      uint 8 code /\ bytes_ok data /\ ~ (code ∈ [1; 2; 5; 6; 64; 65; 69; 70])
  | _ => True
  end.

#[global] Instance wf_dec c : Decision (wf c).
Proof. unfold wf. destruct c; apply _. Defined.

Definition next_hop_bytes (v : AddressFamily * Z) : list Z :=
  be_bytes 2 (afi_code (afi v.1)) ++ be_bytes 2 (safi_code (safi v.1)) ++ be_bytes 2 v.2.

Definition restart_bytes (v : AddressFamily * Z) : list Z :=
  be_bytes 2 (afi_code (afi v.1)) ++ be_bytes 1 (safi_code (safi v.1)) ++ be_bytes 1 v.2.

(** The value field of a capability. *)
Definition payload (c : Cap) : list Z :=
  match c with
  | MultiProtocol f => be_bytes 4 (into_u32 f)
  | ExtendedNextHop vs => flat_map next_hop_bytes vs
  | GracefulRestart flag time fs => be_bytes 2 (flag * 4096 + time) ++ flat_map restart_bytes fs
  | FourOctetASNumber asn => be_bytes 4 asn
  | AddPath f sr => be_bytes 2 (afi_code (afi f)) ++ be_bytes 1 (safi_code (safi f)) ++ be_bytes 1 sr
  | Unsupported _ data => data
  | _ => []
  end.

Definition bytes (c : Cap) : list Z :=
  be_bytes 1 (cap_code c) ++ be_bytes 1 (len c) ++ payload c.
End defs.

Section facts.
Context {B : BufApi} {BL : BufLaws} {P : Profile}.

Lemma next_hop_entry_consumes acc : consumes (next_hop_entry acc).
Proof. apply bind_consumes_l; [by apply get_u_consumes; lia|]. intros a. unfold or_unspecific. shrink. Qed.

Lemma restart_entry_consumes acc : consumes (restart_entry acc).
Proof. apply bind_consumes_l; [by apply get_u_consumes; lia|]. intros a. unfold or_unspecific. shrink. Qed.

Lemma decode_shrinks code n : shrinks (decode code n).
Proof.
  assert (H1 : forall acc, shrinks (next_hop_entry acc))
    by (intros; apply consumes_shrinks, next_hop_entry_consumes).
  assert (H2 : forall acc, shrinks (restart_entry acc))
    by (intros; apply consumes_shrinks, restart_entry_consumes).
  unfold decode, or_unspecific. cbv zeta. shrink; apply while_shrinks; auto using more_pure.
Qed.

Lemma or_unspecific_codes f l :
  or_unspecific (Family.new (afi_code (afi f)) (safi_code (safi f))) l = (Ok f, l).
Proof. unfold or_unspecific. by rewrite new_codes. Qed.

Lemma next_hop_entry_run v acc l : uint 16 v.2 ->
  next_hop_entry acc (next_hop_bytes v ++ l) = (Ok (acc ++ [v]), l).
Proof.
  destruct v as [f a]. intros Ha. unfold next_hop_entry, next_hop_bytes. rewrite <-!app_assoc.
  simpl in *. do 2 rd. rewrite (wrap_small 8) by apply safi_code_range.
  erewrite bind_ok by apply or_unspecific_codes. by rd.
Qed.

Lemma restart_entry_run v acc l : uint 8 v.2 ->
  restart_entry acc (restart_bytes v ++ l) = (Ok (acc ++ [v]), l).
Proof.
  destruct v as [f a]. intros Ha. unfold restart_entry, restart_bytes. rewrite <-!app_assoc.
  simpl in *. do 2 rd.
  erewrite bind_ok by apply or_unspecific_codes. by rd.
Qed.

Lemma cap_length_payload c : Z.of_nat (length (payload c)) = len c.
Proof.
  destruct c; simpl; rewrite ?length_app, ?length_be_bytes; try done.
  - rewrite (length_flat_map_const _ 6); [lia|].
    intros. unfold next_hop_bytes. by rewrite !length_app, !length_be_bytes.
  - rewrite (length_flat_map_const _ 4); [lia|].
    intros. unfold restart_bytes. by rewrite !length_app, !length_be_bytes.
Qed.

(** The flag and time fields of graceful restart. *)
Lemma flag_time flag time : 0 <= flag < 16 -> 0 <= time < 4096 ->
  uint 16 (flag * 4096 + time) /\
  wrap 8 (Z.shiftr (flag * 4096 + time) 12) = flag /\ Z.land (flag * 4096 + time) 0x0fff = time /\
  wrap 16 (Z.shiftl flag 12) + Z.land time 0x0fff = flag * 4096 + time.
Proof.
  intros Hf Ht. change 0x0fff with (Z.ones 12).
  rewrite !Z.land_ones, Z.shiftr_div_pow2, Z.shiftl_mul_pow2 by lia. change (2 ^ 12) with 4096.
  rewrite Z.div_add_l, (Z.div_small time), Z.add_0_r by lia.
  rewrite (wrap_small 8), (wrap_small 16) by (unfold uint; lia).
  rewrite (Z.add_comm (flag * 4096)), Z.mod_add, Z.mod_small by lia. unfold uint. lia.
Qed.

Lemma cap_encode_run c dst : wf c -> encode c dst = (Ok tt, dst ++ bytes c).
Proof.
  intros [Hl Hw]. unfold bytes. destruct c; cbn [encode len payload cap_code] in *;
    repeat wr; rewrite ?put_u_spec, ?put_bytes_spec; rewrite <-?app_assoc; try done.
  - rewrite wrap_small by (unfold uint; lia).
    rewrite (for_each_put _ next_hop_bytes); [by rewrite <-!app_assoc|].
    intros [f a] d. by repeat wr; rewrite put_u_spec, <-!app_assoc.
  - destruct Hw as (Hf & Ht & _). destruct (flag_time _ _ Hf Ht) as (Hu & _ & _ & ->).
    rewrite (wrap_small 8) by (unfold uint; lia).
    rewrite !ovf_small by (done || unfold uint; lia).
    repeat (erewrite bind_ok by reflexivity; cbv beta; try wr).
    rewrite (for_each_put _ restart_bytes); [by rewrite <-!app_assoc|].
    intros [f a] d. by repeat wr; rewrite put_u_spec, <-!app_assoc.
  - by rewrite wrap_small by (unfold uint; lia).
Qed.

Lemma decode_payload c rest : wf c -> Z.of_nat (length rest) < 2 ^ 63 ->
  decode (cap_code c) (len c) (payload c ++ rest) = (Ok c, rest).
Proof.
  intros [Hl Hw] Hr. unfold decode.
  rewrite (bind_ok _ _ _ (len c + Z.of_nat (length rest)) (payload c ++ rest))
    by (unfold remaining; by rewrite length_app, Nat2Z.inj_add, cap_length_payload).
  destruct (Z.ltb_spec (len c + Z.of_nat (length rest)) (len c)); [lia|].
  assert (Hrem : remaining (E:=Error) (payload c ++ rest) =
    (Ok (len c + Z.of_nat (length rest)), payload c ++ rest))
    by (unfold remaining; by rewrite length_app, Nat2Z.inj_add, cap_length_payload).
  destruct c; cbn [cap_code payload len] in *; try done.
  - ground_if. rd. unfold or_unspecific. by rewrite try_from_into.
  - ground_if.
    rewrite (bind_ok _ _ _ _ _ Hrem). erewrite bind_ok; [done|].
    eapply (while_list next_hop_bytes (fun v => uint 16 v.2));
      auto using next_hop_entry_run, next_hop_entry_consumes; unfold uint; try lia.
  - ground_if. destruct Hw as (Hf & Ht & Hv).
    destruct (flag_time _ _ Hf Ht) as (Hu & E1 & E2 & _).
    rewrite (bind_ok _ _ _ _ _ Hrem). rewrite <-app_assoc. rd. cbv zeta. rewrite E1, E2.
    erewrite bind_ok; [done|].
    eapply (while_list restart_bytes (fun v => uint 8 v.2));
      auto using restart_entry_run, restart_entry_consumes; unfold uint; try lia.
  - ground_if. by rd.
  - ground_if. rewrite <-!app_assoc. do 2 rd.
    erewrite bind_ok by apply or_unspecific_codes. by rd.
  - destruct Hw as (_ & _ & Hn). rewrite !not_elem_of_cons in Hn.
    unfold MULTI_PROTOCOL, ROUTE_REFRESH, EXTENDED_NEXT_HOP, BGP_EXTENDED_MESSAGE,
      GRACEFUL_RESTART, FOUR_OCTET_AS_NUMBER, ADD_PATH, ENHANCED_ROUTE_REFRESH.
    zcase; try lia. erewrite bind_ok by apply take_bytes_app. done.
Qed.

(** A capability that fits its wire form survives it: [encode] writes its
    code, its length and [len] bytes of value, and [decode] called with that
    code and length on those bytes gives the capability back and leaves what
    follows. *)
Theorem cap_roundtrip (c : Cap) (rest : list Z) (Hc : wf c)
  (Hr : Z.of_nat (length rest) < 2 ^ 63) :
  exists value,
    (forall dst, encode c dst =
       (Ok tt, dst ++ be_bytes 1 (cap_code c) ++ be_bytes 1 (len c) ++ value)) /\
    Z.of_nat (length value) = len c /\
    decode (cap_code c) (len c) (value ++ rest) = (Ok c, rest).
Proof.
  exists (payload c). split_and!; [intros dst; by apply cap_encode_run|apply cap_length_payload|].
  by apply decode_payload.
Qed.

(** The length of a capability is only compared with what is left in the
    buffer. A multiprotocol or four-octet AS capability announced with a length
    below its four bytes, at the end of the buffer, is not refused as malformed:
    the read past the end panics. *)
Theorem short_capability_panics (code n : Z) (l : list Z)
  (Hc : code ∈ [MULTI_PROTOCOL; FOUR_OCTET_AS_NUMBER]) (Hn : n <= Z.of_nat (length l) < 4) :
  (decode code n l).1 = Panic.
Proof.
  unfold decode. rewrite (bind_ok _ _ l (Z.of_nat (length l)) l) by done.
  destruct (Z.ltb_spec (Z.of_nat (length l)) n); [lia|].
  assert (Hg : get_u (E:=Error) 4 l = (Panic, l)) by (apply get_u_short; lia).
  repeat (apply elem_of_cons in Hc as [->|Hc]; [ground_if; by rewrite (bind_panic _ _ _ _ Hg)|]).
  by apply elem_of_nil in Hc.
Qed.
End facts.

Section witnesses.
#[local] Existing Instance simple_buf.
#[local] Existing Instance simple_buf_laws.
#[local] Existing Instance debug_profile.

Definition cap_ex : Cap := GracefulRestart 8 180 [(ipv4_unicast, 1)].

Lemma cap_roundtrip_witness :
  exists value,
    (forall dst, encode cap_ex dst =
       (Ok tt, dst ++ be_bytes 1 (cap_code cap_ex) ++ be_bytes 1 (len cap_ex) ++ value)) /\
    Z.of_nat (length value) = len cap_ex /\
    decode (cap_code cap_ex) (len cap_ex) (value ++ [1; 2]) = (Ok cap_ex, [1; 2]).
Proof. apply (cap_roundtrip cap_ex [1; 2]); [by apply (bool_decide_unpack _); vm_compute|simpl; lia]. Defined.

Lemma short_capability_panics_witness : (decode 65 2 [1; 2]).1 = Panic.
Proof.
  apply (short_capability_panics 65 2 [1; 2]); [by apply (bool_decide_unpack _); vm_compute|simpl; lia].
Defined.
End witnesses.
End Cap.

Module Capability.
Import Family.

Record MultiProtocol : Type := { mp_family : AddressFamily }.
Record ExtendedNextHop : Type := { enh_values : list (AddressFamily * Z) }.
Record GracefulRestart : Type :=
  { gr_flag : Z; gr_time : Z; gr_values : list (AddressFamily * Z) }.
Record FourOctetASNumber : Type := { asn_inner : Z }.
Record AddPath : Type := { ap_family : AddressFamily; ap_flag : Z }.

Inductive Capability : Type :=
| CMultiProtocol (m : MultiProtocol)
| CRouteRefresh
| CExtendedNextHop (e : ExtendedNextHop)
| CBGPExtendedMessage
| CGracefulRestart (g : GracefulRestart)
| CFourOctetASNumber (f : FourOctetASNumber)
| CAddPath (a : AddPath)
| CEnhancedRouteRefresh.

#[global] Instance MultiProtocol_eq_dec : EqDecision MultiProtocol.
Proof. solve_decision. Defined.
#[global] Instance ExtendedNextHop_eq_dec : EqDecision ExtendedNextHop.
Proof. solve_decision. Defined.
#[global] Instance GracefulRestart_eq_dec : EqDecision GracefulRestart.
Proof. solve_decision. Defined.
#[global] Instance FourOctetASNumber_eq_dec : EqDecision FourOctetASNumber.
Proof. solve_decision. Defined.
#[global] Instance AddPath_eq_dec : EqDecision AddPath.
Proof. solve_decision. Defined.
#[global] Instance Capability_eq_dec : EqDecision Capability.
Proof. solve_decision. Defined.

(** [From<Cap> for Capability]: panics on an unsupported capability. *)
Definition from_cap {E} (c : Cap.Cap) : res E Capability :=
  match c with
  | Cap.MultiProtocol family => Ok (CMultiProtocol {| mp_family := family |})
  | Cap.RouteRefresh => Ok CRouteRefresh
  | Cap.ExtendedNextHop values => Ok (CExtendedNextHop {| enh_values := values |})
  | Cap.BGPExtendedMessage => Ok CBGPExtendedMessage
  | Cap.GracefulRestart flag time values =>
      Ok (CGracefulRestart {| gr_flag := flag; gr_time := time; gr_values := values |})
  | Cap.FourOctetASNumber asn => Ok (CFourOctetASNumber {| asn_inner := asn |})
  | Cap.AddPath family sr => Ok (CAddPath {| ap_family := family; ap_flag := sr |})
  | Cap.EnhancedRouteRefresh => Ok CEnhancedRouteRefresh
  | Cap.Unsupported _ _ => Panic
  end.

(** [From<&Capability> for Cap] *)
Definition into_cap (c : Capability) : Cap.Cap :=
  match c with
  | CMultiProtocol m => Cap.MultiProtocol (mp_family m)
  | CRouteRefresh => Cap.RouteRefresh
  | CExtendedNextHop e => Cap.ExtendedNextHop (enh_values e)
  | CBGPExtendedMessage => Cap.BGPExtendedMessage
  | CGracefulRestart g => Cap.GracefulRestart (gr_flag g) (gr_time g) (gr_values g)
  | CFourOctetASNumber f => Cap.FourOctetASNumber (asn_inner f)
  | CAddPath a => Cap.AddPath (ap_family a) (ap_flag a)
  | CEnhancedRouteRefresh => Cap.EnhancedRouteRefresh
  end.

Record CapabilitySet : Type := { inner : gmap Z Capability }.

Definition default (asn : Z) : CapabilitySet :=
  {| inner :=
       <[Cap.MULTI_PROTOCOL := CMultiProtocol {| mp_family := {| afi := IPv4; safi := Unicast |} |}]>
       (<[Cap.ROUTE_REFRESH := CRouteRefresh]>
       (<[Cap.FOUR_OCTET_AS_NUMBER := CFourOctetASNumber {| asn_inner := asn |}]> ∅)) |}.

Definition with_empty : CapabilitySet := {| inner := ∅ |}.

Definition get (k : Z) (s : CapabilitySet) : option Capability := inner s !! k.

Definition insert (k : Z) (v : Capability) (s : CapabilitySet) : option Capability * CapabilitySet :=
  (inner s !! k, {| inner := <[k := v]> (inner s) |}).

Definition remove (k : Z) (s : CapabilitySet) : option Capability * CapabilitySet :=
  (inner s !! k, {| inner := delete k (inner s) |}).

Definition get_key_value (k : Z) (s : CapabilitySet) : option (Z * Capability) :=
  (fun v => (k, v)) <$> inner s !! k.

(** A wire capability converts to the speaker's form exactly when it is
    supported, and back to itself. *)
Lemma from_cap_spec {E} c k : from_cap (E:=E) c = Ok k <-> c = into_cap k.
Proof.
  split.
  - destruct c; intros [= <-]; done.
  - intros ->. by destruct k as [[]| |[]| |[]|[]|[]|].
Qed.
End Capability.

#[export] Hint Resolve Cap.decode_shrinks : buf.
