(* ===== verification/BgpAttribute.v ===== *)
(** * Path attributes

    [Attribute] is [bgp/src/packet/attribute.rs]: the path attributes of the
    UPDATE message with their flags, constructors, wire form and lengths. *)

From S2P Require Import Prelude Net BgpFamily BgpPrefix.
From Stdlib Require Import Ascii.

Module Attribute.
Import BgpError Family.

Definition ORIGIN : Z := 1.
Definition AS_PATH : Z := 2.
Definition NEXT_HOP : Z := 3.
Definition MULTI_EXIT_DISC : Z := 4.
Definition LOCAL_PREF : Z := 5.
Definition ATOMIC_AGGREGATE : Z := 6.
Definition AGGREGATOR : Z := 7.
Definition COMMUNITIES : Z := 8.
Definition MP_REACH_NLRI : Z := 14.
Definition MP_UNREACH_NLRI : Z := 15.
Definition EXTENDED_COMMUNITIES : Z := 16.
Definition AS4_PATH : Z := 17.
Definition AS4_AGGREGATOR : Z := 18.

Definition FLAG_OPTIONAL : Z := Z.shiftl 1 7.
Definition FLAG_TRANSITIVE : Z := Z.shiftl 1 6.
Definition FLAG_PARTIAL : Z := Z.shiftl 1 5.
Definition FLAG_EXTENDED : Z := Z.shiftl 1 4.

Definition ORIGIN_IGP : Z := 0.
Definition ORIGIN_EGP : Z := 1.
Definition ORIGIN_INCOMPLETE : Z := 2.

Definition AS_SET : Z := 1.
Definition AS_SEQUENCE : Z := 2.

Definition AS_TRANS : Z := 23456.
Definition AS_2BYTES_LIMIT : Z := 65535.

(** ** [Base]: flags and type code *)

Record Base : Type := { flag : Z; code : Z }.

#[global] Instance Base_eq_dec : EqDecision Base.
Proof. solve_decision. Defined.

Definition base_new (flag code : Z) : Base := {| flag := flag; code := code |}.

Definition base_is_extended (b : Base) : bool := negb (Z.land (flag b) FLAG_EXTENDED =? 0).
Definition base_is_transitive (b : Base) : bool := negb (Z.land (flag b) FLAG_TRANSITIVE =? 0).
Definition base_is_optional (b : Base) : bool := negb (Z.land (flag b) FLAG_OPTIONAL =? 0).
Definition base_is_partial (b : Base) : bool := negb (Z.land (flag b) FLAG_PARTIAL =? 0).

Definition validate_attribute_flag (b : Base) : bool :=
  if code b =? ORIGIN then negb (base_is_optional b)
  else if code b =? AS_PATH then negb (base_is_optional b)
  else if code b =? NEXT_HOP then negb (base_is_optional b)
  else if code b =? MULTI_EXIT_DISC then base_is_optional b && negb (base_is_transitive b)
  else if code b =? LOCAL_PREF then true
  else if code b =? ATOMIC_AGGREGATE then true
  else if code b =? AGGREGATOR then base_is_optional b
  else if code b =? COMMUNITIES then base_is_optional b
  else if code b =? MP_REACH_NLRI then base_is_optional b
  else if code b =? MP_UNREACH_NLRI then base_is_optional b
  else if code b =? EXTENDED_COMMUNITIES then base_is_optional b
  else if code b =? AS4_PATH then base_is_optional b
  else if code b =? AS4_AGGREGATOR then base_is_optional b
  else false.

(** [From<&Base> for u16] *)
Definition base_into_u16 (b : Base) : Z := wrap 16 (Z.shiftl (flag b) 8) + code b.

Record ASSegment : Type := { segment_type : Z; segments : list Z }.

#[global] Instance ASSegment_eq_dec : EqDecision ASSegment.
Proof. solve_decision. Defined.

Definition seg_new (segment_type : Z) (segments : list Z) : ASSegment :=
  {| segment_type := segment_type; segments := segments |}.

Definition seg_len (s : ASSegment) : Z := Z.of_nat (length (segments s)).

(** [segments.iter().any(|s| s.len() > 0)] *)
Definition any_nonempty (l : list ASSegment) : bool := existsb (fun s => 0 <? seg_len s) l.

Section defs.
Context {I : IpNetApi} {B : BufApi} {P : Profile}.

Inductive Attribute : Type :=
| Origin (b : Base) (val : Z)
| ASPath (b : Base) (segments : list ASSegment)
| NextHop (b : Base) (addr : Z)
| MultiExitDisc (b : Base) (val : Z)
| LocalPref (b : Base) (val : Z)
| AtomicAggregate (b : Base)
| Aggregator (b : Base) (asn : Z) (addr : IpAddr)
| Communities (b : Base) (val : Z)
| MPReachNLRI (b : Base) (family : AddressFamily) (nexthops : list IpAddr) (prefixes : list Prefix.Prefix)
| MPUnReachNLRI (b : Base) (family : AddressFamily) (prefixes : list Prefix.Prefix)
| ExtendedCommunities (b : Base) (typ val : Z)
| AS4Path (b : Base) (segments : list ASSegment)
| AS4Aggregator (b : Base) (asn : Z) (addr : IpAddr)
| Unsupported (b : Base) (data : list Z).

#[global] Instance Attribute_eq_dec : EqDecision Attribute.
Proof. solve_decision. Defined.

Definition get_base (a : Attribute) : Base :=
  match a with
  | Origin b _ | ASPath b _ | NextHop b _ | MultiExitDisc b _ | LocalPref b _
  | AtomicAggregate b | Aggregator b _ _ | Communities b _ | ExtendedCommunities b _ _
  | MPReachNLRI b _ _ _ | MPUnReachNLRI b _ _ | AS4Path b _ | AS4Aggregator b _ _
  | Unsupported b _ => b
  end.

(** [get_base_mut]: write the base back in place. *)
Definition set_base (b : Base) (a : Attribute) : Attribute :=
  match a with
  | Origin _ v => Origin b v
  | ASPath _ s => ASPath b s
  | NextHop _ v => NextHop b v
  | MultiExitDisc _ v => MultiExitDisc b v
  | LocalPref _ v => LocalPref b v
  | AtomicAggregate _ => AtomicAggregate b
  | Aggregator _ n x => Aggregator b n x
  | Communities _ v => Communities b v
  | MPReachNLRI _ f n p => MPReachNLRI b f n p
  | MPUnReachNLRI _ f p => MPUnReachNLRI b f p
  | ExtendedCommunities _ t v => ExtendedCommunities b t v
  | AS4Path _ s => AS4Path b s
  | AS4Aggregator _ n x => AS4Aggregator b n x
  | Unsupported _ d => Unsupported b d
  end.

Definition is_transitive (a : Attribute) : bool := base_is_transitive (get_base a).
Definition is_optional (a : Attribute) : bool := base_is_optional (get_base a).
Definition is_partial (a : Attribute) : bool := base_is_partial (get_base a).
Definition is_extended (a : Attribute) : bool := base_is_extended (get_base a).
Definition is_recognized (a : Attribute) : bool :=
  match a with Unsupported _ _ => false | _ => true end.

Definition set_partial (a : Attribute) : res Error Attribute :=
  f ← ovf 8 (flag (get_base a) + FLAG_PARTIAL);
  Ok (set_base {| flag := f; code := code (get_base a) |} a).

(** [From<Attribute> for u8] *)
Definition into_u8 (a : Attribute) : Z :=
  match a with
  | Origin _ _ => ORIGIN
  | ASPath _ _ => AS_PATH
  | NextHop _ _ => NEXT_HOP
  | MultiExitDisc _ _ => MULTI_EXIT_DISC
  | LocalPref _ _ => LOCAL_PREF
  | AtomicAggregate _ => ATOMIC_AGGREGATE
  | Aggregator _ _ _ => AGGREGATOR
  | Communities _ _ => COMMUNITIES
  | ExtendedCommunities _ _ _ => EXTENDED_COMMUNITIES
  | MPReachNLRI _ _ _ _ => MP_REACH_NLRI
  | MPUnReachNLRI _ _ _ => MP_UNREACH_NLRI
  | AS4Path _ _ => AS4_PATH
  | AS4Aggregator _ _ _ => AS4_AGGREGATOR
  | Unsupported b _ => code b
  end.

Definition attr_code (a : Attribute) : Z := code (get_base a).

(** ** Constructors *)

Definition new_origin (val : Z) : res Error Attribute :=
  if bool_decide (val ∈ [ORIGIN_IGP; ORIGIN_EGP; ORIGIN_INCOMPLETE])
  then Ok (Origin (base_new FLAG_TRANSITIVE ORIGIN) val)
  else Err (UpdateMessage (InvalidOriginAttribute val)).

Definition new_nexthop (addr : Z) : Attribute := NextHop (base_new FLAG_TRANSITIVE NEXT_HOP) addr.

(** The segments [new_as_path] and [new_as4_path] build. *)
Definition path_segments (as_sequence as_set : list Z) : list ASSegment :=
  match as_set with
  | _ :: _ => [seg_new AS_SEQUENCE as_sequence; seg_new AS_SET as_set]
  | [] => [seg_new AS_SEQUENCE as_sequence]
  end.

Definition new_as_path (as_sequence as_set : list Z) (extend : bool) : res Error Attribute :=
  let flag := if extend then FLAG_TRANSITIVE + FLAG_EXTENDED else FLAG_TRANSITIVE in
  Ok (ASPath (base_new flag AS_PATH) (path_segments as_sequence as_set)).

Definition new_as4_path (as_sequence as_set : list Z) (extend : bool) : res Error Attribute :=
  let flag := if extend then FLAG_TRANSITIVE + FLAG_OPTIONAL + FLAG_EXTENDED
              else FLAG_TRANSITIVE + FLAG_OPTIONAL in
  Ok (AS4Path (base_new flag AS4_PATH) (path_segments as_sequence as_set)).

Definition new_mp_reach_nlri (family : AddressFamily) (nexthops : list IpAddr)
    (prefixes : list Prefix.Prefix) : res Error Attribute :=
  Ok (MPReachNLRI (base_new FLAG_OPTIONAL MP_REACH_NLRI) family nexthops prefixes).

Definition new_mp_unreach_nlri (family : AddressFamily) (prefixes : list Prefix.Prefix) :
    res Error Attribute :=
  Ok (MPUnReachNLRI (base_new FLAG_OPTIONAL MP_UNREACH_NLRI) family prefixes).

Definition new_local_pref (val : Z) : res Error Attribute :=
  Ok (LocalPref (base_new FLAG_TRANSITIVE LOCAL_PREF) val).

Definition new_med (val : Z) : res Error Attribute :=
  Ok (MultiExitDisc (base_new FLAG_OPTIONAL MULTI_EXIT_DISC) val).

(** [str::parse] to a [w]-bit unsigned integer: an optional [+], then decimal
    digits, at least one, with a value that fits. *)
Fixpoint parse_digits (w acc : Z) (s : string) : option Z :=
  match s with
  | EmptyString => Some acc
  | String c s' =>
      let d := Z.of_nat (nat_of_ascii c) - 48 in
      if (0 <=? d) && (d <=? 9) && (acc * 10 + d <? 2 ^ w) then parse_digits w (acc * 10 + d) s'
      else None
  end.

Definition parse_uint (w : Z) (s : string) : option Z :=
  match s with
  | EmptyString => None
  | String "+" EmptyString => None
  | String "+" s' => parse_digits w 0 s'
  | _ => parse_digits w 0 s
  end.

(** [value.parse().unwrap()] *)
Definition parse_unwrap (w : Z) (s : string) : res Error Z :=
  match parse_uint w s with Some v => Ok v | None => Panic end.

Definition from_str_pair (key value : string) : res Error Attribute :=
  if String.eqb key "origin" then v ← parse_unwrap 8 value; new_origin v
  else if String.eqb key "local_pref" then v ← parse_unwrap 32 value; new_local_pref v
  else if String.eqb key "med" then v ← parse_unwrap 32 value; new_med v
  else Err (Config (InvalidArgument "failed to parse key value pair")).

(** ** Decoding *)

Definition optional_error {A} (r : res string A) : M (list Z) Error A :=
  lift (res_map_err (fun _ => UpdateMessage OptionalAttributeError) r).

(** The condition under which the [AS_PATH] loop goes on:
    [!(data.remaining() + length <= remain)]. *)
Definition as_path_more (remain length : Z) : M (list Z) Error bool :=
  r ← remaining;
  s ← lift (ovf 64 (r + length));
  mret (negb (s <=? remain)).

(** One AS segment, with four or two bytes per AS number. *)
Definition read_segment (as4_enabled : bool) (acc : list ASSegment) :
    M (list Z) Error (list ASSegment) :=
  segment_type ← get_u 1;
  segment_length ← get_u 1;
  segs ← for_collect (fun _ => if as4_enabled then get_u 4 else get_u 2) (seqZ 0 segment_length);
  mret (acc ++ [{| segment_type := segment_type; segments := segs |}]).

Definition push_prefix (family : AddressFamily) (add_path_enabled : bool)
    (acc : list Prefix.Prefix) : M (list Z) Error (list Prefix.Prefix) :=
  p ← Prefix.decode family add_path_enabled;
  mret (acc ++ [p]).

Definition decode_value (b : Base) (length : Z) (as4_enabled : bool) : M (list Z) Error Attribute :=
  remain ← remaining;
  if code b =? ORIGIN then
    val ← get_u 1;
    if 2 <? val then throw (UpdateMessage (InvalidOriginAttribute val)) else mret (Origin b val)
  else if code b =? AS_PATH then
    segments ← while (as_path_more remain length) (read_segment as4_enabled) [];
    mret (ASPath b segments)
  else if code b =? NEXT_HOP then a ← get_u 4; mret (NextHop b a)
  else if code b =? MULTI_EXIT_DISC then v ← get_u 4; mret (MultiExitDisc b v)
  else if code b =? LOCAL_PREF then v ← get_u 4; mret (LocalPref b v)
  else if code b =? ATOMIC_AGGREGATE then mret (AtomicAggregate b)
  else if code b =? AGGREGATOR then
    '(asn, remain) ← (if as4_enabled
      then asn ← get_u 4; r ← lift (ovf 64 (length - 4)); mret (asn, r)
      else asn ← get_u 2; r ← lift (ovf 64 (length - 2)); mret (asn, r));
    addr ← (if remain =? 4 then a ← get_u 4; mret (AV4 a)
            else if remain =? 16 then a ← get_u 16; mret (AV6 a)
            else throw (UpdateMessage OptionalAttributeError));
    mret (Aggregator b asn addr)
  else if code b =? COMMUNITIES then v ← get_u 4; mret (Communities b v)
  else if code b =? EXTENDED_COMMUNITIES then
    val ← get_u 8;
    let typ := wrap 16 (Z.shiftr val 48) in
    let val := Z.land val 0x0000111111111111 in
    mret (ExtendedCommunities b typ val)
  else if code b =? MP_REACH_NLRI then
    a ← get_u 2;
    s ← get_u 1;
    family ← optional_error (Family.new a s);
    let add_path_enabled := false in
    next_hop_length ← get_u 1;
    next_hops ← match afi family with
      | IPv4 => for_collect (fun _ => a ← get_u 4; mret (AV4 a)) (seqZ 0 (next_hop_length / 4))
      | IPv6 => for_collect (fun _ => a ← get_u 16; mret (AV6 a)) (seqZ 0 (next_hop_length / 16))
      end;
    get_u 1 ;;
    nlri ← while (more remain length) (push_prefix family add_path_enabled) [];
    mret (MPReachNLRI b family next_hops nlri)
  else if code b =? MP_UNREACH_NLRI then
    a ← get_u 2;
    s ← get_u 1;
    family ← optional_error (Family.new a s);
    withdrawn_routes ← while (more remain length) (push_prefix family false) [];
    mret (MPUnReachNLRI b family withdrawn_routes)
  else if code b =? AS4_PATH then
    segments ← while (more remain length) (read_segment true) [];
    mret (AS4Path b segments)
  else if code b =? AS4_AGGREGATOR then
    if length =? 8 then asn ← get_u 4; a ← get_u 4; mret (AS4Aggregator b asn (AV4 a))
    else if length =? 20 then asn ← get_u 4; a ← get_u 16; mret (Aggregator b asn (AV6 a))
    else throw (UpdateMessage OptionalAttributeError)
  else
    if negb (base_is_optional b)
    then throw (UpdateMessage (UnrecognizedWellknownAttribute (code b)))
    else d ← take_bytes length; mret (Unsupported b d).

Definition decode (as4_enabled add_path_enabled : bool) : M (list Z) Error Attribute :=
  f ← get_u 1;
  c ← get_u 1;
  let b := {| flag := f; code := c |} in
  length ← (if negb (Z.land (flag b) FLAG_EXTENDED =? 0) then get_u 2 else get_u 1);
  if negb (validate_attribute_flag b)
  then throw (UpdateMessage (AttributeFlagsError (code b) length (flag b)))
  else decode_value b length as4_enabled.

(** ** Encoding *)

Definition seg_bytes_len (as4_enabled : bool) (s : ASSegment) : Z :=
  foldl (fun aa _ => aa + if as4_enabled then 4 else 2) 0 (segments s).

Definition segments_len (as4_enabled : bool) (l : list ASSegment) : Z :=
  foldl (fun a b => if negb (any_nonempty l) then 0 else a + 2 + seg_bytes_len as4_enabled b) 0 l.

Definition len (as4_enabled add_path_enabled : bool) (a : Attribute) : Z :=
  match a with
  | Origin _ _ => 1
  | ASPath _ segments => segments_len as4_enabled segments
  | NextHop _ _ => 4
  | MultiExitDisc _ _ => 4
  | LocalPref _ _ => 4
  | AtomicAggregate _ => 0
  | Aggregator _ _ addr =>
      if as4_enabled then match addr with AV4 _ => 8 | AV6 _ => 20 end
      else match addr with AV4 _ => 6 | AV6 _ => 18 end
  | Communities _ _ => 4
  | ExtendedCommunities _ _ _ => 8
  | MPReachNLRI _ _ next_hops prefixes =>
      let length := foldl (fun l next_hop => match next_hop with AV4 _ => l + 4 | AV6 _ => l + 16 end)
        5 next_hops in
      foldl (fun l prefix => l + Prefix.len prefix) length prefixes
  | MPUnReachNLRI _ _ prefixes => foldl (fun l prefix => l + Prefix.len prefix) 3 prefixes
  | AS4Path _ segments => segments_len true segments
  | AS4Aggregator _ _ addr => match addr with AV4 _ => 8 | AV6 _ => 20 end
  | Unsupported _ data => Z.of_nat (length data)
  end.

Definition put_addr (a : IpAddr) : M (list Z) Error unit :=
  match a with AV4 z => put_bytes (be_bytes 4 z) | AV6 z => put_bytes (be_bytes 16 z) end.

Definition put_segment (as4_enabled : bool) (seg : ASSegment) : M (list Z) Error unit :=
  put_u 1 (segment_type seg) ;;
  put_u 1 (wrap 8 (Z.of_nat (length (segments seg)))) ;;
  for_each (fun asn => if as4_enabled then put_u 4 asn else put_u 2 (wrap 16 asn)) (segments seg).

Definition put_segments (as4_enabled : bool) (l : list ASSegment) : M (list Z) Error unit :=
  if negb (any_nonempty l) then mret tt else for_each (put_segment as4_enabled) l.

Definition encode (as4_enabled add_path_enabled : bool) (a : Attribute) : M (list Z) Error unit :=
  put_u 2 (base_into_u16 (get_base a)) ;;
  (if is_extended a then put_u 2 (wrap 16 (len as4_enabled add_path_enabled a))
   else put_u 1 (wrap 8 (len as4_enabled add_path_enabled a))) ;;
  match a with
  | Origin _ val => put_u 1 val
  | ASPath _ segments => put_segments as4_enabled segments
  | NextHop _ next => put_bytes (be_bytes 4 next)
  | MultiExitDisc _ val => put_u 4 val
  | LocalPref _ pref => put_u 4 pref
  | AtomicAggregate _ => mret tt
  | Aggregator _ val addr =>
      (if as4_enabled then put_u 4 val else put_u 2 (wrap 16 val)) ;; put_addr addr
  | Communities _ val => put_u 4 val
  | ExtendedCommunities _ val1 val2 =>
      let typ := wrap 64 (Z.shiftl val1 48) in
      v ← lift (ovf 64 (typ + val2));
      put_u 8 v
  | MPReachNLRI _ family addrs prefixes =>
      put_u 2 (afi_code (afi family)) ;;
      put_u 1 (safi_code (safi family)) ;;
      put_u 1 match afi family with
              | IPv4 => wrap 8 (Z.of_nat (length addrs) * 4)
              | IPv6 => wrap 8 (Z.of_nat (length addrs) * 16)
              end ;;
      for_each put_addr addrs ;;
      put_u 1 0 ;;
      for_each Prefix.encode prefixes
  | MPUnReachNLRI _ family prefixes =>
      put_u 2 (afi_code (afi family)) ;;
      put_u 1 (safi_code (safi family)) ;;
      for_each Prefix.encode prefixes
  | AS4Path _ segments => put_segments true segments
  | AS4Aggregator _ val addr => put_u 4 val ;; put_addr addr
  | Unsupported _ data => put_bytes data
  end.

(** ** Specification of the wire form *)

Definition as_width (as4_enabled : bool) : nat := if as4_enabled then 4%nat else 2%nat.

Definition seg_bytes (as4_enabled : bool) (s : ASSegment) : list Z :=
  be_bytes 1 (segment_type s) ++ be_bytes 1 (seg_len s) ++
  flat_map (be_bytes (as_width as4_enabled)) (segments s).

Definition segs_bytes (as4_enabled : bool) (l : list ASSegment) : list Z :=
  if any_nonempty l then flat_map (seg_bytes as4_enabled) l else [].

Definition addr_bytes (a : IpAddr) : list Z :=
  match a with AV4 z => be_bytes 4 z | AV6 z => be_bytes 16 z end.

Definition payload (as4_enabled : bool) (a : Attribute) : list Z :=
  match a with
  | Origin _ val => be_bytes 1 val
  | ASPath _ segments => segs_bytes as4_enabled segments
  | NextHop _ v | MultiExitDisc _ v | LocalPref _ v | Communities _ v => be_bytes 4 v
  | AtomicAggregate _ => []
  | Aggregator _ asn addr => be_bytes (as_width as4_enabled) asn ++ addr_bytes addr
  | ExtendedCommunities _ typ val => be_bytes 8 (typ * 2 ^ 48 + val)
  | MPReachNLRI _ f nhs ps =>
      be_bytes 2 (afi_code (afi f)) ++ be_bytes 1 (safi_code (safi f)) ++
      be_bytes 1 (Z.of_nat (length nhs) * match afi f with IPv4 => 4 | IPv6 => 16 end) ++
      flat_map addr_bytes nhs ++ be_bytes 1 0 ++ flat_map Prefix.bytes ps
  | MPUnReachNLRI _ f ps =>
      be_bytes 2 (afi_code (afi f)) ++ be_bytes 1 (safi_code (safi f)) ++ flat_map Prefix.bytes ps
  | AS4Path _ segments => segs_bytes true segments
  | AS4Aggregator _ asn addr => be_bytes 4 asn ++ addr_bytes addr
  | Unsupported _ data => data
  end.

Definition bytes (as4_enabled : bool) (a : Attribute) : list Z :=
  be_bytes 1 (flag (get_base a)) ++ be_bytes 1 (code (get_base a)) ++
  be_bytes (if is_extended a then 2 else 1) (Z.of_nat (length (payload as4_enabled a))) ++
  payload as4_enabled a.

Definition seg_wf (as4_enabled : bool) (s : ASSegment) : Prop :=
  uint 8 (segment_type s) /\ seg_len s < 256 /\
  Forall (uint (8 * Z.of_nat (as_width as4_enabled))) (segments s).

(** A path of which every segment is empty is written as no segment at all. *)
Definition segs_wf (as4_enabled : bool) (l : list ASSegment) : Prop :=
  (l = [] \/ any_nonempty l = true) /\ Forall (seg_wf as4_enabled) l.

#[global] Instance seg_wf_dec as4_enabled s : Decision (seg_wf as4_enabled s).
Proof. unfold seg_wf. apply _. Defined.
#[global] Instance segs_wf_dec as4_enabled l : Decision (segs_wf as4_enabled l).
Proof. unfold segs_wf. apply _. Defined.

Definition addr_in (f : Afi) (a : IpAddr) : Prop :=
  match f, a with
  | IPv4, AV4 z => uint 32 z
  | IPv6, AV6 z => uint 128 z
  | _, _ => False
  end.

Definition prefix_wf (f : AddressFamily) (p : Prefix.Prefix) : Prop :=
  Prefix.family_of p = afi f /\ Prefix.path_id p = None /\ Prefix.tail_zero p.

Definition EC_MASK : Z := 0x0000111111111111.

(** The values an attribute can hold on the wire and be read back. *)
Definition value_wf (as4_enabled : bool) (a : Attribute) : Prop :=
  match a with
  | Origin _ val => 0 <= val <= 2
  | ASPath _ segments => segs_wf as4_enabled segments
  | NextHop _ v | MultiExitDisc _ v | LocalPref _ v | Communities _ v => uint 32 v
  | AtomicAggregate _ => True
  | Aggregator _ asn addr => uint (8 * Z.of_nat (as_width as4_enabled)) asn /\ addr_ok addr
  | ExtendedCommunities _ typ val => uint 16 typ /\ uint 48 val /\ Z.land val EC_MASK = val
  | MPReachNLRI _ f nhs ps =>
      Z.of_nat (length nhs) * match afi f with IPv4 => 4 | IPv6 => 16 end < 256 /\
      Forall (addr_in (afi f)) nhs /\ Forall (prefix_wf f) ps
  | MPUnReachNLRI _ f ps => Forall (prefix_wf f) ps
  | AS4Path _ segments => segs_wf true segments
  | AS4Aggregator _ asn addr => uint 32 asn /\ addr_in IPv4 addr
  | Unsupported _ _ => False
  end.

Definition base_wf (a : Attribute) : Prop :=
  uint 8 (flag (get_base a)) /\ code (get_base a) = into_u8 a /\
  validate_attribute_flag (get_base a) = true.

Definition wf (as4_enabled : bool) (a : Attribute) : Prop :=
  base_wf a /\ value_wf as4_enabled a /\
  Z.of_nat (length (payload as4_enabled a)) < (if is_extended a then 65536 else 256).
End defs.

(** ** Lengths *)
Section lengths.
Context {I : IpNetApi} {IL : IpNetLaws}.

Lemma foldl_add_const {A} (k z : Z) (l : list A) :
  foldl (fun aa _ => aa + k) z l = z + k * Z.of_nat (length l).
Proof. revert z. induction l as [|x l IH]; intros z; simpl; [lia|]. rewrite IH. lia. Qed.

Lemma length_seg_bytes as4 s : Z.of_nat (length (seg_bytes as4 s)) = 2 + seg_bytes_len as4 s.
Proof.
  unfold seg_bytes, seg_bytes_len. rewrite !length_app, !length_be_bytes, foldl_add_const.
  rewrite (length_flat_map_const _ (as_width as4)) by (intros; apply length_be_bytes).
  destruct as4; simpl; lia.
Qed.

Lemma length_segs_bytes as4 l : Z.of_nat (length (segs_bytes as4 l)) = segments_len as4 l.
Proof.
  unfold segs_bytes, segments_len. destruct (any_nonempty l); simpl.
  - assert (H : forall z, foldl (fun a b => a + 2 + seg_bytes_len as4 b) z l =
      z + Z.of_nat (length (flat_map (seg_bytes as4) l))).
    { induction l as [|s l IH]; intros z; simpl; [lia|].
      rewrite IH, length_app, Nat2Z.inj_add, length_seg_bytes. lia. }
    rewrite H. lia.
  - induction l as [|s l IH]; simpl; [done|].  exact IH.
Qed.

Lemma foldl_prefix_len z l :
  foldl (fun l prefix => l + Prefix.len prefix) z l = z + Z.of_nat (length (flat_map Prefix.bytes l)).
Proof.
  revert z. induction l as [|p l IH]; intros z; simpl; [lia|].
  rewrite IH, length_app, Nat2Z.inj_add, Prefix.length_bytes. lia.
Qed.

Lemma foldl_addr_len z l :
  foldl (fun l next_hop => match next_hop with AV4 _ => l + 4 | AV6 _ => l + 16 end) z l =
  z + Z.of_nat (length (flat_map addr_bytes l)).
Proof.
  revert z. induction l as [|a l IH]; intros z; simpl; [lia|].
  rewrite IH, length_app, Nat2Z.inj_add.
  destruct a; simpl; rewrite length_be_bytes; lia.
Qed.

Lemma attr_length_payload as4 ap a : Z.of_nat (length (payload as4 a)) = len as4 ap a.
Proof.
  destruct a; cbn [payload len]; rewrite ?length_app, ?length_be_bytes, ?length_segs_bytes; try done.
  - destruct as4, addr; simpl; by rewrite length_be_bytes.
  - rewrite foldl_prefix_len, foldl_addr_len. lia.
  - rewrite foldl_prefix_len. lia.
  - destruct addr; simpl; by rewrite length_be_bytes.
Qed.
End lengths.

Section facts.
Context {I : IpNetApi} {IL : IpNetLaws} {B : BufApi} {BL : BufLaws} {P : Profile}.

(** *** Writing *)

Lemma put_addr_run a dst : put_addr a dst = (Ok tt, dst ++ addr_bytes a).
Proof. destruct a; apply put_bytes_spec. Qed.

Lemma for_each_put_wf {A} (f : A -> M (list Z) Error unit) enc (ok : A -> Prop) l dst :
  (forall x d, ok x -> f x d = (Ok tt, d ++ enc x)) -> Forall ok l ->
  for_each f l dst = (Ok tt, dst ++ flat_map enc l).
Proof.
  intros Hf Hl. revert dst. induction Hl as [|x l Hx Hl IH]; intros dst; simpl.
  - by rewrite app_nil_r.
  - rewrite (bind_ok _ _ _ _ _ (Hf x dst Hx)), IH. by rewrite app_assoc.
Qed.

Lemma put_segment_run as4 s dst : seg_wf as4 s -> put_segment as4 s dst = (Ok tt, dst ++ seg_bytes as4 s).
Proof.
  intros (_ & Hl & Ha). unfold put_segment, seg_bytes. repeat wr. fold (seg_len s).
  rewrite (wrap_small 8) by (unfold uint, seg_len in *; lia). rewrite <-!app_assoc.
  erewrite (for_each_put_wf _ (be_bytes (as_width as4)) _ _ _); [by rewrite <-!app_assoc| |exact Ha].
  intros x d Hx. destruct as4; [apply put_u_spec|]. rewrite wrap_small by exact Hx. apply put_u_spec.
Qed.

Lemma put_segments_run as4 l dst : segs_wf as4 l ->
  put_segments as4 l dst = (Ok tt, dst ++ segs_bytes as4 l).
Proof.
  intros [_ Hl]. unfold put_segments, segs_bytes.
  destruct (any_nonempty l); simpl; [|by rewrite app_nil_r].
  by apply (for_each_put_wf _ _ (seg_wf as4)); auto using put_segment_run.
Qed.

Lemma put_prefixes_run l dst :
  for_each Prefix.encode l dst = (Ok tt, dst ++ flat_map Prefix.bytes l).
Proof. apply for_each_put, Prefix.prefix_encode_run. Qed.

Lemma put_addrs_run l dst : for_each put_addr l dst = (Ok tt, dst ++ flat_map addr_bytes l).
Proof. apply for_each_put, put_addr_run. Qed.

Lemma shiftl_8 f : uint 8 f -> wrap 16 (Z.shiftl f 8) = f * 256.
Proof. intros H. rewrite Z.shiftl_mul_pow2 by lia. apply wrap_small. unfold uint in *. lia. Qed.

Lemma into_u8_byte a : (forall b d, a <> Unsupported b d) -> is_byte (into_u8 a).
Proof. intros H. destruct a; try done. by destruct (H b data). Qed.

Lemma attr_encode_run as4 ap a dst : wf as4 a -> encode as4 ap a dst = (Ok tt, dst ++ bytes as4 a).
Proof.
  intros ((Hf & Hc & Hv) & Hw & Hl). unfold encode, bytes. wr.
  unfold base_into_u16. rewrite shiftl_8 by done.
  rewrite be_bytes_2.
  2:{ unfold is_byte, uint in *. lia. }
  2:{ rewrite Hc. apply into_u8_byte. by intros b d ->. }
  rewrite (bind_ok _ _ _ tt ((dst ++ be_bytes 1 (flag (get_base a)) ++ be_bytes 1 (code (get_base a))) ++
    be_bytes (if is_extended a then 2 else 1) (Z.of_nat (length (payload as4 a))))).
  2:{ rewrite (attr_length_payload as4 ap) in *. destruct (is_extended a);
      rewrite wrap_small by (pose proof (attr_length_payload as4 ap a); unfold uint; lia); apply put_u_spec. }
  match goal with |- _ ?d = _ => set (h := d); assert (Hh : dst ++ be_bytes 1 (flag (get_base a)) ++
    be_bytes 1 (code (get_base a)) ++ be_bytes (if is_extended a then 2 else 1)
      (Z.of_nat (length (payload as4 a))) ++ payload as4 a = h ++ payload as4 a)
    by (unfold h; by rewrite <-!app_assoc) end.
  rewrite Hh. clear Hh. generalize h as d. clear h.
  clear Hf Hc Hv Hl. intros d.
  destruct a; cbn [payload value_wf] in *; try (by rewrite ?put_u_spec, ?put_bytes_spec).
  - by apply put_segments_run.
  - by rewrite app_nil_r.
  - rewrite (bind_ok _ _ _ tt (d ++ be_bytes (as_width as4) asn)).
    + by rewrite put_addr_run, app_assoc.
    + destruct as4; [apply put_u_spec|]. rewrite wrap_small by apply Hw. apply put_u_spec.
  - destruct Hw as (Hn & _ & _). repeat wr.
    rewrite (bind_ok _ _ _ _ _ (put_addrs_run _ _)). wr. rewrite put_prefixes_run, <-!app_assoc.
    do 7 f_equal. destruct (afi family); apply wrap_small; unfold uint; lia.
  - repeat wr. by rewrite put_prefixes_run, <-!app_assoc.
  - destruct Hw as (Ht & Hv & _). rewrite Z.shiftl_mul_pow2 by lia.
    rewrite (wrap_small 64) by (unfold uint in *; lia).
    rewrite (ovf_small 64) by (unfold uint in *; lia). erewrite bind_ok by reflexivity.
    apply put_u_spec.
  - by apply put_segments_run.
  - wr. by rewrite put_addr_run, app_assoc.
Qed.

(** *** Reading *)

Lemma get_as as4 x l : uint (8 * Z.of_nat (as_width as4)) x ->
  (if as4 then get_u 4 else get_u 2 : M (list Z) Error Z) (be_bytes (as_width as4) x ++ l) = (Ok x, l).
Proof. intros H. destruct as4; by apply get_u_be. Qed.

Lemma read_segment_run as4 s acc l : seg_wf as4 s ->
  read_segment as4 acc (seg_bytes as4 s ++ l) = (Ok (acc ++ [s]), l).
Proof.
  intros (Ht & Hl & Ha). unfold read_segment, seg_bytes. rewrite <-!app_assoc.
  do 2 (erewrite bind_ok by (apply get_u_be; unfold uint, seg_len in *; simpl; lia)).
  unfold seg_len.
  rewrite (bind_ok _ _ _ (segments s) l); [by destruct s|].
  apply (for_collect_read _ _ (uint (8 * Z.of_nat (as_width as4)))); [|done].
  intros x d Hx. by apply get_as.
Qed.

Lemma read_segment_consumes as4 acc : consumes (read_segment as4 acc).
Proof.
  apply bind_consumes_l; [apply get_u_consumes; lia|]. intros t. shrink.
Qed.

Lemma seg_bytes_nonempty as4 s : seg_bytes as4 s <> [].
Proof. intros H. apply (f_equal length) in H. pose proof (length_seg_bytes as4 s).
  unfold seg_bytes_len in *. rewrite foldl_add_const in *. simpl in H. destruct as4; lia. Qed.

Lemma segs_bytes_flat as4 l : segs_wf as4 l -> segs_bytes as4 l = flat_map (seg_bytes as4) l.
Proof. unfold segs_bytes. intros [[->|Hl] _]; [done|by rewrite Hl]. Qed.

Lemma as_path_more_pure remain n : pure_cond (as_path_more remain n).
Proof. intros l. unfold as_path_more, remaining. mred. by destruct (ovf _ _). Qed.

Lemma read_as_path as4 l rest : segs_wf as4 l ->
  let n := Z.of_nat (length (segs_bytes as4 l)) in n < 2 ^ 62 -> Z.of_nat (length rest) < 2 ^ 62 ->
  while (as_path_more (n + Z.of_nat (length rest)) n) (read_segment as4) [] (segs_bytes as4 l ++ rest) =
  (Ok l, rest).
Proof.
  intros Hl n Hn Hr. unfold n in *. rewrite (segs_bytes_flat _ _ Hl) in *. destruct Hl as [_ Hl].
  apply (while_list_gen (seg_bytes as4) (seg_wf as4)) with
    (N := (length (flat_map (seg_bytes as4) l ++ rest))%nat);
    auto using read_segment_run, read_segment_consumes, seg_bytes_nonempty, as_path_more_pure.
  intros d Hd. rewrite length_app in Hd. unfold as_path_more, remaining. mred.
  rewrite ovf_small by (unfold uint; lia). do 2 f_equal.
  case_bool_decide; destruct (Z.leb_spec (Z.of_nat (length d) + Z.of_nat (length (flat_map (seg_bytes as4) l)))
    (Z.of_nat (length (flat_map (seg_bytes as4) l)) + Z.of_nat (length rest))); simpl; lia || done.
Qed.

Lemma read_as4_path l rest : segs_wf true l ->
  let n := Z.of_nat (length (segs_bytes true l)) in Z.of_nat (length rest) < 2 ^ 62 ->
  while (more (n + Z.of_nat (length rest)) n) (read_segment true) [] (segs_bytes true l ++ rest) =
  (Ok l, rest).
Proof.
  intros Hl n Hr. unfold n. rewrite (segs_bytes_flat _ _ Hl) in *. destruct Hl as [_ Hl].
  apply (while_list (seg_bytes true) (seg_wf true));
    auto using read_segment_run, read_segment_consumes, seg_bytes_nonempty; unfold uint; lia.
Qed.

Lemma push_prefix_run f p acc l : prefix_wf f p ->
  push_prefix f false acc (Prefix.bytes p ++ l) = (Ok (acc ++ [p]), l).
Proof.
  intros (Hf & Hid & Ht). unfold push_prefix.
  destruct (Prefix.prefix_decode_bytes p (safi f) l) as (n & Hd & _ & He).
  { unfold Prefix.path_id_ok. by rewrite Hid. }
  rewrite Hid, (He Ht), Hf in Hd. destruct f as [a s]; simpl in Hd.
  rewrite (bind_ok _ _ _ _ _ Hd). destruct p; simpl in *. by subst.
Qed.

Lemma push_prefix_consumes f ap acc : consumes (push_prefix f ap acc).
Proof. apply bind_consumes_l; [apply Prefix.prefix_decode_consumes|]. intros p. shrink. Qed.

Lemma prefix_bytes_nonempty p : Prefix.bytes p <> [].
Proof.
  intros H. apply (f_equal length) in H. unfold Prefix.bytes in H.
  rewrite !length_app, !length_be_bytes in H. simpl in H. lia.
Qed.

Lemma read_prefixes f remain n ps rest : Forall (prefix_wf f) ps ->
  remain - n = Z.of_nat (length rest) -> Z.of_nat (length rest) < 2 ^ 62 ->
  while (more remain n) (push_prefix f false) [] (flat_map Prefix.bytes ps ++ rest) = (Ok ps, rest).
Proof.
  intros Hp Hr Hl. apply (while_list Prefix.bytes (prefix_wf f));
    auto using push_prefix_run, push_prefix_consumes, prefix_bytes_nonempty. unfold uint. lia.
Qed.

Lemma optional_error_codes f l :
  optional_error (Family.new (afi_code (afi f)) (safi_code (safi f))) l = (Ok f, l).
Proof. unfold optional_error. by rewrite new_codes. Qed.

Lemma read_next_hops f nhs rest : Forall (addr_in f) nhs ->
  let k := Z.of_nat (length nhs) * match f with IPv4 => 4 | IPv6 => 16 end in
  match f with
  | IPv4 => for_collect (fun _ => a ← get_u 4; mret (AV4 a)) (seqZ 0 (k / 4))
  | IPv6 => for_collect (fun _ => a ← get_u 16; mret (AV6 a)) (seqZ 0 (k / 16))
  end (flat_map addr_bytes nhs ++ rest) = (Ok nhs, rest : list Z) :> res Error _ * _.
Proof.
  intros Hn. destruct f; cbv zeta; rewrite Z.div_mul by lia;
    refine (for_collect_read _ addr_bytes _ nhs rest _ Hn 0);
    intros [z|z] l Hz; try done; simpl; by rd.
Qed.

(** The value of an extended community. *)
Lemma ec_fields typ val : uint 16 typ -> uint 48 val ->
  uint 64 (typ * 2 ^ 48 + val) /\ wrap 16 (Z.shiftr (typ * 2 ^ 48 + val) 48) = typ /\
  Z.land (typ * 2 ^ 48 + val) 0x0000111111111111 = Z.land val EC_MASK.
Proof.
  intros Ht Hv. split_and!.
  - unfold uint in *. lia.
  - rewrite Z.shiftr_div_pow2, Z.div_add_l by lia. unfold uint in Hv.
    rewrite (Z.div_small val), Z.add_0_r by lia. by apply wrap_small.
  - change 0x0000111111111111 with (Z.land (Z.ones 48) EC_MASK).
    rewrite Z.land_assoc, Z.land_ones by lia. unfold uint in Hv.
    by rewrite Z.add_comm, Z.mod_add, Z.mod_small by lia.
Qed.

Lemma decode_value_run as4 a rest : wf as4 a -> Z.of_nat (length rest) < 2 ^ 62 ->
  decode_value (get_base a) (Z.of_nat (length (payload as4 a))) as4 (payload as4 a ++ rest) =
  (Ok a, rest).
Proof.
  intros ((_ & Hc & _) & Hw & Hl) Hr. unfold decode_value.
  assert (Hlen : Z.of_nat (length (payload as4 a)) < 65536) by (destruct (is_extended a); lia).
  rewrite (bind_ok _ _ _ (Z.of_nat (length (payload as4 a)) + Z.of_nat (length rest)) (payload as4 a ++ rest))
    by (unfold remaining; by rewrite length_app, Nat2Z.inj_add).
  rewrite Hc. clear Hc Hl. destruct a.
  all: cbn [payload value_wf] in Hw, Hlen.
  all: cbn [payload into_u8 get_base].
  all: ground_if.
  - rd. destruct (Z.ltb_spec 2 val); [lia|done].
  - by rewrite (bind_ok _ _ _ _ _ (read_as_path _ _ _ Hw ltac:(lia) Hr)).
  - by rd.
  - by rd.
  - by rd.
  - done.
  - destruct Hw as [Hn Ha]. rewrite length_app, <-app_assoc, length_be_bytes, Nat2Z.inj_add.
    rewrite (bind_ok _ _ _ (asn, Z.of_nat (length (addr_bytes addr))) (addr_bytes addr ++ rest)).
    2:{ destruct as4; rd; rewrite ovf_small by (destruct addr; simpl; rewrite length_be_bytes; unfold uint; lia);
        mred; do 3 f_equal; simpl; lia. }
    destruct addr as [z|z]; cbn [addr_bytes addr_ok] in *; rewrite length_be_bytes; cbv beta iota.
    + change (Z.of_nat 4 =? 4) with true. mred. by rewrite get_u_be.
    + change (Z.of_nat 16 =? 4) with false. change (Z.of_nat 16 =? 16) with true. mred.
      by rewrite get_u_be.
  - by rd.
  - destruct Hw as (Hn & Ha & Hp). rewrite <-!app_assoc. do 2 rd.
    rewrite (bind_ok _ _ _ _ _ (optional_error_codes _ _)). cbv zeta.
    erewrite bind_ok by (apply get_u_be; split; [destruct (afi family); lia|exact Hn]).
    rewrite (bind_ok _ _ _ _ _ (read_next_hops _ _ _ Ha)). rd.
    rewrite (bind_ok _ _ _ prefixes rest); [done|]. apply read_prefixes; [done|lia|done].
  - rewrite <-!app_assoc. do 2 rd.
    rewrite (bind_ok _ _ _ _ _ (optional_error_codes _ _)).
    rewrite (bind_ok _ _ _ prefixes rest); [done|]. apply read_prefixes; [done|lia|done].
  - destruct Hw as (Ht & Hv & Hm). destruct (ec_fields _ _ Ht Hv) as (Hu & E1 & E2).
    rd. cbv zeta. by rewrite E1, E2, Hm.
  - by rewrite (bind_ok _ _ _ _ _ (read_as4_path _ _ Hw Hr)).
  - destruct Hw as [Hn Ha]. destruct addr as [z|z]; [|done]. rewrite <-app_assoc, length_app. cbn [addr_bytes addr_in] in *.
    rewrite !length_be_bytes. change (Z.of_nat (4 + 4) =? 8) with true. cbv iota. by do 2 rd.
  - done.
Qed.

Lemma attr_decode_bytes as4 ap a rest : wf as4 a -> Z.of_nat (length rest) < 2 ^ 62 ->
  decode as4 ap (bytes as4 a ++ rest) = (Ok a, rest).
Proof.
  intros Hw Hr. pose proof Hw as ((Hf & Hc & Hv) & Hval & Hl).
  unfold decode, bytes. rewrite <-!app_assoc. erewrite bind_ok by (apply get_u_be; exact Hf).
  erewrite bind_ok by (apply get_u_be; rewrite Hc; destruct a; by vm_compute).
  cbv zeta. replace {| flag := flag (get_base a); code := code (get_base a) |} with (get_base a)
    by (by destruct (get_base a)).
  rewrite (bind_ok _ _ _ (Z.of_nat (length (payload as4 a))) (payload as4 a ++ rest)).
  2:{ fold (base_is_extended (get_base a)). fold (is_extended a).
      destruct (is_extended a); apply get_u_be; unfold uint; simpl; lia. }
  rewrite Hv. by apply decode_value_run.
Qed.

Lemma attr_decode_consumes as4 ap : consumes (decode as4 ap).
Proof.
  intros l a l' H. unfold decode in H.
  apply bind_inv_ok in H as (f & l1 & H1 & H). apply get_u_consumes in H1; [|lia].
  cut (length l' <= length l1)%nat; [lia|]. revert H.
  assert (Hseg : forall b acc, shrinks (read_segment b acc))
    by (intros; apply consumes_shrinks, read_segment_consumes).
  assert (Hpre : forall f acc, shrinks (push_prefix f false acc))
    by (intros; apply consumes_shrinks, push_prefix_consumes).
  match goal with |- ?m l1 = _ -> _ => cut (shrinks m); [intros Hs; apply Hs|] end.
  unfold decode_value, optional_error. cbv zeta. shrink;
    apply while_shrinks; auto using as_path_more_pure, more_pure.
Qed.

(** The head of an attribute: flags, code and the length field. *)
Definition head (b : Base) (n : Z) : list Z :=
  be_bytes 1 (flag b) ++ be_bytes 1 (code b) ++ be_bytes (if base_is_extended b then 2 else 1) n.

Lemma decode_head as4 ap b n l :
  uint 8 (flag b) -> uint 8 (code b) -> uint (if base_is_extended b then 16 else 8) n ->
  decode as4 ap (head b n ++ l) =
  if negb (validate_attribute_flag b)
  then (Err (UpdateMessage (AttributeFlagsError (code b) n (flag b))), l)
  else decode_value b n as4 l.
Proof.
  intros Hf Hc Hn. unfold decode, head. rewrite <-!app_assoc.
  erewrite bind_ok by (apply get_u_be; exact Hf).
  erewrite bind_ok by (apply get_u_be; exact Hc). cbv zeta.
  replace {| flag := flag b; code := code b |} with b by (by destruct b).
  rewrite (bind_ok _ _ _ n l); [by destruct (validate_attribute_flag b)|].
  fold (base_is_extended b). destruct (base_is_extended b); by apply get_u_be.
Qed.

Definition known_codes : list Z := [1; 2; 3; 4; 5; 6; 7; 8; 14; 15; 16; 17; 18].

Lemma validate_unknown b : ~ (code b ∈ known_codes) -> validate_attribute_flag b = false.
Proof.
  unfold known_codes. rewrite !not_elem_of_cons. intros Hc. unfold validate_attribute_flag.
  unfold ORIGIN, AS_PATH, NEXT_HOP, MULTI_EXIT_DISC, LOCAL_PREF, ATOMIC_AGGREGATE, AGGREGATOR,
    COMMUNITIES, MP_REACH_NLRI, MP_UNREACH_NLRI, EXTENDED_COMMUNITIES, AS4_PATH, AS4_AGGREGATOR.
  zcase; try done; lia.
Qed.

(** C19: an attribute whose flags fit its code and whose value fits its wire form
    is written and read back unchanged, with two-byte and with four-byte AS
    numbers: [encode] appends its flags, code, length and [len] bytes of value,
    and [decode] gives the same attribute and leaves what follows. *)
Theorem attribute_roundtrip (as4 ap : bool) (a : Attribute) (rest : list Z)
  (Ha : wf as4 a) (Hr : Z.of_nat (length rest) < 2 ^ 62) :
  exists value,
    (forall dst, encode as4 ap a dst = (Ok tt, dst ++ head (get_base a) (len as4 ap a) ++ value)) /\
    Z.of_nat (length value) = len as4 ap a /\
    decode as4 ap (head (get_base a) (len as4 ap a) ++ value ++ rest) = (Ok a, rest).
Proof.
  exists (payload as4 a). rewrite <-(attr_length_payload as4 ap a). unfold head.
  fold (is_extended a). split_and!; [|done|].
  - intros dst. rewrite attr_encode_run by done. unfold bytes. by rewrite <-!app_assoc.
  - rewrite <-(attr_decode_bytes as4 ap a rest Ha Hr). unfold bytes. by rewrite <-!app_assoc.
Qed.

(** An attribute with a code the program does not know is always answered
    with an attribute flags error, whatever its flags, its length and its value:
    the branches of [decode] that keep an unknown optional attribute or report
    an unknown well-known one are never reached. *)
Theorem unknown_attribute_refused (as4 ap : bool) (b : Base) (n : Z) (l : list Z)
  (Hf : uint 8 (flag b)) (Hc : uint 8 (code b)) (Hn : uint (if base_is_extended b then 16 else 8) n)
  (Hu : ~ (code b ∈ known_codes)) :
  decode as4 ap (head b n ++ l) =
  (Err (UpdateMessage (AttributeFlagsError (code b) n (flag b))), l).
Proof. rewrite decode_head by done. by rewrite validate_unknown. Qed.

(** Reading an extended community keeps only the bits of the mask
    [0x0000_1111_1111_1111] of its 48-bit value, so a community with another
    bit set is not what comes back from its own encoding. *)
Theorem extended_community_masked (as4 ap : bool) (typ val : Z) (rest : list Z)
  (Ht : uint 16 typ) (Hv : uint 48 val) :
  let b := base_new FLAG_OPTIONAL EXTENDED_COMMUNITIES in
  (forall dst, encode as4 ap (ExtendedCommunities b typ val) dst =
     (Ok tt, dst ++ head b 8 ++ be_bytes 8 (typ * 2 ^ 48 + val))) /\
  decode as4 ap (head b 8 ++ be_bytes 8 (typ * 2 ^ 48 + val) ++ rest) =
    (Ok (ExtendedCommunities b typ (Z.land val EC_MASK)), rest).
Proof.
  intros b. split.
  - intros dst. unfold encode. wr. rewrite (bind_ok _ _ _ tt (dst ++ head b 8)).
    2:{ change (is_extended _) with false. cbv iota. rewrite put_u_spec. unfold head.
        by rewrite <-!app_assoc. }
    cbv zeta. rewrite Z.shiftl_mul_pow2 by lia. rewrite (wrap_small 64) by (unfold uint in *; lia).
    rewrite (ovf_small 64) by (unfold uint in *; lia). mred. by rewrite put_u_spec, <-app_assoc.
  - rewrite decode_head by by vm_compute. change (negb (validate_attribute_flag b)) with false.
    cbv iota. destruct (ec_fields _ _ Ht Hv) as (Hu & E1 & E2).
    unfold decode_value. rewrite bind_remaining. change (code b) with 16. ground_if.
    rd. cbv zeta. by rewrite E1, E2.
Qed.
End facts.

Section witnesses.
#[local] Existing Instance simple_ipnet.
#[local] Existing Instance simple_ipnet_laws.
#[local] Existing Instance simple_buf.
#[local] Existing Instance simple_buf_laws.
#[local] Existing Instance debug_profile.

Definition attr_ex : Attribute :=
  ASPath (base_new FLAG_TRANSITIVE AS_PATH) [seg_new AS_SEQUENCE [65000; 100]; seg_new AS_SET [7]].

Lemma attribute_roundtrip_witness :
  exists value,
    (forall dst, encode true false attr_ex dst =
      (Ok tt, dst ++ head (get_base attr_ex) (len true false attr_ex) ++ value)) /\
    Z.of_nat (length value) = len true false attr_ex /\
    decode true false (head (get_base attr_ex) (len true false attr_ex) ++ value ++ [9]) = (Ok attr_ex, [9]).
Proof.
  refine (attribute_roundtrip true false attr_ex [9] _ _); [|simpl; lia].
  split; [split_and!; by vm_compute|]. split; [|by vm_compute].
  by apply (bool_decide_unpack _); vm_compute.
Defined.

Lemma unknown_attribute_refused_witness :
  decode true false (head (base_new FLAG_OPTIONAL 32) 2 ++ [1; 2]) =
  (Err (UpdateMessage (AttributeFlagsError 32 2 128)), [1; 2]).
Proof.
  apply (unknown_attribute_refused true false (base_new FLAG_OPTIONAL 32) 2); try by vm_compute.
  by apply (bool_decide_unpack _); vm_compute.
Defined.

Lemma extended_community_masked_witness :
  decode true false (head (base_new FLAG_OPTIONAL EXTENDED_COMMUNITIES) 8 ++
    be_bytes 8 (2 * 2 ^ 48 + 2) ++ []) =
    (Ok (ExtendedCommunities (base_new FLAG_OPTIONAL EXTENDED_COMMUNITIES) 2 (Z.land 2 EC_MASK)), []).
Proof. apply (extended_community_masked true false 2 2 []); by vm_compute. Defined.
End witnesses.
End Attribute.
