(* ===== verification/BgpMessage.v ===== *)
(** * BGP messages

    [Message] is [bgp/src/packet/message.rs]: the messages, their types, the
    NOTIFICATION codes and subcodes with their numbers, and the builder the
    peers assemble messages with. *)

From S2P Require Import Prelude Net BgpFamily BgpPrefix BgpCapability BgpAttribute.

Module Message.
Import BgpError Family.

Inductive MessageType : Type :=
| TOpen | TUpdate | TNotification | TKeepalive | TRouteRefresh.

#[global] Instance MessageType_eq_dec : EqDecision MessageType.
Proof. solve_decision. Defined.

(** [msg_type as u8] *)
Definition type_code (t : MessageType) : Z :=
  match t with
  | TOpen => 1 | TUpdate => 2 | TNotification => 3 | TKeepalive => 4 | TRouteRefresh => 5
  end.

(** [TryFrom<u8> for MessageType] *)
Definition type_try_from (v : Z) : res MessageHeaderError MessageType :=
  match v with
  | 1 => Ok TOpen
  | 2 => Ok TUpdate
  | 3 => Ok TNotification
  | 4 => Ok TKeepalive
  | 5 => Ok TRouteRefresh
  | _ => Err (BadMessageType v)
  end.

Inductive NotificationCode : Type :=
| NMessageHeader | NOpenMessage | NUpdateMessage | NHoldTimerExpired | NFiniteStateMachine | NCease.

#[global] Instance NotificationCode_eq_dec : EqDecision NotificationCode.
Proof. solve_decision. Defined.

(** [From<NotificationCode> for u8] and [code as u8] *)
Definition notification_code (c : NotificationCode) : Z :=
  match c with
  | NMessageHeader => 1
  | NOpenMessage => 2
  | NUpdateMessage => 3
  | NHoldTimerExpired => 4
  | NFiniteStateMachine => 5
  | NCease => 6
  end.

(** [TryFrom<u8> for NotificationCode] *)
Definition code_try_from (v : Z) : res Error NotificationCode :=
  match v with
  | 1 => Ok NMessageHeader
  | 2 => Ok NOpenMessage
  | 3 => Ok NUpdateMessage
  | 4 => Ok NHoldTimerExpired
  | 5 => Ok NFiniteStateMachine
  | 6 => Ok NCease
  | _ => Err UnrecognizedNotificationCode
  end.

Inductive NotificationSubCode : Type :=
| SConnectionNotSynchronized
| SBadMessageLength
| SBadMessageType
| SUnsupportedVersionNumber
| SBadPeerAS
| SBadBGPIdentifier
| SUnsupportedOptionalParameter
| SUnacceptableHoldTime
| SMalformedAttributeList
| SUnrecognizedWellknownAttribute
| SMissingWellknownAttribute
| SAttributeFlagsError
| SAttributeLengthError
| SInvalidOriginAttribute
| SInvalidNextHopAttribute
| SOptionalAttributeError
| SInvalidNetworkField
| SMalformedASPath.

#[global] Instance NotificationSubCode_eq_dec : EqDecision NotificationSubCode.
Proof. solve_decision. Defined.

(** [From<NotificationSubCode> for u8] *)
Definition subcode_u8 (s : NotificationSubCode) : Z :=
  match s with
  | SConnectionNotSynchronized => 1
  | SBadMessageLength => 2
  | SBadMessageType => 3
  | SUnsupportedVersionNumber => 1
  | SBadPeerAS => 2
  | SBadBGPIdentifier => 3
  | SUnsupportedOptionalParameter => 4
  | SUnacceptableHoldTime => 6
  | SMalformedAttributeList => 1
  | SUnrecognizedWellknownAttribute => 2
  | SMissingWellknownAttribute => 3
  | SAttributeFlagsError => 4
  | SAttributeLengthError => 5
  | SInvalidOriginAttribute => 6
  | SInvalidNextHopAttribute => 8
  | SOptionalAttributeError => 9
  | SInvalidNetworkField => 10
  | SMalformedASPath => 11
  end.

Definition try_from_with_code (value : Z) (code : NotificationCode) :
    res Error (option NotificationSubCode) :=
  match code with
  | NMessageHeader =>
      match value with
      | 1 => Ok (Some SConnectionNotSynchronized)
      | 2 => Ok (Some SBadMessageLength)
      | 3 => Ok (Some SBadMessageType)
      | _ => Err UnrecognizedNotificationSubCode
      end
  | NOpenMessage =>
      match value with
      | 1 => Ok (Some SUnsupportedVersionNumber)
      | 2 => Ok (Some SBadPeerAS)
      | 3 => Ok (Some SBadBGPIdentifier)
      | 4 => Ok (Some SUnsupportedOptionalParameter)
      | 6 => Ok (Some SUnacceptableHoldTime)
      | _ => Err UnrecognizedNotificationSubCode
      end
  | NUpdateMessage =>
      match value with
      | 1 => Ok (Some SMalformedAttributeList)
      | 2 => Ok (Some SUnrecognizedWellknownAttribute)
      | 3 => Ok (Some SMissingWellknownAttribute)
      | 4 => Ok (Some SAttributeFlagsError)
      | 5 => Ok (Some SAttributeLengthError)
      | 6 => Ok (Some SInvalidOriginAttribute)
      | 8 => Ok (Some SInvalidNextHopAttribute)
      | 9 => Ok (Some SOptionalAttributeError)
      | 10 => Ok (Some SInvalidNetworkField)
      | 11 => Ok (Some SMalformedASPath)
      | _ => Err UnrecognizedNotificationSubCode
      end
  | _ => Ok None
  end.

(** The code a subcode belongs to. *)
Definition code_of_subcode (s : NotificationSubCode) : NotificationCode :=
  match s with
  | SConnectionNotSynchronized | SBadMessageLength | SBadMessageType => NMessageHeader
  | SUnsupportedVersionNumber | SBadPeerAS | SBadBGPIdentifier
  | SUnsupportedOptionalParameter | SUnacceptableHoldTime => NOpenMessage
  | _ => NUpdateMessage
  end.

Lemma subcode_known v c s :
  try_from_with_code v c = Ok (Some s) <-> code_of_subcode s = c /\ subcode_u8 s = v.
Proof.
  split.
  - unfold try_from_with_code. intros H. repeat case_match; by simplify_eq.
  - intros [<- <-]. by destruct s.
Qed.

Lemma code_try_from_code c : code_try_from (notification_code c) = Ok c.
Proof. by destruct c. Qed.

Lemma type_try_from_code t : type_try_from (type_code t) = Ok t.
Proof. by destruct t. Qed.

Definition VERSION : Z := 4.
Definition HEADER_LENGTH : Z := 19.
Definition MAX_LENGTH : Z := 4096.
Definition EXTENDED_MAX_LENGTH : Z := 65535.
Definition MARKER : Z := 0xffffffffffffffffffffffffffffffff.
Definition AS_TRANS : Z := 23456.
Definition OPTION_TYPE_CAPABILITIES : Z := 2.
Definition OPTION_TYPE_EXTENDED_LENGTH : Z := 255.

(** [Bgp::DEFAULT_HOLD_TIME] *)
Definition DEFAULT_HOLD_TIME : Z := 180.

Section defs.
Context {I : IpNetApi}.

Inductive Message : Type :=
| Open (version as_num hold_time identifier : Z) (capabilities : list Cap.Cap)
| Update (withdrawn_routes : list Prefix.Prefix) (attributes : list Attribute.Attribute)
    (nlri : list Prefix.Prefix)
| Keepalive
| Notification (code : NotificationCode) (subcode : option NotificationSubCode) (data : list Z)
| RouteRefresh (family : AddressFamily).

#[global] Instance Message_eq_dec : EqDecision Message.
Proof. solve_decision. Defined.

(** [msg_type] and the [From] implementations *)
Definition msg_type (m : Message) : MessageType :=
  match m with
  | Open _ _ _ _ _ => TOpen
  | Update _ _ _ => TUpdate
  | Keepalive => TKeepalive
  | Notification _ _ _ => TNotification
  | RouteRefresh _ => TRouteRefresh
  end.

Definition to_open (m : Message) : res Error (Z * Z * Z * Z * list Cap.Cap) :=
  match m with
  | Open version as_num hold_time identifier capabilities =>
      Ok (version, as_num, hold_time, identifier, capabilities)
  | _ => Err UndesiredMessage
  end.

Definition to_update (m : Message) :
    res Error (list Prefix.Prefix * list Attribute.Attribute * list Prefix.Prefix) :=
  match m with
  | Update withdrawn_routes attributes nlri => Ok (withdrawn_routes, attributes, nlri)
  | _ => Err UndesiredMessage
  end.

Definition to_notification (m : Message) :
    res Error (NotificationCode * option NotificationSubCode * list Z) :=
  match m with
  | Notification code subcode data => Ok (code, subcode, data)
  | _ => Err UndesiredMessage
  end.

Definition to_route_refresh (m : Message) : res Error AddressFamily :=
  match m with RouteRefresh family => Ok family | _ => Err UndesiredMessage end.

(** ** [MessageBuilder] *)

Record MessageBuilder : Type := {
  b_msg_type : MessageType;
  b_version : Z;
  b_asn : Z;
  b_hold_time : Z;
  b_router_id : Z;
  b_capabilities : list Cap.Cap;
  b_withdrawn_routes : list Prefix.Prefix;
  b_attributes : list Attribute.Attribute;
  b_nlri : list Prefix.Prefix;
  b_code : NotificationCode;
  b_subcode : option NotificationSubCode;
  b_data : list Z;
  b_family : AddressFamily;
}.

Definition builder (t : MessageType) : MessageBuilder := {|
  b_msg_type := t;
  b_version := VERSION;
  b_asn := AS_TRANS;
  b_hold_time := wrap 16 DEFAULT_HOLD_TIME;
  b_router_id := 0;
  b_capabilities := [];
  b_withdrawn_routes := [];
  b_attributes := [];
  b_nlri := [];
  b_code := NFiniteStateMachine;
  b_subcode := None;
  b_data := [];
  b_family := {| afi := IPv4; safi := Unicast |};
|}.

Definition is_four_octet (c : Cap.Cap) : bool :=
  match c with Cap.FourOctetASNumber _ => true | _ => false end.

Definition build (b : MessageBuilder) : res Error Message :=
  match b_msg_type b with
  | TOpen =>
      let asn :=
        if Z.of_nat (length (List.filter is_four_octet (b_capabilities b))) =? 0 then b_asn b
        else if 65535 <? b_asn b then AS_TRANS
        else b_asn b in
      Ok (Open (b_version b) asn (b_hold_time b) (b_router_id b) (b_capabilities b))
  | TUpdate => Ok (Update (b_withdrawn_routes b) (b_attributes b) (b_nlri b))
  | TKeepalive => Ok Keepalive
  | TNotification => Ok (Notification (b_code b) (b_subcode b) (b_data b))
  | TRouteRefresh => Ok (RouteRefresh (b_family b))
  end.

(** The setters of an OPEN message refuse a builder of another type. *)
Definition set_open (b : MessageBuilder) (asn hold_time router_id : Z) (caps : list Cap.Cap) :
    MessageBuilder :=
  {| b_msg_type := b_msg_type b; b_version := b_version b; b_asn := asn; b_hold_time := hold_time;
     b_router_id := router_id; b_capabilities := caps; b_withdrawn_routes := b_withdrawn_routes b;
     b_attributes := b_attributes b; b_nlri := b_nlri b; b_code := b_code b;
     b_subcode := b_subcode b; b_data := b_data b; b_family := b_family b |}.

Definition asn (v : Z) (b : MessageBuilder) : res Error MessageBuilder :=
  if bool_decide (b_msg_type b <> TOpen) then Err InvalidMessageField
  else Ok (set_open b v (b_hold_time b) (b_router_id b) (b_capabilities b)).

Definition hold_time (v : Z) (b : MessageBuilder) : res Error MessageBuilder :=
  if bool_decide (b_msg_type b <> TOpen) then Err InvalidMessageField
  else Ok (set_open b (b_asn b) v (b_router_id b) (b_capabilities b)).

Definition identifier (v : Z) (b : MessageBuilder) : res Error MessageBuilder :=
  if bool_decide (b_msg_type b <> TOpen) then Err InvalidMessageField
  else Ok (set_open b (b_asn b) (b_hold_time b) v (b_capabilities b)).

Definition capability (c : Capability.Capability) (b : MessageBuilder) : res Error MessageBuilder :=
  if bool_decide (b_msg_type b <> TOpen) then Err InvalidMessageField
  else Ok (set_open b (b_asn b) (b_hold_time b) (b_router_id b)
             (b_capabilities b ++ [Capability.into_cap c])).

Definition set_update (b : MessageBuilder) (wd : list Prefix.Prefix)
    (attrs : list Attribute.Attribute) (nl : list Prefix.Prefix) : MessageBuilder :=
  {| b_msg_type := b_msg_type b; b_version := b_version b; b_asn := b_asn b;
     b_hold_time := b_hold_time b; b_router_id := b_router_id b;
     b_capabilities := b_capabilities b; b_withdrawn_routes := wd; b_attributes := attrs;
     b_nlri := nl; b_code := b_code b; b_subcode := b_subcode b; b_data := b_data b;
     b_family := b_family b |}.

Definition withdrawn_routes (prefixes : list IpNet) (b : MessageBuilder) : res Error MessageBuilder :=
  if bool_decide (b_msg_type b <> TUpdate) then Err InvalidMessageField
  else Ok (set_update b (map Prefix.from_ipnet prefixes) (b_attributes b) (b_nlri b)).

Definition attributes (attrs : list Attribute.Attribute) (b : MessageBuilder) :
    res Error MessageBuilder :=
  if bool_decide (b_msg_type b <> TUpdate) then Err InvalidMessageField
  else Ok (set_update b (b_withdrawn_routes b) attrs (b_nlri b)).

Definition nlri (prefixes : list IpNet) (b : MessageBuilder) : res Error MessageBuilder :=
  if bool_decide (b_msg_type b <> TUpdate) then Err InvalidMessageField
  else Ok (set_update b (b_withdrawn_routes b) (b_attributes b) (map Prefix.from_ipnet prefixes)).

Definition set_notification (b : MessageBuilder) (c : NotificationCode)
    (s : option NotificationSubCode) (d : list Z) : MessageBuilder :=
  {| b_msg_type := b_msg_type b; b_version := b_version b; b_asn := b_asn b;
     b_hold_time := b_hold_time b; b_router_id := b_router_id b;
     b_capabilities := b_capabilities b; b_withdrawn_routes := b_withdrawn_routes b;
     b_attributes := b_attributes b; b_nlri := b_nlri b; b_code := c; b_subcode := s; b_data := d;
     b_family := b_family b |}.

Definition code (c : NotificationCode) (b : MessageBuilder) : res Error MessageBuilder :=
  if bool_decide (b_msg_type b <> TNotification) then Err InvalidMessageField
  else Ok (set_notification b c (b_subcode b) (b_data b)).

Definition subcode (s : NotificationSubCode) (b : MessageBuilder) : res Error MessageBuilder :=
  if bool_decide (b_msg_type b <> TNotification) then Err InvalidMessageField
  else Ok (set_notification b (b_code b) (Some s) (b_data b)).

Definition data (d : list Z) (b : MessageBuilder) : res Error MessageBuilder :=
  if bool_decide (b_msg_type b <> TNotification) then Err InvalidMessageField
  else Ok (set_notification b (b_code b) (b_subcode b) (b_data b ++ d)).

Definition family (f : AddressFamily) (b : MessageBuilder) : res Error MessageBuilder :=
  if bool_decide (b_msg_type b <> TRouteRefresh) then Err InvalidMessageField
  else Ok {| b_msg_type := b_msg_type b; b_version := b_version b; b_asn := b_asn b;
     b_hold_time := b_hold_time b; b_router_id := b_router_id b;
     b_capabilities := b_capabilities b; b_withdrawn_routes := b_withdrawn_routes b;
     b_attributes := b_attributes b; b_nlri := b_nlri b; b_code := b_code b;
     b_subcode := b_subcode b; b_data := b_data b; b_family := f |}.
End defs.
End Message.
