(* ===== verification/BgpCodec.v ===== *)
(** * The message codec

    [Codec] is [bgp/src/packet/codec.rs]: [decode_msg] reads one message off the
    stream, [Codec.decode] all the messages of the buffer, [Codec.encode] writes
    one message with its header. *)

From S2P Require Import Prelude Net BgpFamily BgpPrefix BgpCapability BgpAttribute BgpMessage.

Module Codec.
Import BgpError Family Message.

Section defs.
Context {I : IpNetApi} {B : BufApi} {P : Profile}.

(** The capabilities lock of the codec is never read by it. *)
Record Codec : Type := {
  family : AddressFamily;
  as4_enabled : bool;
  path_id_enabled : bool;
}.

Definition new (as4_enabled path_id_enabled : bool) : Codec :=
  {| family := {| afi := IPv4; safi := Unicast |};
     as4_enabled := as4_enabled; path_id_enabled := path_id_enabled |}.

Definition default : Codec :=
  {| family := {| afi := IPv4; safi := Unicast |}; as4_enabled := true; path_id_enabled := false |}.

(** [src.remaining() > message_tail] *)
Definition before_tail (message_tail : Z) : M (list Z) Error bool :=
  r ← remaining; mret (message_tail <? r).

(** One capability of an option: [l] counts the bytes of the option read so far. *)
Definition read_capability (acc : Z * list Cap.Cap) : M (list Z) Error (Z * list Cap.Cap) :=
  code ← get_u 1;
  length ← get_u 1;
  n ← lift (ovf 8 (length + 2));
  l ← lift (ovf 8 (acc.1 + n));
  cap ← Cap.decode code length;
  mret (l, acc.2 ++ [cap]).

Definition option_more (option_length : Z) (acc : Z * list Cap.Cap) : M (list Z) Error bool :=
  mret (acc.1 <? option_length).

Definition read_option (capabilities : list Cap.Cap) : M (list Z) Error (list Cap.Cap) :=
  option_type ← get_u 1;
  option_length ← get_u 1;
  if option_type =? OPTION_TYPE_CAPABILITIES then
    acc ← while_acc (option_more option_length) read_capability (0, capabilities);
    mret acc.2
  else throw (OpenMessage UnsupportedOptionalParameter).

Definition decode_open (message_tail : Z) : M (list Z) Error Message :=
  version ← get_u 1;
  if negb (version =? VERSION) then throw (OpenMessage UnsupportedVersionNumber) else
  asn ← get_u 2;
  if asn =? 0 then throw (OpenMessage BadPeerAS) else
  hold_time ← get_u 2;
  router_id ← get_u 4;
  optional_parameters_length ← get_u 1;
  r ← remaining;
  if wrap 8 r <? optional_parameters_length
  then throw (MessageHeader (BadMessageLength (wrap 16 r))) else
  capabilities ← while (before_tail message_tail) read_option [];
  mret (Open version asn hold_time router_id capabilities).

Definition push_prefix (family : AddressFamily) (acc : list Prefix.Prefix) :
    M (list Z) Error (list Prefix.Prefix) :=
  p ← Prefix.decode family false; mret (acc ++ [p]).

(** One attribute: a repeated code is a malformed attribute list. *)
Definition read_attribute (as4 : bool) (acc : gset Z * list Attribute.Attribute) :
    M (list Z) Error (gset Z * list Attribute.Attribute) :=
  attr ← Attribute.decode as4 false;
  if bool_decide (Attribute.attr_code attr ∈ acc.1)
  then throw (UpdateMessage MalformedAttributeList)
  else mret ({[Attribute.attr_code attr]} ∪ acc.1, acc.2 ++ [attr]).

(** The well-known mandatory attributes. *)
Definition check_mandatory (attribute_set : gset Z) : M (list Z) Error unit :=
  if negb (bool_decide (Attribute.ORIGIN ∈ attribute_set))
  then throw (UpdateMessage (MissingWellKnownAttribute Attribute.ORIGIN))
  else if negb (bool_decide (Attribute.AS_PATH ∈ attribute_set))
  then throw (UpdateMessage (MissingWellKnownAttribute Attribute.AS_PATH))
  else if negb (bool_decide (Attribute.NEXT_HOP ∈ attribute_set))
    && negb (bool_decide (Attribute.MP_REACH_NLRI ∈ attribute_set))
  then throw (UpdateMessage (MissingWellKnownAttribute Attribute.NEXT_HOP))
  else mret tt.

Definition decode_update (f : AddressFamily) (as4 : bool) (message_tail : Z) :
    M (list Z) Error Message :=
  withdrawn_routes_length ← get_u 2;
  withdrawn_routes ← (if 0 <? withdrawn_routes_length then
      remain ← remaining;
      while (more remain withdrawn_routes_length) (push_prefix f) []
    else mret []);
  total_path_attribute_length ← get_u 2;
  attributes ← (if 0 <? total_path_attribute_length then
      remain ← remaining;
      acc ← while (more remain total_path_attribute_length) (read_attribute as4) (∅, []);
      check_mandatory acc.1 ;;
      mret acc.2
    else mret []);
  r ← remaining;
  nlri ← (if message_tail <? r then while (before_tail message_tail) (push_prefix f) [] else mret []);
  mret (Update withdrawn_routes attributes nlri).

Definition decode_notification (message_length : Z) : M (list Z) Error Message :=
  c ← get_u 1;
  code ← lift (code_try_from c);
  s ← get_u 1;
  subcode ← lift (try_from_with_code s code);
  n ← lift (ovf 16 (message_length - HEADER_LENGTH));
  data_length ← lift (ovf 16 (n - 2));
  data ← take_bytes data_length;
  mret (Notification code subcode data).

Definition decode_msg (f : AddressFamily) (as4 add_path : bool) : M (list Z) Error Message :=
  buf_length ← remaining;
  if buf_length <? HEADER_LENGTH
  then throw (MessageHeader (BadMessageLength (wrap 16 buf_length))) else
  marker ← get_u 16;
  message_length ← get_u 2;
  message_tail ← lift (ovf 64 (buf_length - message_length));
  if negb (marker =? MARKER) || (message_length <? HEADER_LENGTH)
  then throw (MessageHeader (BadMessageLength message_length)) else
  t ← get_u 1;
  message_type ← lift (res_map_err MessageHeader (type_try_from t));
  match message_type with
  | TOpen => decode_open message_tail
  | TUpdate => decode_update f as4 message_tail
  | TKeepalive => mret Keepalive
  | TNotification => decode_notification message_length
  | TRouteRefresh =>
      v ← get_u 4;
      fam ← lift (res_map_err (fun _ => RouteRefreshMessageError) (try_from_u32 v));
      mret (RouteRefresh fam)
  end.

Definition read_message (c : Codec) (messages : list Message) : M (list Z) Error (list Message) :=
  msg ← decode_msg (family c) (as4_enabled c) (path_id_enabled c);
  mret (messages ++ [msg]).

(** [Decoder::decode] *)
Definition decode (c : Codec) : M (list Z) Error (option (list Message)) :=
  r ← remaining;
  if r =? 0 then mret None else
  messages ← while (r ← remaining; mret (0 <? r)) (read_message c) [];
  mret (Some messages).

(** A sum of [u16] values, each addition checked. *)
Fixpoint sum_u16 {A} (f : A -> list Z) (acc : Z) (l : list A) : M (list Z) Error Z :=
  match l with
  | [] => mret acc
  | x :: l' => acc' ← foldl (fun m k => a ← m; lift (ovf 16 (a + k))) (mret acc) (f x);
               sum_u16 f acc' l'
  end.

Definition encode_body (c : Codec) (item : Message) : M (list Z) Error unit :=
  match item with
  | Open version as_num hold_time identifier capabilities =>
      put_u 1 version ;;
      put_u 2 (wrap 16 (if 65535 <? as_num then AS_TRANS else as_num)) ;;
      put_u 2 hold_time ;;
      put_bytes (be_bytes 4 identifier) ;;
      put_u 1 (wrap 8 (foldl (fun l cap => l + 2 + 2 + Cap.len cap) 0 capabilities)) ;;
      for_each (fun cap =>
        put_u 1 OPTION_TYPE_CAPABILITIES ;;
        n ← lift (ovf 8 (wrap 8 (Cap.len cap) + 2));
        put_u 1 n ;;
        Cap.encode cap) capabilities
  | Update withdrawn_routes attributes nlri =>
      match withdrawn_routes with
      | _ :: _ =>
          n ← sum_u16 (fun p => [wrap 16 (Prefix.len p)]) 0 withdrawn_routes;
          put_u 2 n ;;
          for_each Prefix.encode withdrawn_routes
      | [] => put_u 2 0
      end ;;
      match attributes with
      | _ :: _ =>
          n ← sum_u16 (fun a => [if Attribute.is_extended a then 4 else 3;
                                 wrap 16 (Attribute.len (as4_enabled c) false a)]) 0 attributes;
          put_u 2 n ;;
          for_each (Attribute.encode (as4_enabled c) false) attributes
      | [] => put_u 2 0
      end ;;
      match nlri with
      | _ :: _ => for_each Prefix.encode nlri
      | [] => mret tt
      end
  | Keepalive => mret tt
  | Notification code subcode data =>
      put_u 1 (notification_code code) ;;
      match subcode with
      | Some s => put_u 1 (subcode_u8 s)
      | None => put_u 1 0
      end ;;
      match data with
      | _ :: _ => put_bytes data
      | [] => mret tt
      end
  | RouteRefresh family => put_u 4 (into_u32 family)
  end.

(** [Encoder::encode]: the length field is written when the message is complete. *)
Definition encode (c : Codec) (item : Message) : M (list Z) Error unit :=
  msg_head ← remaining;
  put_u 16 MARKER ;;
  header_length_head ← remaining;
  put_u 2 HEADER_LENGTH ;;
  put_u 1 (type_code (msg_type item)) ;;
  encode_body c item ;;
  msg_tail ← remaining;
  modify (fun dst =>
    take (Z.to_nat header_length_head) dst ++ be_bytes 2 (wrap 16 (msg_tail - msg_head)) ++
    drop (Z.to_nat header_length_head + 2) dst).

(** ** Specification of the wire form *)

Definition option_bytes (c : Cap.Cap) : list Z :=
  be_bytes 1 OPTION_TYPE_CAPABILITIES ++ be_bytes 1 (Cap.len c + 2) ++ Cap.bytes c.

Definition options_len (caps : list Cap.Cap) : Z := Z.of_nat (length (flat_map option_bytes caps)).

Definition subcode_value (s : option NotificationSubCode) : Z :=
  match s with Some s => subcode_u8 s | None => 0 end.

Definition body_bytes (as4 : bool) (m : Message) : list Z :=
  match m with
  | Open version as_num hold_time identifier caps =>
      be_bytes 1 version ++ be_bytes 2 as_num ++ be_bytes 2 hold_time ++ be_bytes 4 identifier ++
      be_bytes 1 (options_len caps) ++ flat_map option_bytes caps
  | Update wd attrs nlri =>
      be_bytes 2 (Z.of_nat (length (flat_map Prefix.bytes wd))) ++ flat_map Prefix.bytes wd ++
      be_bytes 2 (Z.of_nat (length (flat_map (Attribute.bytes as4) attrs))) ++
      flat_map (Attribute.bytes as4) attrs ++ flat_map Prefix.bytes nlri
  | Keepalive => []
  | Notification code subcode data =>
      be_bytes 1 (notification_code code) ++ be_bytes 1 (subcode_value subcode) ++ data
  | RouteRefresh f => be_bytes 4 (into_u32 f)
  end.

Definition msg_len (as4 : bool) (m : Message) : Z :=
  HEADER_LENGTH + Z.of_nat (length (body_bytes as4 m)).

Definition bytes (as4 : bool) (m : Message) : list Z :=
  be_bytes 16 MARKER ++ be_bytes 2 (msg_len as4 m) ++
  be_bytes 1 (type_code (msg_type m)) ++ body_bytes as4 m.

Definition mandatory (codes : list Z) : Prop :=
  Attribute.ORIGIN ∈ codes /\ Attribute.AS_PATH ∈ codes /\
  (Attribute.NEXT_HOP ∈ codes \/ Attribute.MP_REACH_NLRI ∈ codes).

(** The messages whose wire form is read back as they are. *)
Definition body_wf (c : Codec) (m : Message) : Prop :=
  match m with
  | Open version as_num hold_time identifier caps =>
      version = VERSION /\ 0 < as_num <= 65535 /\ uint 16 hold_time /\ uint 32 identifier /\
      Forall Cap.wf caps /\ options_len caps < 256
  | Update wd attrs nlri =>
      Forall (Attribute.prefix_wf (family c)) wd /\
      Forall (Attribute.wf (as4_enabled c)) attrs /\
      NoDup (map Attribute.attr_code attrs) /\
      (attrs = [] \/ mandatory (map Attribute.attr_code attrs)) /\
      Forall (Attribute.prefix_wf (family c)) nlri
  | Keepalive => True
  | Notification code subcode data =>
      try_from_with_code (subcode_value subcode) code = Ok subcode /\ bytes_ok data
  | RouteRefresh _ => True
  end.

Definition wf (c : Codec) (m : Message) : Prop :=
  body_wf c m /\ msg_len (as4_enabled c) m < 65536.

(** The length check of an OPEN compares with the buffer's length as a [u8]. *)
Definition open_room (m : Message) (rest : list Z) : Prop :=
  match m with
  | Open _ _ _ _ caps => options_len caps <= wrap 8 (options_len caps + Z.of_nat (length rest))
  | _ => True
  end.

#[global] Instance open_room_dec m rest : Decision (open_room m rest).
Proof. destruct m; cbn; apply _. Defined.
End defs.

Section facts.
Context {I : IpNetApi} {IL : IpNetLaws} {B : BufApi} {BL : BufLaws} {P : Profile}.

Lemma marker_range : uint (8 * Z.of_nat 16) MARKER.
Proof. by vm_compute. Qed.

(** *** Writing *)

Fixpoint sum_list (l : list Z) : Z := match l with [] => 0 | x :: l' => x + sum_list l' end.

Lemma sum_inner ks acc (d : list Z) : Forall (fun k => 0 <= k) ks -> 0 <= acc ->
  acc + sum_list ks < 65536 ->
  foldl (fun m k => a ← m; lift (ovf 16 (a + k))) (mret acc : M (list Z) Error Z) ks d =
  (Ok (acc + sum_list ks), d).
Proof.
  intros Hk. revert acc. induction ks as [|k ks IH] using rev_ind; intros acc Ha Hs.
  { simpl. by rewrite Z.add_0_r. }
  assert (Hsum : forall l, sum_list (l ++ [k]) = sum_list l + k).
  { induction l as [|x l IHl]; simpl; lia. }
  apply Forall_app in Hk as [Hks Hk]. apply Forall_cons_iff in Hk as [Hk _].
  assert (0 <= sum_list ks) by (clear -Hks; induction Hks; simpl; lia).
  rewrite Hsum in *. rewrite foldl_app. simpl.
  rewrite (bind_ok _ _ _ _ _ (IH Hks acc Ha ltac:(lia))).
  rewrite ovf_small by (unfold uint; lia). mred. do 2 f_equal. lia.
Qed.

Lemma sum_u16_run {A} (f : A -> list Z) l acc (d : list Z) :
  (forall x, x ∈ l -> Forall (fun k => 0 <= k) (f x)) -> 0 <= acc ->
  acc + sum_list (map (fun x => sum_list (f x)) l) < 65536 ->
  sum_u16 f acc l d = (Ok (acc + sum_list (map (fun x => sum_list (f x)) l)), d).
Proof.
  assert (Hnn : forall ks, Forall (fun k => 0 <= k) ks -> 0 <= sum_list ks)
    by (intros ks H; induction H; simpl; lia).
  revert acc. induction l as [|x l IH]; intros acc Hf Ha Hs; simpl in *.
  { by rewrite Z.add_0_r. }
  pose proof (Hnn _ (Hf x ltac:(left))) as Hx.
  assert (0 <= sum_list (map (fun x => sum_list (f x)) l)).
  { apply Hnn. apply Forall_map, Forall_forall. intros y Hy. apply Hnn, Hf. by right. }
  rewrite (bind_ok _ _ _ _ _ (sum_inner _ _ _ (Hf x ltac:(left)) Ha ltac:(lia))).
  rewrite IH; [do 2 f_equal; lia| |lia|lia]. intros y Hy. apply Hf. by right.
Qed.

Lemma sum_lengths {A} (enc : A -> list Z) (g : A -> Z) l :
  (forall x, x ∈ l -> g x = Z.of_nat (length (enc x))) ->
  sum_list (map g l) = Z.of_nat (length (flat_map enc l)).
Proof.
  induction l as [|x l IH]; intros Hg; simpl; [done|].
  rewrite length_app, Nat2Z.inj_add, <-IH, Hg; [done|by left|]. intros y Hy. apply Hg. by right.
Qed.

Lemma elem_flat_map_len {A} (enc : A -> list Z) x l : x ∈ l ->
  (length (enc x) <= length (flat_map enc l))%nat.
Proof.
  induction 1 as [l|y l Hx IH]; simpl; rewrite length_app; lia.
Qed.

Lemma put_prefixes_sum wd (d : list Z) : Z.of_nat (length (flat_map Prefix.bytes wd)) < 65536 ->
  sum_u16 (fun p => [wrap 16 (Prefix.len p)]) 0 wd d =
  (Ok (Z.of_nat (length (flat_map Prefix.bytes wd))), d).
Proof.
  intros Hl.
  assert (Hw : forall p, p ∈ wd -> wrap 16 (Prefix.len p) = Z.of_nat (length (Prefix.bytes p))).
  { intros p Hp. rewrite <-Prefix.length_bytes. apply wrap_small.
    pose proof (elem_flat_map_len Prefix.bytes p wd Hp). unfold uint. lia. }
  assert (Hs : sum_list (map (fun p => sum_list [wrap 16 (Prefix.len p)]) wd) =
    Z.of_nat (length (flat_map Prefix.bytes wd))).
  { apply sum_lengths. intros p Hp. simpl. rewrite Hw by done. lia. }
  rewrite sum_u16_run; [by rewrite Hs, Z.add_0_l| |lia|by rewrite Hs].
  intros p Hp. rewrite Hw by done. repeat constructor. lia.
Qed.

Lemma length_attr_bytes as4 a : Z.of_nat (length (Attribute.bytes as4 a)) =
  (if Attribute.is_extended a then 4 else 3) + Attribute.len as4 false a.
Proof.
  unfold Attribute.bytes. rewrite !length_app, !length_be_bytes, <-(Attribute.attr_length_payload as4 false a).
  destruct (Attribute.is_extended a); lia.
Qed.

Lemma put_attributes_sum as4 attrs (d : list Z) :
  Z.of_nat (length (flat_map (Attribute.bytes as4) attrs)) < 65536 ->
  sum_u16 (fun a => [if Attribute.is_extended a then 4 else 3; wrap 16 (Attribute.len as4 false a)])
    0 attrs d = (Ok (Z.of_nat (length (flat_map (Attribute.bytes as4) attrs))), d).
Proof.
  intros Hl.
  assert (Hw : forall a, a ∈ attrs -> wrap 16 (Attribute.len as4 false a) = Attribute.len as4 false a).
  { intros a Ha. apply wrap_small. pose proof (elem_flat_map_len (Attribute.bytes as4) a attrs Ha).
    pose proof (length_attr_bytes as4 a) as Hb. pose proof (Attribute.attr_length_payload as4 false a).
    unfold uint. destruct (Attribute.is_extended a); lia. }
  assert (Hs : sum_list (map (fun a => sum_list [if Attribute.is_extended a then 4 else 3;
      wrap 16 (Attribute.len as4 false a)]) attrs) =
    Z.of_nat (length (flat_map (Attribute.bytes as4) attrs))).
  { apply sum_lengths. intros a Ha. simpl. rewrite Hw, length_attr_bytes by done. lia. }
  rewrite sum_u16_run; [by rewrite Hs, Z.add_0_l| |lia|by rewrite Hs].
  intros a Ha. rewrite Hw, <-(Attribute.attr_length_payload as4 false a) by done.
  repeat constructor; [by destruct (Attribute.is_extended a)|lia].
Qed.

Lemma length_cap_bytes c : Z.of_nat (length (Cap.bytes c)) = Cap.len c + 2.
Proof. unfold Cap.bytes. rewrite !length_app, !length_be_bytes. pose proof (Cap.cap_length_payload c). lia. Qed.

Lemma length_option_bytes c : Z.of_nat (length (option_bytes c)) = Cap.len c + 4.
Proof. unfold option_bytes. rewrite !length_app, !length_be_bytes. pose proof (length_cap_bytes c). lia. Qed.

Lemma options_len_fold caps : foldl (fun l cap => l + 2 + 2 + Cap.len cap) 0 caps = options_len caps.
Proof.
  unfold options_len.
  assert (H : forall z, foldl (fun l cap => l + 2 + 2 + Cap.len cap) z caps =
    z + Z.of_nat (length (flat_map option_bytes caps))).
  { induction caps as [|c caps IH]; intros z; simpl; [lia|].
    rewrite IH, length_app, Nat2Z.inj_add, length_option_bytes. lia. }
  apply H.
Qed.

Lemma put_option_run c dst : Cap.wf c -> Cap.len c < 254 ->
  (put_u 1 OPTION_TYPE_CAPABILITIES ;; n ← lift (ovf 8 (wrap 8 (Cap.len c) + 2)); put_u 1 n ;; Cap.encode c) dst =
  (Ok tt, dst ++ option_bytes c).
Proof.
  intros Hc Hl. pose proof (Cap.cap_length_payload c). wr.
  rewrite (wrap_small 8), ovf_small by (unfold uint; lia). erewrite bind_ok by reflexivity. cbv beta. wr.
  rewrite Cap.cap_encode_run by done. unfold option_bytes. by rewrite <-!app_assoc.
Qed.

Lemma body_run c m dst : wf c m -> encode_body c m dst = (Ok tt, dst ++ body_bytes (as4_enabled c) m).
Proof.
  intros [Hm Hl]. unfold msg_len, HEADER_LENGTH in Hl.
  destruct m as [version as_num hold_time identifier caps|wd attrs nlri| |code subcode data|f];
    cbn [body_wf encode_body body_bytes] in *.
  - destruct Hm as (-> & Has & _ & _ & Hcaps & Hopt). repeat wr.
    rewrite options_len_fold. rewrite (wrap_small 8) by (unfold options_len, uint in *; lia).
    destruct (Z.ltb_spec 65535 as_num); [lia|]. rewrite (wrap_small 16) by (unfold uint; lia).
    rewrite (Attribute.for_each_put_wf _ option_bytes (fun c => Cap.wf c /\ Cap.len c < 254)).
    + by rewrite <-!app_assoc.
    + intros x d [Hx Hx']. by apply put_option_run.
    + apply Forall_forall. intros x Hx. rewrite Forall_forall in Hcaps. split; [by apply Hcaps|].
      pose proof (elem_flat_map_len option_bytes x caps Hx). pose proof (length_option_bytes x).
      unfold options_len in Hopt. lia.
  - destruct Hm as (_ & Hattrs & _ & _ & _). rewrite !length_app in Hl.
    rewrite (bind_ok _ _ _ tt (dst ++ be_bytes 2 (Z.of_nat (length (flat_map Prefix.bytes wd))) ++
      flat_map Prefix.bytes wd)).
    2:{ destruct wd as [|p wd']; [by rewrite put_u_spec, app_nil_r|]. set (wd := p :: wd') in *.
        rewrite (bind_ok _ _ _ _ _ (put_prefixes_sum wd _ ltac:(lia))). wr.
        by rewrite Attribute.put_prefixes_run, <-app_assoc. }
    rewrite (bind_ok _ _ _ tt ((dst ++ be_bytes 2 (Z.of_nat (length (flat_map Prefix.bytes wd))) ++
      flat_map Prefix.bytes wd) ++ be_bytes 2 (Z.of_nat (length (flat_map (Attribute.bytes (as4_enabled c)) attrs)))
      ++ flat_map (Attribute.bytes (as4_enabled c)) attrs)).
    2:{ destruct attrs as [|a attrs']; [by rewrite put_u_spec, app_nil_r|]. set (attrs := a :: attrs') in *.
        rewrite (bind_ok _ _ _ _ _ (put_attributes_sum (as4_enabled c) attrs _ ltac:(lia))). wr.
        rewrite (Attribute.for_each_put_wf _ (Attribute.bytes (as4_enabled c)) (Attribute.wf (as4_enabled c)));
          auto using Attribute.attr_encode_run. by rewrite <-app_assoc. }
    destruct nlri as [|p nl]; [by rewrite app_nil_r, <-!app_assoc|].
    by rewrite Attribute.put_prefixes_run, <-!app_assoc.
  - by rewrite app_nil_r.
  - wr. rewrite (bind_ok _ _ _ tt ((dst ++ be_bytes 1 (notification_code code)) ++
      be_bytes 1 (subcode_value subcode))) by (destruct subcode; apply put_u_spec).
    destruct data; [by rewrite app_nil_r, <-!app_assoc|]. by rewrite put_bytes_spec, <-!app_assoc.
  - apply put_u_spec.
Qed.

Lemma codec_encode_run c m dst : wf c m -> encode c m dst = (Ok tt, dst ++ bytes (as4_enabled c) m).
Proof.
  intros Hm. unfold encode. rewrite bind_remaining. wr. rewrite bind_remaining. do 2 wr.
  rewrite (bind_ok _ _ _ _ _ (body_run c m _ Hm)). rewrite bind_remaining. unfold modify.
  rewrite Nat2Z.id. destruct Hm as [_ Hl].
  set (l := length (dst ++ be_bytes 16 MARKER)).
  rewrite <-!app_assoc. rewrite (app_assoc dst (be_bytes 16 MARKER)).
  rewrite take_app_length' by done.
  replace (l + 2)%nat with (length ((dst ++ be_bytes 16 MARKER) ++ be_bytes 2 HEADER_LENGTH))
    by (rewrite (length_app _ (be_bytes 2 _)), length_be_bytes; done).
  rewrite (app_assoc _ (be_bytes 2 HEADER_LENGTH)), drop_app_length.
  unfold bytes. rewrite <-!app_assoc. do 4 f_equal. f_equal.
  rewrite !length_app, !length_be_bytes. pose proof Hl. unfold msg_len, HEADER_LENGTH in *.
  rewrite wrap_small; [lia|unfold uint; lia].
Qed.

(** *** Reading *)

Lemma before_tail_pure t : pure_cond (before_tail t).
Proof. by intros l. Qed.

Lemma before_tail_run n (l : list Z) :
  before_tail (Z.of_nat n) l = (Ok (bool_decide (n < length l)%nat), l).
Proof.
  unfold before_tail, remaining. mred. do 2 f_equal.
  case_bool_decide; destruct (Z.ltb_spec (Z.of_nat n) (Z.of_nat (length l))); lia || done.
Qed.

Lemma read_capability_consumes acc : consumes (read_capability acc).
Proof.
  apply bind_consumes_l; [apply get_u_consumes; lia|]. intros code. shrink.
Qed.

Lemma option_more_run n acc l : option_more n acc l = (Ok (acc.1 <? n), l).
Proof. done. Qed.

Lemma option_more_pure n acc : pure_cond (option_more n acc).
Proof. by intros l. Qed.

Lemma read_option_consumes acc : consumes (read_option acc).
Proof.
  apply bind_consumes_l; [apply get_u_consumes; lia|]. intros t. shrink.
  apply while_acc_shrinks; auto using option_more_pure.
  intros. apply consumes_shrinks, read_capability_consumes.
Qed.

Lemma read_option_run N acc c (l : list Z) :
  (Z.of_nat N < 2 ^ 62) -> Cap.wf c /\ Cap.len c < 254 -> (length l <= N)%nat ->
  read_option acc (option_bytes c ++ l) = (Ok (acc ++ [c]), l).
Proof.
  intros HN [Hc Hl] Hlen. unfold read_option, option_bytes, Cap.bytes.
  pose proof (Cap.cap_length_payload c) as Hp.
  assert (Hcode : uint 8 (Cap.cap_code c)) by (destruct Hc as [_ Hc]; destruct c; by try apply Hc).
  rewrite <-!app_assoc. unfold OPTION_TYPE_CAPABILITIES. do 2 rd. change (2 =? 2) with true.
  cbv iota. rewrite (bind_ok _ _ _ (Cap.len c + 2, acc ++ [c]) l); [done|].
  rewrite while_acc_unfold by auto using option_more_pure, read_capability_consumes.
  rewrite (bind_ok _ _ _ _ _ (option_more_run _ _ _)). cbn [fst].
  rewrite (proj2 (Z.ltb_lt 0 (Cap.len c + 2)) ltac:(lia)).
  rewrite (bind_ok _ _ _ (Cap.len c + 2, acc ++ [c]) l).
  2:{ unfold read_capability. do 2 rd. cbn [fst snd].
      do 2 (rewrite ovf_small by (unfold uint; lia); erewrite bind_ok by reflexivity; cbv beta).
      rewrite (bind_ok _ _ _ _ _ (Cap.decode_payload c l Hc ltac:(lia))). done. }
  rewrite while_acc_unfold by auto using option_more_pure, read_capability_consumes.
  rewrite (bind_ok _ _ _ _ _ (option_more_run _ _ _)). cbn [fst]. by rewrite Z.ltb_irrefl.
Qed.

Lemma option_bytes_nonempty c : option_bytes c <> [].
Proof. intros H. apply (f_equal length) in H. pose proof (length_option_bytes c). pose proof (Cap.cap_length_payload c).
  simpl in H. lia. Qed.

Lemma read_options caps (rest : list Z) :
  Forall (fun c => Cap.wf c /\ Cap.len c < 254) caps ->
  Z.of_nat (length (flat_map option_bytes caps ++ rest)) < 2 ^ 62 ->
  while (before_tail (Z.of_nat (length rest))) read_option [] (flat_map option_bytes caps ++ rest) =
  (Ok caps, rest).
Proof.
  intros Hc Hl. eapply (while_list_gen option_bytes (fun c => Cap.wf c /\ Cap.len c < 254));
    eauto using before_tail_pure, option_bytes_nonempty, read_option_consumes, before_tail_run.
  intros. by eapply read_option_run.
Qed.

Lemma read_nlri f ps (rest : list Z) : Forall (Attribute.prefix_wf f) ps ->
  while (before_tail (Z.of_nat (length rest))) (push_prefix f) [] (flat_map Prefix.bytes ps ++ rest) =
  (Ok ps, rest).
Proof.
  intros Hp. eapply (while_list_gen Prefix.bytes (Attribute.prefix_wf f));
    eauto using before_tail_pure, Attribute.prefix_bytes_nonempty, before_tail_run.
  - intros acc. apply Attribute.push_prefix_consumes.
  - intros. by apply Attribute.push_prefix_run.
Qed.

Lemma read_attribute_consumes as4 acc : consumes (read_attribute as4 acc).
Proof. apply bind_consumes_l; [apply Attribute.attr_decode_consumes|]. intros a. shrink. Qed.

Lemma attr_bytes_nonempty as4 a : (0 < length (Attribute.bytes as4 a))%nat.
Proof. pose proof (length_attr_bytes as4 a). pose proof (Attribute.attr_length_payload as4 false a).
  destruct (Attribute.is_extended a); lia. Qed.

Lemma read_attributes as4 remain n attrs (rest : list Z) acc :
  Forall (Attribute.wf as4) attrs -> NoDup (map Attribute.attr_code attrs) ->
  (forall a, a ∈ attrs -> Attribute.attr_code a ∉ acc.1) ->
  remain - n = Z.of_nat (length rest) ->
  Z.of_nat (length (flat_map (Attribute.bytes as4) attrs ++ rest)) < 2 ^ 62 ->
  exists s : gset Z,
    while (more remain n) (read_attribute as4) acc (flat_map (Attribute.bytes as4) attrs ++ rest) =
      (Ok (s, acc.2 ++ attrs), rest) /\
    forall k, k ∈ s <-> k ∈ acc.1 \/ k ∈ map Attribute.attr_code attrs.
Proof.
  intros Hw. revert acc. induction Hw as [|a attrs Ha Hw IH]; intros acc Hnd Hfresh Hr Hlen;
    cbn [flat_map map] in *;
    rewrite while_unfold by auto using more_pure, read_attribute_consumes.
  - rewrite (bind_ok _ _ _ _ _ (more_run _ _ _ ltac:(rewrite Hr; unfold uint; simpl in Hlen; lia))).
    rewrite bool_decide_eq_false_2 by (simpl; lia). exists acc.1. rewrite app_nil_r.
    split; [by destruct acc|]. intros k. rewrite elem_of_nil. tauto.
  - rewrite <-app_assoc in *. rewrite length_app in Hlen. pose proof (attr_bytes_nonempty as4 a).
    rewrite length_app in Hlen.
    rewrite (bind_ok _ _ _ _ _ (more_run _ _ _ ltac:(rewrite Hr; unfold uint; lia))).
    rewrite bool_decide_eq_true_2 by (rewrite !length_app; lia).
    apply NoDup_cons in Hnd as [Hna Hnd].
    rewrite (bind_ok _ _ _ ({[Attribute.attr_code a]} ∪ acc.1, acc.2 ++ [a])
      (flat_map (Attribute.bytes as4) attrs ++ rest)).
    2:{ unfold read_attribute.
        rewrite (bind_ok _ _ _ _ _ (Attribute.attr_decode_bytes as4 false a (flat_map (Attribute.bytes as4) attrs ++ rest) Ha
          ltac:(rewrite length_app; lia))).
        by rewrite bool_decide_eq_false_2 by (apply Hfresh; left). }
    destruct (IH ({[Attribute.attr_code a]} ∪ acc.1, acc.2 ++ [a])) as (s & -> & Hs);
      [done| |done|rewrite length_app; lia|].
    { intros b Hb. simpl. apply not_elem_of_union. split; [|apply Hfresh; by right].
      rewrite elem_of_singleton. intros Hk. apply Hna. rewrite <-Hk. by apply list_elem_of_fmap_2. }
    exists s. simpl. rewrite <-app_assoc. split; [done|]. intros k. rewrite Hs, elem_of_cons. set_solver.
Qed.

Lemma check_mandatory_run (s : gset Z) codes (l : list Z) :
  (forall k, k ∈ s <-> k ∈ codes) -> mandatory codes -> check_mandatory s l = (Ok tt, l).
Proof.
  intros Hs (H1 & H2 & H3). unfold check_mandatory.
  rewrite (bool_decide_eq_true_2 (Attribute.ORIGIN ∈ s)) by by apply Hs.
  rewrite (bool_decide_eq_true_2 (Attribute.AS_PATH ∈ s)) by by apply Hs. simpl.
  destruct H3 as [H3|H3]; apply Hs in H3;
    rewrite (bool_decide_eq_true_2 _ H3); [done|]. by rewrite andb_false_r.
Qed.

Lemma decode_open_run c m (rest : list Z) version as_num hold_time identifier caps :
  m = Open version as_num hold_time identifier caps -> body_wf c m -> open_room m rest ->
  Z.of_nat (length (body_bytes (as4_enabled c) m ++ rest)) < 2 ^ 62 ->
  decode_open (Z.of_nat (length rest)) (body_bytes (as4_enabled c) m ++ rest) = (Ok m, rest).
Proof.
  intros -> (-> & Has & Hh & Hid & Hcaps & Hopt) Hroom Hlen. cbn [body_bytes open_room] in *.
  unfold decode_open. rewrite <-!app_assoc in *. rewrite !length_app in Hlen.
  assert (Hopt0 : 0 <= options_len caps) by (unfold options_len; lia).
  unfold VERSION. rd. change (negb (4 =? 4)) with false. cbv iota. rd.
  destruct (Z.eqb_spec as_num 0); [lia|]. do 3 rd. rewrite bind_remaining.
  rewrite length_app, Nat2Z.inj_add. fold (options_len caps).
  destruct (Z.ltb_spec (wrap 8 (options_len caps + Z.of_nat (length rest))) (options_len caps)); [lia|].
  rewrite (bind_ok _ _ _ caps rest); [done|]. apply read_options; [|rewrite length_app; lia].
  apply Forall_forall. intros x Hx. rewrite Forall_forall in Hcaps. split; [by apply Hcaps|].
  pose proof (elem_flat_map_len option_bytes x caps Hx). pose proof (length_option_bytes x).
  unfold options_len in Hopt. lia.
Qed.

Lemma read_withdrawn f ps (rest : list Z) : Forall (Attribute.prefix_wf f) ps ->
  Z.of_nat (length rest) < 2 ^ 62 ->
  (if 0 <? Z.of_nat (length (flat_map Prefix.bytes ps)) then
     remain ← remaining; while (more remain (Z.of_nat (length (flat_map Prefix.bytes ps)))) (push_prefix f) []
   else mret []) (flat_map Prefix.bytes ps ++ rest) = (Ok ps, rest).
Proof.
  intros Hp Hr. destruct ps as [|p ps]; [done|].
  destruct (Z.ltb_spec 0 (Z.of_nat (length (flat_map Prefix.bytes (p :: ps))))) as [H|H].
  - rewrite bind_remaining. apply Attribute.read_prefixes; [done| |done]. rewrite length_app. lia.
  - exfalso. cbn [flat_map] in H. rewrite length_app in H. pose proof (Attribute.prefix_bytes_nonempty p).
    destruct (Prefix.bytes p); simpl in *; [done|lia].
Qed.

Lemma read_attribute_list as4 attrs (rest : list Z) : Forall (Attribute.wf as4) attrs ->
  NoDup (map Attribute.attr_code attrs) ->
  (attrs = [] \/ mandatory (map Attribute.attr_code attrs)) ->
  Z.of_nat (length (flat_map (Attribute.bytes as4) attrs ++ rest)) < 2 ^ 62 ->
  (if 0 <? Z.of_nat (length (flat_map (Attribute.bytes as4) attrs)) then
     remain ← remaining;
     acc ← while (more remain (Z.of_nat (length (flat_map (Attribute.bytes as4) attrs))))
             (read_attribute as4) (∅, []);
     check_mandatory acc.1 ;; mret acc.2
   else mret []) (flat_map (Attribute.bytes as4) attrs ++ rest) = (Ok attrs, rest).
Proof.
  intros Hw Hnd Hm Hlen. destruct attrs as [|a attrs']; [done|]. set (attrs := a :: attrs') in *.
  destruct (Z.ltb_spec 0 (Z.of_nat (length (flat_map (Attribute.bytes as4) attrs)))) as [H|H].
  2:{ unfold attrs in H. cbn [flat_map] in H. rewrite length_app in H.
      pose proof (attr_bytes_nonempty as4 a). lia. }
  rewrite bind_remaining.
  destruct (read_attributes as4 (Z.of_nat (length (flat_map (Attribute.bytes as4) attrs ++ rest)))
    (Z.of_nat (length (flat_map (Attribute.bytes as4) attrs))) attrs rest (∅, [])) as (s & Hs & Hk);
    [done|done|set_solver|rewrite length_app; lia|done|].
  rewrite (bind_ok _ _ _ _ _ Hs). cbn [fst snd].
  erewrite bind_ok; [done|]. eapply check_mandatory_run; [|by destruct Hm as [Hm|Hm]; [|exact Hm]].
  intros k. rewrite Hk. simpl. set_solver.
Qed.

Lemma decode_update_run c wd attrs nlri (rest : list Z) :
  let m := Update wd attrs nlri in
  body_wf c m -> Z.of_nat (length (body_bytes (as4_enabled c) m)) < 65536 ->
  Z.of_nat (length (body_bytes (as4_enabled c) m ++ rest)) < 2 ^ 62 ->
  decode_update (family c) (as4_enabled c) (Z.of_nat (length rest))
    (body_bytes (as4_enabled c) m ++ rest) = (Ok m, rest).
Proof.
  intros m (Hwd & Hat & Hnd & Hm & Hnl) Hb Hlen. unfold m in *. clear m. cbn [body_bytes] in *.
  unfold decode_update. rewrite <-!app_assoc in *. rewrite !length_app in *. rewrite !length_be_bytes in *.
  erewrite bind_ok by (apply get_u_be; unfold uint; simpl; lia).
  erewrite bind_ok by (apply read_withdrawn; [done|rewrite !length_app, length_be_bytes; lia]).
  erewrite bind_ok by (apply get_u_be; unfold uint; simpl; lia).
  erewrite bind_ok by (apply read_attribute_list; [done..|rewrite !length_app; lia]).
  rewrite bind_remaining. destruct nlri as [|p nl].
  - simpl. by rewrite Z.ltb_irrefl.
  - destruct (Z.ltb_spec (Z.of_nat (length rest)) (Z.of_nat (length (flat_map Prefix.bytes (p :: nl) ++ rest))))
      as [H|H].
    + by rewrite (bind_ok _ _ _ _ _ (read_nlri _ _ _ Hnl)).
    + exfalso. cbn [flat_map] in H. rewrite !length_app in H. pose proof (Attribute.prefix_bytes_nonempty p).
      destruct (Prefix.bytes p); simpl in *; [done|lia].
Qed.

Lemma decode_notification_run c code subcode data (rest : list Z) :
  let m := Notification code subcode data in
  body_wf c m -> msg_len (as4_enabled c) m < 65536 ->
  decode_notification (msg_len (as4_enabled c) m) (body_bytes (as4_enabled c) m ++ rest) = (Ok m, rest).
Proof.
  intros m [Hs Hd] Hl. unfold m, msg_len in *. clear m. cbn [body_bytes] in *. rewrite !length_app in *.
  unfold decode_notification. rewrite <-!app_assoc. rewrite !length_be_bytes in *.
  unfold HEADER_LENGTH in *.
  erewrite bind_ok by (apply get_u_be; destruct code; by vm_compute). rewrite code_try_from_code.
  erewrite bind_ok by reflexivity. cbv beta.
  erewrite bind_ok by (apply get_u_be; destruct subcode as [[]|]; by vm_compute). rewrite Hs.
  do 3 (erewrite bind_ok by (try rewrite ovf_small by (unfold uint; lia); reflexivity); cbv beta).
  replace (19 + Z.of_nat (1 + (1 + length data)) - 19 - 2) with (Z.of_nat (length data)) by lia.
  by rewrite (bind_ok _ _ _ _ _ (take_bytes_app _ _)).
Qed.

Lemma length_msg_bytes as4 m : Z.of_nat (length (bytes as4 m)) = msg_len as4 m.
Proof. unfold bytes, msg_len, HEADER_LENGTH. rewrite !length_app, !length_be_bytes. lia. Qed.

Lemma decode_msg_run c m (rest : list Z) : wf c m -> open_room m rest ->
  Z.of_nat (length rest) < 2 ^ 61 ->
  decode_msg (family c) (as4_enabled c) (path_id_enabled c) (bytes (as4_enabled c) m ++ rest) =
  (Ok m, rest).
Proof.
  intros [Hm Hl] Hroom Hr. unfold decode_msg. rewrite bind_remaining.
  rewrite length_app, Nat2Z.inj_add, length_msg_bytes.
  assert (Hb : Z.of_nat (length (body_bytes (as4_enabled c) m)) = msg_len (as4_enabled c) m - 19)
    by (unfold msg_len, HEADER_LENGTH; lia).
  unfold HEADER_LENGTH at 1. destruct (Z.ltb_spec (msg_len (as4_enabled c) m + Z.of_nat (length rest)) 19); [lia|].
  unfold bytes. rewrite <-!app_assoc.
  erewrite bind_ok by (apply get_u_be; exact marker_range).
  erewrite bind_ok by (apply get_u_be; unfold uint; simpl; lia).
  rewrite ovf_small by (unfold uint; lia). erewrite bind_ok by reflexivity. cbv beta.
  change (MARKER =? MARKER) with true. unfold HEADER_LENGTH at 1.
  destruct (Z.ltb_spec (msg_len (as4_enabled c) m) 19); [lia|]. cbn [negb orb].
  erewrite bind_ok by (apply get_u_be; destruct m; by vm_compute).
  rewrite type_try_from_code. erewrite bind_ok by reflexivity. cbv beta.
  replace (msg_len (as4_enabled c) m + Z.of_nat (length rest) - msg_len (as4_enabled c) m)
    with (Z.of_nat (length rest)) by lia.
  destruct m eqn:Em; cbn [msg_type].
  - eapply decode_open_run; [done..|]. rewrite length_app. lia.
  - apply decode_update_run; [done|lia|]. rewrite length_app. lia.
  - done.
  - by apply decode_notification_run.
  - cbn [body_bytes]. rd. rewrite try_from_into. done.
Qed.

(** A message is at least as long as its header. *)
Lemma decode_msg_takes_header f as4 ap : consumes_at_least 19 (decode_msg f as4 ap).
Proof.
  assert (Hpp : forall acc, shrinks (push_prefix f acc))
    by (intros; apply consumes_shrinks, (Attribute.push_prefix_consumes f false)).
  assert (Hra : forall acc, shrinks (read_attribute as4 acc))
    by (intros; apply consumes_shrinks, read_attribute_consumes).
  assert (Hro : forall acc, shrinks (read_option acc))
    by (intros; apply consumes_shrinks, read_option_consumes).
  intros l m l' H. unfold decode_msg in H. rewrite bind_remaining in H.
  destruct (_ <? _); [done|].
  apply bind_inv_ok in H as (mk & l1 & H1 & H). apply get_u_takes in H1.
  apply bind_inv_ok in H as (len & l2 & H2 & H). apply get_u_takes in H2.
  apply bind_inv_ok in H as (tail & l3 & H3 & H). injection H3 as _ <-.
  destruct (_ || _); [done|].
  apply bind_inv_ok in H as (t & l4 & H4 & H). apply get_u_takes in H4.
  cut (length l' <= length l4)%nat; [lia|]. revert H.
  match goal with |- ?p l4 = _ -> _ => cut (shrinks p); [intros Hs; apply Hs|] end.
  unfold decode_open, decode_update, decode_notification, check_mandatory. shrink;
    apply while_shrinks; auto using more_pure, before_tail_pure.
Qed.

Lemma decode_msg_consumes f as4 ap : consumes (decode_msg f as4 ap).
Proof. intros l m l' H%decode_msg_takes_header. lia. Qed.

(** *** Whole buffers *)

(** Every OPEN of the sequence passes the truncated check of its options against
    the bytes that follow it. *)
Fixpoint rooms (c : Codec) (ms : list Message) : Prop :=
  match ms with
  | [] => True
  | m :: ms' => open_room m (flat_map (bytes (as4_enabled c)) ms') /\ rooms c ms'
  end.

Lemma read_message_consumes c acc : consumes (read_message c acc).
Proof. apply bind_consumes_l; [apply decode_msg_consumes|]. intros m. shrink. Qed.

Lemma push_nlri_consumes f acc : consumes (push_prefix f acc).
Proof. apply (Attribute.push_prefix_consumes f false). Qed.

Lemma read_message_takes_header c acc : consumes_at_least 19 (read_message c acc).
Proof.
  intros l ms l' (m & l1 & H1 & H2)%bind_inv_ok. apply decode_msg_takes_header in H1. injection H2 as <- <-. done.
Qed.

Lemma nonempty_pure : pure_cond (r ← remaining; mret (0 <? r) : M (list Z) Error bool).
Proof. by intros l. Qed.

(** C35: whatever the bytes are, decoding them comes to an end: each [while] and
    [loop] of the decoders has a bound on its rounds. The loop over the messages
    of a buffer has at most one round for every 19 bytes; those over the options
    of OPEN, their capabilities and the entries of the extended-next-hop and
    graceful-restart capabilities, over withdrawn and announced prefixes and
    those of MP_REACH_NLRI and MP_UNREACH_NLRI, over the attributes, and over the
    segments of AS_PATH and AS4_PATH have one for every byte at most, whatever
    lengths the other side has written. (The other loops count up to a byte that
    was read.) *)
Theorem decoding_terminates (c : Codec) (f : AddressFamily) (as4 ap : bool) (remain length : Z) :
  ends 19 (fun _ => r ← remaining; mret (0 <? r)) (read_message c) /\
  ends 1 (fun _ => before_tail length) read_option /\
  ends 1 (option_more length) read_capability /\
  ends 1 (fun _ => more remain length) Cap.next_hop_entry /\
  ends 1 (fun _ => more remain length) Cap.restart_entry /\
  ends 1 (fun _ => more remain length) (push_prefix f) /\
  ends 1 (fun _ => before_tail length) (push_prefix f) /\
  ends 1 (fun _ => more remain length) (Attribute.push_prefix f ap) /\
  ends 1 (fun _ => more remain length) (read_attribute as4) /\
  ends 1 (fun _ => Attribute.as_path_more remain length) (Attribute.read_segment as4) /\
  ends 1 (fun _ => more remain length) (Attribute.read_segment true).
Proof.
  split; [|split_and!]; apply loop_ends; (lia || (intros acc; try apply consumes_one));
    eauto using nonempty_pure, read_message_takes_header, before_tail_pure, read_option_consumes, option_more_pure,
      read_capability_consumes, more_pure, push_nlri_consumes, read_attribute_consumes, Attribute.push_prefix_consumes,
      Attribute.as_path_more_pure, Attribute.read_segment_consumes, Cap.next_hop_entry_consumes, Cap.restart_entry_consumes.
Qed.

(** The check of the optional parameters length compares with the length of
    the whole rest of the buffer cut to eight bits. A well-formed OPEN that is
    followed by so much data that this cut value is smaller is refused with a
    bad message length. *)
Theorem open_refused_by_truncated_length (c : Codec) (m : Message) (rest : list Z)
  (Hm : wf c m) (Hroom : ~ open_room m rest) (Hlen : Z.of_nat (length rest) < 2 ^ 61) :
  exists n, (decode_msg (family c) (as4_enabled c) (path_id_enabled c)
    (bytes (as4_enabled c) m ++ rest)).1 = Err (MessageHeader (BadMessageLength n)).
Proof.
  destruct m as [version as_num hold_time identifier caps| | | |]; try done.
  destruct Hm as [(-> & Has & Hh & Hid & _ & Hopt) Hl]. cbn [open_room] in Hroom.
  set (m := Open VERSION as_num hold_time identifier caps) in *.
  assert (Hopt0 : 0 <= options_len caps) by (unfold options_len; lia).
  unfold decode_msg. rewrite bind_remaining. rewrite length_app, Nat2Z.inj_add, length_msg_bytes.
  assert (19 <= msg_len (as4_enabled c) m) by (unfold msg_len, HEADER_LENGTH; lia).
  unfold HEADER_LENGTH. destruct (Z.ltb_spec (msg_len (as4_enabled c) m + Z.of_nat (length rest)) 19); [lia|].
  unfold bytes. rewrite <-!app_assoc. erewrite bind_ok by (apply get_u_be; exact marker_range). rd.
  rewrite ovf_small by (unfold uint; lia). erewrite bind_ok by reflexivity. cbv beta.
  change (MARKER =? MARKER) with true. destruct (Z.ltb_spec (msg_len (as4_enabled c) m) 19); [lia|].
  cbn [negb orb]. erewrite bind_ok by (apply get_u_be; by vm_compute).
  rewrite type_try_from_code. erewrite bind_ok by reflexivity. cbv beta. cbn [msg_type m body_bytes].
  unfold decode_open, VERSION. rewrite <-!app_assoc. rd. change (negb (4 =? 4)) with false. cbv iota. rd.
  destruct (Z.eqb_spec as_num 0); [lia|]. do 3 rd. rewrite bind_remaining.
  rewrite length_app, Nat2Z.inj_add. fold (options_len caps).
  destruct (Z.ltb_spec (wrap 8 (options_len caps + Z.of_nat (length rest))) (options_len caps)); [|lia].
  eauto.
Qed.

Lemma read_loop_step c acc m rest : wf c m -> open_room m rest ->
  Z.of_nat (length (bytes (as4_enabled c) m ++ rest)) < 2 ^ 61 ->
  while (r ← remaining; mret (0 <? r)) (read_message c) acc (bytes (as4_enabled c) m ++ rest) =
  while (r ← remaining; mret (0 <? r)) (read_message c) (acc ++ [m]) rest.
Proof.
  intros Hm Hroom Hlen. rewrite length_app in Hlen.
  rewrite while_unfold at 1 by auto using nonempty_pure, read_message_consumes.
  rewrite (bind_ok _ _ _ true (bytes (as4_enabled c) m ++ rest)).
  2:{ rewrite bind_remaining. rewrite (proj2 (Z.ltb_lt _ _)); [done|]. rewrite length_app.
      pose proof (length_msg_bytes (as4_enabled c) m). unfold msg_len, HEADER_LENGTH in *. lia. }
  rewrite (bind_ok _ _ _ (acc ++ [m]) rest); [done|].
  unfold read_message. by rewrite (bind_ok _ _ _ _ _ (decode_msg_run c m _ Hm Hroom ltac:(lia))).
Qed.

Lemma read_stream c ms acc : Forall (wf c) ms ->
  Z.of_nat (length (flat_map (bytes (as4_enabled c)) ms)) < 2 ^ 61 ->
  (rooms c ms /\ while (r ← remaining; mret (0 <? r)) (read_message c) acc (flat_map (bytes (as4_enabled c)) ms) =
     (Ok (acc ++ ms), [])) \/
  (~ rooms c ms /\ exists n,
     (while (r ← remaining; mret (0 <? r)) (read_message c) acc (flat_map (bytes (as4_enabled c)) ms)).1 =
       Err (MessageHeader (BadMessageLength n))).
Proof.
  intros Hms. revert acc. induction Hms as [|m ms Hm Hms IH]; intros acc Hlen; cbn [flat_map rooms] in *.
  { left. split; [done|]. rewrite while_unfold by auto using nonempty_pure, read_message_consumes. by rewrite app_nil_r. }
  destruct (decide (open_room m (flat_map (bytes (as4_enabled c)) ms))) as [Hroom|Hroom].
  - rewrite read_loop_step by done. rewrite length_app in Hlen.
    destruct (IH (acc ++ [m]) ltac:(lia)) as [[Hr ->]|[Hr Herr]]; [left|right; naive_solver].
    split; [done|]. by rewrite <-app_assoc.
  - right. split; [naive_solver|]. rewrite length_app in Hlen.
    destruct (open_refused_by_truncated_length c m _ Hm Hroom ltac:(lia)) as [n Hn]. exists n.
    rewrite while_unfold by auto using nonempty_pure, read_message_consumes.
    rewrite (bind_ok _ _ _ true (bytes (as4_enabled c) m ++ flat_map (bytes (as4_enabled c)) ms)).
    2:{ rewrite bind_remaining. rewrite (proj2 (Z.ltb_lt _ _)); [done|]. rewrite length_app.
        pose proof (length_msg_bytes (as4_enabled c) m). unfold msg_len, HEADER_LENGTH in *. lia. }
    unfold read_message, mbind at 1, M_bind at 1. unfold mbind, M_bind.
    destruct (decode_msg _ _ _ _) as [r l]. cbn in Hn. by subst r.
Qed.

Lemma encode_stream c ms dst : Forall (wf c) ms ->
  for_each (encode c) ms dst = (Ok tt, dst ++ flat_map (bytes (as4_enabled c)) ms).
Proof.
  intros Hms. revert dst. induction Hms as [|m ms Hm Hms IH]; intros dst; cbn [for_each flat_map] in *.
  - by rewrite app_nil_r.
  - rewrite (bind_ok _ _ _ _ _ (codec_encode_run c m dst Hm)). by rewrite IH, <-app_assoc.
Qed.

(** C18: what one side writes, the other reads, but for one check. A sequence of
    messages that fit their wire form - OPEN with its capabilities, UPDATE with
    withdrawn routes, attributes and NLRI, KEEPALIVE, NOTIFICATION and
    ROUTE-REFRESH, with two- or four-byte AS numbers - can be encoded one after
    the other into a buffer. If the length of the options of each OPEN is at most
    the number of the bytes from its options to the end of the buffer, cut to
    eight bits ([rooms]), the buffer is decoded as the same sequence, with nothing
    left over. If not, which takes an OPEN whose options and the bytes after it
    are more than 255, it is refused with a bad message length. *)
Theorem message_stream_roundtrip (c : Codec) (ms : list Message)
  (Hne : ms <> []) (Hok : Forall (wf c) ms)
  (Hlen : Z.of_nat (length (flat_map (bytes (as4_enabled c)) ms)) < 2 ^ 61) :
  exists bs, for_each (encode c) ms [] = (Ok tt, bs) /\
    (rooms c ms -> decode c bs = (Ok (Some ms), [])) /\
    (~ rooms c ms -> exists n, (decode c bs).1 = Err (MessageHeader (BadMessageLength n))).
Proof.
  exists (flat_map (bytes (as4_enabled c)) ms). split; [by rewrite encode_stream|].
  unfold decode. rewrite bind_remaining.
  destruct (Z.eqb_spec (Z.of_nat (length (flat_map (bytes (as4_enabled c)) ms))) 0) as [H|H].
  - exfalso. destruct ms as [|m ms]; [done|]. cbn [flat_map] in H. rewrite length_app in H.
    pose proof (length_msg_bytes (as4_enabled c) m). unfold msg_len, HEADER_LENGTH in *. lia.
  - destruct (read_stream c ms [] Hok Hlen) as [[Hr Hrun]|[Hr [n Hn]]]; split; intros Hc; try done.
    + by rewrite (bind_ok _ _ _ _ _ Hrun).
    + exists n. unfold mbind at 1, M_bind at 1. destruct (while _ _ _ _) as [r l]. cbn in Hn. by subst r.
Qed.

(** What is checked of a header, on a buffer that holds the whole message:
    a marker that is not all ones or a length below 19 is a bad message length,
    and otherwise a type outside 1 to 5 is a bad message type. *)
Theorem header_errors (c : Codec) (marker n t : Z) (rest : list Z)
  (Hm : uint 128 marker) (Hn : uint 16 n) (Ht : uint 8 t)
  (Hlen : n <= 19 + Z.of_nat (length rest) < 2 ^ 62) :
  let l := be_bytes 16 marker ++ be_bytes 2 n ++ be_bytes 1 t ++ rest in
  let r := (decode_msg (family c) (as4_enabled c) (path_id_enabled c) l).1 in
  (marker <> MARKER \/ n < 19 -> r = Err (MessageHeader (BadMessageLength n))) /\
  (marker = MARKER -> 19 <= n -> ~ 1 <= t <= 5 -> r = Err (MessageHeader (BadMessageType t))).
Proof.
  intros l r. assert (Hl : Z.of_nat (length l) = 19 + Z.of_nat (length rest))
    by (unfold l; rewrite !length_app, !length_be_bytes; lia).
  unfold r, decode_msg. rewrite bind_remaining, Hl. unfold HEADER_LENGTH.
  destruct (Z.ltb_spec (19 + Z.of_nat (length rest)) 19); [lia|]. unfold l.
  do 2 rd. rewrite ovf_small by (unfold uint in *; lia). erewrite bind_ok by reflexivity. cbv beta.
  split.
  - intros Hbad. replace (negb (marker =? MARKER) || (n <? 19)) with true; [done|].
    symmetry. apply orb_true_iff. rewrite negb_true_iff, Z.eqb_neq, Z.ltb_lt. done.
  - intros -> Hn' Hbad. change (MARKER =? MARKER) with true. destruct (Z.ltb_spec n 19); [lia|].
    cbn [negb orb]. rd. mred. unfold type_try_from. repeat case_match; simplify_eq; (done || lia).
Qed.

End facts.

(** The decoder does not wait for the rest of a message. On a proper,
    non-empty part of the bytes of a message it reports a bad message length
    below 19 bytes; from 19 bytes on the subtraction of the message length from
    the buffer length underflows, which panics with overflow checks. *)
Theorem partial_message_refused {I : IpNetApi} {IL : IpNetLaws} {B : BufApi} {BL : BufLaws}
  (c : Codec) (m : Message) (part missing : list Z) (Hm : @wf I c m)
  (Hsplit : part ++ missing = bytes (as4_enabled c) m) (Hp : part <> []) (Hmis : missing <> []) :
  (@decode I B debug_profile c part).1 =
  if (length part <? 19)%nat
  then Err (MessageHeader (BadMessageLength (Z.of_nat (length part))))
  else Panic.
Proof.
  unfold decode. rewrite bind_remaining.
  destruct (Z.eqb_spec (Z.of_nat (length part)) 0) as [H0|H0]; [by destruct part|].
  match goal with |- _ = ?x => set (res := x) end.
  assert (Hres : forall a, res <> Ok a) by (intros a; unfold res; by destruct (_ <? _)%nat).
  cut ((@decode_msg I B debug_profile (family c) (as4_enabled c) (path_id_enabled c) part).1 =
    if (length part <? 19)%nat
    then Err (MessageHeader (BadMessageLength (Z.of_nat (length part)))) else Panic).
  { intros Hd. unfold mbind at 1, M_bind at 1.
    rewrite while_unfold by auto using nonempty_pure, read_message_consumes.
    rewrite (bind_ok _ _ _ true part).
    2:{ rewrite bind_remaining. by rewrite (proj2 (Z.ltb_lt _ _)) by lia. }
    unfold read_message, mbind, M_bind. unfold res in *. clear Hres.
    destruct (decode_msg _ _ _ part) as [[]?]; simpl in Hd; destruct (_ <? _)%nat; by simplify_eq. }
  clear res Hres.
  unfold decode_msg. rewrite bind_remaining. unfold HEADER_LENGTH.
  destruct (Nat.ltb_spec (length part) 19) as [Hs|Hs].
  - destruct (Z.ltb_spec (Z.of_nat (length part)) 19); [|lia].
    rewrite wrap_small by (unfold uint; lia). done.
  - destruct (Z.ltb_spec (Z.of_nat (length part)) 19); [lia|].
    destruct Hm as [_ Hl]. pose proof (length_msg_bytes (as4_enabled c) m) as Hlen.
    rewrite <-Hsplit, length_app in Hlen. destruct missing; [done|]. simpl in Hlen.
    assert (Hpart : exists tl, part = be_bytes 16 MARKER ++ be_bytes 2 (msg_len (as4_enabled c) m) ++ tl).
    { exists (drop 18 part). unfold bytes in Hsplit. rewrite app_assoc in Hsplit |- *.
      set (h := be_bytes 16 MARKER ++ be_bytes 2 (msg_len (as4_enabled c) m)) in *.
      assert (Hh : length h = 18%nat) by (unfold h; by rewrite length_app, !length_be_bytes).
      rewrite <-(take_drop 18 part) at 1. f_equal.
      apply (f_equal (take 18)) in Hsplit. rewrite take_app_le in Hsplit by lia.
      rewrite Hsplit, take_app_le by lia. apply take_ge. lia. }
    destruct Hpart as [tl ->]. erewrite bind_ok by (apply get_u_be; exact marker_range).
    assert (19 <= msg_len (as4_enabled c) m) by (unfold msg_len, HEADER_LENGTH; lia).
    rd. rewrite ovf_debug; [done|]. unfold uint. lia.
Qed.

Section witnesses.
#[local] Existing Instance simple_ipnet.
#[local] Existing Instance simple_ipnet_laws.
#[local] Existing Instance simple_buf.
#[local] Existing Instance simple_buf_laws.
#[local] Existing Instance debug_profile.

Definition open_ex : Message :=
  Open 4 65000 180 167837697 [Cap.FourOctetASNumber 65000; Cap.RouteRefresh; Cap.MultiProtocol ipv4_unicast].

Definition stream_ex : list Message :=
  [open_ex; Keepalive; Notification NOpenMessage (Some SBadPeerAS) [1; 2]].

Lemma open_ex_wf : wf default open_ex.
Proof.
  split; [|by vm_compute]. split; [done|]. split; [lia|]. split; [by vm_compute|].
  split; [by vm_compute|]. split; [|by vm_compute].
  apply (bool_decide_unpack _). by vm_compute.
Qed.

Lemma message_stream_roundtrip_witness :
  exists bs, for_each (encode default) stream_ex [] = (Ok tt, bs) /\
    decode default bs = (Ok (Some stream_ex), []).
Proof.
  destruct (message_stream_roundtrip default stream_ex) as (bs & He & Hd & _); [done| |by vm_compute|].
  - constructor; [apply open_ex_wf|]. constructor; [split; by vm_compute|]. constructor; [|constructor].
    split; [|by vm_compute]. split; [done|]. apply (bool_decide_unpack _). by vm_compute.
  - exists bs. split; [exact He|]. apply Hd. split; [by vm_compute|]. by split.
Defined.

(** Three bytes are no message: the loop ends before its first round is over. *)
Lemma decoding_terminates_witness : exists n, (n * 19 <= 3)%nat /\
  rounds (fun _ => r ← remaining; mret (0 <? r)) (read_message default) n [] [1; 2; 3]
    (while (r ← remaining; mret (0 <? r)) (read_message default) [] [1; 2; 3]).
Proof. exact (proj1 (decoding_terminates default ipv4_unicast true false 0 0) [] [1; 2; 3]). Defined.

Lemma header_errors_witness :
  (decode_msg ipv4_unicast true false (be_bytes 16 MARKER ++ be_bytes 2 19 ++ be_bytes 1 9 ++ [])).1 =
  Err (MessageHeader (BadMessageType 9)).
Proof.
  apply (header_errors default MARKER 19 9 []); [by vm_compute..|done|lia|lia].
Defined.

Lemma open_refused_by_truncated_length_witness :
  exists n, (decode_msg (family default) (as4_enabled default) (path_id_enabled default)
    (bytes (as4_enabled default) open_ex ++ replicate 240 0)).1 = Err (MessageHeader (BadMessageLength n)).
Proof.
  apply (open_refused_by_truncated_length default open_ex (replicate 240 0)); [apply open_ex_wf| |by vm_compute].
  unfold open_room, open_ex. apply Z.lt_nge. by vm_compute.
Defined.

Definition part_ex : list Z := take 20 (bytes (as4_enabled default) open_ex).

Lemma partial_message_refused_witness :
  (decode default part_ex).1 =
  if (length part_ex <? 19)%nat
  then Err (MessageHeader (BadMessageLength (Z.of_nat (length part_ex))))
  else Panic.
Proof.
  refine (partial_message_refused default open_ex part_ex
    (drop 20 (bytes (as4_enabled default) open_ex)) open_ex_wf (take_drop _ _) _ _);
    apply (bool_decide_unpack _); vm_compute; exact Logic.I.
Defined.
End witnesses.
End Codec.
