(* ===== verification/BgpPath.v ===== *)
(** * Paths

    [Path] is [bgp/src/path.rs]: a route with its attributes as the RIBs keep
    it, the test the RIB uses to recognise a path, what a path looks like to an
    outgoing peer, and the builder that makes paths from the attributes of an
    UPDATE. The hash that gives a path its identifier and the clock are
    parameters. *)

From S2P Require Import Prelude Net BgpFamily BgpPrefix BgpAttribute.

Module Path.
Import BgpError Family Attribute.

Inductive BestPathReason : Type :=
| ROnlyPath | RWeight | RLocalPref | RLocalOriginated | RASPath | ROrigin | RMultiExitDisc
| RExternal | RIGPMetric | ROlderRoute | RRouterId | RPeerAddr | REqualCostMiltiPath | RNotBest.

#[global] Instance BestPathReason_eq_dec : EqDecision BestPathReason.
Proof. solve_decision. Defined.

Inductive PathKind : Type := KLocal | KInternal | KExternal.

#[global] Instance PathKind_eq_dec : EqDecision PathKind.
Proof. solve_decision. Defined.

Section defs.
Context {I : IpNetApi} {P : Profile}.

(** A [SystemTime] is the number of nanoseconds it stands for. *)
Record Path : Type := {
  id : Z;
  best : bool;
  reason : BestPathReason;
  timestamp : Z;
  local_id : Z;
  local_asn : Z;
  peer_id : Z;
  peer_addr : IpAddr;
  peer_asn : Z;
  family : AddressFamily;
  origin : Z;
  local_pref : Z;
  med : Z;
  as_sequence : list Z;
  as_set : list Z;
  next_hops : list IpAddr;
  propagate_attributes : list Attribute;
  prefix : IpNet;
}.

#[global] Instance Path_eq_dec : EqDecision Path.
Proof. solve_decision. Defined.

(** [PartialEq for Path] *)
Definition path_eq (p q : Path) : bool :=
  bool_decide (local_id p = local_id q)
  || bool_decide (local_asn p = local_asn q)
  || bool_decide (peer_id p = peer_id q)
  || bool_decide (peer_addr p = peer_addr q)
  || bool_decide (peer_asn p = peer_asn q)
  || bool_decide (family p = family q)
  || bool_decide (origin p = origin q)
  || bool_decide (local_pref p = local_pref q)
  || bool_decide (med p = med q)
  || bool_decide (as_sequence p = as_sequence q)
  || bool_decide (as_set p = as_set q)
  || bool_decide (next_hops p = next_hops q)
  || bool_decide (propagate_attributes p = propagate_attributes q)
  || bool_decide (prefix p = prefix q).

Definition is_local_originated (p : Path) : bool := bool_decide (local_id p = peer_id p).

Definition is_external (p : Path) : bool :=
  negb (is_local_originated p) && negb (bool_decide (local_asn p = peer_asn p)).

Definition kind (p : Path) : PathKind :=
  if bool_decide (local_id p = peer_id p) then KLocal
  else if bool_decide (local_asn p = peer_asn p) then KInternal
  else KExternal.

Definition has_as (p : Path) (asn : Z) : bool :=
  if bool_decide (asn ∈ as_sequence p) then true
  else if bool_decide (asn ∈ as_set p) then true
  else false.

Definition has_own_as (p : Path) : bool := has_as p (local_asn p).

Definition is_equal_cost (p path : Path) : bool :=
  if negb (bool_decide (local_pref p = local_pref path)) then false
  else if negb (bool_decide (length (as_sequence p) = length (as_sequence path))) then false
  else if negb (bool_decide (origin p = origin path)) then false
  else if negb (bool_decide (med p = med path)) then false
  else if negb (bool_decide (bool_decide (local_asn p = peer_asn p)
                             = bool_decide (local_asn path = peer_asn path))) then false
  else true.

(** Field updates *)
Definition with_best (b : bool) (r : BestPathReason) (p : Path) : Path :=
  {| id := id p; best := b; reason := r; timestamp := timestamp p; local_id := local_id p;
     local_asn := local_asn p; peer_id := peer_id p; peer_addr := peer_addr p;
     peer_asn := peer_asn p; family := family p; origin := origin p; local_pref := local_pref p;
     med := med p; as_sequence := as_sequence p; as_set := as_set p; next_hops := next_hops p;
     propagate_attributes := propagate_attributes p; prefix := prefix p |}.

Definition with_timestamp (t : Z) (p : Path) : Path :=
  {| id := id p; best := best p; reason := reason p; timestamp := t; local_id := local_id p;
     local_asn := local_asn p; peer_id := peer_id p; peer_addr := peer_addr p;
     peer_asn := peer_asn p; family := family p; origin := origin p; local_pref := local_pref p;
     med := med p; as_sequence := as_sequence p; as_set := as_set p; next_hops := next_hops p;
     propagate_attributes := propagate_attributes p; prefix := prefix p |}.

Definition with_attrs (o lp : Z) (seq : list Z) (nhs : list IpAddr) (p : Path) : Path :=
  {| id := id p; best := best p; reason := reason p; timestamp := timestamp p;
     local_id := local_id p; local_asn := local_asn p; peer_id := peer_id p;
     peer_addr := peer_addr p; peer_asn := peer_asn p; family := family p; origin := o;
     local_pref := lp; med := med p; as_sequence := seq; as_set := as_set p; next_hops := nhs;
     propagate_attributes := propagate_attributes p; prefix := prefix p |}.

Definition to_outgoing (is_ibgp : bool) (asn : Z) (nhs : list IpAddr) (p : Path) : res Error Path :=
  let o := if bool_decide (kind p = KInternal) && negb is_ibgp then ORIGIN_INCOMPLETE else origin p in
  let seq := if negb is_ibgp then asn :: as_sequence p else as_sequence p in
  let p1 := with_attrs o (local_pref p) seq (next_hops p) p in
  if is_ibgp && bool_decide (kind p1 = KExternal) then Ok p1
  else
    let p2 := with_attrs o (local_pref p) seq nhs p in
    if is_ibgp && (local_pref p2 =? 0) then Ok (with_attrs o 100 seq nhs p) else Ok p2.

Definition large (n : Z) : bool := AS_2BYTES_LIMIT <? n.

Definition attributes (p : Path) (as4_enabled : bool) : res Error (list Attribute) :=
  o ← new_origin (origin p);
  paths ← (if as4_enabled then a ← new_as_path (as_sequence p) (as_set p) true; Ok [a]
    else
      let as4_seq := List.filter large (as_sequence p) in
      let as4_set := List.filter large (as_set p) in
      let as_seq := map (fun n => if large n then AS_TRANS else n) (as_sequence p) in
      let as_set0 := List.filter (fun n => n <=? AS_2BYTES_LIMIT) (as_set p) in
      let as_set1 := if (length as_set0 <? length (as_set p))%nat then as_set0 ++ [AS_TRANS] else as_set0 in
      a ← new_as_path as_seq as_set1 true;
      match as4_seq, as4_set with
      | [], [] => Ok [a]
      | _, _ => b ← new_as4_path as4_seq as4_set true; Ok [a; b]
      end);
  nh ← match next_hops p with
       | [] => Err (UpdateMessage InvalidNextHopAttribute)
       | AV4 addr :: _ => Ok [new_nexthop addr]
       | AV6 _ :: _ => Ok []
       end;
  lp ← (if negb (local_pref p =? 0) then a ← new_local_pref (local_pref p); Ok [a] else Ok []);
  md ← (if negb (med p =? 0) then a ← new_med (med p); Ok [a] else Ok []);
  Ok ([o] ++ paths ++ nh ++ lp ++ md).

(** ** [PathBuilder] *)

Record PathBuilder : Type := {
  b_local_id : Z;
  b_local_asn : Z;
  b_peer_id : Z;
  b_peer_addr : IpAddr;
  b_peer_asn : Z;
  b_family : AddressFamily;
  b_next_hop : list IpAddr;
  b_origin : Z;
  b_as_sequence : list Z;
  b_as_set : list Z;
  b_as4_sequence : list Z;
  b_as4_set : list Z;
  b_local_pref : Z;
  b_med : Z;
  b_propagate_attrs : list Attribute;
  b_nlri : list Prefix.Prefix;
}.

Definition builder (local_id local_asn peer_id : Z) (peer_addr : IpAddr) (peer_asn : Z) : PathBuilder :=
  {| b_local_id := local_id; b_local_asn := local_asn; b_peer_id := peer_id;
     b_peer_addr := peer_addr; b_peer_asn := peer_asn; b_family := ipv4_unicast; b_next_hop := [];
     b_origin := ORIGIN_IGP; b_as_sequence := []; b_as_set := []; b_as4_sequence := [];
     b_as4_set := []; b_local_pref := 0; b_med := 0; b_propagate_attrs := []; b_nlri := [] |}.

Definition builder_local (local_id local_asn : Z) : PathBuilder :=
  {| b_local_id := local_id; b_local_asn := local_asn; b_peer_id := local_id;
     b_peer_addr := AV4 0; b_peer_asn := local_asn; b_family := ipv4_unicast; b_next_hop := [];
     b_origin := ORIGIN_IGP; b_as_sequence := []; b_as_set := []; b_as4_sequence := [];
     b_as4_set := []; b_local_pref := 0; b_med := 0; b_propagate_attrs := []; b_nlri := [] |}.

(** The fields the setters below change. *)
Definition upd (b : PathBuilder) (f : AddressFamily) (nh : list IpAddr) (o : Z)
    (seq set seq4 set4 : list Z) (lp m : Z) (pa : list Attribute) (nl : list Prefix.Prefix) : PathBuilder :=
  {| b_local_id := b_local_id b; b_local_asn := b_local_asn b; b_peer_id := b_peer_id b;
     b_peer_addr := b_peer_addr b; b_peer_asn := b_peer_asn b; b_family := f; b_next_hop := nh;
     b_origin := o; b_as_sequence := seq; b_as_set := set; b_as4_sequence := seq4;
     b_as4_set := set4; b_local_pref := lp; b_med := m; b_propagate_attrs := pa; b_nlri := nl |}.

Definition add_next_hop (nh : IpAddr) (b : PathBuilder) : PathBuilder :=
  upd b (b_family b) (b_next_hop b ++ [nh]) (b_origin b) (b_as_sequence b) (b_as_set b)
    (b_as4_sequence b) (b_as4_set b) (b_local_pref b) (b_med b) (b_propagate_attrs b) (b_nlri b).

Definition set_origin (val : Z) (b : PathBuilder) : PathBuilder :=
  upd b (b_family b) (b_next_hop b) val (b_as_sequence b) (b_as_set b)
    (b_as4_sequence b) (b_as4_set b) (b_local_pref b) (b_med b) (b_propagate_attrs b) (b_nlri b).

Definition as_segment (segment : ASSegment) (as4 : bool) (b : PathBuilder) : PathBuilder :=
  let s := segments segment in
  if as4 then
    if segment_type segment =? AS_SEQUENCE
    then upd b (b_family b) (b_next_hop b) (b_origin b) (b_as_sequence b) (b_as_set b)
      (b_as4_sequence b ++ s) (b_as4_set b) (b_local_pref b) (b_med b) (b_propagate_attrs b) (b_nlri b)
    else upd b (b_family b) (b_next_hop b) (b_origin b) (b_as_sequence b) (b_as_set b)
      (b_as4_sequence b) (b_as4_set b ++ s) (b_local_pref b) (b_med b) (b_propagate_attrs b) (b_nlri b)
  else if segment_type segment =? AS_SEQUENCE
    then upd b (b_family b) (b_next_hop b) (b_origin b) (b_as_sequence b ++ s) (b_as_set b)
      (b_as4_sequence b) (b_as4_set b) (b_local_pref b) (b_med b) (b_propagate_attrs b) (b_nlri b)
    else upd b (b_family b) (b_next_hop b) (b_origin b) (b_as_sequence b) (b_as_set b ++ s)
      (b_as4_sequence b) (b_as4_set b) (b_local_pref b) (b_med b) (b_propagate_attrs b) (b_nlri b).

Definition as_segments (segs : list ASSegment) (as4 : bool) (b : PathBuilder) : PathBuilder :=
  foldl (fun b s => as_segment s as4 b) b segs.

(** [as_sequence] and [as_set] of the builder: both append to the sequence. *)
Definition add_as_sequence (sequence : list Z) (as4 : bool) (b : PathBuilder) : PathBuilder :=
  if as4
  then upd b (b_family b) (b_next_hop b) (b_origin b) (b_as_sequence b) (b_as_set b)
    (b_as4_sequence b ++ sequence) (b_as4_set b) (b_local_pref b) (b_med b) (b_propagate_attrs b) (b_nlri b)
  else upd b (b_family b) (b_next_hop b) (b_origin b) (b_as_sequence b ++ sequence) (b_as_set b)
    (b_as4_sequence b) (b_as4_set b) (b_local_pref b) (b_med b) (b_propagate_attrs b) (b_nlri b).

Definition add_as_set (set : list Z) (as4 : bool) (b : PathBuilder) : PathBuilder :=
  if as4
  then upd b (b_family b) (b_next_hop b) (b_origin b) (b_as_sequence b) (b_as_set b)
    (b_as4_sequence b ++ set) (b_as4_set b) (b_local_pref b) (b_med b) (b_propagate_attrs b) (b_nlri b)
  else upd b (b_family b) (b_next_hop b) (b_origin b) (b_as_sequence b ++ set) (b_as_set b)
    (b_as4_sequence b) (b_as4_set b) (b_local_pref b) (b_med b) (b_propagate_attrs b) (b_nlri b).

Definition set_local_pref (val : Z) (b : PathBuilder) : PathBuilder :=
  upd b (b_family b) (b_next_hop b) (b_origin b) (b_as_sequence b) (b_as_set b)
    (b_as4_sequence b) (b_as4_set b) val (b_med b) (b_propagate_attrs b) (b_nlri b).

Definition set_med (val : Z) (b : PathBuilder) : PathBuilder :=
  upd b (b_family b) (b_next_hop b) (b_origin b) (b_as_sequence b) (b_as_set b)
    (b_as4_sequence b) (b_as4_set b) (b_local_pref b) val (b_propagate_attrs b) (b_nlri b).

Definition propagate_attr (a : Attribute) (b : PathBuilder) : PathBuilder :=
  upd b (b_family b) (b_next_hop b) (b_origin b) (b_as_sequence b) (b_as_set b)
    (b_as4_sequence b) (b_as4_set b) (b_local_pref b) (b_med b) (b_propagate_attrs b ++ [a]) (b_nlri b).

Definition set_family (f : AddressFamily) (b : PathBuilder) : PathBuilder :=
  upd b f (b_next_hop b) (b_origin b) (b_as_sequence b) (b_as_set b)
    (b_as4_sequence b) (b_as4_set b) (b_local_pref b) (b_med b) (b_propagate_attrs b) (b_nlri b).

Definition add_nlri (nl : list Prefix.Prefix) (b : PathBuilder) : PathBuilder :=
  upd b (b_family b) (b_next_hop b) (b_origin b) (b_as_sequence b) (b_as_set b)
    (b_as4_sequence b) (b_as4_set b) (b_local_pref b) (b_med b) (b_propagate_attrs b) (b_nlri b ++ nl).

Definition attr (a : Attribute) (b0 : PathBuilder) : res Error PathBuilder :=
  let b := if is_optional a && is_transitive a && is_recognized a then propagate_attr a b0 else b0 in
  match a with
  | Origin _ val => Ok (set_origin val b)
  | ASPath _ segments => Ok (as_segments segments false b)
  | NextHop _ val => Ok (add_next_hop (AV4 val) b)
  | MultiExitDisc _ val => Ok (set_med val b)
  | LocalPref _ val => Ok (set_local_pref val b)
  | AtomicAggregate _ => Ok b
  | Aggregator _ _ _ => Ok b
  | Communities _ _ => Ok b
  | ExtendedCommunities _ _ _ => Ok b
  | MPReachNLRI _ f nhs nl =>
      let b1 := upd b (b_family b) (b_next_hop b ++ nhs) (b_origin b) (b_as_sequence b) (b_as_set b)
        (b_as4_sequence b) (b_as4_set b) (b_local_pref b) (b_med b) (b_propagate_attrs b) (b_nlri b) in
      Ok (set_family f (add_nlri nl b1))
  | MPUnReachNLRI _ _ _ => Ok b
  | AS4Path _ segments => Ok (as_segments segments true b)
  | AS4Aggregator _ _ _ => Ok b
  | Unsupported bs data =>
      f ← (if base_is_optional bs && base_is_transitive bs
           then ovf 8 (flag bs + FLAG_PARTIAL) else Ok (flag bs));
      Ok (propagate_attr (Unsupported {| flag := f; code := code bs |} data) b)
  end.

(** [for attr in attrs { builder.attr(attr)?; }] *)
Fixpoint attrs (l : list Attribute) (b : PathBuilder) : res Error PathBuilder :=
  match l with
  | [] => Ok b
  | a :: l' => b' ← attr a b; attrs l' b'
  end.

(** The mapping of [AS_TRANS] to the four-byte numbers, with the running index. *)
Fixpoint restore_as (as4 : list Z) (i : nat) (l : list Z) : res Error (list Z * nat) :=
  match l with
  | [] => Ok ([], i)
  | s :: l' =>
      if s =? AS_TRANS then
        ss ← vec_get as4 (Z.of_nat i);
        '(r, j) ← restore_as as4 (S i) l';
        Ok (ss :: r, j)
      else
        '(r, j) ← restore_as as4 i l';
        Ok (s :: r, j)
  end.
End defs.

Section build.
Context {I : IpNetApi} {P : Profile}.
(** [DefaultHasher] over the builder, and the clock read for the [k]-th path *)
Variable hash_builder : PathBuilder -> Z.
Variable now : nat -> Z.

Definition build (b : PathBuilder) : res Error (list Path) :=
  '(seq, i) ← restore_as (b_as4_sequence b) 0 (b_as_sequence b);
  '(set, _) ← restore_as (b_as4_sequence b) i (b_as_set b);
  Ok (imap (fun k p => {|
    id := hash_builder b;
    best := false;
    reason := RNotBest;
    timestamp := now k;
    local_id := b_local_id b;
    local_asn := b_local_asn b;
    peer_id := b_peer_id b;
    peer_addr := b_peer_addr b;
    peer_asn := b_peer_asn b;
    family := b_family b;
    origin := b_origin b;
    local_pref := b_local_pref b;
    med := b_med b;
    as_sequence := seq;
    as_set := set;
    next_hops := b_next_hop b;
    propagate_attributes := b_propagate_attrs b;
    prefix := Prefix.into_ipnet p;
  |}) (b_nlri b)).
End build.

Section facts.
Context {I : IpNetApi} {P : Profile}.

Definition trunc (n : Z) : Z := if large n then AS_TRANS else n.

Lemma as_trans_small : large AS_TRANS = false.
Proof. done. Qed.

(** The large numbers of a sequence come back in their places. *)
Lemma restore_trunc as4 tl seq i : ~ (AS_TRANS ∈ seq) -> drop i as4 = List.filter large seq ++ tl ->
  restore_as as4 i (map trunc seq) = Ok (seq, (i + length (List.filter large seq))%nat).
Proof.
  revert i. induction seq as [|n seq IH]; intros i Hn Hd; cbn [map restore_as List.filter length].
  { by rewrite Nat.add_0_r. }
  apply not_elem_of_cons in Hn as [Hne Hn]. cbn [List.filter] in Hd.
  assert (Ht : trunc n = if large n then AS_TRANS else n) by done.
  destruct (large n) eqn:El; rewrite Ht.
  - rewrite Z.eqb_refl. cbn [app] in Hd.
    assert (Hi : as4 !! i = Some n) by (rewrite <-(Nat.add_0_r i), <-lookup_drop, Hd; done).
    rewrite (vec_get_some _ _ n) by (by rewrite Nat2Z.id).
    assert (Hd' : drop (S i) as4 = List.filter large seq ++ tl).
    { replace (S i) with (i + 1)%nat by lia. by rewrite <-drop_drop, Hd. }
    mred. rewrite (IH (S i) Hn Hd'). simpl. do 2 f_equal. lia.
  - destruct (Z.eqb_spec n AS_TRANS); [congruence|]. mred. by rewrite (IH i Hn Hd).
Qed.

Lemma filter_small l : Forall (fun n => n <= AS_2BYTES_LIMIT) l -> List.filter large l = [].
Proof.
  induction 1 as [|n l Hn Hl IH]; simpl; [done|]. unfold large at 1.
  by destruct (Z.ltb_spec AS_2BYTES_LIMIT n); [lia|].
Qed.

Lemma filter_keep_small l : Forall (fun n => n <= AS_2BYTES_LIMIT) l ->
  List.filter (fun n => n <=? AS_2BYTES_LIMIT) l = l.
Proof.
  induction 1 as [|n l Hn Hl IH]; simpl; [done|].
  by rewrite IH, (proj2 (Z.leb_le _ _) Hn).
Qed.

(** A list without [AS_TRANS] is left alone. *)
Lemma restore_none as4 i l : ~ (AS_TRANS ∈ l) -> restore_as as4 i l = Ok (l, i).
Proof.
  induction l as [|n l IH]; intros Hn; cbn [restore_as]; [done|].
  apply not_elem_of_cons in Hn as [Hne Hn]. destruct (Z.eqb_spec n AS_TRANS); [congruence|].
  mred. by rewrite IH.
Qed.

(** [AS_TRANS] with no four-byte number left to replace it. *)
Lemma restore_panics as4 i l : AS_TRANS ∈ l -> (length as4 <= i)%nat -> restore_as as4 i l = Panic.
Proof.
  revert i. induction l as [|n l IH]; intros i Hin Hi; [by apply elem_of_nil in Hin|].
  cbn [restore_as]. destruct (Z.eqb_spec n AS_TRANS) as [->|Hne].
  - rewrite vec_get_none; [done|]. rewrite Nat2Z.id. by apply lookup_ge_None.
  - apply elem_of_cons in Hin as [Hin|Hin]; [congruence|]. mred. by rewrite IH.
Qed.

(** The attributes of the path as the receiving speaker's builder collects them. *)
Definition collected (p : Path) (as4 : bool) (a : Z) (b : PathBuilder) : Prop :=
  b_origin b = origin p /\ b_next_hop b = [AV4 a] /\ b_local_pref b = local_pref p /\
  b_med b = med p /\ b_nlri b = [] /\
  b_as_sequence b = (if as4 then as_sequence p else map trunc (as_sequence p)) /\
  b_as_set b = as_set p /\
  b_as4_sequence b = (if as4 then [] else List.filter large (as_sequence p)).

Lemma new_origin_ok o : 0 <= o <= 2 -> new_origin o = Ok (Origin (base_new FLAG_TRANSITIVE ORIGIN) o).
Proof.
  intros Ho. unfold new_origin. rewrite bool_decide_eq_true_2; [done|].
  rewrite !elem_of_cons. unfold ORIGIN_IGP, ORIGIN_EGP, ORIGIN_INCOMPLETE. lia.
Qed.

Lemma attrs_app l1 l2 b : attrs (l1 ++ l2) b = (b1 ← attrs l1 b; attrs l2 b1).
Proof.
  revert b. induction l1 as [|a l1 IH]; intros b; [done|]. cbn [attrs app]. mred.
  destruct (attr a b); [apply IH|done|done].
Qed.

Lemma attrs_nil b : attrs [] b = Ok b.
Proof. done. Qed.

Lemma attrs_one a b : attrs [a] b = attr a b.
Proof. cbn [attrs]. mred. by destruct (attr a b). Qed.

(** What each attribute of an advertisement does to a builder. *)
Lemma attrs_head o seq set ext lid lasn pid paddr pasn :
  attrs [Origin (base_new FLAG_TRANSITIVE ORIGIN) o;
         ASPath (base_new (if ext : bool then FLAG_TRANSITIVE + FLAG_EXTENDED else FLAG_TRANSITIVE) AS_PATH)
           (path_segments seq set)] (builder lid lasn pid paddr pasn) =
  Ok (upd (builder lid lasn pid paddr pasn) ipv4_unicast [] o seq set [] [] 0 0 [] []).
Proof. by destruct ext, set. Qed.

Lemma attr_as4 seq4 b f nh o seq set lp m pa nl :
  attr (AS4Path (base_new (FLAG_TRANSITIVE + FLAG_OPTIONAL + FLAG_EXTENDED) AS4_PATH)
    (path_segments seq4 [])) (upd b f nh o seq set [] [] lp m pa nl) =
  Ok (upd b f nh o seq set seq4 [] lp m
    (pa ++ [AS4Path (base_new (FLAG_TRANSITIVE + FLAG_OPTIONAL + FLAG_EXTENDED) AS4_PATH)
      (path_segments seq4 [])]) nl).
Proof. done. Qed.

Lemma attrs_tail a lp m b f o seq set seq4 set4 pa nl :
  attrs (([new_nexthop a] ++
    (if negb (lp =? 0) then [LocalPref (base_new FLAG_TRANSITIVE LOCAL_PREF) lp] else [])) ++
    (if negb (m =? 0) then [MultiExitDisc (base_new FLAG_OPTIONAL MULTI_EXIT_DISC) m] else []))
    (upd b f [] o seq set seq4 set4 0 0 pa nl) =
  Ok (upd b f [AV4 a] o seq set seq4 set4 lp m pa nl).
Proof. destruct (Z.eqb_spec lp 0), (Z.eqb_spec m 0); subst; done. Qed.

Lemma attributes_run p as4 a nhs : 0 <= origin p <= 2 -> next_hops p = AV4 a :: nhs ->
  Forall (fun n => n <= AS_2BYTES_LIMIT) (as_set p) ->
  attributes p as4 = Ok (
    ([Origin (base_new FLAG_TRANSITIVE ORIGIN) (origin p);
      ASPath (base_new (FLAG_TRANSITIVE + FLAG_EXTENDED) AS_PATH)
        (path_segments (if as4 then as_sequence p else map trunc (as_sequence p)) (as_set p))] ++
     (if as4 then [] else match List.filter large (as_sequence p) with
       | [] => []
       | _ :: _ => [AS4Path (base_new (FLAG_TRANSITIVE + FLAG_OPTIONAL + FLAG_EXTENDED) AS4_PATH)
                     (path_segments (List.filter large (as_sequence p)) [])]
       end)) ++
    (([new_nexthop a] ++
      (if negb (local_pref p =? 0) then [LocalPref (base_new FLAG_TRANSITIVE LOCAL_PREF) (local_pref p)] else [])) ++
      (if negb (med p =? 0) then [MultiExitDisc (base_new FLAG_OPTIONAL MULTI_EXIT_DISC) (med p)] else []))).
Proof.
  intros Ho Hnh Hset. unfold attributes. rewrite new_origin_ok, Hnh by done.
  rewrite (filter_small _ Hset), (filter_keep_small _ Hset), Nat.ltb_irrefl.
  unfold new_as_path, new_as4_path, new_local_pref, new_med. mred.
  change (map (fun n => if large n then AS_TRANS else n)) with (map trunc).
  destruct as4; [|destruct (List.filter large (as_sequence p)) eqn:Ef];
    destruct (local_pref p =? 0), (med p =? 0); done.
Qed.

Lemma attributes_collected p as4 a nhs lid lasn pid paddr pasn :
  0 <= origin p <= 2 -> next_hops p = AV4 a :: nhs ->
  Forall (fun n => n <= AS_2BYTES_LIMIT) (as_set p) ->
  exists l b, attributes p as4 = Ok l /\ attrs l (builder lid lasn pid paddr pasn) = Ok b /\
    collected p as4 a b.
Proof.
  intros Ho Hnh Hset. rewrite (attributes_run p as4 a nhs Ho Hnh Hset). unfold collected.
  destruct as4; [|destruct (List.filter large (as_sequence p)) as [|x l] eqn:Ef];
    (eexists _, _; split; [reflexivity|]);
    rewrite attrs_app, (attrs_app [_; _]), (attrs_head _ _ _ true); cbn [mbind res_bind].
  - rewrite attrs_nil. cbn [mbind res_bind]. rewrite attrs_tail. split; [reflexivity|]. split_and!; done.
  - rewrite attrs_nil. cbn [mbind res_bind]. rewrite attrs_tail. split; [reflexivity|].
    split_and!; done.
  - rewrite attrs_one, attr_as4. cbn [mbind res_bind]. rewrite attrs_tail. split; [reflexivity|].
    split_and!; done.
Qed.

(** C20: what a path keeps on its trip to another speaker. For a path whose
    first next hop is an IPv4 address, with an origin of 0 to 2, no [AS_TRANS]
    among its AS numbers and an AS set of two-byte numbers
    ([missing_as4_numbers_panic] is why), the attributes it is advertised with,
    given to the builder of the receiving side with a list of prefixes, give one
    path per prefix with the same origin, AS sequence, AS set, local preference
    and metric, and that first next hop as the only one: over a session with
    four-byte AS numbers and over one with two-byte numbers, where larger
    numbers of the sequence travel as [AS_TRANS] with an [AS4_PATH]. *)
Theorem path_survives_advertisement (hash : PathBuilder -> Z) (now : nat -> Z) (p : Path)
  (as4 : bool) (a : Z) (nhs : list IpAddr) (lid lasn pid : Z) (paddr : IpAddr) (pasn : Z)
  (nl : list Prefix.Prefix)
  (Ho : 0 <= origin p <= 2) (Hnh : next_hops p = AV4 a :: nhs)
  (Hseq : ~ (AS_TRANS ∈ as_sequence p)) (Hset : ~ (AS_TRANS ∈ as_set p))
  (Hsmall : Forall (fun n => n <= AS_2BYTES_LIMIT) (as_set p)) :
  exists l b qs, attributes p as4 = Ok l /\
    attrs l (builder lid lasn pid paddr pasn) = Ok b /\
    build hash now (add_nlri nl b) = Ok qs /\
    prefix <$> qs = Prefix.into_ipnet <$> nl /\
    Forall (fun q => origin q = origin p /\ as_sequence q = as_sequence p /\ as_set q = as_set p /\
      local_pref q = local_pref p /\ med q = med p /\ next_hops q = [AV4 a] /\ best q = false) qs.
Proof.
  destruct (attributes_collected p as4 a nhs lid lasn pid paddr pasn Ho Hnh Hsmall)
    as (l & b & Hl & Hb & C). destruct C as (C1 & C2 & C3 & C4 & C5 & C6 & C7 & C8).
  exists l, b. eexists. split; [done|]. split; [done|].
  unfold build, add_nlri, upd. cbn [b_as4_sequence b_as_sequence b_as_set b_nlri].
  rewrite C5, C6, C7, C8. cbn [app].
  assert (Hr : exists i, restore_as (if as4 then [] else List.filter large (as_sequence p)) 0
    (if as4 then as_sequence p else map trunc (as_sequence p)) = Ok (as_sequence p, i)).
  { destruct as4; [by rewrite restore_none; eauto|]. rewrite (restore_trunc _ []); eauto.
    by rewrite app_nil_r. }
  destruct Hr as [i Hr]. rewrite Hr. mred. rewrite restore_none by done.
  split; [done|]. split.
  - apply list_eq. intros k. rewrite !list_lookup_fmap, list_lookup_imap. by destruct (nl !! k).
  - apply Forall_forall. intros q (k & Hk)%list_elem_of_lookup. rewrite list_lookup_imap in Hk.
    destruct (nl !! k); [|done]. injection Hk as <-. cbn. auto 10.
Qed.

(** The builder indexes the four-byte numbers by the occurrences of
    [AS_TRANS]. Without enough of them it panics: when the sequence holds
    [AS_TRANS] and no [AS4_PATH] came, and when the AS set holds it after the
    numbers were used up by the sequence, which is what a speaker of this very
    program sends over a two-byte session for an AS set with a large number. *)
Theorem missing_as4_numbers_panic (hash : PathBuilder -> Z) (now : nat -> Z) (b : PathBuilder)
  (H : AS_TRANS ∈ b_as_sequence b /\ b_as4_sequence b = [] \/
       (exists seq, ~ (AS_TRANS ∈ seq) /\ b_as_sequence b = map trunc seq /\
          b_as4_sequence b = List.filter large seq) /\ AS_TRANS ∈ b_as_set b) :
  build hash now b = Panic.
Proof.
  unfold build. destruct H as [[Hin H4]|[(seq & Hn & Hs & H4) Hin]].
  - mred. rewrite restore_panics; [done|done|]. rewrite H4. simpl. lia.
  - mred. rewrite Hs, (restore_trunc _ []), restore_panics; [done|done| |done|by rewrite H4, app_nil_r].
    rewrite H4. lia.
Qed.
End facts.

Section witnesses.
#[local] Existing Instance simple_ipnet.
#[local] Existing Instance debug_profile.

Definition net24 : IpNet := NV4 (exist _ (167772160, 24) I : Net 32).

Definition path_ex : Path := {|
  id := 1; best := false; reason := RNotBest; timestamp := 0; local_id := 1; local_asn := 65000;
  peer_id := 2; peer_addr := AV4 2; peer_asn := 100; family := ipv4_unicast; origin := 0;
  local_pref := 100; med := 0; as_sequence := [100; 4200000000; 7]; as_set := [];
  next_hops := [AV4 2]; propagate_attributes := []; prefix := net24 |}.

Lemma path_survives_advertisement_witness :
  exists l b qs, attributes path_ex false = Ok l /\
    attrs l (builder 3 3 1 (AV4 1) 65000) = Ok b /\
    build (fun _ => 7) (fun _ => 0) (add_nlri [Prefix.from_ipnet net24] b) = Ok qs /\
    prefix <$> qs = Prefix.into_ipnet <$> [Prefix.from_ipnet net24] /\
    Forall (fun q => origin q = origin path_ex /\ as_sequence q = as_sequence path_ex /\
      as_set q = as_set path_ex /\ local_pref q = local_pref path_ex /\ med q = med path_ex /\
      next_hops q = [AV4 2] /\ best q = false) qs.
Proof.
  refine (path_survives_advertisement (fun _ => 7) (fun _ => 0) path_ex false 2 [] 3 3 1 (AV4 1) 65000
    [Prefix.from_ipnet net24] _ _ _ _ _); [simpl; lia|done|..|constructor];
    by apply (bool_decide_unpack _); vm_compute.
Defined.

Lemma missing_as4_numbers_panic_witness :
  build (fun _ => 7) (fun _ => 0)
    (add_as_sequence [100; AS_TRANS] false (builder 1 65000 2 (AV4 2) 100)) = Panic.
Proof.
  apply (missing_as4_numbers_panic (fun _ => 7) (fun _ => 0)). left.
  split; [|done]. by apply (bool_decide_unpack _); vm_compute.
Defined.
End witnesses.
End Path.
