(* ===== verification/BgpRib.v ===== *)
(** * Routing information bases

    [AdjRib] and [LocRib] are the tables of [bgp/src/rib.rs]: the paths received
    from and sent to one peer, and the paths of all peers with the best path
    selection over them. *)

From S2P Require Import Prelude Net BgpFamily BgpPrefix BgpAttribute BgpPath.

(** The order in which a [HashMap] keyed by networks is iterated is not
    specified: any order of its entries. *)
Class NetIter {I : IpNetApi} : Type := {
  net_iter : forall {A}, gmap IpNet A -> list (IpNet * A);
}.

Class NetIterLaws {I : IpNetApi} {NI : NetIter} : Prop := {
  net_iter_perm {A} (m : gmap IpNet A) : net_iter m ≡ₚ map_to_list m;
}.

Definition simple_iter {I : IpNetApi} : NetIter := {| net_iter A m := map_to_list m |}.

Lemma simple_iter_laws {I : IpNetApi} : @NetIterLaws I simple_iter.
Proof. by split. Qed.

(** ** Adjacent RIBs *)

Module AdjRib.
Import BgpError Family Path.

Section defs.
Context {I : IpNetApi} {NI : NetIter}.

Record Table : Type := { inner : gmap IpNet Path; received : Z; dropped : Z }.

Definition table_new : Table := {| inner := ∅; received := 0; dropped := 0 |}.

Definition table_insert (prefix : IpNet) (path : Path) (t : Table) : option Path * Table :=
  (inner t !! prefix,
   {| inner := <[prefix := path]> (inner t); received := received t + 1; dropped := dropped t |}).

Definition table_remove (prefix : IpNet) (t : Table) : option Path * Table :=
  (inner t !! prefix,
   {| inner := delete prefix (inner t); received := received t; dropped := dropped t + 1 |}).

Definition table_get (prefix : IpNet) (t : Table) : option Path := inner t !! prefix.

Definition table_get_all (t : Table) : list Path := map snd (net_iter (inner t)).

Definition table_clear (t : Table) : Table := {| inner := ∅; received := 0; dropped := 0 |}.

Record AdjRib : Type := { table : gmap AddressFamily Table }.

Definition new (families : list AddressFamily) : AdjRib :=
  {| table := foldl (fun t family => <[family := table_new]> t) ∅ families |}.

Definition add_reach (family : AddressFamily) (r : AdjRib) : AdjRib :=
  match table r !! family with
  | Some _ => r
  | None => {| table := <[family := table_new]> (table r) |}
  end.

Definition insert (family : AddressFamily) (prefix : IpNet) (path : Path) :
    M AdjRib RibError (option Path) := fun r =>
  match table r !! family with
  | Some t => let '(o, t') := table_insert prefix path t in
      (Ok o, {| table := <[family := t']> (table r) |})
  | None => (Err AddressFamilyNotSet, r)
  end.

Definition get (family : AddressFamily) (prefix : IpNet) (r : AdjRib) : option Path :=
  match table r !! family with Some t => table_get prefix t | None => None end.

Definition get_all (family : AddressFamily) (r : AdjRib) : option (list Path) :=
  match table r !! family with
  | Some t => if bool_decide (inner t = ∅) then None else Some (table_get_all t)
  | None => None
  end.

Definition prefixes (family : AddressFamily) (r : AdjRib) : option (list IpNet) :=
  (fun t => map fst (net_iter (inner t))) <$> table r !! family.

Definition remove (family : AddressFamily) (prefix : IpNet) (r : AdjRib) : option Path * AdjRib :=
  match table r !! family with
  | Some t => let '(o, t') := table_remove prefix t in
      (o, {| table := <[family := t']> (table r) |})
  | None => (None, r)
  end.

Definition clear (r : AdjRib) : AdjRib := {| table := table_clear <$> table r |}.
End defs.

Section facts.
Context {I : IpNetApi} {NI : NetIter} {NL : NetIterLaws}.

Lemma adj_get_insert r f g n m p t : table r !! f = Some t ->
  get g m (insert f n p r).2 = if decide (f = g /\ n = m) then Some p else get g m r.
Proof.
  intros Ht. unfold insert, get. rewrite Ht. simpl. case_decide as Hd.
  - destruct Hd as [-> ->]. rewrite lookup_insert_eq. unfold table_get. simpl. by rewrite lookup_insert_eq.
  - destruct (decide (f = g)) as [->|Hfg]; [|by rewrite lookup_insert_ne].
    rewrite lookup_insert_eq, Ht. unfold table_get. simpl. rewrite lookup_insert_ne; [done|]. naive_solver.
Qed.

Lemma adj_get_remove r f g n m :
  get g m (remove f n r).2 = if decide (f = g /\ n = m) then None else get g m r.
Proof.
  unfold remove, get. destruct (table r !! f) as [t|] eqn:Ht; simpl; case_decide as Hd.
  - destruct Hd as [-> ->]. rewrite lookup_insert_eq. unfold table_get. simpl. by rewrite lookup_delete_eq.
  - destruct (decide (f = g)) as [->|Hfg]; [|by rewrite lookup_insert_ne].
    rewrite lookup_insert_eq, Ht. unfold table_get. simpl. rewrite lookup_delete_ne; [done|]. naive_solver.
  - destruct Hd as [-> ->]. by rewrite Ht.
  - done.
Qed.

Lemma get_removed r f n : (remove f n r).1 = get f n r.
Proof. unfold remove, get. by destruct (table r !! f). Qed.

Lemma get_clear r g m : get g m (clear r) = None.
Proof. unfold clear, get. simpl. rewrite lookup_fmap. by destruct (table r !! g). Qed.

Lemma get_new fs g m : get g m (new fs) = None.
Proof.
  unfold get, new. simpl. cut (forall t0 : gmap AddressFamily Table,
    (forall f t, t0 !! f = Some t -> inner t = ∅) ->
    match foldl (fun t family => <[family := table_new]> t) t0 fs !! g with
    | Some t => table_get m t | None => None end = None).
  { intros H. apply H. by intros f t. }
  induction fs as [|f fs IH]; intros t0 Ht; simpl.
  - destruct (t0 !! g) as [t|] eqn:Hg; [|done]. unfold table_get. by rewrite (Ht _ _ Hg).
  - apply IH. intros f' t Hf'. destruct (decide (f = f')) as [<-|Hne].
    + rewrite lookup_insert_eq in Hf'. by injection Hf' as <-.
    + rewrite lookup_insert_ne in Hf' by done. by eapply Ht.
Qed.

Lemma get_all_elem r g q :
  q ∈ default [] (get_all g r) <-> exists k, get g k r = Some q.
Proof.
  unfold get_all, get. destruct (table r !! g) as [t|]; [|simpl; rewrite elem_of_nil; naive_solver].
  case_bool_decide as He; simpl.
  - unfold table_get. rewrite He, elem_of_nil. setoid_rewrite lookup_empty. naive_solver.
  - unfold table_get_all, table_get. rewrite list_elem_of_fmap. split.
    + intros ([k x] & -> & Hx). exists k. rewrite net_iter_perm in Hx. by apply elem_of_map_to_list.
    + intros [k Hk]. exists (k, q). split; [done|]. rewrite net_iter_perm. by apply elem_of_map_to_list.
Qed.

(** The RIB of one peer is a map from networks to the last path for them,
    per configured family: a path is found after it is inserted and until it
    is removed or the RIB cleared, other networks and families are untouched,
    an unconfigured family refuses insertion and holds nothing, and
    [get_all] returns exactly the stored paths. *)
Theorem adj_rib_map (r : AdjRib) (f g : AddressFamily) (n m : IpNet) (p : Path) :
  let r1 := (insert f n p r).2 in
  ((insert f n p r).1 = (if bool_decide (is_Some (table r !! f)) then Ok (get f n r)
                         else Err AddressFamilyNotSet)) /\
  (is_Some (table r !! f) -> get g m r1 = if decide (f = g /\ n = m) then Some p else get g m r) /\
  (is_Some (table r !! f) ->
     get g m (remove f n r).2 = (if decide (f = g /\ n = m) then None else get g m r) /\
     (remove f n r).1 = get f n r) /\
  get g m (clear r) = None /\
  (forall l, get_all g r = Some l -> forall q, q ∈ l <-> exists k, get g k r = Some q).
Proof.
  split_and!.
  - unfold insert, get. destruct (table r !! f) eqn:E.
    + by rewrite bool_decide_eq_true_2 by eauto.
    + by rewrite bool_decide_eq_false_2 by (by intros [? ?]).
  - intros [t Ht]. by apply (adj_get_insert r f g n m p t).
  - intros _. split; [apply adj_get_remove|apply get_removed].
  - apply get_clear.
  - intros l Hl q. rewrite <-get_all_elem. by rewrite Hl.
Qed.
End facts.

Section witnesses.
#[local] Existing Instance simple_ipnet.
#[local] Existing Instance simple_iter.
#[local] Existing Instance simple_iter_laws.

Lemma adj_rib_map_witness :
  get ipv4_unicast net24 (insert ipv4_unicast net24 path_ex (new [ipv4_unicast])).2 = Some path_ex.
Proof.
  rewrite (proj1 (proj2 (adj_rib_map (new [ipv4_unicast]) ipv4_unicast ipv4_unicast net24 net24 path_ex)));
    [by rewrite decide_True|]. by apply (bool_decide_unpack _); vm_compute.
Defined.
End witnesses.
End AdjRib.
