(* ===== verification/BgpLocRib.v ===== *)
(** * The local RIB and best path selection

    [LocRib] of [bgp/src/rib.rs]: per address family and network the paths of
    all peers, the best first, with the comparison functions, [insert] and
    [drop] and the status they report to the RIB manager. *)

From S2P Require Import Prelude Net BgpFamily BgpPrefix BgpAttribute BgpPath BgpRib.

Module LocRib.
Import BgpError Family Path.

Section defs.
Context {I : IpNetApi} {NI : NetIter}.

Inductive RibKind : Type := In | Out.

(** [TryFrom<u32> for RibKind] *)
Definition kind_try_from (value : Z) : res Error RibKind :=
  match value with 1 => Ok In | 2 => Ok Out | _ => Err (Rib UnknownRibKind) end.

Inductive LocRibStatus : Type :=
| NotChanged
| Withdrawn (prefix : IpNet) (k : PathKind)
| BestPathChanged (prefix : IpNet) (id : Z)
| MultiPathAdded
| MultiPathWithdrawn (prefix : IpNet) (id : Z) (gateway : option IpAddr)
| AddtionalPathAdded (prefix : IpNet) (id : Z)
| AdditionalPathWithdrawn (prefix : IpNet) (id : Z).

Record LocRib : Type := {
  table : gmap Afi (gmap IpNet (list Path));
  multi_path : bool;
  received : Z;
  dropped : Z;
}.

Definition new (protocols : list Afi) (multi_path : bool) : LocRib :=
  {| table := foldl (fun t protocol => <[protocol := ∅]> t) ∅ protocols;
     multi_path := multi_path; received := 0; dropped := 0 |}.

Definition set_multipath (enable : bool) : M LocRib Error unit :=
  modify (fun r => {| table := table r; multi_path := enable; received := received r; dropped := dropped r |}).

Definition set_protocol (protocol : Afi) : M LocRib Error unit := fun r =>
  match table r !! protocol with
  | Some _ => (Err (Rib ProtocolIsAlreadyRegistered), r)
  | None => (Ok tt, {| table := <[protocol := ∅]> (table r); multi_path := multi_path r;
                       received := received r; dropped := dropped r |})
  end.

Definition get (family : AddressFamily) (prefix : IpNet) (r : LocRib) : option (list Path) :=
  match table r !! afi family with Some t => t !! prefix | None => None end.

Definition get_by_id (family : AddressFamily) (prefix : IpNet) (i : Z) (r : LocRib) : option Path :=
  match get family prefix r with
  | Some paths => List.find (fun p => id p =? i) paths
  | None => None
  end.

Definition get_best_path (family : AddressFamily) (prefix : IpNet) (r : LocRib) : option (list Path) :=
  List.filter best <$> get family prefix r.

Definition get_all_best (family : AddressFamily) (r : LocRib) : option (list Path) :=
  match table r !! afi family with
  | Some t =>
      let best_paths := flat_map (fun '(_, paths) => match paths with [] => [] | p :: _ => [p] end)
        (net_iter t) in
      match best_paths with [] => None | _ :: _ => Some best_paths end
  | None => None
  end.

Definition get_all (family : AddressFamily) (r : LocRib) : option (list Path) :=
  match table r !! afi family with
  | Some t => Some (flat_map snd (net_iter t))
  | None => None
  end.

(** ** Comparison functions: [Lt] means that [a] is preferred to [b] *)

Definition compare_weight (a b : Path) : comparison := Eq.

Definition compare_local_pref (a b : Path) : comparison := Z.compare (local_pref b) (local_pref a).

Definition compare_local_originated (a b : Path) : comparison :=
  let a_l := is_local_originated a in
  let b_l := is_local_originated b in
  if eqb a_l b_l then Eq else if a_l then Lt else Gt.

Definition compare_as_path (a b : Path) : comparison :=
  let a_len := match as_sequence a with [] => 0%nat | _ => length (as_sequence a) end in
  let b_len := match as_sequence b with [] => 0%nat | _ => length (as_sequence b) end in
  Nat.compare a_len b_len.

Definition compare_origin (a b : Path) : comparison := Z.compare (origin a) (origin b).

Definition compare_med (a b : Path) : comparison := Z.compare (med a) (med b).

Definition compare_external (a b : Path) : comparison :=
  let a_ibgp := bool_decide (local_asn a = peer_asn a) in
  let b_ibgp := bool_decide (local_asn b = peer_asn b) in
  if eqb a_ibgp b_ibgp then Eq else if negb a_ibgp then Lt else Gt.

Definition compare_older_route (a b : Path) : comparison :=
  let a_ebgp := negb (bool_decide (local_asn a = peer_asn a)) in
  let b_ebgp := negb (bool_decide (local_asn b = peer_asn b)) in
  if eqb a_ebgp b_ebgp then Z.compare (timestamp a) (timestamp b) else Eq.

Definition compare_peer_router_id (a b : Path) : comparison := Z.compare (peer_id a) (peer_id b).

Definition compare_peer_addr (a b : Path) : comparison := addr_cmp (peer_addr a) (peer_addr b).

Definition get_comparison_funcs (multi : bool) : list (BestPathReason * (Path -> Path -> comparison)) :=
  let funcs := [(RWeight, compare_weight); (RLocalPref, compare_local_pref);
    (RLocalOriginated, compare_local_originated); (RASPath, compare_as_path);
    (ROrigin, compare_origin); (RMultiExitDisc, compare_med); (RExternal, compare_external)] in
  if multi then funcs
  else funcs ++ [(ROlderRoute, compare_older_route); (RRouterId, compare_peer_router_id);
                 (RPeerAddr, compare_peer_addr)].

(** The first function that prefers [a]: [for (r, f) in funcs { if f(a, b) == Less { ...; break } }] *)
Fixpoint preferred (funcs : list (BestPathReason * (Path -> Path -> comparison))) (a b : Path) :
    option BestPathReason :=
  match funcs with
  | [] => None
  | (r, f) :: funcs' =>
      match f a b with Lt => Some r | _ => preferred funcs' a b end
  end.

(** The selection loop: where the new path goes, and why. *)
Fixpoint select (funcs : list (BestPathReason * (Path -> Path -> comparison))) (path : Path)
    (paths : list Path) (idx : nat) : nat * BestPathReason :=
  match paths with
  | [] => (idx, RNotBest)
  | p :: paths' =>
      match preferred funcs path p with
      | Some r => (idx, r)
      | None => select funcs path paths' (S idx)
      end
  end.

(** [Iterator::rposition] and [Iterator::position] *)
Fixpoint position (f : Path -> bool) (l : list Path) : option nat :=
  match l with
  | [] => None
  | p :: l' => if f p then Some 0%nat else S <$> position f l'
  end.

Fixpoint rposition (f : Path -> bool) (l : list Path) : option nat :=
  match l with
  | [] => None
  | p :: l' =>
      match rposition f l' with
      | Some i => Some (S i)
      | None => if f p then Some 0%nat else None
      end
  end.

(** [Vec::insert] *)
Definition vec_insert (i : nat) (p : Path) (l : list Path) : list Path := take i l ++ p :: drop i l.

Definition unmark (p : Path) : Path := if best p then with_best false RNotBest p else p.

(** [for p in paths { if p.eq(&path) { p.timestamp = path.timestamp } }] *)
Definition touch (path p : Path) : Path :=
  if path_eq p path then with_timestamp (timestamp path) p else p.

(** [insert] on the paths of one network: the status, the path as the caller
    sees it afterwards, and the new list. *)
Definition insert_into (multi : bool) (path : Path) (paths0 : list Path) :
    res Error (LocRibStatus * Path * list Path) :=
  match paths0 with
  | [] =>
      let path := with_best true ROnlyPath path in
      Ok (BestPathChanged (prefix path) (id path), path, [path])
  | _ :: _ =>
      match rposition best paths0 with
      | None => Err (Rib PathNotFound)
      | Some best_idx =>
          let paths := map (touch path) paths0 in
          let '(idx, r) := select (get_comparison_funcs multi) path paths 0 in
          if multi then
            if (idx <=? best_idx)%nat then
              let path := with_best true r path in
              Ok (BestPathChanged (prefix path) (id path), path, vec_insert idx path (map unmark paths))
            else if (best_idx + 1 =? idx)%nat then
              b ← vec_get paths (Z.of_nat best_idx);
              if is_equal_cost path b then
                let path := with_best true REqualCostMiltiPath path in
                let b' := if bool_decide (reason b <> REqualCostMiltiPath)
                  then with_best (best b) REqualCostMiltiPath b else b in
                Ok (MultiPathAdded, path, vec_insert idx path (<[best_idx := b']> paths))
              else Ok (NotChanged, path, vec_insert idx path paths)
            else Ok (NotChanged, path, vec_insert idx path paths)
          else if (idx =? 0)%nat then
            let path := with_best true r path in
            p0 ← vec_get paths 0;
            Ok (BestPathChanged (prefix path) (id path), path,
                vec_insert idx path (<[0%nat := with_best false RNotBest p0]> paths))
          else Ok (NotChanged, path, vec_insert idx path paths)
      end
  end.

Definition set_paths (f : Afi) (prefix : IpNet) (paths : list Path) (r : LocRib) : LocRib :=
  {| table := <[f := <[prefix := paths]> (default ∅ (table r !! f))]> (table r);
     multi_path := multi_path r; received := received r; dropped := dropped r |}.

Definition insert (family : AddressFamily) (path : Path) : M LocRib Error (LocRibStatus * Path) :=
  r ← get_st;
  match table r !! afi family with
  | None => throw (Rib InvalidAddressFamily)
  | Some t =>
      modify (fun r => {| table := table r; multi_path := multi_path r;
                          received := received r + 1; dropped := dropped r |}) ;;
      match t !! prefix path with
      | Some paths =>
          '(status, path', paths') ← lift (insert_into (multi_path r) path paths);
          modify (set_paths (afi family) (prefix path) paths') ;;
          mret (status, path')
      | None =>
          let path' := with_best true ROnlyPath path in
          modify (set_paths (afi family) (prefix path) [path']) ;;
          mret (BestPathChanged (prefix path) (id path'), path')
      end
  end.

(** Marking equal-cost paths from the first on. *)
Fixpoint mark_equal (p : Path) (rest : list Path) : list Path :=
  match rest with
  | [] => [p]
  | q :: rest' =>
      if is_equal_cost p q
      then with_best (best p) REqualCostMiltiPath p :: mark_equal (with_best true REqualCostMiltiPath q) rest'
      else p :: q :: rest'
  end.

(** What [drop] does once a path has been taken out at [idx]. *)
Definition after_removal (multi : bool) (pfx : IpNet) (idx : nat) (removed : Path) (paths : list Path) :
    LocRibStatus * list Path :=
  if best removed then
    match paths with
    | [] => (Withdrawn pfx (kind removed), [])
    | [p] => (BestPathChanged pfx (id p), [with_best true ROnlyPath p])
    | p0 :: p1 :: rest =>
        let why p := match preferred (get_comparison_funcs multi) p p1 with
                     | Some r => with_best (best p) r p
                     | None => p
                     end in
        if multi then
          let next_hop := head (next_hops removed) in
          if (idx =? 0)%nat then
            if best p0 then (MultiPathWithdrawn pfx (id p0) next_hop, paths)
            else
              let p0' := why p0 in
              let p0'' := with_best true (reason p0') p0' in
              let paths' :=
                if bool_decide (reason p0'' = RNotBest) || bool_decide (reason p0'' = REqualCostMiltiPath)
                then mark_equal p0'' (p1 :: rest) else p0'' :: p1 :: rest in
              (BestPathChanged pfx (id p0), paths')
          else (MultiPathWithdrawn pfx (id p0) next_hop, paths)
        else
          let p0' := why (with_best true (reason p0) p0) in
          (BestPathChanged pfx (id p0), p0' :: p1 :: rest)
    end
  else (NotChanged, paths).

Definition drop (family : AddressFamily) (pfx : IpNet) (i : Z) : M LocRib Error LocRibStatus :=
  r ← get_st;
  match table r !! afi family with
  | None => throw (Rib InvalidAddressFamily)
  | Some t =>
      match t !! pfx with
      | Some paths =>
          match paths with
          | [] => throw (Rib PathNotFound)
          | _ :: _ =>
              modify (fun r => {| table := table r; multi_path := multi_path r;
                                  received := received r; dropped := dropped r + 1 |}) ;;
              match position (fun p => id p =? i) paths with
              | Some idx =>
                  removed ← lift (vec_get paths (Z.of_nat idx));
                  let '(status, paths') :=
                    after_removal (multi_path r) pfx idx removed (delete idx paths) in
                  modify (set_paths (afi family) pfx paths') ;;
                  mret status
              | None => throw (Rib PathNotFound)
              end
          end
      | None => throw (Rib PathNotFound)
      end
  end.

(** ** Specification *)

(** Without multipath, the first path of a network and only it is marked. *)
Definition marked (l : list Path) : Prop :=
  match l with
  | [] => True
  | p :: l' => best p = true /\ Forall (fun q => best q = false) l'
  end.

Definition rib_ok (r : LocRib) : Prop :=
  multi_path r = false /\
  forall f t n l, table r !! f = Some t -> t !! n = Some l -> marked l /\ Forall (fun p => prefix p = n) l.

(** A path without what the RIB notes on it: the marks and the timestamp. *)
Definition route (p : Path) : Path := with_timestamp 0 (with_best false RNotBest p).

(** The best path of a network: the first. *)
Definition best_of (family : AddressFamily) (n : IpNet) (r : LocRib) : option Path :=
  get family n r ≫= head.

(** The states a [LocRib] without multipath goes through. *)
Inductive reachable : LocRib -> Prop :=
| reach_new protocols : reachable (new protocols false)
| reach_insert r family path s r' : reachable r -> best path = false ->
    insert family path r = (s, r') -> reachable r'
| reach_drop r family n i s r' : reachable r -> drop family n i r = (s, r') -> reachable r'
| reach_protocol r f s r' : reachable r -> set_protocol f r = (s, r') -> reachable r'.
End defs.

#[global] Arguments preferred : simpl never.
#[global] Arguments get_comparison_funcs : simpl never.

Section facts.
Context {I : IpNetApi} {NI : NetIter}.

(** *** Lists of paths *)

Lemma touch_best path p : best (touch path p) = best p.
Proof. unfold touch. by destruct (path_eq p path). Qed.

Lemma touch_id path p : id (touch path p) = id p.
Proof. unfold touch. by destruct (path_eq p path). Qed.

Lemma touch_prefix path p : prefix (touch path p) = prefix p.
Proof. unfold touch. by destruct (path_eq p path). Qed.

Lemma route_with_best b rs p : route (with_best b rs p) = route p.
Proof. done. Qed.

Lemma route_with_timestamp t p : route (with_timestamp t p) = route p.
Proof. done. Qed.

Lemma route_touch path p : route (touch path p) = route p.
Proof. unfold touch. by destruct (path_eq p path). Qed.

Lemma route_id p q : route p = route q -> id p = id q.
Proof. intros H. by apply (f_equal id) in H. Qed.

Lemma touch_local_pref path p : local_pref (touch path p) = local_pref p.
Proof. unfold touch. by destruct (path_eq p path). Qed.

Lemma touch_as_sequence path p : as_sequence (touch path p) = as_sequence p.
Proof. unfold touch. by destruct (path_eq p path). Qed.

Lemma touch_local_originated path p : is_local_originated (touch path p) = is_local_originated p.
Proof. unfold touch. by destruct (path_eq p path). Qed.

Lemma compare_as_path_length a b :
  compare_as_path a b = Nat.compare (length (as_sequence a)) (length (as_sequence b)).
Proof. unfold compare_as_path. by destruct (as_sequence a), (as_sequence b). Qed.

Lemma rposition_none l : Forall (fun q => best q = false) l -> rposition best l = None.
Proof. induction 1 as [|q l Hq Hl IH]; simpl; [done|]. by rewrite IH, Hq. Qed.

Lemma marked_rposition p l : marked (p :: l) -> rposition best (p :: l) = Some 0%nat.
Proof. intros [Hp Hl]. simpl. by rewrite rposition_none, Hp. Qed.

(** The selection loop stops at the first path the new one is preferred to. *)
Lemma select_bounds funcs path l k : (k <= (select funcs path l k).1 <= k + length l)%nat.
Proof.
  revert k. induction l as [|p l IH]; intros k; simpl; [lia|].
  destruct (preferred funcs path p); simpl; [lia|]. specialize (IH (S k)). lia.
Qed.

Lemma select_head funcs path p l :
  select funcs path (p :: l) 0 =
  match preferred funcs path p with
  | Some r => (0%nat, r)
  | None => select funcs path l 1
  end.
Proof. done. Qed.

Lemma Forall_vec_insert (Q : Path -> Prop) i p l : Q p -> Forall Q l -> Forall Q (vec_insert i p l).
Proof.
  intros Hp Hl. unfold vec_insert. apply Forall_app. split; [by apply Forall_take|].
  constructor; [done|]. by apply Forall_drop.
Qed.

Lemma vec_insert_perm i p l : vec_insert i p l ≡ₚ p :: l.
Proof. unfold vec_insert. rewrite <-Permutation_middle, take_drop. done. Qed.

Lemma ids_touch path l : id <$> map (touch path) l = id <$> l.
Proof. induction l as [|p l IH]; csimpl; [done|]. by rewrite touch_id, IH. Qed.

(** The new list of [insert_into] without multipath. *)
Lemma insert_into_single path l : marked l -> best path = false ->
  exists st path' l', insert_into false path l = Ok (st, path', l') /\ marked l' /\
    (id <$> l' ≡ₚ id path :: (id <$> l)) /\ route path' = route path /\
    match l with
    | p :: _ =>
        match preferred (get_comparison_funcs false) path (touch path p) with
        | Some r => st = BestPathChanged (prefix path) (id path) /\ head l' = Some path' /\ reason path' = r
        | None => st = NotChanged /\ head l' = Some (touch path p)
        end
    | [] => st = BestPathChanged (prefix path) (id path) /\ head l' = Some path' /\ reason path' = ROnlyPath
    end.
Proof.
  intros Hm Hb. destruct l as [|p l].
  { eexists _, _, _. split; [reflexivity|]. split_and!; done. }
  unfold insert_into. rewrite (marked_rposition _ _ Hm). destruct Hm as [Hp Hl].
  cbn [map]. rewrite select_head.
  destruct (preferred (get_comparison_funcs false) path (touch path p)) as [r|] eqn:Er.
  - eexists _, _, _. split; [reflexivity|]. split_and!; try done.
    + cbn. split; [done|]. constructor; [done|]. apply Forall_map. eapply Forall_impl; [exact Hl|].
      intros q Hq. cbn. by rewrite touch_best.
    + cbn. rewrite touch_id. fold (fmap (M:=list) id (map (touch path) l)). by rewrite ids_touch.
  - pose proof (select_bounds (get_comparison_funcs false) path (map (touch path) l) 1) as Hs.
    destruct (select (get_comparison_funcs false) path (map (touch path) l) 1) as [idx r] eqn:Es.
    simpl in Hs. destruct idx as [|idx]; [lia|].
    eexists _, _, _. split; [reflexivity|]. split_and!; try done.
    + cbn. split; [by rewrite touch_best|]. apply Forall_vec_insert; [done|].
      apply Forall_map. eapply Forall_impl; [exact Hl|]. intros q Hq. cbn. by rewrite touch_best.
    + rewrite vec_insert_perm. csimpl. rewrite touch_id. by rewrite ids_touch.
Qed.

(** What holds of a path whatever the RIB notes on it stays true in [insert_into]. *)
Definition stable (Q : Path -> Prop) : Prop := forall p q, route p = route q -> Q p -> Q q.

Lemma stable_prefix n : stable (fun p => prefix p = n).
Proof. intros p q H Hp. apply (f_equal prefix) in H. simpl in H. congruence. Qed.

Lemma Forall_notes (Q : Path -> Prop) g l : stable Q -> (forall p, route (g p) = route p) ->
  Forall Q l -> Forall Q (map g l).
Proof.
  intros HQ Hg Hl. apply Forall_map. eapply Forall_impl; [exact Hl|]. intros p Hp.
  by apply (HQ p).
Qed.

Lemma insert_into_Forall (Q : Path -> Prop) multi path l st path' l' : stable Q ->
  insert_into multi path l = Ok (st, path', l') -> Q path -> Forall Q l -> Forall Q l'.
Proof.
  intros HQ Hi Hp Hl.
  assert (Hm : forall b rs, Q (with_best b rs path)) by (intros; by apply (HQ path)).
  assert (Ht : Forall Q (map (touch path) l)) by (apply Forall_notes; [done|apply route_touch|done]).
  destruct l as [|p l].
  { injection Hi as <- <- <-. by constructor. }
  unfold insert_into in Hi. destruct (rposition best (p :: l)) as [k|]; [|done].
  set (paths := map (touch path) (p :: l)) in *. clearbody paths.
  destruct (select _ path paths 0) as [idx r]. destruct multi.
  - destruct (idx <=? k)%nat.
    { injection Hi as <- <- <-. apply Forall_vec_insert; [done|]. apply Forall_notes; [done| |done].
      intros q. unfold unmark. by destruct (best q). }
    destruct (k + 1 =? idx)%nat.
    2:{ injection Hi as <- <- <-. by apply Forall_vec_insert. }
    unfold vec_get in Hi. rewrite Nat2Z.id in Hi. mred in Hi. destruct (paths !! k) as [b|] eqn:Ek; [|done].
    destruct (is_equal_cost path b); [|injection Hi as <- <- <-; by apply Forall_vec_insert].
    injection Hi as <- <- <-. apply Forall_vec_insert; [done|]. apply Forall_insert; [done|].
    rewrite Forall_lookup in Ht. apply (HQ b); [by destruct (bool_decide _)|by eapply Ht].
  - destruct (idx =? 0)%nat; [|injection Hi as <- <- <-; by apply Forall_vec_insert].
    unfold vec_get in Hi. mred in Hi. destruct (paths !! Z.to_nat 0) as [b|] eqn:Ek; [|done].
    injection Hi as <- <- <-. apply Forall_vec_insert; [done|]. apply Forall_insert; [done|].
    rewrite Forall_lookup in Ht. apply (HQ b); [done|by eapply Ht].
Qed.

Lemma position_some g l idx : position g l = Some idx ->
  exists p, l !! idx = Some p /\ g p = true /\ forall k q, (k < idx)%nat -> l !! k = Some q -> g q = false.
Proof.
  revert idx. induction l as [|p l IH]; intros idx Hp; [done|]. simpl in Hp.
  destruct (g p) eqn:Eg.
  - injection Hp as <-. exists p. split_and!; [done..|lia].
  - destruct (position g l) as [k|]; [|done]. injection Hp as <-.
    destruct (IH k eq_refl) as (q & Hq & Hg & Hlt). exists q. split_and!; [done..|].
    intros [|j] q' Hj Hq'; simpl in Hq'; [congruence|]. eapply Hlt; [|exact Hq']. lia.
Qed.

Lemma position_none g l : position g l = None <-> Forall (fun p => g p = false) l.
Proof.
  induction l as [|p l IH]; simpl; [done|]. rewrite Forall_cons_iff. destruct (g p).
  - naive_solver.
  - destruct (position g l); simpl; naive_solver.
Qed.

(** Removing a path keeps the first path and only it marked. *)
Lemma after_removal_marked n idx removed l : marked l -> l !! idx = Some removed ->
  marked (after_removal false n idx removed (delete idx l)).2.
Proof.
  intros Hm Hi. destruct l as [|p l]; [done|]. destruct Hm as [Hp Hl]. destruct idx as [|idx].
  - injection Hi as ->. unfold after_removal. rewrite Hp. cbn [delete list_delete].
    destruct l as [|q [|q' l]]; [done|done|]. apply Forall_cons_iff in Hl as [Hq Hl].
    cbn. by destruct (preferred _ _ _).
  - cbn [lookup list_lookup] in Hi. pose proof Hl as Hl'. rewrite Forall_lookup in Hl'.
    unfold after_removal. rewrite (Hl' _ _ Hi). cbn. split; [done|]. by apply Forall_delete.
Qed.

Lemma after_removal_ids multi n idx removed l :
  id <$> (after_removal multi n idx removed l).2 = id <$> l.
Proof.
  assert (Hmark : forall rest p, id <$> mark_equal p rest = id p :: (id <$> rest)).
  { induction rest as [|q rest IH]; intros p; [done|]. cbn [mark_equal].
    destruct (is_equal_cost p q); csimpl; [|done]. by rewrite IH. }
  unfold after_removal. destruct (best removed); [|done].
  destruct l as [|p0 [|p1 rest]]; [done..|]. destruct multi.
  - destruct (idx =? 0)%nat; [|done]. destruct (best p0); [done|].
    destruct (preferred _ _ _); cbn -[mark_equal]; destruct (bool_decide _ || bool_decide _);
      rewrite ?Hmark; done.
  - simpl. by destruct (preferred _ _ _).
Qed.

Lemma after_removal_Forall (Q : Path -> Prop) multi n idx removed l : stable Q -> Forall Q l ->
  Forall Q (after_removal multi n idx removed l).2.
Proof.
  intros HQ.
  assert (Hw : forall b rs p, Q p -> Q (with_best b rs p)) by (intros b rs p; by apply HQ).
  assert (Hmark : forall rest p, Q p -> Forall Q rest -> Forall Q (mark_equal p rest)).
  { induction rest as [|q rest IH]; intros p Hp Hr; cbn [mark_equal]; [by constructor|].
    apply Forall_cons_iff in Hr as [Hq Hr].
    destruct (is_equal_cost p q); [|by repeat constructor]. constructor; [by apply Hw|].
    apply IH; [by apply Hw|done]. }
  intros Hl. unfold after_removal. destruct (best removed); [|done].
  destruct l as [|p0 [|p1 rest]]; [done|apply Forall_cons_iff in Hl as [H0 _]; repeat constructor; by apply Hw|].
  pose proof Hl as Hl'. apply Forall_cons_iff in Hl as [H0 Hl].
  destruct multi; [destruct (idx =? 0)%nat; [destruct (best p0)|]|]; try done.
  - destruct (preferred _ _ _); cbn -[mark_equal with_best]; destruct (bool_decide _ || bool_decide _);
      [apply Hmark|constructor|apply Hmark|constructor]; auto.
  - cbn -[with_best]. destruct (preferred _ _ _); constructor; auto.
Qed.

(** *** The RIB *)

Definition count_received (r : LocRib) : LocRib :=
  {| table := table r; multi_path := multi_path r; received := received r + 1; dropped := dropped r |}.

Definition count_dropped (r : LocRib) : LocRib :=
  {| table := table r; multi_path := multi_path r; received := received r; dropped := dropped r + 1 |}.

Lemma insert_eq family path r t : table r !! afi family = Some t ->
  insert family path r =
  match t !! prefix path with
  | Some paths =>
      match insert_into (multi_path r) path paths with
      | Ok (st, path', l') => (Ok (st, path'), set_paths (afi family) (prefix path) l' (count_received r))
      | Err e => (Err e, count_received r)
      | Panic => (Panic, count_received r)
      end
  | None =>
      let path' := with_best true ROnlyPath path in
      (Ok (BestPathChanged (prefix path) (id path), path'),
       set_paths (afi family) (prefix path) [path'] (count_received r))
  end.
Proof.
  intros Ht. unfold insert. mred. rewrite Ht. destruct (t !! prefix path) as [paths|]; [|done].
  by destruct (insert_into _ _ _) as [[[? ?] ?]|?|].
Qed.

Lemma drop_eq family n i r t l : table r !! afi family = Some t -> t !! n = Some l -> l <> [] ->
  drop family n i r =
  match position (fun p => id p =? i) l with
  | Some idx =>
      match l !! idx with
      | Some removed =>
          let a := after_removal (multi_path r) n idx removed (delete idx l) in
          (Ok a.1, set_paths (afi family) n a.2 (count_dropped r))
      | None => (Panic, count_dropped r)
      end
  | None => (Err (Rib PathNotFound), count_dropped r)
  end.
Proof.
  intros Ht Hl Hne. unfold drop. mred. rewrite Ht, Hl. destruct l as [|p l]; [done|].
  set (l0 := p :: l) in *. destruct (position _ l0) as [idx|]; [|done].
  unfold vec_get. rewrite Nat2Z.id. destruct (l0 !! idx) as [removed|]; [|done].
  by destruct (after_removal _ _ _ _ _).
Qed.

Lemma get_set_paths family n l r t : table r !! afi family = Some t ->
  get family n (set_paths (afi family) n l r) = Some l.
Proof. intros Ht. unfold get, set_paths. simpl. rewrite lookup_insert_eq, Ht. simpl. by rewrite lookup_insert_eq. Qed.

Lemma rib_ok_set r f n l t : rib_ok r -> table r !! f = Some t -> marked l ->
  Forall (fun p => prefix p = n) l -> rib_ok (set_paths f n l r).
Proof.
  intros [Hmp Hr] Ht Hm Hp. split; [done|]. intros g t' m l' Hg Hl'.
  unfold set_paths in Hg. simpl in Hg. destruct (decide (f = g)) as [<-|Hne].
  - rewrite lookup_insert_eq, Ht in Hg. injection Hg as <-. simpl in Hl'.
    destruct (decide (n = m)) as [<-|Hnm].
    + rewrite lookup_insert_eq in Hl'. by injection Hl' as <-.
    + rewrite lookup_insert_ne in Hl' by done. by eapply Hr.
  - rewrite lookup_insert_ne in Hg by done. by eapply Hr.
Qed.

Lemma rib_ok_insert r family path s r' : rib_ok r -> best path = false ->
  insert family path r = (s, r') -> rib_ok r'.
Proof.
  intros Hr Hb Hi. destruct (table r !! afi family) as [t|] eqn:Ht.
  2:{ unfold insert in Hi. mred in Hi. rewrite Ht in Hi. by injection Hi as <- <-. }
  rewrite (insert_eq _ _ _ _ Ht) in Hi.
  assert (Hc : rib_ok (count_received r)) by exact Hr.
  destruct (t !! prefix path) as [paths|] eqn:Hp.
  - destruct Hr as [Hmp Hr]. destruct (Hr _ _ _ _ Ht Hp) as [Hm Hpf]. rewrite Hmp in Hi.
    destruct (insert_into_single path paths Hm Hb) as (st & path' & l' & Hii & Hm' & _).
    rewrite Hii in Hi. injection Hi as <- <-. eapply rib_ok_set; [done|exact Ht|done|].
    eapply insert_into_Forall; [apply stable_prefix|exact Hii|done|done].
  - injection Hi as <- <-. eapply rib_ok_set; [done|exact Ht|done|by constructor].
Qed.

Lemma rib_ok_drop r family n i s r' : rib_ok r -> drop family n i r = (s, r') -> rib_ok r'.
Proof.
  intros Hr Hd. destruct (table r !! afi family) as [t|] eqn:Ht.
  2:{ unfold drop in Hd. mred in Hd. rewrite Ht in Hd. by injection Hd as <- <-. }
  destruct (t !! n) as [l|] eqn:Hl.
  2:{ unfold drop in Hd. mred in Hd. rewrite Ht, Hl in Hd. by injection Hd as <- <-. }
  destruct (decide (l = [])) as [->|Hne].
  { unfold drop in Hd. mred in Hd. rewrite Ht, Hl in Hd. by injection Hd as <- <-. }
  rewrite (drop_eq _ _ _ _ _ _ Ht Hl Hne) in Hd.
  assert (Hc : rib_ok (count_dropped r)) by exact Hr.
  destruct (position _ l) as [idx|] eqn:Hp; [|by injection Hd as <- <-].
  destruct (l !! idx) as [removed|] eqn:Hi; [|by injection Hd as <- <-].
  destruct Hr as [Hmp Hr]. destruct (Hr _ _ _ _ Ht Hl) as [Hm Hpf]. rewrite Hmp in Hd.
  cbv zeta in Hd. injection Hd as <- <-. eapply rib_ok_set; [done|exact Ht| |].
  - by apply after_removal_marked.
  - by apply after_removal_Forall; [apply stable_prefix|apply Forall_delete].
Qed.

Lemma new_table_empty protocols multi f t : table (new protocols multi) !! f = Some t -> t = ∅.
Proof.
  unfold new. simpl. cut (forall m : gmap Afi (gmap IpNet (list Path)),
    (forall g t, m !! g = Some t -> t = ∅) ->
    foldl (fun t protocol => <[protocol := ∅]> t) m protocols !! f = Some t -> t = ∅).
  { intros H. by apply H. }
  induction protocols as [|q qs IH]; intros m Hm; simpl; [by apply Hm|].
  apply IH. intros g t' Hg. destruct (decide (q = g)) as [<-|Hne].
  - rewrite lookup_insert_eq in Hg. by injection Hg as <-.
  - rewrite lookup_insert_ne in Hg by done. by eapply Hm.
Qed.

Lemma reachable_ok r : reachable r -> rib_ok r.
Proof.
  induction 1 as [protocols|r family path s r' _ IH Hb Hi|r family n i s r' _ IH Hd|r f s r' _ IH Hp].
  - split; [done|]. intros f t n l Ht Hl. apply new_table_empty in Ht as ->. by rewrite lookup_empty in Hl.
  - by eapply rib_ok_insert.
  - by eapply rib_ok_drop.
  - unfold set_protocol in Hp. destruct (table r !! f) as [t|] eqn:Ht; injection Hp as <- <-; [done|].
    destruct IH as [Hmp Hr]. split; [done|]. intros g t n l Hg Hl. simpl in Hg.
    destruct (decide (f = g)) as [<-|Hne].
    + rewrite lookup_insert_eq in Hg. injection Hg as <-. by rewrite lookup_empty in Hl.
    + rewrite lookup_insert_ne in Hg by done. by eapply Hr.
Qed.

Lemma marked_filter p l : marked (p :: l) -> List.filter best (p :: l) = [p].
Proof.
  intros [Hp Hl]. simpl. rewrite Hp. f_equal. induction Hl as [|q l Hq Hl IH]; simpl; [done|]. by rewrite Hq.
Qed.

Lemma get_ok r family n l : rib_ok r -> get family n r = Some l -> marked l /\ Forall (fun p => prefix p = n) l.
Proof.
  intros [_ Hr] Hg. unfold get in Hg. destruct (table r !! afi family) as [t|] eqn:Ht; [|done].
  by eapply Hr.
Qed.

Lemma get_set_paths_ne f n m l r family : f <> afi family \/ n <> m ->
  get family m (set_paths f n l r) = get family m r.
Proof.
  intros Hne. unfold get, set_paths. simpl. destruct (decide (f = afi family)) as [->|Hf].
  - rewrite lookup_insert_eq. destruct Hne as [?|Hne]; [done|].
    destruct (table r !! afi family) as [t|]; simpl; by rewrite lookup_insert_ne.
  - by rewrite lookup_insert_ne.
Qed.

(** What one successful [insert] and one successful [drop] do to the best paths. *)
Lemma insert_step r family path st path' r' : rib_ok r -> best path = false ->
  insert family path r = (Ok (st, path'), r') ->
  rib_ok r' /\ route path' = route path /\
  (forall g m, afi g <> afi family \/ m <> prefix path -> get g m r' = get g m r) /\
  (forall Q, stable Q -> Q path -> (forall l, get family (prefix path) r = Some l -> Forall Q l) ->
     forall l', get family (prefix path) r' = Some l' -> Forall Q l') /\
  ((st = BestPathChanged (prefix path) (id path) /\ best_of family (prefix path) r' = Some path') \/
   (st = NotChanged /\ exists p, best_of family (prefix path) r = Some p /\
      best_of family (prefix path) r' = Some (touch path p))).
Proof.
  intros Hok Hb Hi. pose proof (rib_ok_insert _ _ _ _ _ Hok Hb Hi) as Hok'.
  split; [done|]. destruct (table r !! afi family) as [t|] eqn:Ht.
  2:{ unfold insert in Hi. mred in Hi. by rewrite Ht in Hi. }
  rewrite (insert_eq _ _ _ _ Ht) in Hi. unfold best_of.
  assert (Hg : get family (prefix path) r = t !! prefix path) by (unfold get; by rewrite Ht).
  rewrite !Hg. clear Hg.
  destruct (t !! prefix path) as [l|] eqn:Hl.
  - destruct Hok as [Hmp Hok]. destruct (Hok _ _ _ _ Ht Hl) as [Hm _]. rewrite Hmp in Hi.
    destruct (insert_into_single path l Hm Hb) as (st0 & p0 & l0 & Hii & _ & _ & Hr & Hst).
    rewrite Hii in Hi. injection Hi as <- <- <-. split; [done|].
    split; [intros g m Hne; refine (get_set_paths_ne _ _ _ _ (count_received r) _ _); destruct Hne; [left|right]; congruence|].
    rewrite !(get_set_paths _ _ _ _ t) by done. split.
    + intros Q HQ Hp HF l' [= <-]. by eapply insert_into_Forall, HF.
    + cbn [mbind option_bind head]. destruct l as [|p l]; [left; by destruct Hst as (-> & -> & _)|].
      destruct (preferred _ _ _); [left; by destruct Hst as (-> & -> & _)|].
      right. destruct Hst as [-> ->]. split; [done|]. by exists p.
  - injection Hi as <- <- <-. split; [done|].
    split; [intros g m Hne; refine (get_set_paths_ne _ _ _ _ (count_received r) _ _); destruct Hne; [left|right]; congruence|].
    rewrite !(get_set_paths _ _ _ _ t) by done. split; [|by left].
    intros Q HQ Hp _ l' [= <-]. constructor; [|done]. by apply (HQ path).
Qed.

Lemma drop_step r family n i st r' : rib_ok r -> drop family n i r = (Ok st, r') ->
  rib_ok r' /\ best_of family n r <> None /\
  (forall g m, afi g <> afi family \/ m <> n -> get g m r' = get g m r) /\
  (forall Q, stable Q -> (forall l, get family n r = Some l -> Forall Q l) ->
     forall l', get family n r' = Some l' -> Forall Q l') /\
  ((exists k, st = Withdrawn n k /\ best_of family n r' = None) \/
   (exists p, st = BestPathChanged n (id p) /\ best_of family n r' = Some p) \/
   (st = NotChanged /\ best_of family n r' = best_of family n r)).
Proof.
  intros Hok Hd. pose proof (rib_ok_drop _ _ _ _ _ _ Hok Hd) as Hok'. split; [done|].
  unfold best_of. unfold drop in Hd. mred in Hd.
  destruct (table r !! afi family) as [t|] eqn:Ht; [|done].
  assert (Hg : get family n r = t !! n) by (unfold get; by rewrite Ht). rewrite !Hg. clear Hg.
  destruct (t !! n) as [l|] eqn:Hl; [|done]. destruct (decide (l = [])) as [->|Hne]; [done|].
  pose proof (drop_eq family n i r t l Ht Hl Hne) as Heq. unfold drop in Heq. mred in Heq.
  rewrite Ht, Hl in Heq. rewrite Heq in Hd. clear Heq.
  destruct (position _ l) as [k|] eqn:Hp; [|done]. destruct (l !! k) as [removed|] eqn:Hk; [|done].
  cbv zeta in Hd. destruct Hok as [Hmp Hok]. rewrite Hmp in Hd. injection Hd as <- <-.
  split; [by destruct l|]. split; [intros g m Hgm; refine (get_set_paths_ne _ _ _ _ (count_dropped r) _ _); destruct Hgm; [left|right]; congruence|].
  rewrite !(get_set_paths _ _ _ _ t) by done. split.
  - intros Q HQ HF l' [= <-]. by apply after_removal_Forall; [|apply Forall_delete, HF].
  - destruct (Hok _ _ _ _ Ht Hl) as [Hm _]. destruct l as [|p l]; [done|]. destruct Hm as [Hpb Hlb].
    simpl. destruct k as [|k].
    + injection Hk as ->. unfold after_removal. rewrite Hpb. cbn [delete list_delete].
      destruct l as [|q [|q' l]]; [left; by eexists|right; left; by eexists (with_best _ _ _)|].
      right. left. cbn. destruct (preferred _ _ _); by eexists (with_best _ _ _).
    + cbn [lookup list_lookup] in Hk. rewrite Forall_lookup in Hlb.
      unfold after_removal. rewrite (Hlb _ _ Hk). by right; right.
Qed.

(** [get_all_best] returns the best path of every network, [None] if there is none. *)
Lemma get_all_best_elem {NL : NetIterLaws} family r p :
  (exists n, best_of family n r = Some p) <-> exists bs, get_all_best family r = Some bs /\ p ∈ bs.
Proof.
  unfold get_all_best, best_of, get. destruct (table r !! afi family) as [t|]; [|naive_solver].
  set (f := fun '(_, paths) => match paths with [] => [] | p :: _ => [p] end : list Path).
  transitivity (p ∈ flat_map f (net_iter t)); [|destruct (flat_map f (net_iter t)) as [|b bs]].
  - rewrite list_elem_of_In, in_flat_map. setoid_rewrite <-list_elem_of_In.
    setoid_rewrite net_iter_perm. split.
    + intros (n & Hn). destruct (t !! n) as [l|] eqn:Hl; [|done]. exists (n, l).
      split; [by apply elem_of_map_to_list|]. destruct l as [|q l]; [done|]. injection Hn as ->. by left.
    + intros ([n l] & Hin & Hp). apply elem_of_map_to_list in Hin. exists n. rewrite Hin.
      destruct l as [|q l]; simpl in Hp; [by apply elem_of_nil in Hp|]. apply list_elem_of_singleton in Hp as ->. done.
  - split; [intros H; by apply elem_of_nil in H|naive_solver].
  - split; [by eauto|]. by intros (bs' & [= <-] & Hp).
Qed.

Lemma best_of_prefix family n r p : rib_ok r -> best_of family n r = Some p -> prefix p = n.
Proof.
  intros Hok Hp. unfold best_of in Hp. destruct (get family n r) as [[|q l]|] eqn:Hl; [done| |done].
  injection Hp as ->. destruct (get_ok _ _ _ _ Hok Hl) as [_ HF]. by apply Forall_cons_iff in HF as [? _].
Qed.

(** The best path is the path its identifier finds. *)
Lemma get_by_best family n p r : best_of family n r = Some p -> get_by_id family n (id p) r = Some p.
Proof.
  unfold best_of, get_by_id. destruct (get family n r) as [[|q l]|]; simpl; [done| |done].
  intros [= ->]. by rewrite Z.eqb_refl.
Qed.

(** C23: in every state a RIB without multipath reaches from its creation by
    inserting unmarked paths, dropping paths and adding families, the paths
    kept for a network all have that prefix, the best path is the first of them
    and the only one marked, and [get_all_best] returns exactly the marked
    paths. *)
Theorem best_path_is_first {NL : NetIterLaws} (r : LocRib) (family : AddressFamily) (Hr : reachable r) :
  (forall n l, get family n r = Some l -> Forall (fun p => prefix p = n) l /\
     (l = [] \/ exists p l', l = p :: l' /\ get_best_path family n r = Some [p])) /\
  (forall bs, get_all_best family r = Some bs ->
     forall p, p ∈ bs <-> best p = true /\ exists n l, get family n r = Some l /\ p ∈ l).
Proof.
  pose proof (reachable_ok r Hr) as Hok. split.
  - intros n l Hl. destruct (get_ok _ _ _ _ Hok Hl) as [Hm Hp]. split; [done|].
    destruct l as [|p l]; [by left|right]. exists p, l. split; [done|].
    unfold get_best_path. rewrite Hl. simpl. f_equal. by apply marked_filter.
  - intros bs Hbs p. transitivity (exists n, best_of family n r = Some p).
    { rewrite get_all_best_elem. naive_solver. }
    unfold best_of. split.
    + intros (n & Hn). destruct (get family n r) as [l|] eqn:Hl; [|done]. destruct l as [|q l]; [done|].
      injection Hn as ->. destruct (get_ok _ _ _ _ Hok Hl) as [[Hp _] _]. split; [done|]. exists n, (p :: l).
      split; [done|left].
    + intros (Hb & n & l & Hl & Hp). exists n. rewrite Hl. destruct (get_ok _ _ _ _ Hok Hl) as [Hm _].
      destruct l as [|q l]; [by apply elem_of_nil in Hp|]. destruct Hm as [_ Hl'].
      apply elem_of_cons in Hp as [->|Hp]; [done|]. rewrite Forall_forall in Hl'.
      specialize (Hl' _ Hp). congruence.
Qed.

(** C27: inserting an unmarked path into a RIB without multipath, for a
    configured family, always succeeds and loses no path. The new path becomes
    the best, and [BestPathChanged] is reported, exactly when it is the first
    for its network or some criterion prefers it to the current best;
    otherwise the best path stays. Other networks are not touched. *)
Theorem insert_best_path (r : LocRib) (family : AddressFamily) (path : Path)
  (Hr : reachable r) (Hf : is_Some (table r !! afi family)) (Hb : best path = false) :
  let old := default [] (get family (prefix path) r) in
  exists st path' l' r', insert family path r = (Ok (st, path'), r') /\
    get family (prefix path) r' = Some l' /\
    (id <$> l' ≡ₚ id path :: (id <$> old)) /\
    (forall g m, afi g <> afi family \/ m <> prefix path -> get g m r' = get g m r) /\
    match old with
    | [] => st = BestPathChanged (prefix path) (id path) /\ head l' = Some path'
    | p :: _ =>
        match preferred (get_comparison_funcs false) path (touch path p) with
        | Some _ => st = BestPathChanged (prefix path) (id path) /\ head l' = Some path'
        | None => st = NotChanged /\ head l' = Some (touch path p)
        end
    end.
Proof.
  intros old. pose proof (reachable_ok r Hr) as Hok. destruct Hf as [t Ht].
  rewrite (insert_eq _ _ _ _ Ht).
  assert (Hother : forall l g m, afi g <> afi family \/ m <> prefix path ->
    get g m (set_paths (afi family) (prefix path) l (count_received r)) = get g m r).
  { intros l g m Hne. rewrite get_set_paths_ne; [done|]. naive_solver. }
  assert (Hget : get family (prefix path) r = t !! prefix path) by (unfold get; by rewrite Ht).
  unfold old. rewrite Hget. destruct (t !! prefix path) as [l|] eqn:Hl.
  - destruct (get_ok _ family (prefix path) l Hok Hget) as [Hm _].
    destruct Hok as [Hmp _]. rewrite Hmp.
    destruct (insert_into_single path l Hm Hb) as (st & path' & l' & -> & _ & Hids & _ & Hst).
    eexists st, path', l', _. split; [reflexivity|]. split_and!; auto.
    + by apply (get_set_paths _ _ _ _ t).
    + change (default [] (Some l)) with l. destruct l as [|p l]; [by destruct Hst as (H1 & H2 & _)|].
      destruct (preferred (get_comparison_funcs false) path (touch path p)) as [rs|]; [|exact Hst].
      destruct Hst as (H1 & H2 & _). exact (conj H1 H2).
  - eexists _, _, _, _. split; [reflexivity|]. split; [by apply (get_set_paths _ _ _ _ t)|].
    split; [done|]. split; [apply Hother|done].
Qed.

(** Dropping a path from a RIB without multipath. An identifier no path of
    the network has is [PathNotFound] and changes no path. Otherwise the first
    path with it is taken out, and the status tells what the peers must learn:
    [Withdrawn] when it was the last, [BestPathChanged] with the marked path
    that is now first when it was the best, [NotChanged] otherwise. *)
Theorem drop_best_path (r : LocRib) (family : AddressFamily) (n : IpNet) (i : Z) (l : list Path)
  (Hr : reachable r) (Hl : get family n r = Some l) :
  (Forall (fun p => id p <> i) l ->
     (drop family n i r).1 = Err (Rib PathNotFound) /\ get family n (drop family n i r).2 = Some l) /\
  (forall k removed, l !! k = Some removed -> id removed = i ->
     (forall j q, (j < k)%nat -> l !! j = Some q -> id q <> i) ->
     exists l', get family n (drop family n i r).2 = Some l' /\ id <$> l' = id <$> delete k l /\
       (drop family n i r).1 = Ok (match k, l' with
         | O, [] => Withdrawn n (kind removed)
         | O, p :: _ => BestPathChanged n (id p)
         | S _, _ => NotChanged
         end) /\ marked l').
Proof.
  pose proof (reachable_ok r Hr) as Hok. destruct (get_ok _ _ _ _ Hok Hl) as [Hm _].
  pose proof Hl as Hl0. unfold get in Hl. destruct (table r !! afi family) as [t|] eqn:Ht; [|done]. split.
  - intros Hno. destruct (decide (l = [])) as [->|Hne].
    { unfold drop. mred. by rewrite Ht, Hl. }
    rewrite (drop_eq _ _ _ _ _ _ Ht Hl Hne), (proj2 (position_none _ l)); [done|].
    eapply Forall_impl; [exact Hno|]. intros p Hp. by apply Z.eqb_neq.
  - intros k removed Hk Hi Hfirst.
    assert (Hne : l <> []) by (by intros ->).
    rewrite (drop_eq _ _ _ _ _ _ Ht Hl Hne).
    assert (Hp : position (fun p => id p =? i) l = Some k).
    { destruct (position (fun p => id p =? i) l) as [j|] eqn:Hj.
      - apply position_some in Hj as (q & Hq & Hqi & Hlt). apply Z.eqb_eq in Hqi.
        destruct (Nat.lt_trichotomy j k) as [Hjk|[->|Hjk]]; [by destruct (Hfirst _ _ Hjk Hq)|done|].
        specialize (Hlt _ _ Hjk Hk). apply Z.eqb_neq in Hlt. congruence.
      - apply position_none in Hj. rewrite Forall_lookup in Hj. specialize (Hj _ _ Hk).
        apply Z.eqb_neq in Hj. congruence. }
    rewrite Hp, Hk. cbv zeta. destruct Hok as [Hmp _]. rewrite Hmp.
    pose proof (after_removal_marked n k removed l Hm Hk) as Hm'.
    pose proof (after_removal_ids false n k removed (delete k l)) as Hids.
    exists (after_removal false n k removed (delete k l)).2. cbn [fst snd].
    split; [by apply (get_set_paths _ _ _ _ t)|]. split; [done|]. split; [|done].
    f_equal. destruct l as [|p l]; [done|]. destruct Hm as [Hpb Hlb]. destruct k as [|k].
    + injection Hk as ->. unfold after_removal. rewrite Hpb. cbn [delete list_delete].
      destruct l as [|q [|q' l]]; [done|done|]. cbn. by destruct (preferred _ _ _).
    + cbn [lookup list_lookup] in Hk. rewrite Forall_lookup in Hlb.
      unfold after_removal. by rewrite (Hlb _ _ Hk).
Qed.

Lemma same_speaker_eq p q : local_id p = local_id q -> path_eq p q = true.
Proof. intros H. unfold path_eq. by rewrite bool_decide_eq_true_2. Qed.

(** A stored path counts as equal to the new one when any of its fields
    agrees, and all paths of a speaker have the same local identifier. So an
    insertion gives every stored path of the network the new path's timestamp,
    and the criterion that prefers the older route never decides. *)
Theorem older_route_never_decides (path p : Path) (multi : bool) (l : list Path)
  (st : LocRibStatus) (path' : Path) (l' : list Path)
  (Hp : local_id p = local_id path) (Hl : Forall (fun q => local_id q = local_id path) l)
  (Hi : insert_into multi path l = Ok (st, path', l')) :
  Forall (fun q => timestamp q = timestamp path) l' /\
  preferred (get_comparison_funcs false) path (touch path p) <> Some ROlderRoute.
Proof.
  split.
  - assert (Ht : Forall (fun q => timestamp q = timestamp path) (map (touch path) l)).
    { apply Forall_map. eapply Forall_impl; [exact Hl|]. intros q Hq. cbn. unfold touch.
      by rewrite same_speaker_eq. }
    destruct l as [|q0 l]; [injection Hi as <- <- <-; by repeat constructor|].
    unfold insert_into in Hi. destruct (rposition best (q0 :: l)) as [k|]; [|done].
    set (paths := map (touch path) (q0 :: l)) in *. clearbody paths.
    destruct (select _ path paths 0) as [idx rs].
    assert (Hins : forall i b x, timestamp x = timestamp path -> paths !! i = Some b ->
      forall y, timestamp y = timestamp b -> Forall (fun q => timestamp q = timestamp path)
        (vec_insert idx x (<[i := y]> paths))).
    { intros i b x Hx Hb y Hy. apply Forall_vec_insert; [done|]. apply Forall_insert; [done|].
      rewrite Hy. rewrite Forall_lookup in Ht. by eapply Ht. }
    unfold vec_get in Hi. mred in Hi. rewrite Nat2Z.id in Hi.
    destruct multi.
    + destruct (idx <=? k)%nat.
      { injection Hi as <- <- <-. apply Forall_vec_insert; [done|]. apply Forall_map.
        eapply Forall_impl; [exact Ht|]. intros q Hq. cbn. unfold unmark. by destruct (best q). }
      destruct (k + 1 =? idx)%nat; [|injection Hi as <- <- <-; by apply Forall_vec_insert].
      destruct (paths !! k) as [b|] eqn:Ek; [|done].
      destruct (is_equal_cost path b); [|injection Hi as <- <- <-; by apply Forall_vec_insert].
      injection Hi as <- <- <-. eapply Hins; [done|exact Ek|]. by destruct (bool_decide _).
    + destruct (idx =? 0)%nat; [|injection Hi as <- <- <-; by apply Forall_vec_insert].
      destruct (paths !! Z.to_nat 0) as [b|] eqn:Ek; [|done]. injection Hi as <- <- <-.
      by eapply Hins; [|exact Ek|].
  - unfold touch. rewrite same_speaker_eq by done.
    assert (Ho : compare_older_route path (with_timestamp (timestamp path) p) = Eq).
    { unfold compare_older_route. cbn. rewrite Z.compare_refl. by destruct (eqb _ _). }
    unfold preferred, get_comparison_funcs. cbn -[compare_older_route]. rewrite Ho.
    repeat case_match; congruence.
Qed.

(** The selection loop goes on to the next criterion when the new path is
    worse, not only when it is equal. A path with a lower local preference
    than the best one replaces it when its AS path is shorter. *)
Theorem lower_local_pref_replaces_best (r : LocRib) (family : AddressFamily) (path p : Path) (l : list Path)
  (Hr : reachable r) (Hb : best path = false) (Hp : get family (prefix path) r = Some (p :: l))
  (Hpref : local_pref path < local_pref p)
  (Has : (length (as_sequence path) < length (as_sequence p))%nat)
  (Hlocal : is_local_originated path = is_local_originated p) :
  exists path' r', insert family path r = (Ok (BestPathChanged (prefix path) (id path), path'), r').
Proof.
  pose proof (reachable_ok r Hr) as Hok. destruct (get_ok _ _ _ _ Hok Hp) as [Hm _].
  unfold get in Hp. destruct (table r !! afi family) as [t|] eqn:Ht; [|done].
  rewrite (insert_eq _ _ _ _ Ht), Hp. destruct Hok as [Hmp _]. rewrite Hmp.
  destruct (insert_into_single path (p :: l) Hm Hb) as (st & path' & l' & -> & _ & _ & _ & Hst).
  assert (Hpre : preferred (get_comparison_funcs false) path (touch path p) = Some RASPath).
  { assert (H1 : compare_local_pref path (touch path p) = Gt)
      by (unfold compare_local_pref; rewrite touch_local_pref; by apply Z.compare_gt_iff).
    assert (H2 : compare_local_originated path (touch path p) = Eq)
      by (unfold compare_local_originated; by rewrite touch_local_originated, Hlocal, eqb_reflx).
    assert (H3 : compare_as_path path (touch path p) = Lt)
      by (rewrite compare_as_path_length, touch_as_sequence; by apply Nat.compare_lt_iff).
    unfold preferred, get_comparison_funcs. cbn -[compare_as_path compare_local_pref compare_local_originated].
    by rewrite H1, H2, H3. }
  rewrite Hpre in Hst. destruct Hst as (-> & _ & _). eauto.
Qed.
End facts.

Section witnesses.
#[local] Existing Instance simple_ipnet.
#[local] Existing Instance simple_iter.
#[local] Existing Instance simple_iter_laws.

Definition make_path (i pid paddr pasn lp : Z) (seq : list Z) : Path := {|
  id := i; best := false; reason := RNotBest; timestamp := i; local_id := 1; local_asn := 65000;
  peer_id := pid; peer_addr := AV4 paddr; peer_asn := pasn; family := ipv4_unicast; origin := 0;
  local_pref := lp; med := 0; as_sequence := seq; as_set := []; next_hops := [AV4 paddr];
  propagate_attributes := []; prefix := net24 |}.

Definition rib0 : LocRib := new [IPv4] false.
Definition rib1 : LocRib := (insert ipv4_unicast (make_path 10 2 2 100 200 [100; 7]) rib0).2.
Definition stored1 : Path := with_best true ROnlyPath (make_path 10 2 2 100 200 [100; 7]).

Lemma rib1_reachable : reachable rib1.
Proof.
  eapply (reach_insert rib0 ipv4_unicast (make_path 10 2 2 100 200 [100; 7])); [apply reach_new|done|].
  apply surjective_pairing.
Qed.

Lemma rib1_get : get ipv4_unicast net24 rib1 = Some [stored1].
Proof. exact (@eq_refl _ (Some [stored1]) <: get ipv4_unicast net24 rib1 = Some [stored1]). Qed.

Lemma best_path_is_first_witness :
  Forall (fun p => prefix p = net24) [stored1] /\
  ([stored1] = [] \/ exists p l', [stored1] = p :: l' /\ get_best_path ipv4_unicast net24 rib1 = Some [p]).
Proof. exact (proj1 (best_path_is_first rib1 ipv4_unicast rib1_reachable) net24 [stored1] rib1_get). Defined.

Definition path2 : Path := make_path 11 3 3 200 50 [200].

Lemma insert_best_path_witness :
  let old := default [] (get ipv4_unicast (prefix path2) rib1) in
  exists st path' l' r', insert ipv4_unicast path2 rib1 = (Ok (st, path'), r') /\
    get ipv4_unicast (prefix path2) r' = Some l' /\
    (id <$> l' ≡ₚ id path2 :: (id <$> old)) /\
    (forall g m, afi g <> afi ipv4_unicast \/ m <> prefix path2 -> get g m r' = get g m rib1) /\
    match old with
    | [] => st = BestPathChanged (prefix path2) (id path2) /\ head l' = Some path'
    | p :: _ =>
        match preferred (get_comparison_funcs false) path2 (touch path2 p) with
        | Some _ => st = BestPathChanged (prefix path2) (id path2) /\ head l' = Some path'
        | None => st = NotChanged /\ head l' = Some (touch path2 p)
        end
    end.
Proof.
  refine (insert_best_path rib1 ipv4_unicast path2 rib1_reachable _ _); [|reflexivity].
  by apply (bool_decide_unpack _); vm_compute.
Defined.

Lemma drop_best_path_witness :
  exists l', get ipv4_unicast net24 (drop ipv4_unicast net24 10 rib1).2 = Some l' /\
    id <$> l' = id <$> delete 0%nat [stored1] /\
    (drop ipv4_unicast net24 10 rib1).1 = Ok (match 0%nat, l' with
      | O, [] => Withdrawn net24 (kind stored1)
      | O, p :: _ => BestPathChanged net24 (id p)
      | S _, _ => NotChanged
      end) /\ marked l'.
Proof.
  refine (proj2 (drop_best_path rib1 ipv4_unicast net24 10 [stored1] rib1_reachable rib1_get)
    0%nat stored1 eq_refl eq_refl _).
  intros j q Hj. lia.
Defined.

Lemma older_route_never_decides_witness :
  Forall (fun q => timestamp q = timestamp path2) [with_best true ROnlyPath path2] /\
  preferred (get_comparison_funcs false) path2 (touch path2 stored1) <> Some ROlderRoute.
Proof.
  apply (older_route_never_decides path2 stored1 false [] (BestPathChanged net24 11)
    (with_best true ROnlyPath path2)); [done|constructor|done].
Defined.

Lemma lower_local_pref_replaces_best_witness :
  exists path' r', insert ipv4_unicast path2 rib1 = (Ok (BestPathChanged (prefix path2) (id path2), path'), r').
Proof.
  refine (lower_local_pref_replaces_best rib1 ipv4_unicast path2 stored1 [] rib1_reachable
    eq_refl rib1_get _ _ eq_refl); simpl; lia.
Defined.

(** *** Multipath *)

(** A network announced locally, learned from an internal peer at equal cost,
    and announced locally again. *)
Definition multi_run : LocRib :=
  (insert ipv4_unicast (make_path 13 1 0 65000 0 [])
    (insert ipv4_unicast (make_path 12 2 2 65000 0 [])
      (insert ipv4_unicast (make_path 11 1 0 65000 0 []) (new [IPv4] true)).2).2).2.

(** With multipath the best path need not be the first. After a local
    announcement of a network, an equal-cost internal path for it and a second
    local announcement, the second path of the network is the only marked one,
    while [get_all_best], which takes the first of each network, returns a path
    that is not marked. *)
Theorem multipath_best_not_first :
  (map (fun p => (id p, best p)) <$> get ipv4_unicast net24 multi_run)
    = Some [(11, false); (13, true); (12, false)] /\
  (map id <$> get_all_best ipv4_unicast multi_run) = Some [11].
Proof. split; vm_compute; reflexivity. Qed.
End witnesses.
End LocRib.
