(* ===== verification/BgpRibManager.v ===== *)
(** * The RIB manager

    [RibManager] of [bgp/src/rib.rs]: one task owns the local RIB and handles
    the events of the peers and of the API. It applies them to the RIB, tells
    the FIB server which routes to install, and tells every peer which paths to
    advertise and withdraw. *)

From S2P Require Import Prelude Net BgpFamily BgpPrefix BgpAttribute BgpPath BgpRib BgpLocRib.

(** ** Neighbors ([bgp/src/peer/neighbor.rs]) *)

Module Neighbor.
Record NeighborPair : Type := { addr : IpAddr; asn : Z }.

#[global] Instance NeighborPair_eq_dec : EqDecision NeighborPair.
Proof. solve_decision. Defined.

#[global] Program Instance NeighborPair_countable : Countable NeighborPair :=
  inj_countable' (fun n => (addr n, asn n)) (fun x => {| addr := x.1; asn := x.2 |}) _.
Next Obligation. by intros []. Qed.

Definition new (a : IpAddr) (n : Z) : NeighborPair := {| addr := a; asn := n |}.
End Neighbor.

Module RibManager.
Import BgpError Family Path Neighbor LocRib.

(** [Bgp::RTPROTO_BGP], [Bgp::RT_SCOPE_UNIVERSE], [Bgp::AD_EBGP], [Bgp::AD_IBGP] *)
Definition RTPROTO_BGP : Z := 186.
Definition RT_SCOPE_UNIVERSE : Z := 0.
Definition AD_EBGP : Z := 20.
Definition AD_IBGP : Z := 200.

Section defs.
Context {I : IpNetApi} {NI : NetIter} {P : Profile}.

(** A [Sender] is known by the number of its channel. *)
Inductive RibEvent : Type :=
| SetAsn (n : Z)
| SetRouterId (i : Z)
| SetMultiPath (enable : bool)
| AddPeer (neighbor : NeighborPair) (tx : Z)
| DeletePeer (neighbor : NeighborPair)
| Init (f : AddressFamily) (neighbor : NeighborPair)
| Flush (f : AddressFamily) (neighbor : NeighborPair)
| AddPath (networks : list IpNet) (attributes : list Attribute.Attribute)
| DeletePath (f : AddressFamily) (networks : list IpNet)
| InstallPaths (neighbor : NeighborPair) (paths : list Path)
| DropPaths (neighbor : NeighborPair) (f : AddressFamily) (path_ids : list (IpNet * Z))
| Advertise (paths : list Path)
| Withdraw (prefixes : list IpNet)
| GetPath (f : AddressFamily)
| GetPathByPrefix (n : IpNet) (f : AddressFamily).

(** The messages of the FIB server's interface the manager sends. Addresses
    and networks stand for the text they are written as. *)
Record NextHop : Type := { gateway : IpAddr; weight : Z; nh_flags : Z; interface : Z }.

Record Route : Type := {
  rt_table : Z; rt_version : Z; destination : IpNet; protocol : Z; scope : Z; rt_type : Z;
  rt_next_hops : list NextHop; ad : Z; priority : Z; ibgp : bool;
}.

(** What the manager sends: events to the channel of a peer, requests to the
    FIB server and answers to the API. *)
Inductive Output : Type :=
| ToPeer (tx : Z) (e : RibEvent)
| AddRoute (tbl version : Z) (route : Route) (replace : bool)
| AddMultiPathRoute (tbl version : Z) (route : Route)
| DeleteRoute (tbl version : Z) (dest : IpNet)
| DeleteMultiPathRoute (tbl version : Z) (dest : IpNet) (gateways : list IpAddr)
| ToApi (paths : list Path).

(** The manager's fields, and what it has sent so far, the oldest first. The
    endpoint is a connection to the FIB server or none. *)
Record RibManager : Type := {
  asn : Z;
  router_id : Z;
  loc_rib : LocRib;
  endpoint : bool;
  table_id : Z;
  peers_tx : gmap NeighborPair Z;
  trace : list Output;
}.

Definition with_rib (r : LocRib) (m : RibManager) : RibManager :=
  {| asn := asn m; router_id := router_id m; loc_rib := r; endpoint := endpoint m;
     table_id := table_id m; peers_tx := peers_tx m; trace := trace m |}.

Definition with_peers (ps : gmap NeighborPair Z) (m : RibManager) : RibManager :=
  {| asn := asn m; router_id := router_id m; loc_rib := loc_rib m; endpoint := endpoint m;
     table_id := table_id m; peers_tx := ps; trace := trace m |}.

Definition with_ids (a i : Z) (m : RibManager) : RibManager :=
  {| asn := a; router_id := i; loc_rib := loc_rib m; endpoint := endpoint m;
     table_id := table_id m; peers_tx := peers_tx m; trace := trace m |}.

Definition record (o : Output) (m : RibManager) : RibManager :=
  {| asn := asn m; router_id := router_id m; loc_rib := loc_rib m; endpoint := endpoint m;
     table_id := table_id m; peers_tx := peers_tx m; trace := trace m ++ [o] |}.

(** The environment: whether the receiver takes a message, after what was sent
    before; whether a connection to the FIB server can be opened; the order in
    which the map of peers is iterated; the hash of a path builder. *)
Variable accepts : list Output -> Output -> bool.
Variable connect : string -> bool.
Variable peer_iter : gmap NeighborPair Z -> list (NeighborPair * Z).
Variable hash_builder : PathBuilder -> Z.

Definition new (a i : Z) (ep : option string) (tbl : Z) (protocols : list Afi) (multi : bool) :
    res Error RibManager :=
  e ← match ep with
      | Some ep => if connect ep then Ok true else Err (Rib FailedToConnectToFibEndpoint)
      | None => Ok false
      end;
  Ok {| asn := a; router_id := i; loc_rib := LocRib.new protocols multi; endpoint := e;
        table_id := tbl; peers_tx := ∅; trace := [] |}.

#[local] Abbreviation RM := (M RibManager Error).

(** A message out, with the error the caller maps a failure to. *)
Definition emit (e : Error) (o : Output) : RM unit :=
  m ← get_st;
  if accepts (trace m) o then modify (record o) else throw e.

Definition send (tx : Z) (e : RibEvent) : RM unit :=
  emit (Control FailedToSendRecvChannel) (ToPeer tx e).

Definition on_rib {A} (f : M LocRib Error A) : RM A := zoom loc_rib with_rib f.

Definition add_peer (neighbor : NeighborPair) (tx : Z) : RM unit :=
  m ← get_st;
  match peers_tx m !! neighbor with
  | Some _ => throw (Rib PeerAlreadyRegistered)
  | None => modify (with_peers (<[neighbor := tx]> (peers_tx m)))
  end.

Definition delete_peer (neighbor : NeighborPair) : RM unit :=
  m ← get_st;
  match peers_tx m !! neighbor with
  | Some _ => modify (with_peers (delete neighbor (peers_tx m)))
  | None => throw (Rib PeerNotFound)
  end.

Definition set_multipath (enable : bool) : RM unit := on_rib (LocRib.set_multipath enable).

(** The filter of [init] *)
Definition init_filter (m : RibManager) (neighbor : NeighborPair) (p : Path) : bool :=
  negb (bool_decide (peer_addr p = addr neighbor))
  || (if asn m =? Neighbor.asn neighbor then negb (bool_decide (kind p = KInternal)) else false).

Definition init (f : AddressFamily) (neighbor : NeighborPair) : RM unit :=
  m ← get_st;
  match get_all_best f (loc_rib m) with
  | Some paths =>
      let p := List.filter (init_filter m neighbor) paths in
      match peers_tx m !! neighbor with
      | Some tx => send tx (Advertise p)
      | None => throw (Rib PeerNotFound)
      end
  | None => mret tt
  end.

Definition flush (f : AddressFamily) (neighbor : NeighborPair) : RM unit := mret tt.

(** The route of a path with one of its next hops as the gateway. *)
Definition path_route (tbl : Z) (path : Path) (next_hop : IpAddr) : Route :=
  let ibgp_path := negb (is_external path) in
  let prio := if ibgp_path then AD_IBGP else AD_EBGP in
  {| rt_table := tbl; rt_version := afi_inet (afi (family path)); destination := prefix path;
     protocol := RTPROTO_BGP; scope := RT_SCOPE_UNIVERSE; rt_type := safi_inet (safi (family path));
     rt_next_hops := [{| gateway := next_hop; weight := prio; nh_flags := 0; interface := 0 |}];
     ad := prio; priority := prio; ibgp := ibgp_path |}.

(** The request the FIB server gets for the path, when it has to get one. *)
Definition to_fib (apply_to_fib : bool) (path : Path) (request : Z -> Z -> Route -> Output) : RM unit :=
  m ← get_st;
  if apply_to_fib && endpoint m then
    match next_hops path with
    | [] => throw (Rib NextHopMustBeSet)
    | next_hop :: _ =>
        emit Endpoint (request (table_id m) (afi_inet (afi (family path))) (path_route (table_id m) path next_hop))
    end
  else mret tt.

Definition add_route (tbl version : Z) (r : Route) : Output := AddRoute tbl version r true.

(** One path of [install_paths] *)
Definition install_path (f : AddressFamily) (apply_to_fib : bool) (changed_prefixes : list (IpNet * Z))
    (path : Path) : RM (list (IpNet * Z)) :=
  '(status, path) ← on_rib (insert f path);
  match status with
  | BestPathChanged pfx i =>
      to_fib apply_to_fib path add_route ;;
      mret (changed_prefixes ++ [(pfx, i)])
  | MultiPathAdded =>
      to_fib apply_to_fib path AddMultiPathRoute ;;
      mret changed_prefixes
  | _ => mret changed_prefixes
  end.

(** Whether a path of this kind that came from [neighbor] goes to [peer] *)
Definition advertise_to (a : Z) (neighbor peer : NeighborPair) (k : PathKind) : bool :=
  match k with
  | KLocal => true
  | KExternal => negb (bool_decide (peer = neighbor))
  | KInternal => negb (a =? Neighbor.asn peer)
  end.

(** The same for a path that takes the place of a dropped one *)
Definition replace_to (a : Z) (peer : NeighborPair) (k : PathKind) : bool :=
  match k with
  | KLocal | KExternal => true
  | KInternal => negb (a =? Neighbor.asn peer)
  end.

(** The changed paths that pass the filter *)
Fixpoint collect (f : AddressFamily) (r : LocRib) (keep : PathKind -> bool) (changed : list (IpNet * Z)) :
    res Error (list Path) :=
  match changed with
  | [] => Ok []
  | (pfx, i) :: changed' =>
      match get_by_id f pfx i r with
      | None => Err (Rib PathNotFound)
      | Some p =>
          ps ← collect f r keep changed';
          Ok (if keep (kind p) then p :: ps else ps)
      end
  end.

Definition advertise (f : AddressFamily) (changed : list (IpNet * Z))
    (keep : NeighborPair -> PathKind -> bool) : RM unit :=
  m ← get_st;
  for_each (fun '(peer, tx) =>
      ps ← lift (collect f (loc_rib m) (keep peer) changed);
      match ps with
      | [] => mret tt
      | _ :: _ => send tx (Advertise ps)
      end)
    (peer_iter (peers_tx m)).

Definition install_paths (neighbor : NeighborPair) (paths : list Path) (apply_to_fib : bool) : RM unit :=
  match paths with
  | [] => mret tt
  | p0 :: _ =>
      let f := family p0 in
      changed_prefixes ← for_fold (install_path f apply_to_fib) paths [];
      m ← get_st;
      advertise f changed_prefixes (advertise_to (asn m) neighbor)
  end.

(** One path identifier of [drop_paths]: the prefixes to advertise and the
    prefixes to withdraw *)
Definition drop_path (f : AddressFamily) (apply_to_fib : bool)
    (acc : list (IpNet * Z) * list (IpNet * PathKind)) (pfx_id : IpNet * Z) :
    RM (list (IpNet * Z) * list (IpNet * PathKind)) :=
  let '(adv, wd) := acc in
  status ← on_rib (drop f pfx_id.1 pfx_id.2);
  m ← get_st;
  match status with
  | BestPathChanged pfx i =>
      match get_by_id f pfx i (loc_rib m) with
      | Some path => to_fib apply_to_fib path add_route ;; mret (adv ++ [(pfx, i)], wd)
      | None => throw (Rib PathNotFound)
      end
  | MultiPathWithdrawn pfx i gw =>
      match get_by_id f pfx i (loc_rib m) with
      | Some path =>
          (if apply_to_fib && endpoint m then
            match gw with
            | Some g => emit Endpoint
                (DeleteMultiPathRoute (table_id m) (afi_inet (afi (family path))) pfx [g])
            | None => mret tt
            end
          else mret tt) ;;
          mret (adv, wd)
      | None => throw (Rib PathNotFound)
      end
  | Withdrawn pfx k =>
      (if apply_to_fib && endpoint m
       then emit Endpoint (DeleteRoute (table_id m) (afi_inet (afi f)) pfx)
       else mret tt) ;;
      mret (adv, wd ++ [(pfx, k)])
  | _ => mret (adv, wd)
  end.

Definition withdraw (wd : list (IpNet * PathKind)) (keep : NeighborPair -> PathKind -> bool) : RM unit :=
  m ← get_st;
  for_each (fun '(peer, tx) =>
      match map fst (List.filter (fun x => keep peer x.2) wd) with
      | [] => mret tt
      | n :: ns => send tx (Withdraw (n :: ns))
      end)
    (peer_iter (peers_tx m)).

Definition drop_paths (neighbor : NeighborPair) (f : AddressFamily) (path_ids : list (IpNet * Z))
    (apply_to_fib : bool) : RM unit :=
  '(advertise_prefixes, withdraw_prefixes) ← for_fold (drop_path f apply_to_fib) path_ids ([], []);
  m ← get_st;
  withdraw withdraw_prefixes (advertise_to (asn m) neighbor) ;;
  advertise f advertise_prefixes (replace_to (asn m)).

(** The paths of networks announced locally *)
Definition local_paths (now : nat -> Z) (m : RibManager) (networks : list IpNet)
    (l : list Attribute.Attribute) : res Error (list Path) :=
  b ← attrs l (builder_local (router_id m) (asn m));
  build hash_builder now (add_nlri (map Prefix.from_ipnet networks) b).

Definition add_path (now : nat -> Z) (networks : list IpNet) (l : list Attribute.Attribute) : RM unit :=
  m ← get_st;
  paths ← lift (local_paths now m networks l);
  install_paths (Neighbor.new (AV4 (router_id m)) (asn m)) paths false.

(** The paths [delete_path] drops *)
Definition local_ids (f : AddressFamily) (networks : list IpNet) (m : RibManager) : list (IpNet * Z) :=
  flat_map (fun n =>
    match get f n (loc_rib m) with
    | Some stored => map (fun p => (prefix p, id p)) (List.filter is_local_originated stored)
    | None => []
    end) networks.

Definition delete_path (f : AddressFamily) (networks : list IpNet) : RM unit :=
  m ← get_st;
  drop_paths (Neighbor.new (AV4 (router_id m)) (asn m)) f (local_ids f networks m) false.

Definition get_path (f : AddressFamily) : RM unit :=
  m ← get_st;
  match get_all f (loc_rib m) with
  | Some paths => emit (Control FailedToSendRecvChannel) (ToApi paths)
  | None => mret tt
  end.

Definition get_path_by_prefix (n : IpNet) (f : AddressFamily) : RM unit :=
  m ← get_st;
  match get f n (loc_rib m) with
  | Some paths => emit (Control FailedToSendRecvChannel) (ToApi paths)
  | None => mret tt
  end.

(** [now] is the clock while the event is handled. *)
Definition handle (now : nat -> Z) (event : RibEvent) : RM unit :=
  match event with
  | SetAsn a => modify (fun m => with_ids a (router_id m) m)
  | SetRouterId i => modify (fun m => with_ids (asn m) i m)
  | SetMultiPath enable => set_multipath enable
  | AddPeer neighbor tx => add_peer neighbor tx
  | DeletePeer neighbor => delete_peer neighbor
  | Init f neighbor => init f neighbor
  | Flush f neighbor => flush f neighbor
  | AddPath networks l => add_path now networks l
  | DeletePath f networks => delete_path f networks
  | InstallPaths neighbor paths => install_paths neighbor paths true
  | DropPaths neighbor f path_ids => drop_paths neighbor f path_ids true
  | GetPath f => get_path f
  | GetPathByPrefix n f => get_path_by_prefix n f
  | Advertise _ | Withdraw _ => throw (Rib UnhandlableEvent)
  end.
End defs.

(** ** Specification *)

Section spec.
Context {I : IpNetApi} {NI : NetIter} {P : Profile}.

Definition net_afi (n : IpNet) : Afi := match n with NV4 _ => IPv4 | NV6 _ => IPv6 end.

(** The best path of a network in the table of its family *)
Definition best_path (n : IpNet) (r : LocRib) : option Path :=
  best_of {| afi := net_afi n; safi := Unicast |} n r.

(** What the peer behind a channel has been told to advertise. *)
Definition apply_event (v : gmap IpNet Path) (e : RibEvent) : gmap IpNet Path :=
  match e with
  | Advertise ps => foldl (fun v p => <[prefix p := p]> v) v ps
  | Withdraw ns => foldl (fun v n => delete n v) v ns
  | _ => v
  end.

Definition view (c : Z) (t : list Output) : gmap IpNet Path :=
  foldl (fun v o => match o with
    | ToPeer tx e => if tx =? c then apply_event v e else v
    | _ => v
    end) ∅ t.

(** What the FIB server was last asked for each network, when that was not to
    delete it: the version and the gateways of the route. What the server makes
    of the requests is the subject of [FibWorld]. *)
Definition ask (v : gmap IpNet (Z * list IpAddr)) (o : Output) : gmap IpNet (Z * list IpAddr) :=
  match o with
  | AddRoute _ _ r _ => <[destination r := (rt_version r, gateway <$> rt_next_hops r)]> v
  | DeleteRoute _ _ n => delete n v
  | _ => v
  end.

Definition asked (t : list Output) : gmap IpNet (Z * list IpAddr) := foldl ask ∅ t.

(** The requests of a manager without multipath. *)
Definition single_path (o : Output) : Prop :=
  match o with
  | AddRoute tbl _ r _ => exists p nh, r = path_route tbl p nh
  | DeleteRoute _ v _ => exists a, v = afi_inet a
  | AddMultiPathRoute _ _ _ | DeleteMultiPathRoute _ _ _ _ => False
  | ToPeer _ _ | ToApi _ => True
  end.

Definition path_request (p : Path) : Z * list IpAddr := (afi_inet (afi (family p)), take 1 (next_hops p)).

(** The FIB server was asked for the first next hop of every best path, and
    for nothing else. *)
Definition fib_ok (m : RibManager) : Prop :=
  (forall n, asked (trace m) !! n = path_request <$> best_path n (loc_rib m)) /\ Forall single_path (trace m).

(** Only events and answers were sent, no requests. *)
Definition message (o : Output) : Prop := match o with ToPeer _ _ | ToApi _ => True | _ => False end.

Definition quiet (m m' : RibManager) : Prop := exists os, trace m' = trace m ++ os /\ Forall message os.

(** Every stored path is in the table of its network's family and has [Q]. *)
Definition stored (Q : Path -> Prop) (r : LocRib) : Prop := forall g n l,
  get g n r = Some l -> net_afi n = afi g /\ Forall Q l.

Definition frame (m m' : RibManager) : Prop :=
  asn m' = asn m /\ endpoint m' = endpoint m /\ peers_tx m' = peers_tx m.

(** The last identifier a list of changes has for a network. *)
Fixpoint last_id (ch : list (IpNet * Z)) (n : IpNet) : option Z :=
  match ch with
  | [] => None
  | (k, i) :: ch' =>
      match last_id ch' n with
      | Some j => Some j
      | None => if bool_decide (k = n) then Some i else None
      end
  end.

(** The changes a batch collected account for every best path that differs. *)
Definition moved (r0 r : LocRib) (adv : list (IpNet * Z)) (wd : list (IpNet * PathKind)) : Prop :=
  forall n, if bool_decide (n ∈ wd.*1) then best_path n r = None else
    match last_id adv n with
    | Some i => exists p, best_path n r = Some p /\ id p = i
    | None => route <$> best_path n r = route <$> best_path n r0
    end.
End spec.

Section facts.
Context {I : IpNetApi} {NI : NetIter} {P : Profile}.
Context (accepts : list Output -> Output -> bool).

(** *** Traces *)

Lemma view_snoc c t o : view c (t ++ [o]) =
  match o with ToPeer tx e => if tx =? c then apply_event (view c t) e else view c t | _ => view c t end.
Proof. unfold view. by rewrite foldl_app. Qed.

Lemma asked_snoc t o : asked (t ++ [o]) = ask (asked t) o.
Proof. unfold asked. by rewrite foldl_app. Qed.

Lemma quiet_refl m m' : trace m' = trace m -> quiet m m'.
Proof. intros H. exists []. by rewrite app_nil_r. Qed.

Lemma quiet_trans m1 m2 m3 : quiet m1 m2 -> quiet m2 m3 -> quiet m1 m3.
Proof.
  intros (os & H1 & Ho) (os' & H2 & Ho'). exists (os ++ os'). rewrite H2, H1, app_assoc. split; [done|by apply Forall_app].
Qed.

Lemma quiet_record o m : message o -> quiet m (record o m).
Proof. intros Ho. exists [o]. by split; [|constructor]. Qed.

Lemma quiet_asked m m' : quiet m m' -> asked (trace m') = asked (trace m) /\
  (Forall single_path (trace m) -> Forall single_path (trace m')).
Proof.
  intros (os & -> & Ho). rewrite Forall_app. split.
  - unfold asked. rewrite foldl_app. generalize (foldl ask ∅ (trace m)) as v.
    induction Ho as [|o os Ho _ IH]; intros v; [done|]. simpl. rewrite IH. by destruct o.
  - intros Ht. split; [done|]. eapply Forall_impl; [exact Ho|]. by intros [].
Qed.

Lemma last_id_snoc ch k i n : last_id (ch ++ [(k, i)]) n = if bool_decide (k = n) then Some i else last_id ch n.
Proof.
  induction ch as [|[k' i'] ch IH]; simpl; [by destruct (bool_decide _)|].
  rewrite IH. by destruct (bool_decide (k = n)).
Qed.

Lemma emit_ok e o m m' : emit accepts e o m = (Ok tt, m') -> m' = record o m.
Proof. unfold emit. mred. destruct (accepts _ _); intros [=]; done. Qed.

Lemma to_fib_ok b path req m m' : to_fib accepts b path req m = (Ok tt, m') ->
  if b && endpoint m then exists nh, take 1 (next_hops path) = [nh] /\
    m' = record (req (table_id m) (afi_inet (afi (family path))) (path_route (table_id m) path nh)) m
  else m' = m.
Proof.
  unfold to_fib. mred. destruct (b && endpoint m); [|by intros [=]].
  destruct (next_hops path) as [|nh nhs]; [done|]. intros H. exists nh. split; [done|]. by eapply emit_ok.
Qed.

(** *** One path *)

Lemma get_afi f g n r : afi f = afi g -> get f n r = get g n r.
Proof. intros H. unfold get. by rewrite H. Qed.

Lemma best_path_family f n r : net_afi n = afi f -> best_path n r = best_of f n r.
Proof. intros H. unfold best_path, best_of. by rewrite (get_afi _ f). Qed.

Lemma best_path_frame f n k r r' : net_afi k = afi f ->
  (forall g m, afi g <> afi f \/ m <> k -> get g m r' = get g m r) ->
  n <> k -> best_path n r' = best_path n r.
Proof. intros Hk Hg Hn. unfold best_path, best_of. rewrite Hg; [done|by right]. Qed.

Lemma fib_ok_step tbl m m' n p nh : fib_ok m -> best_path n (loc_rib m') = Some p ->
  (forall k, k <> n -> best_path k (loc_rib m') = best_path k (loc_rib m)) ->
  prefix p = n -> take 1 (next_hops p) = [nh] ->
  trace m' = trace m ++ [add_route tbl (afi_inet (afi (family p))) (path_route tbl p nh)] -> fib_ok m'.
Proof.
  intros [Hf Hs] Hb Ho Hn Hnh Ht. split.
  - intros k. rewrite Ht, asked_snoc. simpl. rewrite Hn. destruct (decide (n = k)) as [<-|Hne].
    + rewrite lookup_insert_eq, Hb. simpl. unfold path_request. by rewrite Hnh.
    + by rewrite lookup_insert_ne, Hf, Ho by done.
  - rewrite Ht, Forall_app. split; [done|]. constructor; [|done]. simpl. by eauto.
Qed.

Lemma fib_ok_same m m' : fib_ok m -> (forall k, route <$> best_path k (loc_rib m') = route <$> best_path k (loc_rib m)) ->
  trace m' = trace m -> fib_ok m'.
Proof.
  intros [Hf Hs] Ho Ht. rewrite <-Ht in Hs. split; [|done]. intros k. rewrite Ht, Hf. specialize (Ho k).
  destruct (best_path k (loc_rib m')) as [p|], (best_path k (loc_rib m)) as [q|]; try done.
  apply (f_equal (fmap path_request)) in Ho. done.
Qed.

Lemma stored_step Q f k r r' : stored Q r -> (forall g m, afi g <> afi f \/ m <> k -> get g m r' = get g m r) ->
  (forall l, get f k r' = Some l -> Forall Q l) -> net_afi k = afi f -> stored Q r'.
Proof.
  intros Hs Ho HF Hk g n l Hg. destruct (decide (afi g = afi f)) as [Hgf|Hgf].
  - destruct (decide (n = k)) as [->|Hne].
    + rewrite (get_afi g f) in Hg by done. split; [congruence|by apply HF].
    + rewrite Ho in Hg by (by right). by eapply Hs.
  - rewrite Ho in Hg by (by left). by eapply Hs.
Qed.

Lemma stored_best Q f n r p : stored Q r -> best_of f n r = Some p -> net_afi n = afi f /\ Q p.
Proof.
  intros Hs Hp. unfold best_of in Hp. destruct (get f n r) as [[|q l]|] eqn:Hl; [done| |done].
  injection Hp as ->. destruct (Hs _ _ _ Hl) as [Hn HF]. by apply Forall_cons_iff in HF as [? _].
Qed.

Lemma install_path_step Q f b ch path m ch' m' :
  rib_ok (loc_rib m) -> stored Q (loc_rib m) -> stable Q ->
  best path = false -> net_afi (prefix path) = afi f -> Q path ->
  install_path accepts f b ch path m = (Ok ch', m') ->
  frame m m' /\ rib_ok (loc_rib m') /\ stored Q (loc_rib m') /\
  (forall c, view c (trace m') = view c (trace m)) /\
  (b && endpoint m = true -> fib_ok m -> fib_ok m') /\
  (forall n, n <> prefix path -> best_path n (loc_rib m') = best_path n (loc_rib m)) /\
  ((ch' = ch ++ [(prefix path, id path)] /\ exists p, best_path (prefix path) (loc_rib m') = Some p /\ id p = id path) \/
   (ch' = ch /\ route <$> best_path (prefix path) (loc_rib m') = route <$> best_path (prefix path) (loc_rib m))).
Proof.
  intros Hok Hs HQ Hb Hfam HQp Hi. unfold install_path in Hi.
  apply bind_inv_ok in Hi as ([st path'] & m1 & Hins & Hi). unfold on_rib, zoom in Hins.
  destruct (insert f path (loc_rib m)) as [[x|e|] r1] eqn:Hr; [|done..]. injection Hins as -> <-.
  apply insert_step in Hr as (Hok1 & Hroute & Hother & HF & Hst); [|done..].
  assert (Hs1 : stored Q r1).
  { eapply stored_step; [exact Hs|exact Hother| |done].
    apply HF; [done..|]. intros l Hl. by eapply Hs. }
  assert (Ho1 : forall n, n <> prefix path -> best_path n r1 = best_path n (loc_rib m)).
  { intros n Hn. by eapply best_path_frame. }
  rewrite !(best_path_family f (prefix path)) by done.
  destruct Hst as [[-> Hbest]|[-> (p & Hp & Hbest)]].
  - apply bind_inv_ok in Hi as ([] & m2 & Hfib & Hi). injection Hi as <- <-.
    apply to_fib_ok in Hfib. change (endpoint (with_rib r1 m)) with (endpoint m) in Hfib.
    assert (Hkind : id path' = id path) by (by apply route_id).
    assert (Hpre : prefix path' = prefix path) by (by apply (f_equal prefix) in Hroute).
    destruct (b && endpoint m).
    + destruct Hfib as (nh & Hnh & ->). cbn [loc_rib record with_rib trace].
      split; [done|]. do 2 (split; [done|]). split; [intros c; by rewrite view_snoc|].
      split; [|split; [done|]; left; by eauto].
      intros _ Hf. eapply (fib_ok_step _ m _ (prefix path) path' nh); [done| |done..].
      cbn. by rewrite (best_path_family f).
    + subst m2. cbn [loc_rib with_rib trace]. split; [done|]. do 3 (split; [done|]).
      split; [done|]. split; [done|]. left. by eauto.
  - injection Hi as <- <-. cbn [loc_rib with_rib trace]. split; [done|]. do 3 (split; [done|]).
    assert (Hsame : route <$> best_of f (prefix path) r1 = route <$> best_of f (prefix path) (loc_rib m)).
    { rewrite Hp, Hbest. simpl. by rewrite route_touch. }
    split; [|split; [done|by right]]. intros _ Hf. eapply fib_ok_same; [exact Hf| |done].
    intros n. cbn. destruct (decide (n = prefix path)) as [->|Hne]; [|by rewrite Ho1].
    by rewrite !(best_path_family f).
Qed.

Lemma fib_ok_delete tbl a m m' n : fib_ok m -> best_path n (loc_rib m') = None ->
  (forall k, k <> n -> best_path k (loc_rib m') = best_path k (loc_rib m)) ->
  trace m' = trace m ++ [DeleteRoute tbl (afi_inet a) n] -> fib_ok m'.
Proof.
  intros [Hf Hs] Hb Ho Ht. split.
  - intros k. rewrite Ht, asked_snoc. simpl. destruct (decide (n = k)) as [<-|Hne].
    + by rewrite lookup_delete_eq, Hb.
    + by rewrite lookup_delete_ne, Hf, Ho by done.
  - rewrite Ht, Forall_app. split; [done|]. constructor; [|done]. by exists a.
Qed.

Lemma drop_path_step Q f b adv wd n i m adv' wd' m' :
  rib_ok (loc_rib m) -> stored Q (loc_rib m) -> stable Q ->
  drop_path accepts f b (adv, wd) (n, i) m = (Ok (adv', wd'), m') ->
  frame m m' /\ rib_ok (loc_rib m') /\ stored Q (loc_rib m') /\
  (forall c, view c (trace m') = view c (trace m)) /\
  (b && endpoint m = true -> fib_ok m -> fib_ok m') /\
  (forall k, k <> n -> best_path k (loc_rib m') = best_path k (loc_rib m)) /\
  net_afi n = afi f /\ best_path n (loc_rib m) <> None /\
  ((exists k, adv' = adv /\ wd' = wd ++ [(n, k)] /\ best_path n (loc_rib m') = None) \/
   (exists p, adv' = adv ++ [(n, id p)] /\ wd' = wd /\ best_path n (loc_rib m') = Some p) \/
   (adv' = adv /\ wd' = wd /\ best_path n (loc_rib m') = best_path n (loc_rib m))).
Proof.
  intros Hok Hs HQ Hi. unfold drop_path in Hi. cbn [fst snd] in Hi.
  apply bind_inv_ok in Hi as (st & m1 & Hdrop & Hi). unfold on_rib, zoom in Hdrop.
  destruct (drop f n i (loc_rib m)) as [[x|e|] r1] eqn:Hr; [|done..]. injection Hdrop as -> <-.
  apply drop_step in Hr as (Hok1 & Hsome & Hother & HF & Hst); [|done].
  assert (Hfam : net_afi n = afi f).
  { unfold best_of in Hsome. destruct (get f n (loc_rib m)) as [l|] eqn:Hl; [|done]. by eapply Hs. }
  assert (Hs1 : stored Q r1).
  { eapply stored_step; [exact Hs|exact Hother| |done]. apply HF; [done|]. intros l Hl. by eapply Hs. }
  assert (Ho1 : forall k, k <> n -> best_path k r1 = best_path k (loc_rib m)).
  { intros k Hk. by eapply best_path_frame. }
  rewrite !(best_path_family f n) by done.
  apply bind_inv_ok in Hi as (m2 & m3 & Hget & Hi). injection Hget as <- <-. cbn [loc_rib with_rib] in Hi.
  destruct Hst as [(k & -> & Hbest)|[(p & -> & Hbest)|[-> Hbest]]].
  - apply bind_inv_ok in Hi as ([] & m2 & Hfib & Hi). injection Hi as <- <- <-.
    cbn [endpoint with_rib] in Hfib. destruct (b && endpoint m).
    + apply emit_ok in Hfib as ->. cbn [loc_rib record with_rib trace].
      split; [done|]. do 2 (split; [done|]). split; [intros c; by rewrite view_snoc|].
      split; [|do 3 (split; [done|]); left; by eauto].
      intros _ Hf. eapply (fib_ok_delete _ _ m _ n); [done| |done|reflexivity].
      cbn. by rewrite (best_path_family f).
    + injection Hfib as <-. cbn [loc_rib with_rib trace]. split; [done|]. do 3 (split; [done|]).
      split; [done|]. do 3 (split; [done|]). left. by eauto.
  - rewrite (get_by_best _ _ _ _ Hbest) in Hi.
    apply bind_inv_ok in Hi as ([] & m2 & Hfib & Hi). injection Hi as <- <- <-.
    apply to_fib_ok in Hfib. change (endpoint (with_rib r1 m)) with (endpoint m) in Hfib.
    destruct (b && endpoint m).
    + destruct Hfib as (nh & Hnh & ->). cbn [loc_rib record with_rib trace].
      split; [done|]. do 2 (split; [done|]). split; [intros c; by rewrite view_snoc|].
      split; [|do 3 (split; [done|]); right; left; by eauto].
      intros _ Hf. eapply (fib_ok_step _ m _ n p nh); [done| |done|by apply (best_of_prefix f n r1 p)|done..].
      cbn. by rewrite (best_path_family f).
    + subst m2. cbn [loc_rib with_rib trace]. split; [done|]. do 3 (split; [done|]).
      split; [done|]. do 3 (split; [done|]). right. left. by eauto.
  - injection Hi as <- <- <-. cbn [loc_rib with_rib trace]. split; [done|]. do 3 (split; [done|]).
    split; [|do 3 (split; [done|]); by right; right].
    intros _ Hf. eapply fib_ok_same; [exact Hf| |done].
    intros k. cbn. destruct (decide (k = n)) as [->|Hne]; [|by rewrite Ho1].
    by rewrite !(best_path_family f), Hbest.
Qed.

(** *** Batches *)

Lemma moved_refl r : moved r r [] [].
Proof. intros n. by rewrite bool_decide_false by apply not_elem_of_nil. Qed.

Lemma moved_same r0 r r' adv wd : moved r0 r adv wd ->
  (forall k, route <$> best_path k r' = route <$> best_path k r) -> moved r0 r' adv wd.
Proof.
  intros Hm Hs n. specialize (Hm n). specialize (Hs n). destruct (bool_decide (n ∈ wd.*1)).
  - rewrite Hm in Hs. by destruct (best_path n r').
  - destruct (last_id adv n) as [i|]; [|congruence]. destruct Hm as (p & Hp & Hi). rewrite Hp in Hs.
    destruct (best_path n r') as [q|]; [|done]. exists q. split; [done|].
    apply (f_equal (fmap id)) in Hs. simpl in Hs. congruence.
Qed.

Lemma moved_advertise r0 r r' adv wd n p : moved r0 r adv wd -> n ∉ wd.*1 ->
  (forall k, k <> n -> best_path k r' = best_path k r) -> best_path n r' = Some p ->
  moved r0 r' (adv ++ [(n, id p)]) wd.
Proof.
  intros Hm Hn Ho Hp k. rewrite last_id_snoc. destruct (decide (n = k)) as [<-|Hne].
  - rewrite bool_decide_false, bool_decide_true by done. eauto.
  - specialize (Hm k). rewrite (bool_decide_false (n = k)) by done. by rewrite !Ho by congruence.
Qed.

Lemma moved_withdraw r0 r r' adv wd n x : moved r0 r adv wd ->
  (forall k, k <> n -> best_path k r' = best_path k r) -> best_path n r' = None ->
  moved r0 r' adv (wd ++ [(n, x)]).
Proof.
  intros Hm Ho Hp k. rewrite fmap_app. destruct (decide (n = k)) as [<-|Hne].
  - rewrite bool_decide_true; [done|]. apply elem_of_app. right. by left.
  - specialize (Hm k). rewrite (Ho k) by congruence.
    replace (bool_decide (k ∈ wd.*1 ++ [(n, x)].*1)) with (bool_decide (k ∈ wd.*1)); [done|].
    apply bool_decide_ext. csimpl. rewrite elem_of_app, list_elem_of_singleton. naive_solver.
Qed.

Lemma frame_trans m1 m2 m3 : frame m1 m2 -> frame m2 m3 -> frame m1 m3.
Proof. unfold frame. intuition congruence. Qed.

Lemma install_loop Q r0 f b paths ch m ch' m' : stable Q ->
  Forall (fun p => best p = false /\ net_afi (prefix p) = afi f /\ Q p) paths ->
  rib_ok (loc_rib m) -> stored Q (loc_rib m) ->
  for_fold (install_path accepts f b) paths ch m = (Ok ch', m') ->
  frame m m' /\ rib_ok (loc_rib m') /\ stored Q (loc_rib m') /\
  (forall c, view c (trace m') = view c (trace m)) /\
  (b && endpoint m = true -> fib_ok m -> fib_ok m') /\
  (moved r0 (loc_rib m) ch [] -> moved r0 (loc_rib m') ch' []) /\
  (Forall (fun n => net_afi n = afi f) ch.*1 -> Forall (fun n => net_afi n = afi f) ch'.*1).
Proof.
  intros HQ HF. revert ch m. induction HF as [|p paths (Hb & Hn & Hq) HF IH]; intros ch m Hok Hs Hi.
  { by injection Hi as <- <-. }
  apply bind_inv_ok in Hi as (ch1 & m1 & H1 & Hi).
  apply (install_path_step Q) in H1 as (Hfr & Hok1 & Hs1 & Hv & Hfib & Ho & Hst); [|done..].
  apply IH in Hi as (Hfr2 & Hok2 & Hs2 & Hv2 & Hfib2 & Hmv & Hfam); [|done..].
  split; [by eapply frame_trans|]. do 2 (split; [done|]). split; [intros c; by rewrite Hv2, Hv|].
  split; [|split].
  - intros Hbe Hf. apply Hfib2; [|by apply Hfib]. destruct Hfr as (_ & -> & _). done.
  - intros Hm. apply Hmv. destruct Hst as [[-> (q & Hq1 & Hid)]|[-> Hsame]].
    + rewrite <-Hid. eapply moved_advertise; [done|by apply not_elem_of_nil|done|done].
    + eapply moved_same; [done|]. intros k. destruct (decide (k = prefix p)) as [->|Hne]; [done|].
      by rewrite Ho.
  - intros Ha. apply Hfam. destruct Hst as [[-> _]|[-> _]]; [|done].
    rewrite fmap_app, Forall_app. by repeat constructor.
Qed.

Lemma drop_loop Q r0 f b ids adv wd m adv' wd' m' : stable Q ->
  rib_ok (loc_rib m) -> stored Q (loc_rib m) ->
  for_fold (drop_path accepts f b) ids (adv, wd) m = (Ok (adv', wd'), m') ->
  frame m m' /\ rib_ok (loc_rib m') /\ stored Q (loc_rib m') /\
  (forall c, view c (trace m') = view c (trace m)) /\
  (b && endpoint m = true -> fib_ok m -> fib_ok m') /\
  (moved r0 (loc_rib m) adv wd -> moved r0 (loc_rib m') adv' wd') /\
  (Forall (fun n => net_afi n = afi f) (adv.*1 ++ wd.*1) -> Forall (fun n => net_afi n = afi f) (adv'.*1 ++ wd'.*1)).
Proof.
  intros HQ. revert adv wd m. induction ids as [|[n i] ids IH]; intros adv wd m Hok Hs Hi.
  { by injection Hi as <- <- <-. }
  apply bind_inv_ok in Hi as ([adv1 wd1] & m1 & H1 & Hi).
  apply (drop_path_step Q) in H1 as (Hfr & Hok1 & Hs1 & Hv & Hfib & Ho & Hn & Hsome & Hst); [|done..].
  apply IH in Hi as (Hfr2 & Hok2 & Hs2 & Hv2 & Hfib2 & Hmv & Hfam); [|done..].
  split; [by eapply frame_trans|]. do 2 (split; [done|]). split; [intros c; by rewrite Hv2, Hv|].
  split; [|split].
  - intros Hbe Hf. apply Hfib2; [|by apply Hfib]. destruct Hfr as (_ & -> & _). done.
  - intros Hm. apply Hmv. destruct Hst as [(k & -> & -> & Hb)|[(p & -> & -> & Hb)|(-> & -> & Hb)]].
    + by eapply moved_withdraw.
    + eapply moved_advertise; [done| |done|done]. intros Hin. specialize (Hm n).
      by rewrite bool_decide_true in Hm.
    + eapply moved_same; [done|]. intros k. destruct (decide (k = n)) as [->|Hne]; [by rewrite Hb|].
      by rewrite Ho.
  - rewrite !Forall_app in Hfam |- *. intros [Ha Hw]. apply Hfam.
    destruct Hst as [(k & -> & -> & Hb)|[(p & -> & -> & Hb)|(-> & -> & Hb)]];
      rewrite ?fmap_app, ?Forall_app; by repeat constructor.
Qed.

(** *** What a peer is told *)

Lemma collect_view f r keep ch ps v n : rib_ok r -> (forall k, keep k = true) ->
  collect f r keep ch = Ok ps ->
  apply_event v (Advertise ps) !! n =
    match last_id ch n with Some i => get_by_id f n i r | None => v !! n end /\
  (forall i, last_id ch n = Some i -> get_by_id f n i r <> None).
Proof.
  intros Hok Hkeep. revert ps v. induction ch as [|[k i] ch IH]; intros ps v Hc.
  { by injection Hc as <-. }
  cbn [collect] in Hc. destruct (get_by_id f k i r) as [p|] eqn:Hp; [|done]. mred in Hc.
  destruct (collect f r keep ch) as [ps'|?|]; [|done..]. rewrite Hkeep in Hc. injection Hc as <-.
  assert (Hpre : prefix p = k).
  { unfold get_by_id in Hp. destruct (get f k r) as [l|] eqn:Hl; [|done].
    apply find_some in Hp as [Hin _]. destruct (get_ok _ _ _ _ Hok Hl) as [_ HF].
    rewrite List.Forall_forall in HF. by apply HF. }
  destruct (IH ps' (<[prefix p := p]> v) eq_refl) as [IH1 IH2]. cbn [last_id]. split.
  - change (apply_event v (Advertise (p :: ps'))) with (apply_event (<[prefix p := p]> v) (Advertise ps')).
    rewrite IH1, Hpre. destruct (last_id ch n); [done|]. destruct (decide (k = n)) as [<-|Hne].
    + by rewrite lookup_insert_eq, bool_decide_true.
    + by rewrite lookup_insert_ne, bool_decide_false.
  - intros j. destruct (last_id ch n); [by apply IH2|].
    destruct (decide (k = n)) as [<-|Hne]; [|by rewrite bool_decide_false].
    rewrite bool_decide_true by done. intros [= <-]. congruence.
Qed.

Lemma withdraw_view ns v n : apply_event v (Withdraw ns) !! n = if bool_decide (n ∈ ns) then None else v !! n.
Proof.
  revert v. induction ns as [|k ns IH]; intros v; [done|].
  change (apply_event v (Withdraw (k :: ns))) with (apply_event (delete k v) (Withdraw ns)). rewrite IH.
  destruct (decide (n = k)) as [->|Hne].
  - rewrite lookup_delete_eq, (bool_decide_true (k ∈ k :: ns)) by left. by destruct (bool_decide _).
  - rewrite lookup_delete_ne by congruence. replace (bool_decide (n ∈ k :: ns)) with (bool_decide (n ∈ ns)); [done|].
    apply bool_decide_ext. rewrite elem_of_cons. naive_solver.
Qed.

(** A loop over the peers that sends at most one event to each. *)
Lemma broadcast_ok (body : NeighborPair * Z -> M RibManager Error unit)
    (msg : NeighborPair -> res Error (option RibEvent)) peer c l m m' :
  (forall x tx m m', body (x, tx) m = (Ok tt, m') -> exists e, msg x = Ok e /\
     m' = match e with Some e => record (ToPeer tx e) m | None => m end) ->
  NoDup l.*1 -> (forall x tx, (x, tx) ∈ l -> tx = c <-> x = peer) ->
  for_each body l m = (Ok tt, m') ->
  frame m m' /\ loc_rib m' = loc_rib m /\ quiet m m' /\
  if bool_decide (peer ∈ l.*1) then
    exists e, msg peer = Ok e /\
      view c (trace m') = match e with Some e => apply_event (view c (trace m)) e | None => view c (trace m) end
  else view c (trace m') = view c (trace m).
Proof.
  intros Hbody. revert m. induction l as [|[x tx] l IH]; intros m Hnd Hc Hi.
  { injection Hi as <-. rewrite bool_decide_false by apply not_elem_of_nil. split_and!; try done. by apply quiet_refl. }
  apply bind_inv_ok in Hi as ([] & m1 & H1 & Hi). apply Hbody in H1 as (e & He & ->).
  csimpl in *. apply NoDup_cons in Hnd as [Hx Hnd].
  apply IH in Hi as (Hfr & Hrib & Hfib & Hv); [|done|intros y t Hy; apply Hc; by right].
  assert (Hxc : tx = c <-> x = peer) by (apply Hc; left).
  split; [by destruct e|]. split; [by destruct e|].
  split; [destruct e; [eapply quiet_trans; [|exact Hfib]; by apply quiet_record|exact Hfib]|].
  assert (Hv1 : view c (trace (match e with Some e => record (ToPeer tx e) m | None => m end)) =
    if tx =? c then match e with Some e => apply_event (view c (trace m)) e | None => view c (trace m) end
    else view c (trace m)).
  { destruct e as [e|]; [|by destruct (tx =? c)]. cbn [trace record]. by rewrite view_snoc. }
  rewrite Hv1 in Hv. destruct (decide (x = peer)) as [->|Hne].
  - rewrite (bool_decide_true (_ ∈ _ :: _)) by left. rewrite (bool_decide_false (peer ∈ l.*1)) in Hv by done.
    rewrite (proj2 (Z.eqb_eq tx c)) in Hv by (by apply Hxc). eauto.
  - rewrite (proj2 (Z.eqb_neq tx c)) in Hv by naive_solver.
    replace (bool_decide (peer ∈ x :: l.*1)) with (bool_decide (peer ∈ l.*1)); [done|].
    apply bool_decide_ext. rewrite elem_of_cons. naive_solver.
Qed.

Context (peer_iter : gmap NeighborPair Z -> list (NeighborPair * Z)).
Context (peer_iter_perm : forall m, peer_iter m ≡ₚ map_to_list m).

(** Only [peer] listens on the channel [c]. *)
Definition channel_of (peer : NeighborPair) (c : Z) (m : RibManager) : Prop :=
  forall x tx, peers_tx m !! x = Some tx -> tx = c <-> x = peer.

Lemma peer_loop (body : NeighborPair * Z -> M RibManager Error unit)
    (msg : NeighborPair -> res Error (option RibEvent)) peer c m m' :
  (forall x tx m m', body (x, tx) m = (Ok tt, m') -> exists e, msg x = Ok e /\
     m' = match e with Some e => record (ToPeer tx e) m | None => m end) ->
  channel_of peer c m -> for_each body (peer_iter (peers_tx m)) m = (Ok tt, m') ->
  frame m m' /\ loc_rib m' = loc_rib m /\ quiet m m' /\
  match peers_tx m !! peer with
  | Some _ => exists e, msg peer = Ok e /\
      view c (trace m') = match e with Some e => apply_event (view c (trace m)) e | None => view c (trace m) end
  | None => view c (trace m') = view c (trace m)
  end.
Proof.
  intros Hbody Hc Hi. apply (broadcast_ok body msg peer c) in Hi as (Hfr & Hr & Hf & Hv).
  - do 3 (split; [done|]). case_bool_decide as Hp.
    + rewrite peer_iter_perm in Hp. apply list_elem_of_fmap in Hp as ([x tx] & -> & Hx).
      apply elem_of_map_to_list in Hx. simpl. by rewrite Hx.
    + destruct (peers_tx m !! peer) as [tx|] eqn:Hx; [|done]. destruct Hp. rewrite peer_iter_perm.
      apply list_elem_of_fmap. exists (peer, tx). split; [done|]. by apply elem_of_map_to_list.
  - done.
  - rewrite peer_iter_perm. apply NoDup_fst_map_to_list.
  - intros x tx Hx. rewrite peer_iter_perm, elem_of_map_to_list in Hx. by apply Hc.
Qed.

Lemma advertise_ok f ch keep peer c m m' : channel_of peer c m ->
  advertise accepts peer_iter f ch keep m = (Ok tt, m') ->
  frame m m' /\ loc_rib m' = loc_rib m /\ quiet m m' /\
  match peers_tx m !! peer with
  | Some _ => exists ps, collect f (loc_rib m) (keep peer) ch = Ok ps /\
      view c (trace m') = apply_event (view c (trace m)) (Advertise ps)
  | None => view c (trace m') = view c (trace m)
  end.
Proof.
  intros Hc Hi. apply (peer_loop _ (fun x => ps ← collect f (loc_rib m) (keep x) ch;
    Ok (match ps with [] => None | _ => Some (Advertise ps) end)) peer c) in Hi as (Hfr & Hr & Hf & Hv); [| |done].
  - do 3 (split; [done|]). destruct (peers_tx m !! peer); [|done]. destruct Hv as (e & He & Hv).
    destruct (collect f (loc_rib m) (keep peer) ch) as [ps|?|]; [|done..]. exists ps. split; [done|].
    injection He as <-. by destruct ps.
  - intros x tx m1 m2 Hb. apply bind_inv_ok in Hb as (ps & m3 & Hl & Hb). injection Hl as Hl <-.
    rewrite Hl. eexists. split; [reflexivity|]. destruct ps; [by injection Hb as <-|]. by apply emit_ok in Hb.
Qed.

Lemma withdraw_ok wd keep peer c m m' : channel_of peer c m -> (forall k, keep peer k = true) ->
  withdraw accepts peer_iter wd keep m = (Ok tt, m') ->
  frame m m' /\ loc_rib m' = loc_rib m /\ quiet m m' /\
  match peers_tx m !! peer with
  | Some _ => view c (trace m') = apply_event (view c (trace m)) (Withdraw wd.*1)
  | None => view c (trace m') = view c (trace m)
  end.
Proof.
  intros Hc Hk Hi. apply (peer_loop _ (fun x => Ok (match map fst (List.filter (fun y => keep x y.2) wd) with
    [] => None | ns => Some (Withdraw ns) end)) peer c) in Hi as (Hfr & Hr & Hf & Hv); [| |done].
  - do 3 (split; [done|]). destruct (peers_tx m !! peer); [|done]. destruct Hv as (e & [= <-] & Hv).
    replace (List.filter (fun y => keep peer y.2) wd) with wd in Hv.
    + by destruct wd.
    + symmetry. apply List.forallb_filter_id, List.forallb_forall. auto.
  - intros x tx m1 m2 Hb. eexists. split; [reflexivity|].
    destruct (map fst _); [by injection Hb as <-|]. by apply emit_ok in Hb.
Qed.

(** After a batch, every network's best path has either been told to the peer
    or is the one it was told before. *)
Definition told (r0 r : LocRib) (v0 v : gmap IpNet Path) : Prop := forall n,
  route <$> v !! n = route <$> best_path n r \/
  (v !! n = v0 !! n /\ route <$> best_path n r = route <$> best_path n r0).

Lemma told_collect r0 r f adv wd keep ps v : rib_ok r -> moved r0 r adv wd ->
  Forall (fun n => net_afi n = afi f) (adv.*1 ++ wd.*1) -> (forall k, keep k = true) ->
  collect f r keep adv = Ok ps ->
  told r0 r v (apply_event (apply_event v (Withdraw wd.*1)) (Advertise ps)).
Proof.
  intros Hok Hm Hfam Hk Hc n. specialize (Hm n).
  destruct (collect_view f r keep adv ps (apply_event v (Withdraw wd.*1)) n Hok Hk Hc) as [-> Hsome].
  assert (Hlast : forall i, last_id adv n = Some i -> n ∈ adv.*1).
  { clear. induction adv as [|[k j] adv IH]; simpl; [done|]. intros i.
    destruct (last_id adv n); [intros [= ->]; right; by eapply IH|].
    destruct (decide (k = n)) as [->|Hne]; [left|by rewrite bool_decide_false]. }
  rewrite Forall_app, !Forall_forall in Hfam. destruct Hfam as [Hfa Hfw].
  destruct (last_id adv n) as [i|] eqn:Hl.
  - rewrite (best_path_family f) in Hm by (by eapply Hfa, Hlast).
    rewrite (best_path_family f) by (by eapply Hfa, Hlast). specialize (Hsome _ eq_refl).
    case_bool_decide.
    + destruct Hsome. unfold best_of in Hm. unfold get_by_id.
      destruct (get f n r) as [[|q l]|]; done.
    + destruct Hm as (p & Hp & <-). left. by rewrite (get_by_best _ _ _ _ Hp), Hp.
  - rewrite withdraw_view. case_bool_decide; [left; by rewrite Hm|by right].
Qed.

Lemma fib_ok_eq m m' : loc_rib m' = loc_rib m -> quiet m m' -> fib_ok m -> fib_ok m'.
Proof. intros Hr [Ha Hs]%quiet_asked [Hf Ht]. split; [|by apply Hs]. intros n. by rewrite Hr, Ha. Qed.

Lemma advertise_to_listener a neighbor peer k : neighbor <> peer -> a <> Neighbor.asn peer ->
  advertise_to a neighbor peer k = true.
Proof.
  intros Hn Ha. destruct k; simpl; [done| |].
  - by rewrite (proj2 (Z.eqb_neq _ _)).
  - by rewrite bool_decide_false by congruence.
Qed.

Lemma replace_to_listener a peer k : a <> Neighbor.asn peer -> replace_to a peer k = true.
Proof. intros Ha. destruct k; simpl; [done| |done]. by rewrite (proj2 (Z.eqb_neq _ _)). Qed.

(** The state after a batch, for the listener [peer] on channel [c]. *)
Definition batch (Q : Path -> Prop) (b : bool) (peer : NeighborPair) (c : Z) (m m' : RibManager) : Prop :=
  frame m m' /\ rib_ok (loc_rib m') /\ stored Q (loc_rib m') /\
  (b && endpoint m = true -> fib_ok m -> fib_ok m') /\
  match peers_tx m !! peer with
  | Some _ => told (loc_rib m) (loc_rib m') (view c (trace m)) (view c (trace m'))
  | None => view c (trace m') = view c (trace m)
  end.

Lemma told_same r v : told r r v v.
Proof. intros n. by right. Qed.

Lemma channel_of_frame peer c m m' : channel_of peer c m -> frame m m' -> channel_of peer c m'.
Proof. intros Hc (_ & _ & Hp) x tx. rewrite Hp. apply Hc. Qed.

(** A path a peer may install: unmarked, in the family of the batch. *)
Definition batch_path (f : AddressFamily) (Q : Path -> Prop) (p : Path) : Prop :=
  best p = false /\ net_afi (prefix p) = afi f /\ Q p.

Lemma install_paths_ok Q b neighbor paths peer c m m' : stable Q ->
  rib_ok (loc_rib m) -> stored Q (loc_rib m) -> channel_of peer c m ->
  neighbor <> peer -> asn m <> Neighbor.asn peer ->
  (forall p0, head paths = Some p0 -> Forall (batch_path (family p0) Q) paths) ->
  install_paths accepts peer_iter neighbor paths b m = (Ok tt, m') -> batch Q b peer c m m'.
Proof.
  intros HQ Hok Hs Hc Hn Ha HF Hi. destruct paths as [|p0 paths].
  { injection Hi as <-. do 4 (split; [done|]). destruct (peers_tx m !! peer); [apply told_same|done]. }
  unfold install_paths in Hi. apply bind_inv_ok in Hi as (ch & m1 & Hl & Hi).
  apply (install_loop Q (loc_rib m)) in Hl as (Hfr & Hok1 & Hs1 & Hv & Hfib & Hmv & Hfam); [|done|by apply HF|done..].
  specialize (Hmv (moved_refl _)). specialize (Hfam (Forall_nil_2 _)).
  apply bind_inv_ok in Hi as (m2 & m3 & Hg & Hi). injection Hg as <- <-.
  apply (advertise_ok _ _ _ peer c) in Hi as (Hfr2 & Hr2 & Hfib2 & Hv2); [|by eapply channel_of_frame].
  rewrite Hv in Hv2. destruct (Hfr) as (Hasn & _ & Hpeers). rewrite Hpeers, Hasn in Hv2.
  split; [by eapply frame_trans|]. rewrite Hr2. do 2 (split; [done|]).
  split; [intros Hb Hf; eapply fib_ok_eq; [done|done|by apply Hfib]|].
  destruct (peers_tx m !! peer); [|done]. destruct Hv2 as (ps & Hps & Hv2). rewrite Hv2.
  eapply (told_collect _ _ _ ch [] _ ps); [done|done| |intros k; by apply advertise_to_listener|exact Hps].
  by rewrite app_nil_r.
Qed.

Lemma drop_paths_ok Q b neighbor f ids peer c m m' : stable Q ->
  rib_ok (loc_rib m) -> stored Q (loc_rib m) -> channel_of peer c m ->
  neighbor <> peer -> asn m <> Neighbor.asn peer ->
  drop_paths accepts peer_iter neighbor f ids b m = (Ok tt, m') -> batch Q b peer c m m'.
Proof.
  intros HQ Hok Hs Hc Hn Ha Hi. unfold drop_paths in Hi.
  apply bind_inv_ok in Hi as ([adv wd] & m1 & Hl & Hi).
  apply (drop_loop Q (loc_rib m)) in Hl as (Hfr & Hok1 & Hs1 & Hv & Hfib & Hmv & Hfam); [|done..].
  specialize (Hmv (moved_refl _)). specialize (Hfam (Forall_nil_2 _)).
  destruct (Hfr) as (Hasn & _ & Hpeers).
  apply bind_inv_ok in Hi as (m2 & m3 & Hg & Hi). injection Hg as <- <-. rewrite Hasn in Hi.
  apply bind_inv_ok in Hi as ([] & m2 & Hw & Hi).
  apply (withdraw_ok _ _ peer c) in Hw as (Hfr1 & Hr1 & Hfib1 & Hv1);
    [|by eapply channel_of_frame|intros k; by apply advertise_to_listener].
  apply (advertise_ok _ _ _ peer c) in Hi as (Hfr2 & Hr2 & Hfib2 & Hv2);
    [|eapply channel_of_frame; [by eapply channel_of_frame|done]].
  rewrite Hr1 in Hr2, Hv2. destruct (Hfr1) as (_ & _ & Hpeers1). rewrite Hpeers1, Hpeers in Hv2.
  rewrite Hv, Hpeers in Hv1.
  split; [by eapply frame_trans; [eapply frame_trans|]|]. rewrite Hr2. do 2 (split; [done|]).
  split; [intros Hb Hf; eapply fib_ok_eq; [exact Hr2|by eapply quiet_trans|by apply Hfib]|].
  destruct (peers_tx m !! peer); [|congruence]. destruct Hv2 as (ps & Hps & Hv2). rewrite Hv2, Hv1.
  eapply told_collect; [done|done|done|intros k; by apply replace_to_listener|exact Hps].
Qed.

(** *** Runs *)

Context {NL : NetIterLaws}.
Context (connect : string -> bool) (hash_builder : PathBuilder -> Z).

Lemma advertise_all r ps v n : (forall p, p ∈ ps -> best_path (prefix p) r = Some p) ->
  (apply_event v (Advertise ps) !! n = v !! n /\ n ∉ prefix <$> ps) \/
  apply_event v (Advertise ps) !! n = best_path n r.
Proof.
  revert v. induction ps as [|p ps IH]; intros v Hp; [left; split; [done|apply not_elem_of_nil]|].
  change (apply_event v (Advertise (p :: ps))) with (apply_event (<[prefix p := p]> v) (Advertise ps)).
  destruct (IH (<[prefix p := p]> v)) as [[-> Hn]| ->]; [intros q Hq; apply Hp; by right| |by right].
  destruct (decide (n = prefix p)) as [->|Hne].
  - right. rewrite lookup_insert_eq. symmetry. apply Hp. left.
  - left. rewrite lookup_insert_ne by congruence. split; [done|]. csimpl. by apply not_elem_of_cons.
Qed.

(** The initial advertisement of a family to the listener. *)
Lemma init_told f peer c m m' tx : rib_ok (loc_rib m) ->
  stored (fun p => peer_addr p <> addr peer) (loc_rib m) -> peers_tx m !! peer = Some tx -> tx = c ->
  init accepts f peer m = (Ok tt, m') ->
  frame m m' /\ loc_rib m' = loc_rib m /\
  (forall n, view c (trace m') !! n = view c (trace m) !! n \/ view c (trace m') !! n = best_path n (loc_rib m)) /\
  (forall n, net_afi n = afi f -> best_path n (loc_rib m) = None \/ view c (trace m') !! n = best_path n (loc_rib m)).
Proof.
  intros Hok Hs Htx -> Hi. unfold init in Hi. apply bind_inv_ok in Hi as (m0 & m1 & Hg & Hi).
  injection Hg as <- <-. destruct (get_all_best f (loc_rib m)) as [bs|] eqn:Hbs.
  - rewrite Htx in Hi. apply emit_ok in Hi as ->. cbn [trace record loc_rib].
    assert (Hbest : forall p, p ∈ bs -> best_path (prefix p) (loc_rib m) = Some p /\ peer_addr p <> addr peer).
    { intros p Hp. destruct (proj2 (get_all_best_elem f (loc_rib m) p)) as [n Hn]; [by eauto|].
      destruct (stored_best _ _ _ _ _ Hs Hn) as [Hfam HQ].
      rewrite (best_of_prefix f n (loc_rib m) p), (best_path_family f) by done. done. }
    rewrite (List.forallb_filter_id (init_filter m peer) bs).
    2:{ apply List.forallb_forall. intros p Hp. apply list_elem_of_In, Hbest in Hp as [_ Hp].
        unfold init_filter. by rewrite bool_decide_false. }
    rewrite view_snoc, Z.eqb_refl. split; [done|]. split; [done|].
    pose proof (fun n => advertise_all (loc_rib m) bs (view c (trace m)) n (fun p Hp => proj1 (Hbest p Hp))) as Hall.
    split; [intros n; destruct (Hall n) as [[? _]|?]; auto|]. intros n Hn.
    destruct (best_path n (loc_rib m)) as [p|] eqn:Hp; [right|by left].
    destruct (Hall n) as [[_ Hnot]|Hv]; [|congruence]. destruct Hnot.
    rewrite (best_path_family f) in Hp by done.
    destruct (proj1 (get_all_best_elem f (loc_rib m) p)) as (bs' & Hbs' & Hin); [by eauto|].
    rewrite Hbs in Hbs'. injection Hbs' as <-. apply list_elem_of_fmap. exists p. split; [|done].
    by rewrite (best_of_prefix f n (loc_rib m) p).
  - injection Hi as <-. split; [done|]. split; [done|]. split; [by left|]. intros n Hn. left.
    destruct (best_path n (loc_rib m)) as [p|] eqn:Hp; [|done]. rewrite (best_path_family f) in Hp by done.
    destruct (proj1 (get_all_best_elem f (loc_rib m) p)) as (bs' & Hbs' & _); [by eauto|]. congruence.
Qed.

(** The events of a run in which [peer], on channel [c], is an external peer
    that installs no paths: they are well formed, no other peer has the channel,
    and the speaker's AS number and the single-path mode do not change to values
    that make [peer] internal or enable multipath. *)
Definition installable (peer : NeighborPair) (paths : list Path) : Prop :=
  forall p0, head paths = Some p0 ->
    Forall (batch_path (family p0) (fun p => peer_addr p <> addr peer)) paths.

Definition listening (peer : NeighborPair) (c : Z) (now : nat -> Z) (m : RibManager) (e : RibEvent) : Prop :=
  match e with
  | SetAsn a => a <> Neighbor.asn peer
  | SetMultiPath enable => enable = false
  | AddPeer x tx => tx = c <-> x = peer
  | DeletePeer x => x <> peer
  | InstallPaths x paths => x <> peer /\ installable peer paths
  | DropPaths x _ _ => x <> peer
  | Init _ x => x = peer -> is_Some (peers_tx m !! peer)
  | AddPath networks l => forall paths, local_paths hash_builder now m networks l = Ok paths -> installable peer paths
  | _ => True
  end.

(** Runs of events handled without an error, and the families for which [peer]
    has asked for the initial paths. *)
Inductive run (peer : NeighborPair) (c : Z) : gset Afi -> RibManager -> Prop :=
| run_new a i ep tbl protocols m :
    new connect a i ep tbl protocols false = Ok m -> a <> Neighbor.asn peer -> run peer c ∅ m
| run_event fs m now e m' :
    run peer c fs m -> listening peer c now m e ->
    handle accepts peer_iter hash_builder now e m = (Ok tt, m') ->
    run peer c (match e with
                | Init f x => if bool_decide (x = peer) then {[afi f]} ∪ fs else fs
                | _ => fs
                end) m'.

Record mirror (peer : NeighborPair) (c : Z) (fs : gset Afi) (m : RibManager) : Prop := {
  mir_ok : rib_ok (loc_rib m);
  mir_stored : stored (fun p => peer_addr p <> addr peer) (loc_rib m);
  mir_asn : asn m <> Neighbor.asn peer;
  mir_chan : channel_of peer c m;
  mir_none : peers_tx m !! peer = None -> fs = ∅ /\ view c (trace m) = ∅;
  mir_sound n : view c (trace m) !! n = None \/
    route <$> view c (trace m) !! n = route <$> best_path n (loc_rib m);
  mir_complete n : net_afi n ∈ fs ->
    route <$> view c (trace m) !! n = route <$> best_path n (loc_rib m);
}.

Lemma stable_peer_addr a : stable (fun p => peer_addr p <> a).
Proof. intros p q H. apply (f_equal peer_addr) in H. simpl in H. congruence. Qed.

Lemma mirror_new peer c a i ep tbl protocols m :
  new connect a i ep tbl protocols false = Ok m -> a <> Neighbor.asn peer -> mirror peer c ∅ m.
Proof.
  intros Hn Ha. unfold new in Hn. mred in Hn.
  assert (Hget : forall g n, get g n (LocRib.new protocols false) = None).
  { intros g n. unfold get. destruct (table _ !! afi g) as [t|] eqn:Ht; [|done].
    by rewrite (new_table_empty _ _ _ _ Ht). }
  destruct ep as [ep|]; [destruct (connect ep); [|done]|]; injection Hn as <-; split; try done;
    (apply reachable_ok; constructor) || (intros g n l Hg; cbn in Hg; by rewrite Hget in Hg) || by left.
Qed.

Lemma mirror_batch peer c fs b m m' : mirror peer c fs m ->
  batch (fun p => peer_addr p <> addr peer) b peer c m m' -> mirror peer c fs m'.
Proof.
  intros [Hok Hs Ha Hc Hnone Hsound Hcompl] (Hfr & Hok' & Hs' & _ & Ht).
  destruct (Hfr) as (Hasn & _ & Hpeers).
  assert (Hc' : channel_of peer c m') by (by eapply channel_of_frame).
  rewrite <-Hasn in Ha. destruct (peers_tx m !! peer) as [tx|] eqn:Hp.
  - split; [done..| | |].
    + rewrite Hpeers, Hp. done.
    + intros n. destruct (Ht n) as [?|[-> ->]]; [by right|apply Hsound].
    + intros n Hn. destruct (Ht n) as [?|[-> ->]]; [done|by apply Hcompl].
  - destruct (Hnone eq_refl) as [-> Hv]. rewrite Hv in Ht. split; [done..| | |].
    + by rewrite Hpeers.
    + intros n. left. rewrite Ht. apply lookup_empty.
    + intros n Hn. by apply not_elem_of_empty in Hn.
Qed.

(** A step that neither changes the RIB nor tells the listener anything. *)
Lemma mirror_quiet peer c fs m m' : mirror peer c fs m ->
  rib_ok (loc_rib m') -> (forall g n, get g n (loc_rib m') = get g n (loc_rib m)) ->
  asn m' <> Neighbor.asn peer -> channel_of peer c m' ->
  (peers_tx m' !! peer = None -> peers_tx m !! peer = None) ->
  view c (trace m') = view c (trace m) -> mirror peer c fs m'.
Proof.
  intros [Hok Hs Ha Hc Hnone Hsound Hcompl] Hok' Hget Ha' Hc' Hp Hv.
  assert (Hbest : forall n, best_path n (loc_rib m') = best_path n (loc_rib m)).
  { intros n. unfold best_path, best_of. by rewrite Hget. }
  split; try done.
  - intros g n l. rewrite Hget. apply Hs.
  - rewrite Hv. auto.
  - intros n. rewrite Hv, Hbest. apply Hsound.
  - intros n Hn. rewrite Hv, Hbest. by apply Hcompl.
Qed.

Lemma mirror_emit peer c fs e o m m' : mirror peer c fs m -> emit accepts e o m = (Ok tt, m') ->
  (forall tx ev, o = ToPeer tx ev -> tx <> c) -> mirror peer c fs m'.
Proof.
  intros Hm Hi Ho. apply emit_ok in Hi as ->. eapply mirror_quiet; [exact Hm| | | | | |]; try apply Hm; try done.
  cbn [trace record]. rewrite view_snoc. destruct o as [tx ev| | | | |]; try done.
  rewrite (proj2 (Z.eqb_neq tx c)); [done|]. by eapply Ho.
Qed.

Lemma mirror_init peer c fs f x m m' : mirror peer c fs m ->
  (x = peer -> is_Some (peers_tx m !! peer)) -> init accepts f x m = (Ok tt, m') ->
  mirror peer c (if bool_decide (x = peer) then {[afi f]} ∪ fs else fs) m'.
Proof.
  intros Hm Hreg Hi. case_bool_decide as Hx.
  - subst x. destruct (Hreg eq_refl) as [tx Htx]. destruct (Hm) as [Hok Hs Ha Hc Hnone Hsound Hcompl].
    assert (Hcc : tx = c) by (by apply (Hc peer)).
    destruct (init_told f peer c m m' tx) as (Hfr & Hr & Hv & Hcov); [done..|].
    destruct (Hfr) as (Hasn & _ & Hpeers). split; rewrite ?Hr; try done.
    + by rewrite Hasn.
    + by eapply channel_of_frame.
    + by rewrite Hpeers, Htx.
    + intros n. destruct (Hv n) as [->| ->]; [apply Hsound|by right].
    + intros n [Hn%elem_of_singleton|Hn]%elem_of_union.
      * destruct (Hcov n Hn) as [Hb| ->]; [|done]. rewrite Hb. destruct (Hv n) as [->|Hv']; [|congruence].
        destruct (Hsound n) as [->|Hsn]; [done|]. by rewrite Hsn, Hb.
      * destruct (Hv n) as [->| ->]; [by apply Hcompl|done].
  - unfold init in Hi. apply bind_inv_ok in Hi as (m0 & m1 & Hg & Hi). injection Hg as <- <-.
    destruct (get_all_best f (loc_rib m)); [|by injection Hi as <-].
    destruct (peers_tx m !! x) as [tx|] eqn:Htx; [|done].
    eapply mirror_emit; [exact Hm|exact Hi|]. intros tx' ev [= <- _] ->. by apply (mir_chan _ _ _ _ Hm x c) in Htx as [Hc' _]; apply Hx, Hc'.
Qed.

Lemma rib_ok_single_path r : rib_ok r -> rib_ok (LocRib.set_multipath false r).2.
Proof. intros [_ Hr]. by split. Qed.

Lemma mirror_event peer c fs now e m m' : mirror peer c fs m -> listening peer c now m e ->
  handle accepts peer_iter hash_builder now e m = (Ok tt, m') ->
  mirror peer c (match e with
                 | Init f x => if bool_decide (x = peer) then {[afi f]} ∪ fs else fs
                 | _ => fs
                 end) m'.
Proof.
  intros Hm He Hi. pose proof Hm as [Hok Hs Ha Hc Hnone _ _].
  assert (Hself : forall i, Neighbor.new i (asn m) <> peer) by (intros i <-; by apply Ha).
  destruct e as [a|i|enable|x tx|x|f x|f x|ns l|f ns|x paths|x f ids|ps|ns|f|n f]; cbn in Hi; simpl in He.
  - injection Hi as <-. eapply mirror_quiet; try done.
  - injection Hi as <-. eapply mirror_quiet; try done.
  - subst enable. injection Hi as <-. eapply mirror_quiet; try done. by apply rib_ok_single_path.
  - unfold add_peer in Hi. apply bind_inv_ok in Hi as (m0 & m1 & Hg & Hi). injection Hg as <- <-.
    destruct (peers_tx m !! x) eqn:Hx; [done|]. injection Hi as <-.
    eapply mirror_quiet; try done.
    + intros y t. cbn. intros [[<- <-]|[_ Hy]]%lookup_insert_Some; [done|by apply Hc].
    + cbn. by intros [? _]%lookup_insert_None.
  - unfold delete_peer in Hi. apply bind_inv_ok in Hi as (m0 & m1 & Hg & Hi). injection Hg as <- <-.
    destruct (peers_tx m !! x) eqn:Hx; [|done]. injection Hi as <-.
    eapply mirror_quiet; try done.
    + intros y t. cbn. intros [_ Hy]%lookup_delete_Some. by apply Hc.
    + cbn. by rewrite lookup_delete_ne.
  - by eapply mirror_init.
  - by injection Hi as <-.
  - unfold add_path in Hi. apply bind_inv_ok in Hi as (m0 & m1 & Hg & Hi). injection Hg as <- <-.
    apply bind_inv_ok in Hi as (paths & m1 & Hl & Hi). injection Hl as Hl <-.
    eapply mirror_batch; [exact Hm|]. eapply install_paths_ok; [apply stable_peer_addr|done..| |exact Hi].
    by apply He.
  - unfold delete_path in Hi. apply bind_inv_ok in Hi as (m0 & m1 & Hg & Hi). injection Hg as <- <-.
    eapply mirror_batch; [exact Hm|]. by eapply drop_paths_ok; [apply stable_peer_addr|done..|exact Hi].
  - destruct He as [Hx He]. eapply mirror_batch; [exact Hm|].
    by eapply install_paths_ok; [apply stable_peer_addr|done..|exact Hi].
  - eapply mirror_batch; [exact Hm|]. by eapply drop_paths_ok; [apply stable_peer_addr|done..|exact Hi].
  - done.
  - done.
  - unfold get_path in Hi. apply bind_inv_ok in Hi as (m0 & m1 & Hg & Hi). injection Hg as <- <-.
    destruct (get_all f (loc_rib m)); [by eapply mirror_emit|by injection Hi as <-].
  - unfold get_path_by_prefix in Hi. apply bind_inv_ok in Hi as (m0 & m1 & Hg & Hi). injection Hg as <- <-.
    destruct (get f n (loc_rib m)); [by eapply mirror_emit|by injection Hi as <-].
Qed.

(** C2: an external peer that only listens always knows the best paths. In every
    run of the manager without multipath in which every event is handled without
    an error ([network_announced_twice] is one that fails), in whatever order
    the peers are served, and in which the peer is of another AS, has a channel
    of its own, installs and drops nothing and stays registered, while the other
    peers and the API install batches of unmarked paths of one family that are
    not from its address: each path the peer has been told to advertise is the
    best path of its network, and from its initial request for a family on, the
    networks it knows of that family are exactly those that have a path, each
    with its best one. *)
Theorem listener_mirrors_best_paths (peer : NeighborPair) (c : Z) (fs : gset Afi) (m : RibManager)
  (Hrun : run peer c fs m) (n : IpNet) :
  (forall p, view c (trace m) !! n = Some p ->
     exists q, best_path n (loc_rib m) = Some q /\ route p = route q) /\
  (net_afi n ∈ fs -> route <$> view c (trace m) !! n = route <$> best_path n (loc_rib m)).
Proof.
  assert (Hm : mirror peer c fs m).
  { induction Hrun as [|fs m now e m' Hrun IH He Hi]; [by eapply mirror_new|by eapply mirror_event]. }
  split; [|by apply Hm]. intros p Hp. destruct (mir_sound _ _ _ _ Hm n) as [Hn|Hn]; [congruence|].
  rewrite Hp in Hn. destruct (best_path n (loc_rib m)) as [q|]; [|done]. exists q. split; [done|].
  by apply (inj Some).
Qed.

(** *** The FIB *)

Definition from_peers (e : RibEvent) : Prop :=
  match e with
  | SetMultiPath enable => enable = false
  | InstallPaths _ paths => forall p0, head paths = Some p0 -> Forall (batch_path (family p0) (fun _ => True)) paths
  | AddPath _ _ | DeletePath _ _ => False
  | _ => True
  end.

(** Runs with a FIB server in which all paths come from peers. *)
Inductive fib_run : RibManager -> Prop :=
| fib_run_new a i ep tbl protocols m : new connect a i (Some ep) tbl protocols false = Ok m -> fib_run m
| fib_run_event m now e m' : fib_run m -> from_peers e ->
    handle accepts peer_iter hash_builder now e m = (Ok tt, m') -> fib_run m'.

Record fib_inv (m : RibManager) : Prop := {
  fi_ok : rib_ok (loc_rib m);
  fi_stored : stored (fun _ => True) (loc_rib m);
  fi_endpoint : endpoint m = true;
  fi_fib : fib_ok m;
}.

(** There is always a neighbor and a channel nobody uses. *)
Lemma unused_peer m x : exists peer c, channel_of peer c m /\ x <> peer /\ asn m <> Neighbor.asn peer.
Proof.
  set (k := fresh (asn m :: Neighbor.asn x :: (Neighbor.asn <$> (map_to_list (peers_tx m)).*1))).
  set (c := fresh (map_to_list (peers_tx m)).*2).
  pose proof (infinite_is_fresh (asn m :: Neighbor.asn x :: (Neighbor.asn <$> (map_to_list (peers_tx m)).*1))) as Hk.
  pose proof (infinite_is_fresh (map_to_list (peers_tx m)).*2) as Hc. fold k in Hk. fold c in Hc.
  rewrite !not_elem_of_cons in Hk. destruct Hk as (Hk1 & Hk2 & Hk3).
  exists {| addr := AV4 0; Neighbor.asn := k |}, c. split; [|split; [intros Hx; apply Hk2; by rewrite Hx|done]].
  intros y t Hy. apply elem_of_map_to_list in Hy. split.
  - intros ->. destruct Hc. apply list_elem_of_fmap. by exists (y, c).
  - intros ->. destruct Hk3. rewrite <-list_fmap_compose. apply list_elem_of_fmap.
    exists ({| addr := AV4 0; Neighbor.asn := k |}, t). by split.
Qed.

Lemma fib_inv_quiet m m' : fib_inv m -> rib_ok (loc_rib m') ->
  (forall g n, get g n (loc_rib m') = get g n (loc_rib m)) ->
  endpoint m' = endpoint m -> quiet m m' -> fib_inv m'.
Proof.
  intros [Hok Hs He [Hf Ht]] Hok' Hget He' [Ha Hs']%quiet_asked. split; [done| |congruence|split; [|by apply Hs']].
  - intros g n l. rewrite Hget. apply Hs.
  - intros n. unfold best_path, best_of. rewrite Hget, Ha. apply Hf.
Qed.

Lemma fib_inv_batch peer c m m' : fib_inv m -> batch (fun _ => True) true peer c m m' -> fib_inv m'.
Proof.
  intros [Hok Hs He Hf] ((_ & He' & _) & Hok' & Hs' & Hf' & _). split; [done|done|congruence|].
  apply Hf'; [|done]. by rewrite He.
Qed.

Lemma fib_inv_emit e o m m' : fib_inv m -> emit accepts e o m = (Ok tt, m') ->
  message o -> fib_inv m'.
Proof.
  intros Hm Hi Ho. apply emit_ok in Hi as ->. eapply fib_inv_quiet; [exact Hm|apply Hm|done|done|by apply quiet_record].
Qed.

Lemma fib_inv_event now e m m' : fib_inv m -> from_peers e ->
  handle accepts peer_iter hash_builder now e m = (Ok tt, m') -> fib_inv m'.
Proof.
  intros Hm He Hi. pose proof Hm as [Hok Hs _ _].
  destruct e as [a|i|enable|x tx|x|f x|f x|ns l|f ns|x paths|x f ids|ps|ns|f|n f]; cbn in Hi; simpl in He; try done.
  - injection Hi as <-. by eapply fib_inv_quiet, quiet_refl.
  - injection Hi as <-. by eapply fib_inv_quiet, quiet_refl.
  - subst enable. injection Hi as <-. eapply fib_inv_quiet; try done; [by apply rib_ok_single_path|by apply quiet_refl].
  - unfold add_peer in Hi. apply bind_inv_ok in Hi as (m0 & m1 & Hg & Hi). injection Hg as <- <-.
    destruct (peers_tx m !! x); [done|]. injection Hi as <-. by eapply fib_inv_quiet, quiet_refl.
  - unfold delete_peer in Hi. apply bind_inv_ok in Hi as (m0 & m1 & Hg & Hi). injection Hg as <- <-.
    destruct (peers_tx m !! x); [|done]. injection Hi as <-. by eapply fib_inv_quiet, quiet_refl.
  - unfold init in Hi. apply bind_inv_ok in Hi as (m0 & m1 & Hg & Hi). injection Hg as <- <-.
    destruct (get_all_best f (loc_rib m)); [|by injection Hi as <-].
    destruct (peers_tx m !! x); [|done]. by eapply fib_inv_emit.
  - by injection Hi as <-.
  - destruct (unused_peer m x) as (peer & c & Hc & Hx & Ha).
    eapply (fib_inv_batch peer c); [done|]. by eapply install_paths_ok; [by intros ???|done..|exact Hi].
  - destruct (unused_peer m x) as (peer & c & Hc & Hx & Ha).
    eapply (fib_inv_batch peer c); [done|]. by eapply drop_paths_ok; [by intros ???|done..|exact Hi].
  - unfold get_path in Hi. apply bind_inv_ok in Hi as (m0 & m1 & Hg & Hi). injection Hg as <- <-.
    destruct (get_all f (loc_rib m)); [by eapply fib_inv_emit|by injection Hi as <-].
  - unfold get_path_by_prefix in Hi. apply bind_inv_ok in Hi as (m0 & m1 & Hg & Hi). injection Hg as <- <-.
    destruct (get f n (loc_rib m)); [by eapply fib_inv_emit|by injection Hi as <-].
Qed.

Lemma fib_inv_new a i ep tbl protocols m : new connect a i (Some ep) tbl protocols false = Ok m -> fib_inv m.
Proof.
  intros Hn. unfold new in Hn. mred in Hn. destruct (connect ep); [|done]. injection Hn as <-.
  assert (Hget : forall g n, get g n (LocRib.new protocols false) = None).
  { intros g n. unfold get. destruct (table _ !! afi g) as [t|] eqn:Ht; [|done].
    by rewrite (new_table_empty _ _ _ _ Ht). }
  split; [apply reachable_ok; constructor|intros g n l Hg; cbn in Hg; by rewrite Hget in Hg|done|].
  split; [|done]. intros n. cbn. unfold best_path, best_of. by rewrite Hget.
Qed.

Lemma fib_run_inv m : fib_run m -> fib_inv m.
Proof. induction 1; [by eapply fib_inv_new|by eapply fib_inv_event]. Qed.

(** *** What is sent, whatever the result *)

(** From a state that agrees with [m0] on all but the RIB and the trace, an
    action changes only these, and what it sends has [Q]. *)
Definition emits {A} (m0 : RibManager) (Q : Output -> Prop) (act : M RibManager Error A) : Prop :=
  forall m r m', frame m0 m -> act m = (r, m') ->
  frame m m' /\ exists outs, trace m' = trace m ++ outs /\ Forall Q outs.

Lemma emits_silent {A} m0 Q (act : M RibManager Error A) :
  (forall m, frame m (act m).2 /\ trace (act m).2 = trace m) -> emits m0 Q act.
Proof.
  intros H m r m' _ Ha. specialize (H m). rewrite Ha in H. destruct H as [Hf Ht]. split; [done|].
  exists []. split; [by rewrite app_nil_r|done].
Qed.

Lemma emits_bind {A B} m0 Q (act : M RibManager Error A) (k : A -> M RibManager Error B) :
  emits m0 Q act -> (forall a, emits m0 Q (k a)) -> emits m0 Q (act ≫= k).
Proof.
  intros Ha Hk m r m' H0 H. unfold mbind, M_bind in H. destruct (act m) as [[a|e|] m1] eqn:E1.
  2,3: injection H as <- <-; by apply Ha in E1.
  apply Ha in E1 as (Hf1 & o1 & Ht1 & Ho1); [|done].
  apply Hk in H as (Hf2 & o2 & Ht2 & Ho2); [|by eapply frame_trans].
  split; [by eapply frame_trans|]. exists (o1 ++ o2). rewrite Ht2, Ht1, app_assoc. split; [done|by apply Forall_app].
Qed.

Lemma emits_ret {A} m0 Q (a : A) : emits m0 Q (mret a).
Proof. by apply emits_silent. Qed.

Lemma emits_throw {A} m0 Q e : emits (A:=A) m0 Q (throw e).
Proof. by apply emits_silent. Qed.

Lemma emits_lift {A} m0 Q (r : res Error A) : emits m0 Q (lift r).
Proof. by apply emits_silent. Qed.

Lemma emits_get {A} m0 Q (k : RibManager -> M RibManager Error A) :
  (forall m, frame m0 m -> emits m0 Q (k m)) -> emits m0 Q (get_st ≫= k).
Proof. intros H m r m' H0 Hk. by eapply (H m). Qed.

Lemma emits_rib {A} m0 Q (act : M LocRib Error A) : emits m0 Q (on_rib act).
Proof. apply emits_silent. intros m. unfold on_rib, zoom. by destruct (act (loc_rib m)). Qed.

Lemma emits_emit m0 (Q : Output -> Prop) e o : Q o -> emits m0 Q (emit accepts e o).
Proof.
  intros Ho m r m' _ Hi. unfold emit in Hi. mred in Hi. destruct (accepts (trace m) o); injection Hi as <- <-.
  - split; [done|]. exists [o]. split; [done|by constructor].
  - split; [done|]. exists []. by rewrite app_nil_r.
Qed.

Lemma emits_for_each {A} m0 Q (body : A -> M RibManager Error unit) l :
  (forall x, x ∈ l -> emits m0 Q (body x)) -> emits m0 Q (for_each body l).
Proof.
  induction l as [|x l IH]; intros H; [apply emits_ret|].
  apply emits_bind; [apply H; left|intros _; apply IH; intros y Hy; apply H; by right].
Qed.

Lemma emits_for_fold {A B} m0 Q (body : B -> A -> M RibManager Error B) l b :
  (forall b x, emits m0 Q (body b x)) -> emits m0 Q (for_fold body l b).
Proof. revert b. induction l as [|x l IH]; intros b H; [apply emits_ret|]. apply emits_bind; auto. Qed.

Create HintDb emits.
#[local] Hint Resolve emits_ret emits_throw emits_lift emits_rib emits_emit emits_for_fold : emits.

(** Outputs that are not advertisements have every property of advertisements. *)
Definition adverts (Q : Z -> list Path -> Prop) (o : Output) : Prop :=
  match o with ToPeer tx (Advertise ps) => Q tx ps | _ => True end.

Lemma emits_to_fib m0 Q b path req : (forall t v r, adverts Q (req t v r)) ->
  emits m0 (adverts Q) (to_fib accepts b path req).
Proof.
  intros Hr. apply emits_get. intros m _. destruct (b && endpoint m); [|apply emits_ret].
  destruct (next_hops path); [apply emits_throw|]. by apply emits_emit.
Qed.

Lemma emits_install_path m0 Q f b ch path : emits m0 (adverts Q) (install_path accepts f b ch path).
Proof.
  apply emits_bind; [apply emits_rib|]. intros [[] path']; auto with emits;
    (apply emits_bind; [by apply emits_to_fib|auto with emits]).
Qed.

Lemma emits_drop_path m0 Q f b acc x : emits m0 (adverts Q) (drop_path accepts f b acc x).
Proof.
  destruct acc as [adv wd]. apply emits_bind; [apply emits_rib|]. intros st. apply emits_get. intros m _.
  destruct st as [|n k|n i| |n i gw| |]; auto with emits.
  - apply emits_bind; [|auto with emits]. destruct (b && endpoint m); [by apply emits_emit|apply emits_ret].
  - destruct (get_by_id f n i (loc_rib m)); [|auto with emits].
    apply emits_bind; [by apply emits_to_fib|auto with emits].
  - destruct (get_by_id f n i (loc_rib m)); [|auto with emits]. apply emits_bind; [|auto with emits].
    destruct (b && endpoint m), gw; auto with emits. by apply emits_emit.
Qed.

Lemma collect_keep f r keep ch ps : collect f r keep ch = Ok ps -> Forall (fun p => keep (kind p) = true) ps.
Proof.
  revert ps. induction ch as [|[n i] ch IH]; intros ps H; [by injection H as <-|].
  cbn [collect] in H. destruct (get_by_id f n i r) as [p|]; [|done]. mred in H.
  destruct (collect f r keep ch) as [ps'|?|]; [|done..]. injection H as <-.
  destruct (keep (kind p)) eqn:Hk; [constructor; [done|]|]; by apply IH.
Qed.

Lemma emits_advertise m0 (Q : Z -> list Path -> Prop) f ch keep :
  (forall x tx ps, peers_tx m0 !! x = Some tx -> Forall (fun p => keep x (kind p) = true) ps -> Q tx ps) ->
  emits m0 (adverts Q) (advertise accepts peer_iter f ch keep).
Proof.
  intros HQ. apply emits_get. intros m (_ & _ & Hp). apply emits_for_each. intros [x tx] Hx.
  rewrite peer_iter_perm, elem_of_map_to_list, Hp in Hx. intros m1 r m2 H0 H.
  unfold mbind, M_bind, lift in H. destruct (collect f (loc_rib m) (keep x) ch) as [ps|e|] eqn:Hc.
  - apply collect_keep in Hc. destruct ps as [|p ps]; [by eapply (emits_ret m0)|].
    refine (emits_emit m0 (adverts Q) _ _ _ m1 r m2 H0 H). by eapply HQ.
  - injection H as <- <-. split; [done|]. exists []. by rewrite app_nil_r.
  - injection H as <- <-. split; [done|]. exists []. by rewrite app_nil_r.
Qed.

Lemma emits_withdraw m0 Q wd keep : emits m0 (adverts Q) (withdraw accepts peer_iter wd keep).
Proof.
  apply emits_get. intros m _. apply emits_for_each. intros [x tx] _.
  destruct (map fst _); [apply emits_ret|by apply emits_emit].
Qed.

(** What an advertisement must not hold, when the event [e] is handled in [m]. *)
Definition horizon (m : RibManager) (e : RibEvent) (tx : Z) (ps : list Path) : Prop :=
  exists x, peers_tx m !! x = Some tx /\
    (Neighbor.asn x = asn m -> Forall (fun p => kind p <> KInternal) ps) /\
    (forall paths, e = InstallPaths x paths -> Forall (fun p => kind p <> KExternal) ps).

Lemma horizon_keep m e x tx keep ps : peers_tx m !! x = Some tx ->
  (keep KInternal = true -> Neighbor.asn x <> asn m) ->
  (forall paths, keep KExternal = true -> e <> InstallPaths x paths) ->
  Forall (fun p => keep (kind p) = true) ps -> horizon m e tx ps.
Proof.
  intros Hx Hi Hext HF. exists x. split; [done|].
  split; [intros Hasn|intros paths Hp]; (eapply Forall_impl; [exact HF|]); intros p Hk Hkind; cbn in Hk;
    rewrite Hkind in Hk; [exact (Hi Hk Hasn)|exact (Hext paths Hk Hp)].
Qed.

Lemma emits_install m e x paths b : (forall y ps, e = InstallPaths y ps -> y = x) ->
  emits m (adverts (horizon m e)) (install_paths accepts peer_iter x paths b).
Proof.
  intros Hx. destruct paths as [|p0 paths]; [apply emits_ret|].
  apply emits_bind; [apply emits_for_fold; intros; apply emits_install_path|]. intros ch.
  apply emits_get. intros m1 (Hasn & _ & _). apply emits_advertise. intros y tx ps Hy.
  apply (horizon_keep _ _ y); [done| |]; simpl.
  - intros Hk. apply negb_true_iff, Z.eqb_neq in Hk. congruence.
  - intros ps' Hk Hp. apply negb_true_iff, bool_decide_eq_false in Hk. by eapply Hk, Hx.
Qed.

Lemma emits_drop m e x f ids b : (forall y ps, e <> InstallPaths y ps) ->
  emits m (adverts (horizon m e)) (drop_paths accepts peer_iter x f ids b).
Proof.
  intros Hno. apply emits_bind; [apply emits_for_fold; intros; apply emits_drop_path|].
  intros [adv wd]. apply emits_get. intros m1 (Hasn & _ & _).
  apply emits_bind; [apply emits_withdraw|intros _]. apply emits_advertise. intros y tx ps Hy.
  apply (horizon_keep _ _ y); [done| |]; simpl.
  - intros Hk. apply negb_true_iff, Z.eqb_neq in Hk. congruence.
  - intros ps' _. apply Hno.
Qed.

(** C10: internal paths stay out of the internal peers, and external paths are
    not sent back. Whatever the result of handling an event other than [Init],
    an advertisement goes to the channel of a registered peer; if the peer has
    the speaker's AS number it holds no path learned from an internal peer, and
    if the event is an installation by that peer it holds no external path. *)
Theorem split_horizon (now : nat -> Z) (e : RibEvent) (m m' : RibManager) (r : res Error unit)
  (He : forall f x, e <> Init f x)
  (Hh : handle accepts peer_iter hash_builder now e m = (r, m')) :
  exists outs, trace m' = trace m ++ outs /\
    forall tx ps, ToPeer tx (Advertise ps) ∈ outs -> horizon m e tx ps.
Proof.
  assert (Hsilent : trace m' = trace m -> exists outs, trace m' = trace m ++ outs /\
    forall tx ps, ToPeer tx (Advertise ps) ∈ outs -> horizon m e tx ps).
  { intros Ht. exists []. rewrite app_nil_r. split; [done|]. by intros tx ps ?%elem_of_nil. }
  assert (Hemits : emits m (adverts (horizon m e)) (handle accepts peer_iter hash_builder now e) -> exists outs,
    trace m' = trace m ++ outs /\ forall tx ps, ToPeer tx (Advertise ps) ∈ outs -> horizon m e tx ps).
  { intros H. apply H in Hh as (_ & outs & Ht & HF); [|done]. exists outs. split; [done|].
    intros tx ps Hin. rewrite Forall_forall in HF. by apply HF in Hin. }
  destruct e as [a|i|enable|x tx|x|f x|f x|ns l|f ns|x paths|x f ids|ps|ns|f|n f];
    try (apply Hemits; cbn -[install_paths drop_paths]; auto with emits; fail);
    try (apply Hsilent; by injection Hh as <- <-).
  - apply Hsilent. cbn in Hh. unfold add_peer in Hh. mred in Hh.
    destruct (peers_tx m !! x); by injection Hh as <- <-.
  - apply Hsilent. cbn in Hh. unfold delete_peer in Hh. mred in Hh.
    destruct (peers_tx m !! x); by injection Hh as <- <-.
  - by destruct (He f x).
  - apply Hemits, emits_get. intros m1 _. apply emits_bind; [apply emits_lift|]. intros paths. by apply emits_install.
  - apply Hemits, emits_get. intros m1 _. by apply emits_drop.
  - apply Hemits, emits_install. by intros y ps [= ->].
  - apply Hemits. by apply emits_drop.
  - apply Hemits, emits_get. intros m1 _. destruct (get_all f (loc_rib m1)); [by apply emits_emit|apply emits_ret].
  - apply Hemits, emits_get. intros m1 _. destruct (get f n (loc_rib m1)); [by apply emits_emit|apply emits_ret].
Qed.

(** The initial advertisement does not keep internal paths from internal
    peers. When a peer with the speaker's AS number asks for the paths of a
    family, it gets every best path learned from another address, those learned
    from other internal peers included. *)
Theorem init_leaks_internal_paths (m m' : RibManager) (f : AddressFamily) (x : NeighborPair) (tx : Z)
  (n : IpNet) (p : Path)
  (Hx : peers_tx m !! x = Some tx) (Hbest : best_of f n (loc_rib m) = Some p)
  (Hkind : kind p = KInternal) (Hasn : Neighbor.asn x = asn m) (Haddr : peer_addr p <> addr x)
  (Hi : init accepts f x m = (Ok tt, m')) :
  exists ps, trace m' = trace m ++ [ToPeer tx (Advertise ps)] /\ p ∈ ps.
Proof.
  unfold init in Hi. apply bind_inv_ok in Hi as (m0 & m1 & Hg & Hi). injection Hg as <- <-.
  destruct (proj1 (get_all_best_elem f (loc_rib m) p)) as (bs & Hbs & Hin); [by eauto|].
  rewrite Hbs, Hx in Hi. apply emit_ok in Hi as ->. eexists. split; [reflexivity|].
  apply list_elem_of_In, filter_In. split; [by apply list_elem_of_In|].
  unfold init_filter. by rewrite bool_decide_false.
Qed.
End facts.

(** ** Examples *)

Section witnesses.
#[local] Existing Instance simple_ipnet.
#[local] Existing Instance simple_iter.
#[local] Existing Instance simple_iter_laws.
#[local] Existing Instance debug_profile.

(** A run in which every message is taken, the peers are served in the order
    of the map, the clock stands still and all builders hash to 77. *)
Definition handle_ex (e : RibEvent) : M RibManager Error unit :=
  handle (fun _ _ => true) map_to_list (fun _ => 77) (fun _ => 0) e.

Definition after (es : list RibEvent) (m : RibManager) : RibManager :=
  foldl (fun m e => (handle_ex e m).2) m es.

Definition speaker (fib_server : bool) : RibManager :=
  {| asn := 65000; router_id := 1; loc_rib := LocRib.new [IPv4] false; endpoint := fib_server;
     table_id := 254; peers_tx := ∅; trace := [] |}.

Definition ext_peer : NeighborPair := Neighbor.new (AV4 2) 100.
Definition listener : NeighborPair := Neighbor.new (AV4 9) 300.
Definition int_peer : NeighborPair := Neighbor.new (AV4 3) 65000.
Definition int_source : NeighborPair := Neighbor.new (AV4 4) 65000.
Definition ext_path : Path := make_path 10 2 2 100 100 [100; 7].
Definition int_path : Path := make_path 11 4 4 65000 200 [7].

Lemma handle_ex_ok e m : (handle_ex e m).1 = Ok tt ->
  handle (fun _ _ => true) map_to_list (fun _ => 77) (fun _ => 0) e m = (Ok tt, (handle_ex e m).2).
Proof. unfold handle_ex. destruct (handle _ _ _ _ e m) as [r m']. simpl. by intros ->. Qed.

Definition m1 : RibManager := after [AddPeer listener 7; AddPeer ext_peer 8] (speaker true).
Definition m2 : RibManager := after [Init ipv4_unicast listener] m1.
Definition m3 : RibManager := after [InstallPaths ext_peer [ext_path]] m2.

Lemma listener_run : exists fs, IPv4 ∈ fs /\
  run (fun _ _ => true) map_to_list (fun _ => true) (fun _ => 77) listener 7 fs m3.
Proof.
  eexists. split; cycle 1.
  - eapply (run_event _ _ _ _ _ _ _ m2 (fun _ => 0) (InstallPaths ext_peer [ext_path]));
      [|split; [done|]|apply handle_ex_ok; exact (@eq_refl (res Error unit) (Ok tt) <: (handle_ex (InstallPaths ext_peer [ext_path]) m2).1 = Ok tt)].
    2:{ intros p0 [= <-]. by repeat constructor. }
    eapply (run_event _ _ _ _ _ _ _ m1 (fun _ => 0) (Init ipv4_unicast listener));
      [|intros _; by eexists|apply handle_ex_ok; exact (@eq_refl (res Error unit) (Ok tt) <: (handle_ex (Init ipv4_unicast listener) m1).1 = Ok tt)].
    eapply (run_event _ _ _ _ _ _ _ (after [AddPeer listener 7] (speaker true)) (fun _ => 0) (AddPeer ext_peer 8));
      [|done|by apply handle_ex_ok].
    eapply (run_event _ _ _ _ _ _ _ (speaker true) (fun _ => 0) (AddPeer listener 7)); [|done|by apply handle_ex_ok].
    by eapply (run_new _ _ _ _ _ _ 65000 1 (Some "fib"%string)).
  - cbn -[union singleton]. rewrite bool_decide_true by done. by apply elem_of_union_l, elem_of_singleton.
Qed.

Lemma listener_mirrors_best_paths_witness :
  route <$> view 7 (trace m3) !! net24 = route <$> best_path net24 (loc_rib m3).
Proof.
  destruct listener_run as (fs & Hf & Hrun).
  apply (proj2 (listener_mirrors_best_paths (fun _ _ => true) map_to_list (fun _ => ltac:(reflexivity))
    (fun _ => true) (fun _ => 77) listener 7 fs m3 Hrun net24)). exact Hf.
Defined.

Lemma fib_run_ex : fib_run (fun _ _ => true) map_to_list (fun _ => true) (fun _ => 77)
  (after [InstallPaths ext_peer [ext_path]] (speaker true)).
Proof.
  eapply (fib_run_event _ _ _ _ (speaker true) (fun _ => 0) (InstallPaths ext_peer [ext_path]));
    [by eapply (fib_run_new _ _ _ _ 65000 1 "fib"%string)|by intros p0 [= <-]; repeat constructor|].
  apply handle_ex_ok.
  exact (@eq_refl (res Error unit) (Ok tt) <: (handle_ex (InstallPaths ext_peer [ext_path]) (speaker true)).1 = Ok tt).
Qed.

(** Two internal peers, one of which has installed a path. *)
Definition m4 : RibManager :=
  after [AddPeer int_peer 5; AddPeer int_source 6; InstallPaths int_source [int_path]] (speaker false).

Lemma split_horizon_witness :
  exists outs, trace (handle_ex (InstallPaths ext_peer [ext_path]) m4).2 = trace m4 ++ outs /\
    forall tx ps, ToPeer tx (Advertise ps) ∈ outs -> horizon m4 (InstallPaths ext_peer [ext_path]) tx ps.
Proof.
  refine (split_horizon (fun _ _ => true) map_to_list (fun _ => ltac:(reflexivity)) (fun _ => 77) (fun _ => 0)
    (InstallPaths ext_peer [ext_path]) m4 _ _ _ (surjective_pairing _)). done.
Defined.

Definition int_stored : Path := with_best true ROnlyPath int_path.

Lemma int_stored_best : best_of ipv4_unicast net24 (loc_rib m4) = Some int_stored.
Proof. exact (@eq_refl (option Path) (Some int_stored) <: best_of ipv4_unicast net24 (loc_rib m4) = Some int_stored). Qed.

Lemma init_leaks_internal_paths_witness : exists ps,
  trace (init (fun _ _ => true) ipv4_unicast int_peer m4).2 = trace m4 ++ [ToPeer 5 (Advertise ps)] /\ int_stored ∈ ps.
Proof.
  refine (init_leaks_internal_paths (fun _ _ => true) m4 _ ipv4_unicast int_peer 5 net24 int_stored
    eq_refl int_stored_best eq_refl eq_refl _ _); [done|].
  refine (eq_trans (surjective_pairing _) _). f_equal.
Defined.

(** An internal peer keeps a path that is gone. An external path is the
    best and is advertised to the internal peer; a path of another internal
    peer becomes the best, which the internal peer is not told; when the
    external path is dropped it was no longer the best, so nothing is
    withdrawn: the internal peer still has it, the RIB does not. *)
Theorem internal_peer_keeps_dropped_path :
  let m := after [AddPeer int_peer 5; AddPeer ext_peer 6; AddPeer int_source 8;
                  InstallPaths ext_peer [ext_path]; InstallPaths int_source [int_path];
                  DropPaths ext_peer ipv4_unicast [(net24, 10)]] (speaker false) in
  (id <$> view 5 (trace m) !! net24) = Some 10 /\
  (map id <$> get ipv4_unicast net24 (loc_rib m)) = Some [11].
Proof. split; vm_compute; reflexivity. Qed.

(** A local announcement leaves the FIB server with a dead route. A peer's path
    is installed; the network is announced locally, which takes over without a
    request; the peer withdraws its path, which is no longer the best; the local
    announcement is deleted, again without a request. No path is left, and the
    last the FIB server was asked is to forward to the peer. *)
Theorem fib_keeps_dead_route :
  let m := after [InstallPaths ext_peer [ext_path]; AddPath [net24] [];
                  DropPaths ext_peer ipv4_unicast [(net24, 10)];
                  DeletePath ipv4_unicast [net24]] (speaker true) in
  (map id <$> get ipv4_unicast net24 (loc_rib m)) = Some [] /\
  asked (trace m) !! net24 = Some (2, [AV4 2]).
Proof. split; vm_compute; reflexivity. Qed.

(** A network announced twice cannot be deleted without an error. The
    announcements are kept as two paths, and the best path that the first
    removal reports is gone by the time the manager looks it up. *)
Theorem network_announced_twice :
  let m := after [AddPeer listener 7; AddPath [net24] []; AddPath [net24] []] (speaker false) in
  (handle_ex (DeletePath ipv4_unicast [net24]) m).1 = Err (Rib PathNotFound).
Proof. vm_compute. reflexivity. Qed.
End witnesses.
End RibManager.
