(* ===== verification/BgpEvent.v ===== *)
(** * Events and configuration

    The events of [bgp/src/event.rs] that the peers, the server and the RIB
    manager exchange, with their numbers, and the configuration of
    [bgp/src/config.rs] with the control events it is turned into at start. *)

From S2P Require Import Prelude Net BgpFamily BgpPrefix BgpAttribute BgpMessage BgpLocRib.

Module Event.
Import BgpError Family Message.

Section defs.
Context {I : IpNetApi}.

Record NeighborConfig : Type := {
  nc_name : string;
  nc_asn : Z;
  nc_address : IpAddr;
  nc_router_id : Z;
  nc_passive : option bool;
}.

(** A connected socket: its two ends, and whether they can still be asked for. *)
Record TcpStream : Type := {
  s_local_addr : IpAddr; s_local_port : Z; s_peer_addr : IpAddr; s_peer_port : Z;
  s_connected : bool;
}.

Inductive AdministrativeEvent : Type :=
| ManualStart
| ManualStop
| AutomaticStart
| ManualStartWithPassiveTcpEstablishment
| AutomaticStartWithPassiveTcpEstablishment
| AutomaticStartWithDampPeerOscillations
| AutomaticStartWithDampPeerOscillationsAndPassiveTcpEstablishment
| AutomaticStop.

Inductive TimerEvent : Type :=
| ConnectRetryTimerExpire
| HoldTimerExpire
| KeepaliveTimerExpire
| DelayOpenTimerExpire
| IdleHoldTimerExpire.

Inductive TcpConnectionEvent : Type :=
| TcpConnectionValid
| TcpCRInvalid
| TcpCRAcked
| TcpConnectionConfirmed (stream : TcpStream)
| TcpConnectionFail.

Inductive BgpMessageEvent : Type :=
| BgpOpen (local_port peer_port : Z) (msg : Message)
| BgpOpenWithDelayOpenTimerRunning
| BgpHeaderError (e : MessageHeaderError)
| BgpOpenMsgErr (e : OpenMessageError)
| OpenCollisionDump
| NotifMsgVerErr
| NotifMsg (msg : Message)
| KeepAliveMsg (local_port peer_port : Z)
| UpdateMsg (msg : Message)
| UpdateMsgErr (e : UpdateMessageError)
| RouteRefreshMsg (msg : Message)
| RouteRefreshMsgErr.

Inductive ControlEvent : Type :=
| GetBgpInfo
| CGetPeer (addr : IpAddr)
| ListPeer
| CGetPath (f : AddressFamily)
| GetNeighborPath (k : LocRib.RibKind) (addr : IpAddr) (f : AddressFamily)
| CGetPathByPrefix (n : IpNet) (f : AddressFamily)
| CSetAsn (asn : Z)
| CSetRouterId (router_id : Z)
| ClearBgpInfo
| CAddPeer (neighbor : NeighborConfig)
| CDeletePeer (addr : IpAddr)
| CAddPath (prefixes : list IpNet) (attributes : list Attribute.Attribute)
| CDeletePath (f : AddressFamily) (prefixes : list IpNet)
| ConfigureMultiPath (enable : bool)
| Health.

Inductive PeerLevelApiEvent : Type :=
| GetPeer
| GetPath (k : LocRib.RibKind) (f : AddressFamily).

Inductive Event : Type :=
| Admin (e : AdministrativeEvent)
| Timer (e : TimerEvent)
| Connection (e : TcpConnectionEvent)
| MessageEvent (e : BgpMessageEvent)
| ControlE (e : ControlEvent)
| Api (e : PeerLevelApiEvent).

(** The [From<...> for u8] implementations *)
Definition admin_u8 (e : AdministrativeEvent) : Z :=
  match e with
  | ManualStart => 1
  | ManualStop => 2
  | AutomaticStart => 3
  | ManualStartWithPassiveTcpEstablishment => 4
  | AutomaticStartWithPassiveTcpEstablishment => 5
  | AutomaticStartWithDampPeerOscillations => 6
  | AutomaticStartWithDampPeerOscillationsAndPassiveTcpEstablishment => 7
  | AutomaticStop => 8
  end.

Definition timer_u8 (e : TimerEvent) : Z :=
  match e with
  | ConnectRetryTimerExpire => 9
  | HoldTimerExpire => 10
  | KeepaliveTimerExpire => 11
  | DelayOpenTimerExpire => 12
  | IdleHoldTimerExpire => 13
  end.

Definition connection_u8 (e : TcpConnectionEvent) : Z :=
  match e with
  | TcpConnectionValid => 14
  | TcpCRInvalid => 15
  | TcpCRAcked => 16
  | TcpConnectionConfirmed _ => 17
  | TcpConnectionFail => 18
  end.

Definition message_u8 (e : BgpMessageEvent) : Z :=
  match e with
  | BgpOpen _ _ _ => 19
  | BgpOpenWithDelayOpenTimerRunning => 20
  | BgpHeaderError _ => 21
  | BgpOpenMsgErr _ => 22
  | OpenCollisionDump => 23
  | NotifMsgVerErr => 24
  | NotifMsg _ => 25
  | KeepAliveMsg _ _ => 26
  | UpdateMsg _ => 27
  | UpdateMsgErr _ => 28
  | RouteRefreshMsg _ => 100
  | RouteRefreshMsgErr => 101
  end.

Definition event_u8 (e : Event) : Z :=
  match e with
  | Admin ManualStart => 1
  | Admin ManualStop => 2
  | Admin AutomaticStart => 3
  | Admin ManualStartWithPassiveTcpEstablishment => 4
  | Admin AutomaticStartWithPassiveTcpEstablishment => 5
  | Admin AutomaticStartWithDampPeerOscillations => 6
  | Admin AutomaticStartWithDampPeerOscillationsAndPassiveTcpEstablishment => 7
  | Admin AutomaticStop => 8
  | Timer ConnectRetryTimerExpire => 9
  | Timer HoldTimerExpire => 10
  | Timer KeepaliveTimerExpire => 11
  | Timer DelayOpenTimerExpire => 12
  | Timer IdleHoldTimerExpire => 13
  | Connection TcpConnectionValid => 14
  | Connection TcpCRInvalid => 15
  | Connection TcpCRAcked => 16
  | Connection (TcpConnectionConfirmed _) => 17
  | Connection TcpConnectionFail => 18
  | MessageEvent (BgpOpen _ _ _) => 19
  | MessageEvent BgpOpenWithDelayOpenTimerRunning => 20
  | MessageEvent (BgpHeaderError _) => 21
  | MessageEvent (BgpOpenMsgErr _) => 22
  | MessageEvent OpenCollisionDump => 23
  | MessageEvent NotifMsgVerErr => 24
  | MessageEvent (NotifMsg _) => 25
  | MessageEvent (KeepAliveMsg _ _) => 26
  | MessageEvent (UpdateMsg _) => 27
  | MessageEvent (UpdateMsgErr _) => 28
  | MessageEvent (RouteRefreshMsg _) => 100
  | MessageEvent RouteRefreshMsgErr => 101
  | _ => 0
  end.

(** The numbers of the sum type are those of its parts. *)
Lemma event_numbers e :
  event_u8 e = match e with
               | Admin a => admin_u8 a
               | Timer t => timer_u8 t
               | Connection c => connection_u8 c
               | MessageEvent m => message_u8 m
               | ControlE _ | Api _ => 0
               end.
Proof. by destruct e as [[]|[]|[]|[]| |]. Qed.
End defs.
End Event.

Module Config.
Import BgpError Family Event.

Definition ROUTE_TABLE_MAIN : Z := 254.

Section defs.
Context {I : IpNetApi}.

(** The attributes are listed in the order their map is iterated. *)
Record PathConfig : Type := {
  prefixes : list string;
  attributes : option (list (string * string));
}.

Record Config : Type := {
  asn : Z;
  router_id : Z;
  fib_endpoint : option string;
  fib_table : option Z;
  exporter : option string;
  neighbors : list NeighborConfig;
  multi_path : option bool;
  paths : option (list PathConfig);
}.

Definition default : Config :=
  {| asn := 0; router_id := 0; fib_endpoint := None; fib_table := Some ROUTE_TABLE_MAIN;
     exporter := None; neighbors := []; multi_path := Some false; paths := None |}.

Definition set_as_number (n : Z) (c : Config) : Config :=
  {| asn := n; router_id := router_id c; fib_endpoint := fib_endpoint c; fib_table := fib_table c;
     exporter := exporter c; neighbors := neighbors c; multi_path := multi_path c; paths := paths c |}.

Definition set_router_id (i : Z) (c : Config) : Config :=
  {| asn := asn c; router_id := i; fib_endpoint := fib_endpoint c; fib_table := fib_table c;
     exporter := exporter c; neighbors := neighbors c; multi_path := multi_path c; paths := paths c |}.

(** [str::parse::<IpNet>] *)
Variable parse_net : string -> option IpNet.

(** [Attribute::from_str_pair(a.0, a.1)] before its [unwrap] *)
Definition parse_attr (a : string * string) : option Attribute.Attribute :=
  match Attribute.from_str_pair a.1 a.2 with Ok y => Some y | _ => None end.

(** [.map(|p| p.parse().unwrap()).collect()] *)
Fixpoint unwrap_all {A B} (f : A -> option B) (l : list A) : res Error (list B) :=
  match l with
  | [] => Ok []
  | x :: l' =>
      match f x with
      | None => Panic
      | Some y => ys ← unwrap_all f l'; Ok (y :: ys)
      end
  end.

Fixpoint path_events (l : list PathConfig) : res Error (list ControlEvent) :=
  match l with
  | [] => Ok []
  | path :: l' =>
      ps ← unwrap_all parse_net (prefixes path);
      attrs ← match attributes path with
              | Some a => unwrap_all parse_attr a
              | None => Ok []
              end;
      es ← path_events l';
      Ok (CAddPath ps attrs :: es)
  end.

Definition get_control_event (c : Config) : res Error (list ControlEvent) :=
  es ← match paths c with Some l => path_events l | None => Ok [] end;
  Ok (map CAddPeer (neighbors c) ++ es).
End defs.
End Config.
