(* ===== verification/BgpPeer.v ===== *)
(** * A peer

    [Peer] of [bgp/src/peer/peer.rs]: the task that holds a session with one
    neighbor. It moves the finite state machine, negotiates and resolves
    collisions of connections, keeps the adjacent RIBs, and exchanges events
    with the RIB manager. *)

From S2P Require Import Prelude.
From S2P Require Import Net.
From S2P Require Import BgpFsm.
From S2P Require Import BgpFamily.
From S2P Require Import BgpPrefix.
From S2P Require Import BgpCapability.
From S2P Require Import BgpAttribute.
From S2P Require Import BgpMessage.
From S2P Require Import BgpPath.
From S2P Require Import BgpRib.
From S2P Require Import BgpLocRib.
From S2P Require Import BgpRibManager.
From S2P Require Import BgpEvent.

Module Peer.
Import BgpError Family EventCode Fsm Path.
Import Event.

(** [Bgp::BGP_PORT], [Bgp::DEFAULT_KEEPALIVE_TIME], [Bgp::DEFAULT_CONNECT_RETRY_TIME] *)
Definition BGP_PORT : Z := 179.
Definition DEFAULT_KEEPALIVE_TIME : Z := 60.
Definition DEFAULT_CONNECT_RETRY_TIME : Z := 10.
Definition U32_MAX : Z := 4294967295.
Definition U64_MAX : Z := 18446744073709551615.

(** ** Data *)

Section data.
Context {I : IpNetApi}.

(** [Neighbor] of [neighbor.rs] *)
Record Neighbor : Type := {
  n_asn : Z; n_router_id : Z; n_addr : IpAddr;
  n_acceptable_capabilities : list Capability.Capability; n_hold_time : Z;
}.

Definition neighbor_from_config (c : NeighborConfig) : Neighbor :=
  {| n_asn := nc_asn c; n_router_id := nc_router_id c; n_addr := nc_address c;
     n_acceptable_capabilities := []; n_hold_time := 180 |}.

Definition neighbor_set_router_id (i : Z) (n : Neighbor) : Neighbor :=
  {| n_asn := n_asn n; n_router_id := i; n_addr := n_addr n;
     n_acceptable_capabilities := n_acceptable_capabilities n; n_hold_time := n_hold_time n |}.

Definition pair_from_config (c : NeighborConfig) : BgpRibManager.Neighbor.NeighborPair :=
  {| Neighbor.addr := nc_address c; Neighbor.asn := nc_asn c |}.

Definition pair_from_neighbor (n : Neighbor) : BgpRibManager.Neighbor.NeighborPair :=
  {| Neighbor.addr := n_addr n; Neighbor.asn := n_asn n |}.

Record PeerInfo : Type := {
  name : string;
  neighbor : Neighbor;
  asn : Z;
  addr : IpAddr;
  other_addrs : list IpAddr;
  router_id : Z;
  hold_time : Z;
  i_keepalive_time : Z;
  connect_retry_time : Z;
  local_capabilities : Capability.CapabilitySet;
  families : list AddressFamily;
  i_state : State;
}.

Definition info_new (local_as local_router_id : Z) (c : NeighborConfig)
    (caps : Capability.CapabilitySet) (fams : list AddressFamily) : PeerInfo :=
  {| name := nc_name c; neighbor := neighbor_from_config c; asn := local_as; addr := AV4 local_router_id;
     other_addrs := []; router_id := local_router_id; hold_time := Message.DEFAULT_HOLD_TIME;
     i_keepalive_time := DEFAULT_KEEPALIVE_TIME; connect_retry_time := DEFAULT_CONNECT_RETRY_TIME;
     local_capabilities := caps; families := fams; i_state := Idle |}.

Definition is_ebgp (i : PeerInfo) : bool := negb (asn i =? n_asn (neighbor i)).

Definition upd_info (n : Neighbor) (a : IpAddr) (s : State) (i : PeerInfo) : PeerInfo :=
  {| name := name i; neighbor := n; asn := asn i; addr := a; other_addrs := other_addrs i;
     router_id := router_id i; hold_time := hold_time i; i_keepalive_time := i_keepalive_time i;
     connect_retry_time := connect_retry_time i; local_capabilities := local_capabilities i;
     families := families i; i_state := s |}.

Record Connection : Type := {
  local_addr : IpAddr;
  local_port : Z;
  peer_addr : IpAddr;
  peer_port : Z;
  c_state : State;
}.

#[global] Instance Connection_eq_dec : EqDecision Connection.
Proof. solve_decision. Defined.

Definition conn_new (la : IpAddr) (lp : Z) (pa : IpAddr) (pp : Z) : Connection :=
  {| local_addr := la; local_port := lp; peer_addr := pa; peer_port := pp; c_state := Connect |}.

(** [PartialEq for Connection] *)
Definition conn_eq (c d : Connection) : bool :=
  bool_decide (local_addr c = local_addr d) && bool_decide (peer_addr c = peer_addr d)
  && (local_port c =? local_port d) && (peer_port c =? peer_port d).

Definition is_passive (c : Connection) : bool := local_port c =? BGP_PORT.

Definition conn_state (s : State) (c : Connection) : Connection :=
  {| local_addr := local_addr c; local_port := local_port c; peer_addr := peer_addr c;
     peer_port := peer_port c; c_state := s |}.

(** A timer: the deadlines of its pending sleeps, the interval and the time it
    was last set. *)
Record Timer : Type := { ticker : list Z; interval : Z; last : Z }.

Definition timer_new (now : Z) : Timer := {| ticker := [now + U32_MAX]; interval := U64_MAX; last := now |}.

Definition timer_push (now t : Z) (tm : Timer) : Timer :=
  {| ticker := ticker tm ++ [now + t]; interval := t; last := now |}.

Definition timer_stop (now : Z) (tm : Timer) : Timer :=
  {| ticker := ticker tm; interval := U32_MAX; last := now |}.

Definition timer_touch (now : Z) (tm : Timer) : Timer :=
  {| ticker := ticker tm; interval := interval tm; last := now |}.

(** [interval_at(start, period)] *)
Record Interval : Type := { start : Z; period : Z }.

Record MessageCounter : Type := { c_open : Z; c_update : Z; c_keepalive : Z; c_notification : Z; c_route_refresh : Z }.

Definition counter_new : MessageCounter :=
  {| c_open := 0; c_update := 0; c_keepalive := 0; c_notification := 0; c_route_refresh := 0 |}.

Definition counter_reset (c : MessageCounter) : MessageCounter :=
  {| c_open := 0; c_update := 0; c_keepalive := 0; c_notification := 0; c_route_refresh := 0 |}.

Definition count (t : Message.MessageType) (c : MessageCounter) : MessageCounter :=
  match t with
  | Message.TOpen => {| c_open := c_open c + 1; c_update := c_update c; c_keepalive := c_keepalive c;
      c_notification := c_notification c; c_route_refresh := c_route_refresh c |}
  | Message.TUpdate => {| c_open := c_open c; c_update := c_update c + 1; c_keepalive := c_keepalive c;
      c_notification := c_notification c; c_route_refresh := c_route_refresh c |}
  | Message.TKeepalive => {| c_open := c_open c; c_update := c_update c; c_keepalive := c_keepalive c + 1;
      c_notification := c_notification c; c_route_refresh := c_route_refresh c |}
  | Message.TNotification => {| c_open := c_open c; c_update := c_update c; c_keepalive := c_keepalive c;
      c_notification := c_notification c + 1; c_route_refresh := c_route_refresh c |}
  | Message.TRouteRefresh => {| c_open := c_open c; c_update := c_update c; c_keepalive := c_keepalive c;
      c_notification := c_notification c; c_route_refresh := c_route_refresh c + 1 |}
  end.

(** What a peer does to its surroundings: messages on a connection, a closed
    connection (its [Drop] wakes the connection's task), the signal that stops
    all connection tasks, an attempt to connect, events to the RIB manager,
    the state for the exporter, answers for the API. *)
Inductive Output : Type :=
| ToConn (c : Connection) (m : Message.Message)
| CloseConn (c : Connection)
| DropSignal
| StartConnect (a : IpAddr) (retry : Z)
| ToRib (e : RibManager.RibEvent)
| ExportState (asn : Z) (a : IpAddr) (s : State) (n : string)
| ApiNeighbor (i : PeerInfo) (hold keepalive : Z) (sent received : MessageCounter)
| ApiPaths (paths : list Path).

End data.

Section defs.
Context {I : IpNetApi} {NI : NetIter} {P : Profile}.
Import AdjRib.

Record Peer : Type := {
  info : PeerInfo;
  fsm : FiniteStateMachine;
  connections : list Connection;
  keepalive_timer : Interval;
  keepalive_time : Z;
  hold_timer : Timer;
  negotiated_hold_time : Z;
  connect_retry_counter : Z;
  initialized : bool;
  send_counter : MessageCounter;
  recv_counter : MessageCounter;
  adj_rib_in : AdjRib;
  adj_rib_out : AdjRib;
  invalid_msg_count : Z;
  exporter : bool;
  trace : list Output;
}.

Definition set_info (v : PeerInfo) (p : Peer) : Peer :=
  {| info := v; fsm := fsm p; connections := connections p; keepalive_timer := keepalive_timer p;
     keepalive_time := keepalive_time p; hold_timer := hold_timer p; negotiated_hold_time :=
     negotiated_hold_time p; connect_retry_counter := connect_retry_counter p; initialized := initialized
     p; send_counter := send_counter p; recv_counter := recv_counter p; adj_rib_in := adj_rib_in p;
     adj_rib_out := adj_rib_out p; invalid_msg_count := invalid_msg_count p; exporter := exporter p;
     trace := trace p |}.

Definition set_fsm (v : FiniteStateMachine) (p : Peer) : Peer :=
  {| info := info p; fsm := v; connections := connections p; keepalive_timer := keepalive_timer p;
     keepalive_time := keepalive_time p; hold_timer := hold_timer p; negotiated_hold_time :=
     negotiated_hold_time p; connect_retry_counter := connect_retry_counter p; initialized := initialized
     p; send_counter := send_counter p; recv_counter := recv_counter p; adj_rib_in := adj_rib_in p;
     adj_rib_out := adj_rib_out p; invalid_msg_count := invalid_msg_count p; exporter := exporter p;
     trace := trace p |}.

Definition set_connections (v : list Connection) (p : Peer) : Peer :=
  {| info := info p; fsm := fsm p; connections := v; keepalive_timer := keepalive_timer p; keepalive_time
     := keepalive_time p; hold_timer := hold_timer p; negotiated_hold_time := negotiated_hold_time p;
     connect_retry_counter := connect_retry_counter p; initialized := initialized p; send_counter :=
     send_counter p; recv_counter := recv_counter p; adj_rib_in := adj_rib_in p; adj_rib_out :=
     adj_rib_out p; invalid_msg_count := invalid_msg_count p; exporter := exporter p; trace := trace p |}.

Definition set_keepalive_timer (v : Interval) (p : Peer) : Peer :=
  {| info := info p; fsm := fsm p; connections := connections p; keepalive_timer := v; keepalive_time :=
     keepalive_time p; hold_timer := hold_timer p; negotiated_hold_time := negotiated_hold_time p;
     connect_retry_counter := connect_retry_counter p; initialized := initialized p; send_counter :=
     send_counter p; recv_counter := recv_counter p; adj_rib_in := adj_rib_in p; adj_rib_out :=
     adj_rib_out p; invalid_msg_count := invalid_msg_count p; exporter := exporter p; trace := trace p |}.

Definition set_keepalive_time (v : Z) (p : Peer) : Peer :=
  {| info := info p; fsm := fsm p; connections := connections p; keepalive_timer := keepalive_timer p;
     keepalive_time := v; hold_timer := hold_timer p; negotiated_hold_time := negotiated_hold_time p;
     connect_retry_counter := connect_retry_counter p; initialized := initialized p; send_counter :=
     send_counter p; recv_counter := recv_counter p; adj_rib_in := adj_rib_in p; adj_rib_out :=
     adj_rib_out p; invalid_msg_count := invalid_msg_count p; exporter := exporter p; trace := trace p |}.

Definition set_hold_timer (v : Timer) (p : Peer) : Peer :=
  {| info := info p; fsm := fsm p; connections := connections p; keepalive_timer := keepalive_timer p;
     keepalive_time := keepalive_time p; hold_timer := v; negotiated_hold_time := negotiated_hold_time p;
     connect_retry_counter := connect_retry_counter p; initialized := initialized p; send_counter :=
     send_counter p; recv_counter := recv_counter p; adj_rib_in := adj_rib_in p; adj_rib_out :=
     adj_rib_out p; invalid_msg_count := invalid_msg_count p; exporter := exporter p; trace := trace p |}.

Definition set_negotiated_hold_time (v : Z) (p : Peer) : Peer :=
  {| info := info p; fsm := fsm p; connections := connections p; keepalive_timer := keepalive_timer p;
     keepalive_time := keepalive_time p; hold_timer := hold_timer p; negotiated_hold_time := v;
     connect_retry_counter := connect_retry_counter p; initialized := initialized p; send_counter :=
     send_counter p; recv_counter := recv_counter p; adj_rib_in := adj_rib_in p; adj_rib_out :=
     adj_rib_out p; invalid_msg_count := invalid_msg_count p; exporter := exporter p; trace := trace p |}.

Definition set_connect_retry_counter (v : Z) (p : Peer) : Peer :=
  {| info := info p; fsm := fsm p; connections := connections p; keepalive_timer := keepalive_timer p;
     keepalive_time := keepalive_time p; hold_timer := hold_timer p; negotiated_hold_time :=
     negotiated_hold_time p; connect_retry_counter := v; initialized := initialized p; send_counter :=
     send_counter p; recv_counter := recv_counter p; adj_rib_in := adj_rib_in p; adj_rib_out :=
     adj_rib_out p; invalid_msg_count := invalid_msg_count p; exporter := exporter p; trace := trace p |}.

Definition set_initialized (v : bool) (p : Peer) : Peer :=
  {| info := info p; fsm := fsm p; connections := connections p; keepalive_timer := keepalive_timer p;
     keepalive_time := keepalive_time p; hold_timer := hold_timer p; negotiated_hold_time :=
     negotiated_hold_time p; connect_retry_counter := connect_retry_counter p; initialized := v;
     send_counter := send_counter p; recv_counter := recv_counter p; adj_rib_in := adj_rib_in p;
     adj_rib_out := adj_rib_out p; invalid_msg_count := invalid_msg_count p; exporter := exporter p;
     trace := trace p |}.

Definition set_send_counter (v : MessageCounter) (p : Peer) : Peer :=
  {| info := info p; fsm := fsm p; connections := connections p; keepalive_timer := keepalive_timer p;
     keepalive_time := keepalive_time p; hold_timer := hold_timer p; negotiated_hold_time :=
     negotiated_hold_time p; connect_retry_counter := connect_retry_counter p; initialized := initialized
     p; send_counter := v; recv_counter := recv_counter p; adj_rib_in := adj_rib_in p; adj_rib_out :=
     adj_rib_out p; invalid_msg_count := invalid_msg_count p; exporter := exporter p; trace := trace p |}.

Definition set_recv_counter (v : MessageCounter) (p : Peer) : Peer :=
  {| info := info p; fsm := fsm p; connections := connections p; keepalive_timer := keepalive_timer p;
     keepalive_time := keepalive_time p; hold_timer := hold_timer p; negotiated_hold_time :=
     negotiated_hold_time p; connect_retry_counter := connect_retry_counter p; initialized := initialized
     p; send_counter := send_counter p; recv_counter := v; adj_rib_in := adj_rib_in p; adj_rib_out :=
     adj_rib_out p; invalid_msg_count := invalid_msg_count p; exporter := exporter p; trace := trace p |}.

Definition set_adj_rib_in (v : AdjRib) (p : Peer) : Peer :=
  {| info := info p; fsm := fsm p; connections := connections p; keepalive_timer := keepalive_timer p;
     keepalive_time := keepalive_time p; hold_timer := hold_timer p; negotiated_hold_time :=
     negotiated_hold_time p; connect_retry_counter := connect_retry_counter p; initialized := initialized
     p; send_counter := send_counter p; recv_counter := recv_counter p; adj_rib_in := v; adj_rib_out :=
     adj_rib_out p; invalid_msg_count := invalid_msg_count p; exporter := exporter p; trace := trace p |}.

Definition set_adj_rib_out (v : AdjRib) (p : Peer) : Peer :=
  {| info := info p; fsm := fsm p; connections := connections p; keepalive_timer := keepalive_timer p;
     keepalive_time := keepalive_time p; hold_timer := hold_timer p; negotiated_hold_time :=
     negotiated_hold_time p; connect_retry_counter := connect_retry_counter p; initialized := initialized
     p; send_counter := send_counter p; recv_counter := recv_counter p; adj_rib_in := adj_rib_in p;
     adj_rib_out := v; invalid_msg_count := invalid_msg_count p; exporter := exporter p; trace := trace p |}.

Definition set_invalid_msg_count (v : Z) (p : Peer) : Peer :=
  {| info := info p; fsm := fsm p; connections := connections p; keepalive_timer := keepalive_timer p;
     keepalive_time := keepalive_time p; hold_timer := hold_timer p; negotiated_hold_time :=
     negotiated_hold_time p; connect_retry_counter := connect_retry_counter p; initialized := initialized
     p; send_counter := send_counter p; recv_counter := recv_counter p; adj_rib_in := adj_rib_in p;
     adj_rib_out := adj_rib_out p; invalid_msg_count := v; exporter := exporter p; trace := trace p |}.

Definition set_exporter (v : bool) (p : Peer) : Peer :=
  {| info := info p; fsm := fsm p; connections := connections p; keepalive_timer := keepalive_timer p;
     keepalive_time := keepalive_time p; hold_timer := hold_timer p; negotiated_hold_time :=
     negotiated_hold_time p; connect_retry_counter := connect_retry_counter p; initialized := initialized
     p; send_counter := send_counter p; recv_counter := recv_counter p; adj_rib_in := adj_rib_in p;
     adj_rib_out := adj_rib_out p; invalid_msg_count := invalid_msg_count p; exporter := v; trace :=
     trace p |}.

Definition set_trace (v : list Output) (p : Peer) : Peer :=
  {| info := info p; fsm := fsm p; connections := connections p; keepalive_timer := keepalive_timer p;
     keepalive_time := keepalive_time p; hold_timer := hold_timer p; negotiated_hold_time :=
     negotiated_hold_time p; connect_retry_counter := connect_retry_counter p; initialized := initialized
     p; send_counter := send_counter p; recv_counter := recv_counter p; adj_rib_in := adj_rib_in p;
     adj_rib_out := adj_rib_out p; invalid_msg_count := invalid_msg_count p; exporter := exporter p;
     trace := v |}.

(** The environment: whether a receiver takes what is sent, the order in which
    the map of advertised attributes is iterated, the hash of a path builder;
    and while an event is handled, the clocks. *)
Variable accepts : list Output -> Output -> bool.
Variable group_iter : list (list Attribute.Attribute * list Path) -> list (list Attribute.Attribute * list Path).
Variable hash_builder : PathBuilder -> Z.
Variable clock : nat -> Z.
Variable now : Z.

#[local] Abbreviation PM := (M Peer Error).

Definition new (i : PeerInfo) (export : bool) : Peer :=
  {| info := i; fsm := Fsm.new; connections := [];
     keepalive_timer := {| start := now + U32_MAX; period := i_keepalive_time i |};
     keepalive_time := i_keepalive_time i; hold_timer := timer_new now;
     negotiated_hold_time := Message.DEFAULT_HOLD_TIME; connect_retry_counter := 0; initialized := true;
     send_counter := counter_new; recv_counter := counter_new;
     adj_rib_in := AdjRib.new (families i); adj_rib_out := AdjRib.new (families i);
     invalid_msg_count := 0; exporter := export; trace := [] |}.

Definition state_of (p : Peer) : State := get_state (fsm p).

Definition output (o : Output) : PM unit := modify (fun p => set_trace (trace p ++ [o]) p).

Definition emit (e : Error) (o : Output) : PM unit :=
  p ← get_st;
  if accepts (trace p) o then output o else throw e.

Definition move_state (event : Z) : PM unit :=
  p ← get_st;
  let '(s, f) := mv event (fsm p) in
  let old := i_state (info p) in
  modify (set_fsm f) ;;
  (if exporter p && negb (bool_decide (s = old))
   then output (ExportState (asn (info p)) (addr (info p)) s (name (info p))) else mret tt) ;;
  modify (fun p => set_info (upd_info (neighbor (info p)) (addr (info p)) s (info p)) p).

(** [self.connect_retry_counter += 1]; the counter is never read, and its width is
    not kept: it would take 2 ^ 32 lost sessions to matter. *)
Definition count_retry : PM unit := modify (fun p => set_connect_retry_counter (connect_retry_counter p + 1) p).

(** *** Sending *)

Definition conn_send (c : Connection) (m : Message.Message) : PM unit :=
  emit (BgpError.Peer FailedToSendMessage) (ToConn c m).

Definition send (m : Message.Message) : PM unit :=
  p ← get_st;
  match connections p with
  | [c] => conn_send c m
  | _ => throw (BgpError.Peer DuplicateConnection)
  end.

Definition send_all_conn (m : Message.Message) : PM unit :=
  p ← get_st;
  for_each (fun c => if bool_decide (c_state c = OpenConfirm) then conn_send c m else mret tt) (connections p).

(** The first connection opened from the given side gets the message. *)
Fixpoint to_dup_conn (passive : bool) (l : list Connection) : option (Connection * list Connection) :=
  match l with
  | [] => None
  | c :: l' =>
      if eqb (is_passive c) passive then
        let c' := if bool_decide (c_state c = Established) || bool_decide (c_state c = OpenConfirm)
          then c else conn_state OpenSent c in
        Some (c', c' :: l')
      else
        match to_dup_conn passive l' with
        | Some (d, l'') => Some (d, c :: l'')
        | None => None
        end
  end.

Definition send_to_dup_conn (m : Message.Message) (passive : bool) : PM unit :=
  p ← get_st;
  match Message.msg_type m with
  | Message.TOpen | Message.TKeepalive =>
      match to_dup_conn passive (connections p) with
      | Some (c, l) => modify (set_connections l) ;; conn_send c m
      | None => throw (BgpError.Peer ConnectionNotEstablished)
      end
  | _ => throw (BgpError.Peer ConnectionNotEstablished)
  end.

(** *** Collisions *)

(** [iter().enumerate().find(..)] *)
Fixpoint find_conn (f : Connection -> bool) (i : nat) (l : list Connection) : option (nat * Connection) :=
  match l with
  | [] => None
  | c :: l' => if f c then Some (i, c) else find_conn f (S i) l'
  end.

(** Which of the incoming and the colliding connection is dropped *)
Definition to_drop (prefer_local_conn : bool) (incoming colliding : nat * Connection) : option nat :=
  match c_state colliding.2 with
  | OpenConfirm =>
      if prefer_local_conn then
        if is_passive incoming.2 then Some incoming.1
        else if is_passive colliding.2 then Some colliding.1 else None
      else
        if negb (is_passive incoming.2) then Some incoming.1
        else if negb (is_passive colliding.2) then Some colliding.1 else None
  | Established => Some incoming.1
  | _ => Some colliding.1
  end.

Definition decide_connection (passive : bool) : PM (option nat) :=
  p ← get_st;
  let prefer_local_conn := n_router_id (neighbor (info p)) <? router_id (info p) in
  match find_conn (fun c => eqb (is_passive c) passive) 0 (connections p) with
  | None => throw (BgpError.Peer ConnectionNotFound)
  | Some incoming =>
      match find_conn (fun c => negb (conn_eq c incoming.2)) 0 (connections p) with
      | None => mret None
      | Some colliding =>
          match to_drop prefer_local_conn incoming colliding with
          | None => mret None
          | Some drop_idx =>
              dropped ← lift (vec_get (connections p) (Z.of_nat drop_idx));
              modify (set_connections (delete drop_idx (connections p))) ;;
              output (CloseConn dropped) ;;
              mret (Some drop_idx)
          end
      end
  end.

Definition handle_connection (stream : TcpStream) : PM bool :=
  if negb (s_connected stream) then panic
  else
    modify (fun p => set_info (upd_info (neighbor (info p)) (s_local_addr stream) (i_state (info p)) (info p)) p) ;;
    p ← get_st;
    if (2 <=? length (connections p))%nat then throw (BgpError.Peer TooManyConnections)
    else
      modify (set_connections (connections p ++
        [conn_new (s_local_addr stream) (s_local_port stream) (s_peer_addr stream) (s_peer_port stream)])) ;;
      modify (set_initialized false) ;;
      mret (s_local_port stream =? BGP_PORT).

(** *** Releasing a session *)

Definition drop_family (f : AddressFamily) : PM unit :=
  p ← get_st;
  match AdjRib.get_all f (adj_rib_in p) with
  | Some paths =>
      emit (Control FailedToSendRecvChannel)
        (ToRib (RibManager.DropPaths (Neighbor.new (n_addr (neighbor (info p))) (n_asn (neighbor (info p)))) f
          (map (fun q => (prefix q, id q)) paths)))
  | None => mret tt
  end.

Definition release (wait_notification : bool) : PM unit :=
  p ← get_st;
  if initialized p then mret tt
  else
    modify (set_keepalive_time 0) ;;
    modify (set_keepalive_timer {| start := now + U32_MAX; period := U32_MAX |}) ;;
    modify (fun p => set_hold_timer (timer_stop now (hold_timer p)) p) ;;
    modify (set_negotiated_hold_time Message.DEFAULT_HOLD_TIME) ;;
    modify (fun p => set_trace (trace p ++ map CloseConn (connections p)) (set_connections [] p)) ;;
    modify (fun p => set_send_counter (counter_reset (send_counter p)) p) ;;
    modify (fun p => set_recv_counter (counter_reset (recv_counter p)) p) ;;
    p ← get_st;
    (if bool_decide (state_of p = Established) then for_each drop_family (families (info p)) else mret tt) ;;
    modify (fun p => set_adj_rib_in (AdjRib.clear (adj_rib_in p)) p) ;;
    modify (fun p => set_adj_rib_out (AdjRib.clear (adj_rib_out p)) p) ;;
    modify (set_initialized true).

Definition drop_connections : PM unit := output DropSignal.

(** *** Building messages *)

(** [builder.code(c)?] and, for an error with a number, the subcode *)
Definition notification (c : Message.NotificationCode) (sub : option (Z * Message.NotificationCode)) :
    res Error Message.Message :=
  b ← Message.code c (Message.builder Message.TNotification);
  b ← match sub with
      | None => Ok b
      | Some (e, c') =>
          s ← Message.try_from_with_code e c';
          match s with Some s => Message.subcode s b | None => Ok b end
      end;
  Message.build b.

(** Build a notification, send it, release the session and count the retry *)
Definition notify_and_release (c : Message.NotificationCode) (sub : option (Z * Message.NotificationCode)) : PM unit :=
  msg ← lift (notification c sub);
  send msg ;;
  release true ;;
  count_retry.

Definition build_keepalive_msg : res Error Message.Message :=
  Message.build (Message.builder Message.TKeepalive).

Fixpoint add_capabilities (l : list (Z * Capability.Capability)) (b : Message.MessageBuilder) :
    res Error Message.MessageBuilder :=
  match l with
  | [] => Ok b
  | (_, c) :: l' => b' ← Message.capability c b; add_capabilities l' b'
  end.

(** [caps.sort_by(|a, b| a.0.cmp(b.0))] *)
Definition cap_le (a b : Z * Capability.Capability) : Prop := a.1 <= b.1.

#[local] Instance cap_le_dec : RelDecision cap_le.
Proof. intros a b. unfold cap_le. apply _. Defined.

Definition sorted_capabilities (s : Capability.CapabilitySet) : list (Z * Capability.Capability) :=
  merge_sort cap_le (map_to_list (Capability.inner s)).

Definition build_open_msg (p : Peer) : res Error Message.Message :=
  b ← Message.asn (asn (info p)) (Message.builder Message.TOpen);
  b ← Message.hold_time (wrap 16 (hold_time (info p))) b;
  b ← Message.identifier (router_id (info p)) b;
  b ← add_capabilities (sorted_capabilities (local_capabilities (info p))) b;
  Message.build b.

(** *** Administrative, timer and connection events *)

Definition manual_start : PM unit :=
  p ← get_st;
  output (StartConnect (n_addr (neighbor (info p))) (connect_retry_time (info p))) ;;
  move_state AMDIN_MANUAL_START.

Definition manual_stop : PM unit :=
  notify_and_release Message.NCease None ;;
  move_state ADMIN_MANUAL_STOP.

Definition manual_start_with_passive_tcp_establishment : PM unit :=
  move_state ADMIN_MANUAL_START_WITH_PASSIVE_TCP_ESTABLISHMENT.

Definition connect_retry_timer_expire : PM unit :=
  p ← get_st;
  match state_of p with
  | Idle | Connect | Active => mret tt
  | _ => notify_and_release Message.NFiniteStateMachine None
  end ;;
  move_state TIMER_CONNECT_RETRY_TIMER_EXPIRE.

Definition hold_timer_expire : PM unit :=
  p ← get_st;
  match state_of p with
  | OpenSent | OpenConfirm | Established => notify_and_release Message.NHoldTimerExpired None
  | _ => release false ;; count_retry
  end ;;
  move_state TIMER_HOLD_TIMER_EXPIRE.

Definition keepalive_timer_expire : PM unit :=
  p ← get_st;
  let finish := modify (fun p => set_fsm (mv TIMER_KEEPALIVE_TIMER_EXPIRE (fsm p)).2 p) in
  match state_of p with
  | Established =>
      if keepalive_time p =? 0 then mret tt
      else msg ← lift build_keepalive_msg; send msg ;; finish
  | OpenSent => notify_and_release Message.NFiniteStateMachine None ;; finish
  | OpenConfirm => msg ← lift build_keepalive_msg; send_all_conn msg ;; finish
  | _ => release false ;; count_retry ;; finish
  end.

Definition handle_tcp_connect (stream : TcpStream) (event : Z) : PM unit :=
  p ← get_st;
  match state_of p with
  | Idle => mret tt
  | _ =>
      passive ← handle_connection stream;
      p ← get_st;
      msg ← lift (build_open_msg p);
      map_err (fun _ => BgpError.Peer FailedToSendMessage) (send_to_dup_conn msg passive) ;;
      modify (fun p => set_hold_timer (timer_push now (hold_time (info p)) (hold_timer p)) p)
  end ;;
  move_state event.

Definition tcp_connection_fail : PM unit :=
  p ← get_st;
  match state_of p with
  | Idle => mret tt
  | Connect | Active | OpenConfirm => release false
  | OpenSent => drop_connections
  | Established => release false ;; count_retry
  end ;;
  move_state CONNECTION_TCP_CONNECTION_FAIL.

(** *** Message events *)

Definition negotiate_hold_time (received_hold_time : Z) : PM Z :=
  p ← get_st;
  let local_hold_time := hold_time (info p) in
  let negotiated := if received_hold_time <? local_hold_time then received_hold_time else local_hold_time in
  if (0 <? negotiated) && (negotiated <? 3) then throw (OpenMessage UnacceptableHoldTime)
  else
    (if negb (negotiated =? 0) then
      modify (set_negotiated_hold_time negotiated) ;;
      modify (fun p => set_hold_timer (timer_push now negotiated (hold_timer p)) p) ;;
      modify (set_keepalive_time (negotiated / 3)) ;;
      modify (set_keepalive_timer {| start := now; period := negotiated / 3 |})
    else
      modify (fun p => set_hold_timer (timer_stop now (hold_timer p)) p) ;;
      modify (set_keepalive_time 0) ;;
      modify (set_keepalive_timer {| start := now; period := U64_MAX |})) ;;
    mret negotiated.

(** The neighbor's router id is noted and the RIB manager is asked for the
    paths of every family. *)
Definition request_paths (peer_router_id : Z) : PM unit :=
  modify (fun p => set_info (upd_info (neighbor_set_router_id peer_router_id (neighbor (info p)))
    (addr (info p)) (i_state (info p)) (info p)) p) ;;
  p ← get_st;
  for_each (fun f => emit (Control FailedToSendRecvChannel)
      (ToRib (RibManager.Init f (Neighbor.new (n_addr (neighbor (info p))) (n_asn (neighbor (info p)))))))
    (families (info p)).

(** The connections from the given side move to [OpenConfirm]. *)
Definition confirm_conns (passive : bool) (l : list Connection) : list Connection :=
  map (fun c => if eqb (is_passive c) passive then conn_state OpenConfirm c else c) l.

Definition bgp_open (lport pport : Z) (recv : Message.Message) : PM unit :=
  '(_, _, recv_hold_time, peer_router_id, _) ← lift (Message.to_open recv);
  p ← get_st;
  match state_of p with
  | Active =>
      msg ← lift (build_open_msg p);
      send msg ;;
      msg ← lift build_keepalive_msg;
      send msg ;;
      _ ← negotiate_hold_time recv_hold_time;
      request_paths peer_router_id ;;
      move_state MESSAGE_BGP_OPEN
  | OpenSent =>
      msg ← lift build_keepalive_msg;
      _ ← negotiate_hold_time recv_hold_time;
      send_to_dup_conn msg (lport =? BGP_PORT) ;;
      request_paths peer_router_id ;;
      move_state MESSAGE_BGP_OPEN
  | OpenConfirm =>
      let passive := lport =? BGP_PORT in
      modify (fun p => set_connections (confirm_conns passive (connections p)) p) ;;
      _ ← decide_connection passive;
      mret tt
  | Established =>
      notify_and_release Message.NCease None ;;
      move_state MESSAGE_BGP_OPEN
  | _ => move_state MESSAGE_BGP_OPEN
  end.

Definition bgp_header_error (e : MessageHeaderError) : PM unit :=
  p ← get_st;
  match state_of p with
  | Active | Connect => release false ;; count_retry ;; move_state MESSAGE_BGP_HEADER_ERROR
  | OpenSent | OpenConfirm =>
      notify_and_release Message.NMessageHeader (Some (header_code e, Message.NMessageHeader)) ;;
      move_state MESSAGE_BGP_HEADER_ERROR
  | Established =>
      modify (set_invalid_msg_count (invalid_msg_count p + 1)) ;;
      if invalid_msg_count p + 1 <? 3 then mret tt
      else
        notify_and_release Message.NMessageHeader (Some (header_code e, Message.NMessageHeader)) ;;
        move_state MESSAGE_BGP_HEADER_ERROR
  | Idle => move_state MESSAGE_BGP_HEADER_ERROR
  end.

Definition bgp_open_msg_error (e : OpenMessageError) : PM unit :=
  p ← get_st;
  match state_of p with
  | Active | Connect => release false ;; count_retry
  | OpenSent | OpenConfirm =>
      notify_and_release Message.NOpenMessage (Some (open_code e, Message.NMessageHeader))
  | Established => notify_and_release Message.NFiniteStateMachine None
  | Idle => mret tt
  end ;;
  move_state MESSAGE_BGP_OPEN_MSG_ERROR.

Definition notification_msg_ver_error : PM unit :=
  p ← get_st;
  match state_of p with
  | Active | Connect => release false
  | OpenConfirm | OpenSent => release false
  | Established => release false ;; count_retry
  | Idle => mret tt
  end ;;
  move_state MESSAGE_NOTIF_MSG_ERROR.

Definition notification_msg (msg : Message.Message) : PM unit :=
  _ ← lift (Message.to_notification msg);
  p ← get_st;
  match state_of p with
  | OpenSent => notify_and_release Message.NFiniteStateMachine None
  | Established => release false ;; count_retry
  | _ => release false ;; count_retry
  end ;;
  move_state MESSAGE_NOTIF_MSG.

Definition keepalive_msg (lport pport : Z) : PM unit :=
  p ← get_st;
  match state_of p with
  | OpenSent => notify_and_release Message.NFiniteStateMachine None
  | OpenConfirm =>
      modify (fun p => set_hold_timer (timer_touch now (hold_timer p)) p) ;;
      modify (set_invalid_msg_count 0) ;;
      let passive := lport =? BGP_PORT in
      modify (fun p => set_connections (confirm_conns passive (connections p)) p) ;;
      _ ← decide_connection passive;
      mret tt
  | Established =>
      modify (fun p => set_hold_timer (timer_touch now (hold_timer p)) p) ;;
      modify (set_invalid_msg_count 0)
  | _ => release false ;; count_retry
  end ;;
  move_state MESSAGE_KEEPALIVE_MSG.

(** *** Updates *)

Definition net_family (n : IpNet) : AddressFamily :=
  match n with NV4 _ => ipv4_unicast | NV6 _ => ipv6_unicast end.

(** One withdrawn route: the family of the last one is kept. *)
Definition withdraw_route (acc : AddressFamily * list (IpNet * Z)) (w : Prefix.Prefix) :
    PM (AddressFamily * list (IpNet * Z)) :=
  p ← get_st;
  let n := Prefix.into_ipnet w in
  let f := net_family n in
  let '(old, r) := AdjRib.remove f n (adj_rib_in p) in
  modify (set_adj_rib_in r) ;;
  mret (f, match old with Some q => acc.2 ++ [(prefix q, id q)] | None => acc.2 end).

(** One path of an update: a path through the own AS is left out. *)
Definition accept_path (acc : list Path) (q : Path) : PM (list Path) :=
  if has_own_as q then mret acc
  else
    _ ← zoom adj_rib_in set_adj_rib_in (map_err Rib (AdjRib.insert (family q) (prefix q) q));
    mret (acc ++ [q]).

Definition handle_update_msg (withdrawn_routes : list Prefix.Prefix) (attributes : list Attribute.Attribute)
    (nlri : list Prefix.Prefix) : PM unit :=
  p ← get_st;
  let i := info p in
  let pair := pair_from_neighbor (neighbor i) in
  '(f, withdrawn) ← for_fold withdraw_route withdrawn_routes (ipv4_unicast, []);
  match withdrawn_routes with
  | _ :: _ => emit (InvalidEvent 0) (ToRib (RibManager.DropPaths pair f withdrawn))
  | [] =>
      b ← lift (attrs attributes (builder (router_id i) (asn i) (n_router_id (neighbor i))
                                    (n_addr (neighbor i)) (n_asn (neighbor i))));
      built ← lift (build hash_builder clock (add_nlri nlri b));
      propagate_paths ← for_fold accept_path built [];
      emit (InvalidEvent 0) (ToRib (RibManager.InstallPaths pair propagate_paths))
  end.

Definition update_msg (msg : Message.Message) : PM unit :=
  p ← get_st;
  match state_of p with
  | OpenSent | OpenConfirm => notify_and_release Message.NFiniteStateMachine None
  | Established =>
      '(withdrawn_routes, attributes, nlri) ← lift (Message.to_update msg);
      (if negb (negotiated_hold_time p =? 0)
       then modify (fun p => set_hold_timer (timer_touch now (hold_timer p)) p) else mret tt) ;;
      handle_update_msg withdrawn_routes attributes nlri
  | _ => release false ;; count_retry
  end ;;
  move_state MESSAGE_UPDATE_MSG.

Definition update_msg_error (e : UpdateMessageError) : PM unit :=
  p ← get_st;
  match state_of p with
  | OpenSent | OpenConfirm => notify_and_release Message.NFiniteStateMachine None
  | Established =>
      notify_and_release Message.NUpdateMessage (Some (update_code e, Message.NMessageHeader))
  | _ => release false
  end ;;
  move_state MESSAGE_UPDATE_MSG_ERROR.

Definition route_refresh_msg : PM unit := mret tt.
Definition route_refresh_msg_error : PM unit := mret tt.

(** *** Events of the RIB manager *)

(** [attr_group]: the paths by the attributes they are sent with *)
Fixpoint group_add (a : list Attribute.Attribute) (q : Path) (g : list (list Attribute.Attribute * list Path)) :
    list (list Attribute.Attribute * list Path) :=
  match g with
  | [] => [(a, [q])]
  | (b, qs) :: g' => if bool_decide (b = a) then (b, qs ++ [q]) :: g' else (b, qs) :: group_add a q g'
  end.

Definition withdrawal (prefixes : list IpNet) : res Error Message.Message :=
  b ← Message.withdrawn_routes prefixes (Message.builder Message.TUpdate);
  Message.build b.

(** One path of [advertise] *)
Definition advertise_path (g : list (list Attribute.Attribute * list Path)) (q : Path) :
    PM (list (list Attribute.Attribute * list Path)) :=
  p ← get_st;
  let i := info p in
  if bool_decide (as_sequence q = [n_asn (neighbor i)]) then
    msg ← lift (withdrawal [prefix q]);
    send msg ;;
    mret g
  else
    q' ← lift (to_outgoing (negb (is_ebgp i)) (asn i) (addr i :: other_addrs i) q);
    _ ← zoom adj_rib_out set_adj_rib_out (map_err Rib (AdjRib.insert (family q') (prefix q') q'));
    let as4_enabled := match Capability.get Cap.FOUR_OCTET_AS_NUMBER (local_capabilities i) with
                       | Some _ => true | None => false end in
    a ← lift (Path.attributes q' as4_enabled);
    mret (group_add a q' g).

Definition update_of (group : list Attribute.Attribute * list Path) : res Error Message.Message :=
  b ← Message.attributes group.1 (Message.builder Message.TUpdate);
  b ← Message.nlri (map prefix group.2) b;
  Message.build b.

Definition advertise (paths : list Path) : PM unit :=
  g ← for_fold advertise_path paths [];
  for_each (fun group => msg ← lift (update_of group); send msg) (group_iter g).

Definition family_for (n : IpNet) (fams : list AddressFamily) : option AddressFamily :=
  match n with
  | NV4 _ => List.find (fun f => bool_decide (afi f = IPv4)) fams
  | NV6 _ => List.find (fun f => bool_decide (afi f = IPv6)) fams
  end.

Definition withdraw_path (n : IpNet) : PM unit :=
  p ← get_st;
  match family_for n (families (info p)) with
  | None => throw (Rib InvalidAddressFamily)
  | Some f =>
      let '(old, r) := AdjRib.remove f n (adj_rib_out p) in
      modify (set_adj_rib_out r) ;;
      match old with
      | Some _ => mret tt
      | None => throw (Rib PathNotFound)
      end
  end.

Definition withdraw (prefixes : list IpNet) : PM unit :=
  for_each withdraw_path prefixes ;;
  msg ← lift (withdrawal prefixes);
  send msg.

(** *** The API *)

Definition get_info : PM unit :=
  p ← get_st;
  emit (Control FailedToSendRecvChannel)
    (ApiNeighbor (info p) (negotiated_hold_time p) (keepalive_time p) (send_counter p) (recv_counter p)).

Definition get_path (k : LocRib.RibKind) (f : AddressFamily) : PM unit :=
  p ← get_st;
  emit (Control FailedToSendRecvChannel)
    (ApiPaths (default [] (match k with
                           | LocRib.In => AdjRib.get_all f (adj_rib_in p)
                           | LocRib.Out => AdjRib.get_all f (adj_rib_out p)
                           end))).

(** *** The event loop *)

(** What one turn of the loop reacts to. *)
Inductive Input : Type :=
| HoldTick
| KeepaliveTick
| AdminRecv (e : Event)
| ConnRecv (stream : TcpStream)
| MsgRecv (e : BgpMessageEvent)
| RibRecv (e : RibManager.RibEvent)
| CloseRecv (port : Z).

(** The pending sleep that has elapsed *)
Fixpoint take_due (l : list Z) : option (list Z) :=
  match l with
  | [] => None
  | d :: l' => if d <=? now then Some l' else cons d <$> take_due l'
  end.

(** An error is logged and the loop goes on. *)
Definition log {A} (m : PM A) : PM unit := fun p =>
  match m p with
  | (Ok _, p') => (Ok tt, p')
  | (Err _, p') => (Ok tt, p')
  | (Panic, p') => (Panic, p')
  end.

Definition hold_tick : PM unit :=
  p ← get_st;
  match take_due (ticker (hold_timer p)) with
  | None => mret tt
  | Some l =>
      modify (fun p => set_hold_timer {| ticker := l; interval := interval (hold_timer p); last := last (hold_timer p) |} p) ;;
      let elapsed := now - last (hold_timer p) in
      limit ← lift (ovf 64 (interval (hold_timer p) + 20));
      if limit <? elapsed then log hold_timer_expire
      else
        d ← lift (ovf 64 (negotiated_hold_time p - elapsed));
        d ← lift (ovf 64 (d + 10));
        modify (fun p => set_hold_timer {| ticker := ticker (hold_timer p) ++ [now + d];
          interval := interval (hold_timer p); last := last (hold_timer p) |} p)
  end.

Definition close_conn (port : Z) : PM unit :=
  p ← get_st;
  match find_conn (fun c => local_port c =? port) 0 (connections p) with
  | Some (i, c) =>
      modify (set_connections (delete i (connections p))) ;;
      output (CloseConn c)
  | None => mret tt
  end ;;
  p ← get_st;
  match connections p with
  | [] =>
      (fun p => match release false p with (Err _, p') => (Panic, p') | x => x end) ;;
      move_state CONNECTION_TCP_CONNECTION_FAIL
  | _ => mret tt
  end.

(** One turn of the loop: whether it goes on. *)
Definition turn (input : Input) : PM bool :=
  match input with
  | HoldTick => hold_tick ;; mret true
  | KeepaliveTick => log keepalive_timer_expire ;; mret true
  | AdminRecv (Admin ManualStart) => log manual_start ;; mret true
  | AdminRecv (Admin ManualStartWithPassiveTcpEstablishment) =>
      log manual_start_with_passive_tcp_establishment ;; mret true
  | AdminRecv (Admin ManualStop) => log manual_stop ;; mret false
  | AdminRecv (Admin _) => panic
  | AdminRecv (Event.Connection (TcpConnectionConfirmed stream)) =>
      log (handle_tcp_connect stream CONNECTION_TCP_CONNECTION_CONFIRMED) ;; mret true
  | AdminRecv (Event.Connection TcpConnectionFail) => log tcp_connection_fail ;; mret true
  | AdminRecv (Event.Connection _) => panic
  | AdminRecv (Event.Timer ConnectRetryTimerExpire) => log connect_retry_timer_expire ;; mret true
  | AdminRecv (Event.Timer HoldTimerExpire) => mret true
  | AdminRecv (Event.Timer KeepaliveTimerExpire) => mret true
  | AdminRecv (Event.Timer _) => panic
  | AdminRecv (Api GetPeer) => log get_info ;; mret true
  | AdminRecv (Api (GetPath k f)) => log (get_path k f) ;; mret true
  | AdminRecv e => log (throw (A:=unit) (InvalidEvent (event_u8 e))) ;; mret true
  | ConnRecv stream => log (handle_tcp_connect stream CONNECTION_TCP_CR_ACKED) ;; mret true
  | MsgRecv (BgpOpen lp pp msg) => log (bgp_open lp pp msg) ;; mret true
  | MsgRecv (BgpHeaderError e) => log (bgp_header_error e) ;; mret true
  | MsgRecv (BgpOpenMsgErr e) => log (bgp_open_msg_error e) ;; mret true
  | MsgRecv NotifMsgVerErr => log notification_msg_ver_error ;; mret true
  | MsgRecv (NotifMsg msg) => log (notification_msg msg) ;; mret true
  | MsgRecv (KeepAliveMsg lp pp) => log (keepalive_msg lp pp) ;; mret true
  | MsgRecv (UpdateMsg msg) => log (update_msg msg) ;; mret true
  | MsgRecv (UpdateMsgErr e) => log (update_msg_error e) ;; mret true
  | MsgRecv (RouteRefreshMsg _) => log route_refresh_msg ;; mret true
  | MsgRecv RouteRefreshMsgErr => log route_refresh_msg_error ;; mret true
  | MsgRecv _ => panic
  | RibRecv e =>
      p ← get_st;
      if bool_decide (state_of p <> Established) then mret true
      else
        match e with
        | RibManager.Advertise paths => log (advertise paths) ;; mret true
        | RibManager.Withdraw prefixes => log (withdraw prefixes) ;; mret true
        | _ => log (throw (A:=unit) (InvalidEvent 0)) ;; mret true
        end
  | CloseRecv port => close_conn port ;; mret true
  end.

(** *** The task of a connection *)

(** The events for what the decoder returns, and the counter of received messages *)
Definition message_event (lp pp : Z) (m : Message.Message) : BgpMessageEvent :=
  match Message.msg_type m with
  | Message.TOpen => BgpOpen lp pp m
  | Message.TUpdate => UpdateMsg m
  | Message.TKeepalive => KeepAliveMsg lp pp
  | Message.TNotification => NotifMsg m
  | Message.TRouteRefresh => RouteRefreshMsg m
  end.

Definition received (lp pp : Z) (r : res Error (list Message.Message)) (c : MessageCounter) :
    list BgpMessageEvent * MessageCounter :=
  match r with
  | Ok msgs => (map (message_event lp pp) msgs, foldl (fun c m => count (Message.msg_type m) c) c msgs)
  | Err (MessageHeader e) => ([BgpHeaderError e], c)
  | Err (OpenMessage e) => ([BgpOpenMsgErr e], c)
  | Err (UpdateMessage e) => ([UpdateMsgErr e], c)
  | _ => ([], c)
  end.
End defs.
End Peer.
