(* ===== verification/BgpPeerFacts.v ===== *)
(** * Properties of a peer

    Theorems about [Peer] of [BgpPeer]: how collisions of connections are
    resolved at both ends, the hold time is negotiated within its bounds,
    the state shown to the rest of the server is that of the machine, what the
    RIB manager was told is what the peer keeps, and how an advertisement
    becomes update messages. *)

From S2P Require Import Prelude.
From S2P Require Import Net.
From S2P Require Import BgpFsm.
From S2P Require Import BgpFamily.
From S2P Require Import BgpPrefix.
From S2P Require Import BgpCapability.
From S2P Require Import BgpAttribute.
From S2P Require Import BgpMessage.
From S2P Require Import BgpPath.
From S2P Require Import BgpRib.
From S2P Require Import BgpLocRib.
From S2P Require Import BgpRibManager.
From S2P Require Import BgpEvent.
From S2P Require Import BgpPeer.

Module PeerFacts.
Import BgpError Family EventCode Fsm Path.
Import Event Peer.

Section connections.
Context {I : IpNetApi} {NI : NetIter} {P : Profile}.

(** *** Collisions *)

Lemma conn_ports c d : is_passive c <> is_passive d -> conn_eq c d = false.
Proof.
  intros H. unfold conn_eq. destruct (Z.eqb_spec (local_port c) (local_port d)) as [He|]; [|by rewrite andb_false_r].
  destruct H. unfold is_passive. by rewrite He.
Qed.

Lemma conn_eq_refl c : conn_eq c c = true.
Proof. unfold conn_eq. by rewrite !bool_decide_true, !Z.eqb_refl. Qed.

(** Of two connections, one opened from each side: when the one that is not
    looked at is confirmed, the one opened by the speaker with the higher
    identifier is kept; when it is established, it is; otherwise the one looked
    at. *)
Definition kept (p : Peer) (x y : Connection) (passive : bool) : Connection :=
  match c_state (if passive then x else y) with
  | OpenConfirm => if n_router_id (neighbor (info p)) <? router_id (info p) then x else y
  | Established => if passive then x else y
  | _ => if passive then y else x
  end.

Lemma decide_keeps (p : Peer) x y passive :
  connections p ≡ₚ [x; y] -> is_passive x = false -> is_passive y = true ->
  exists i p', decide_connection passive p = (Ok (Some i), p') /\ connections p' = [kept p x y passive].
Proof.
  intros Hc Hx Hy.
  assert (Hxy : conn_eq x y = false) by (apply conn_ports; congruence).
  assert (Hyx : conn_eq y x = false) by (apply conn_ports; congruence).
  symmetry in Hc. apply Permutation_length_2_inv in Hc.
  unfold decide_connection. mred.
  destruct Hc as [-> | ->], passive; cbn -[to_drop is_passive conn_eq vec_get kept];
    rewrite ?Hx, ?Hy; cbn -[to_drop is_passive conn_eq vec_get kept];
    rewrite ?conn_eq_refl, ?Hxy, ?Hyx; cbn -[to_drop is_passive conn_eq vec_get kept];
    rewrite ?conn_eq_refl, ?Hxy, ?Hyx; cbn -[to_drop is_passive conn_eq vec_get kept];
    unfold to_drop, kept; cbn -[is_passive vec_get]; rewrite ?Hx, ?Hy;
    destruct (n_router_id (neighbor (info p)) <? router_id (info p)), (c_state x), (c_state y); simpl;
    eexists _, _; split; reflexivity.
Qed.

(** C11: how colliding connections are resolved at their two ends. Two speakers
    with different identifiers are connected twice, [x] opened by the first and
    [y] by the second, with [x'] and [y'] the other ends. When all four ends are
    in OpenConfirm, both keep the same connection, whichever one each of them
    looks at. But when each looks at the connection it opened itself, or each at
    the one the other opened, and the connection it does not look at has no OPEN
    yet (OpenSent), they keep different ones, so that both are closed. *)
Theorem collision_resolution_agrees (a b : Peer) (x y x' y' : Connection) (da db : bool)
  (Hids : router_id (info a) <> router_id (info b))
  (Ha : n_router_id (neighbor (info a)) = router_id (info b))
  (Hb : n_router_id (neighbor (info b)) = router_id (info a))
  (Hca : connections a ≡ₚ [x; y]) (Hcb : connections b ≡ₚ [x'; y'])
  (Hx : is_passive x = false) (Hy : is_passive y = true)
  (Hx' : is_passive x' = true) (Hy' : is_passive y' = false) :
  exists i j a' b', decide_connection da a = (Ok (Some i), a') /\ decide_connection db b = (Ok (Some j), b') /\
    (Forall (fun c => c_state c = OpenConfirm) [x; y; x'; y'] ->
       (connections a' = [x] /\ connections b' = [x']) \/ (connections a' = [y] /\ connections b' = [y'])) /\
    (da = db -> c_state (if da then x else y) = OpenSent -> c_state (if db then y' else x') = OpenSent ->
       if da then connections a' = [y] /\ connections b' = [x'] else connections a' = [x] /\ connections b' = [y']).
Proof.
  destruct (decide_keeps a x y da) as (i & a' & Hda & Ka); [done..|].
  rewrite Permutation_swap in Hcb.
  destruct (decide_keeps b y' x' db) as (j & b' & Hdb & Kb); [done..|].
  exists i, j, a', b'. split; [done|]. split; [done|]. rewrite Ka, Kb. unfold kept. split.
  - rewrite !Forall_cons_iff. intros (Sx & Sy & Sx' & Sy' & _).
    assert (c_state (if da then x else y) = OpenConfirm) as -> by (by destruct da).
    assert (c_state (if db then y' else x') = OpenConfirm) as -> by (by destruct db). rewrite Ha, Hb.
    destruct (Z.ltb_spec (router_id (info b)) (router_id (info a))),
      (Z.ltb_spec (router_id (info a)) (router_id (info b))); auto; lia.
  - intros <- -> ->. by destruct da.
Qed.

(** *** The hold time *)

(** C36: the hold time agreed on is the smaller of the configured one and the
    neighbor's. One or two seconds are refused and change nothing; zero switches
    the keepalive timer off; otherwise the hold timer is set to it from now and
    keepalives are due at least three times in it, at least once a second. *)
Theorem hold_time_negotiation (now h : Z) (p : Peer) (Hh : 0 <= h) (Hl : 0 <= hold_time (info p)) :
  let n := Z.min (hold_time (info p)) h in
  (n = 1 \/ n = 2 -> negotiate_hold_time now h p = (Err (OpenMessage UnacceptableHoldTime), p)) /\
  (n = 0 \/ 3 <= n -> exists p', negotiate_hold_time now h p = (Ok n, p') /\
     (n = 0 -> keepalive_time p' = 0 /\ interval (hold_timer p') = U32_MAX) /\
     (3 <= n -> negotiated_hold_time p' = n /\ interval (hold_timer p') = n /\ last (hold_timer p') = now /\
        period (keepalive_timer p') = keepalive_time p' /\ 1 <= keepalive_time p' /\ 3 * keepalive_time p' <= n)).
Proof.
  intros n. unfold negotiate_hold_time. mred.
  replace (if h <? hold_time (info p) then h else hold_time (info p)) with n
    by (unfold n; destruct (Z.ltb_spec h (hold_time (info p))); lia).
  assert (Hn : 0 <= n) by lia. clearbody n. split.
  - intros [-> | ->]; reflexivity.
  - intros [-> | Hn3].
    + eexists. split; [reflexivity|]. split; [done|lia].
    + replace ((0 <? n) && (n <? 3)) with false by (symmetry; apply andb_false_iff; right; lia).
      replace (n =? 0) with false by (symmetry; lia). eexists. split; [reflexivity|]. split; [lia|].
      intros _. cbn. do 4 (split; [done|]). split; [apply Z.div_le_lower_bound; lia|].
      apply Z.mul_div_le. lia.
Qed.
End connections.

(** *** The state the server sees *)

Section sync.
Context {I : IpNetApi} {NI : NetIter} {P : Profile}.
Context (accepts : list Output -> Output -> bool).
Context (group_iter : list (list Attribute.Attribute * list Path) -> list (list Attribute.Attribute * list Path)).
Context (hash_builder : PathBuilder -> Z) (clock : nat -> Z) (now : Z).

(** Actions that leave the machine and the shared state alone *)
#[local] Abbreviation still Q := (maintains (fun p => Q (i_state (info p)) (fsm p))).

#[local] Ltac still := repeat first [keep1 | solve [by intros]].

Lemma still_output Q o : still Q (output o).
Proof. apply maintains_modify. by intros p. Qed.

Lemma still_emit Q e o : still Q (emit accepts e o).
Proof. unfold emit. still. apply still_output. Qed.

Lemma still_send Q m : still Q (send accepts m).
Proof. unfold send, conn_send. still; apply still_emit. Qed.

Lemma still_send_all Q m : still Q (send_all_conn accepts m).
Proof. unfold send_all_conn, conn_send. still; apply still_emit. Qed.

Lemma still_release Q w : still Q (release accepts now w).
Proof. unfold release, drop_family. still; apply still_emit. Qed.

Lemma still_notify Q c sub : still Q (notify_and_release accepts now c sub).
Proof. unfold notify_and_release, count_retry. still; [apply still_send|apply still_release]. Qed.

Lemma still_dup Q m b : still Q (send_to_dup_conn accepts m b).
Proof. unfold send_to_dup_conn, conn_send. still; apply still_emit. Qed.

Lemma still_decide Q b : still Q (decide_connection b).
Proof. unfold decide_connection. still; apply still_output. Qed.

(** The state in the shared [PeerInfo] is that of the machine. *)
Definition agree (s : State) (f : FiniteStateMachine) : Prop := s = get_state f.
Definition in_sync (p : Peer) : Prop := agree (i_state (info p)) (fsm p).

#[local] Abbreviation sync := (maintains in_sync).

Lemma sync_log {A} (m : M Peer Error A) : sync m -> sync (log m).
Proof.
  intros Hm p r p' Hp H. unfold log in H. destruct (m p) as [[a|e|] p1] eqn:E1; injection H as <- <-; by eapply Hm.
Qed.

Lemma sync_move e : sync (move_state e).
Proof.
  intros p r p' _ H. unfold move_state in H. mred in H.
  destruct (exporter p && negb (bool_decide ((mv e (fsm p)).1 = i_state (info p)))) eqn:Hx;
    unfold mv in *; cbn in H, Hx; rewrite Hx in H; injection H as <- <-; done.
Qed.

#[local] Ltac session := unfold count_retry, drop_connections; repeat first
  [ keep1 | apply sync_move | apply sync_log
  | exact (still_output agree _) | exact (still_emit agree _ _) | exact (still_send agree _)
  | exact (still_release agree _) | exact (still_notify agree _ _) | exact (still_dup agree _ _)
  | exact (still_decide agree _) | solve [by intros] ].

(** Handlers other than that of the keepalive timer *)
Lemma sync_admin : sync manual_start /\ sync (manual_stop accepts now) /\
  sync manual_start_with_passive_tcp_establishment.
Proof. unfold manual_start, manual_stop, manual_start_with_passive_tcp_establishment. split_and!; session. Qed.

Lemma sync_timers : sync (connect_retry_timer_expire accepts now) /\ sync (hold_timer_expire accepts now).
Proof. unfold connect_retry_timer_expire, hold_timer_expire. split; session. Qed.

Lemma sync_connect stream e : sync (handle_tcp_connect accepts now stream e).
Proof. unfold handle_tcp_connect, handle_connection. session. Qed.

Lemma sync_fail : sync (tcp_connection_fail accepts now).
Proof. unfold tcp_connection_fail. session. Qed.

Lemma sync_open lp pp m : sync (bgp_open accepts now lp pp m).
Proof. unfold bgp_open, negotiate_hold_time, request_paths. session. Qed.

Lemma sync_errors : (forall e, sync (bgp_header_error accepts now e)) /\
  (forall e, sync (bgp_open_msg_error accepts now e)) /\ (forall e, sync (update_msg_error accepts now e)) /\
  sync (notification_msg_ver_error accepts now) /\ (forall m, sync (notification_msg accepts now m)).
Proof.
  unfold bgp_header_error, bgp_open_msg_error, update_msg_error, notification_msg_ver_error, notification_msg.
  split_and!; intros; session.
Qed.

Lemma sync_keepalive lp pp : sync (keepalive_msg accepts now lp pp).
Proof. unfold keepalive_msg. session. Qed.

Lemma sync_update m : sync (update_msg accepts hash_builder clock now m).
Proof. unfold update_msg, handle_update_msg, withdraw_route, accept_path. session. Qed.

Lemma sync_advertise ps : sync (advertise accepts group_iter ps).
Proof. unfold advertise, advertise_path. session. Qed.

Lemma sync_withdraw ns : sync (withdraw accepts ns).
Proof. unfold withdraw, withdraw_path. session. Qed.

Lemma sync_hold_tick : sync (hold_tick accepts now).
Proof. unfold hold_tick. session. apply sync_timers. Qed.

Lemma sync_close port : sync (close_conn accepts now port).
Proof.
  unfold close_conn. session. intros p r p' Hp H.
  destruct (release accepts now false p) as [x p1] eqn:Hr. pose proof (still_release agree false p x p1 Hp Hr) as Hs.
  by destruct x; injection H as <- <-.
Qed.

(** A tick of the keepalive timer does not write the state back; in the states
    it does not leave this makes no difference. *)
Lemma sync_keepalive_tick p r p' : in_sync p ->
  state_of p = Idle \/ state_of p = OpenConfirm \/ state_of p = Established ->
  keepalive_timer_expire accepts now p = (r, p') -> in_sync p'.
Proof.
  intros Hp Hst H.
  set (Q := fun s f => s = get_state f /\ get_state f = state_of p).
  enough (HJ : Q (i_state (info p')) (fsm p')) by apply HJ.
  assert (Hfin : still Q (modify (E:=Error) (fun q => set_fsm (mv TIMER_KEEPALIVE_TIMER_EXPIRE (fsm q)).2 q))).
  { apply maintains_modify. intros q [Hq Hs]. unfold Q. cbn. rewrite Hq. unfold get_state in *. cbn. rewrite Hs.
    by destruct Hst as [-> | [-> | ->]]. }
  assert (Hk : still Q (keepalive_timer_expire accepts now)).
  { unfold keepalive_timer_expire, count_retry.
    repeat first [exact Hfin | apply still_release | apply still_notify | apply still_send
                 | apply still_send_all | keep1 | solve [by intros]]. }
  eapply Hk; [|exact H]. by split.
Qed.

(** C24: the state in the information the server shares with a peer is the state
    of its machine, and stays so in every turn of the event loop, whatever the
    event and the result, except for a tick of the keepalive timer while the
    session is being opened. *)
Theorem shared_state_in_sync (input : Input) (p p' : Peer) (r : res Error bool)
  (Hp : in_sync p)
  (Htick : input = KeepaliveTick -> state_of p <> Connect /\ state_of p <> Active /\ state_of p <> OpenSent)
  (Ht : turn accepts group_iter hash_builder clock now input p = (r, p')) :
  in_sync p'.
Proof.
  assert (input = KeepaliveTick \/ input <> KeepaliveTick) as [->|Hno] by (destruct input; auto; by right).
  { destruct (Htick eq_refl) as (H1 & H2 & H3). cbn in Ht. unfold mbind, M_bind, log in Ht.
    destruct (keepalive_timer_expire accepts now p) as [x p1] eqn:Hk.
    apply sync_keepalive_tick in Hk; [|done|destruct (state_of p); auto; done].
    by destruct x; injection Ht as <- <-. }
  clear Htick. revert p r p' Hp Ht. change (sync (turn accepts group_iter hash_builder clock now input)).
  destruct input as [| |[[]|[]|[]|e| |[]]|stream|[]|[]|port]; try done; cbn [turn]; unfold get_info, get_path,
    route_refresh_msg, route_refresh_msg_error; session;
    first [apply sync_hold_tick | apply sync_admin | apply sync_timers | apply sync_connect | apply sync_fail
          | apply sync_open | apply sync_errors | apply sync_keepalive | apply sync_update | apply sync_advertise
          | apply sync_withdraw | apply sync_close].
Qed.
End sync.

(** *** The hold timer and malformed updates *)

Section expiry.
Context {I : IpNetApi} {NI : NetIter}.
Context (accepts : list Output -> Output -> bool).
Context (group_iter : list (list Attribute.Attribute * list Path) -> list (list Attribute.Attribute * list Path)).
Context (hash_builder : PathBuilder -> Z) (clock : nat -> Z) (now : Z).

(** The peer with its hold timer armed again *)
Definition rearmed (l : list Z) (p : Peer) : Peer :=
  set_hold_timer {| ticker := l; interval := interval (hold_timer p); last := last (hold_timer p) |} p.

(** A tick before the timer counts as expired *)
Lemma hold_tick_early {P : Profile} p l n : take_due now (ticker (hold_timer p)) = Some l ->
  negotiated_hold_time p = n -> interval (hold_timer p) = n -> uint 64 (n + 20) ->
  now - last (hold_timer p) <= n + 20 ->
  let e := now - last (hold_timer p) in
  hold_tick accepts now p =
    match ovf 64 (n - e) with
    | Ok d => match ovf 64 (d + 10) with
              | Ok d' => (Ok tt, rearmed (l ++ [now + d']) p)
              | Err x => (Err x, rearmed l p) | Panic => (Panic, rearmed l p) end
    | Err x => (Err x, rearmed l p)
    | Panic => (Panic, rearmed l p)
    end.
Proof.
  intros Hl Hn Hi Hu He. unfold hold_tick, rearmed. rewrite bind_get, Hl, bind_modify, Hi, Hn.
  rewrite (ovf_small 64 (n + 20)) by done. mred.
  destruct (Z.ltb_spec (n + 20) (now - last (hold_timer p))); [lia|].
  destruct (ovf 64 (n - (now - last (hold_timer p)))) as [d| |]; [|done|done].
  destruct (ovf 64 (d + 10)) as [d'| |]; done.
Qed.

(** The hold timer does not expire in time. A tick that finds the neighbor
    silent for at most the hold time arms the timer again for ten seconds past
    it. The tick that then comes finds the hold time exceeded by less than
    twenty seconds, which does not count as expired, and computes the next
    sleep from a negative difference: with overflow checks the task panics;
    without them, from eleven seconds past the hold time, the next sleep is
    longer than five hundred billion years and the session is not ended. *)
Theorem hold_timer_rearmed_past_expiry (p : Peer) (l : list Z) (n : Z)
  (Hl : take_due now (ticker (hold_timer p)) = Some l)
  (Hn : negotiated_hold_time p = n) (Hi : interval (hold_timer p) = n) (Hb : 3 <= n <= 65535)
  (He : 0 <= now - last (hold_timer p) <= n + 20) :
  let e := now - last (hold_timer p) in
  (e <= n -> forall P : Profile, @hold_tick I NI P accepts now p = (Ok tt, rearmed (l ++ [last (hold_timer p) + n + 10]) p)) /\
  (n < e -> @hold_tick I NI debug_profile accepts now p = (Panic, rearmed l p)) /\
  (n + 10 < e -> exists d, 2 ^ 64 - 10 <= d /\
     @hold_tick I NI release_profile accepts now p = (Ok tt, rearmed (l ++ [now + d]) p)).
Proof.
  intros e. assert (Hu : uint 64 (n + 20)) by (unfold uint; lia).
  assert (Hle : now - last (hold_timer p) <= n + 20) by lia. fold e in He. split; [|split].
  - intros Hle' P. rewrite (hold_tick_early p l n) by done. fold e. rewrite !ovf_small by (unfold uint; lia).
    by replace (now + (n - e + 10)) with (last (hold_timer p) + n + 10) by (unfold e; lia).
  - intros Hlt. rewrite (hold_tick_early (P:=debug_profile) p l n) by done. fold e.
    rewrite ovf_debug; [done|]. unfold uint. lia.
  - intros Hlt. exists (n - e + 10 + 2 ^ 64). split; [lia|].
    rewrite (hold_tick_early (P:=release_profile) p l n) by done. fold e. rewrite !ovf_release. unfold wrap.
    replace (((n - e) mod 2 ^ 64 + 10) mod 2 ^ 64) with (n - e + 10 + 2 ^ 64); [done|].
    rewrite Zplus_mod_idemp_l. apply (Z.mod_unique_pos _ _ (-1)); lia.
Qed.

(** Most malformed updates do not end the session. The notification for an
    error in an update is built from the subcodes of header errors, which has
    none past 3: for the seven errors with a higher number nothing is sent, the
    connection stays open and the peer is unchanged. *)
Theorem malformed_update_keeps_session {P : Profile} (p : Peer) (e : UpdateMessageError)
  (Hs : state_of p = Established) (He : 3 < update_code e) :
  turn accepts group_iter hash_builder clock now (MsgRecv (UpdateMsgErr e)) p = (Ok true, p).
Proof.
  cbn [turn]. unfold log, update_msg_error. mred. rewrite Hs. unfold notify_and_release. mred.
  by destruct e; simpl in He; try lia.
Qed.

(** The same holds for two of the errors in an OPEN message. *)
Lemma malformed_open_keeps_connection {P : Profile} (p : Peer) (e : OpenMessageError) :
  state_of p = OpenSent \/ state_of p = OpenConfirm -> 3 < open_code e ->
  turn accepts group_iter hash_builder clock now (MsgRecv (BgpOpenMsgErr e)) p = (Ok true, p).
Proof.
  intros Hs He. cbn [turn]. unfold log, bgp_open_msg_error. mred. unfold notify_and_release. mred.
  by destruct Hs as [-> | ->], e; simpl in He; try lia.
Qed.

(** What the RIB manager sends before the session is established is lost: its
    answer to the request for paths, which is made two states earlier. *)
Lemma early_paths_discarded {P : Profile} (p : Peer) (e : RibManager.RibEvent) :
  state_of p <> Established ->
  turn accepts group_iter hash_builder clock now (RibRecv e) p = (Ok true, p).
Proof. intros Hs. cbn [turn]. rewrite bind_get, bool_decide_true by done. done. Qed.

(** An update that withdraws a route is not searched for new ones. *)
Lemma announcements_ignored_with_withdrawals {P : Profile} (w : Prefix.Prefix) ws a nl p :
  handle_update_msg accepts hash_builder clock (w :: ws) a nl p =
  handle_update_msg accepts hash_builder clock (w :: ws) [] [] p.
Proof. done. Qed.
End expiry.

(** ** Examples *)

Section witnesses.
#[local] Existing Instance simple_ipnet.
#[local] Existing Instance simple_iter.
#[local] Existing Instance simple_iter_laws.
#[local] Existing Instance debug_profile.

(** Every message is taken, groups are sent in the order they were made, a path
    builder hashes to its MED, the clock stands still. *)
Definition turn_ex (now : Z) (input : Input) : M Peer Error bool :=
  turn (fun _ _ => true) (fun g => g) b_med (fun _ => 0) now input.

Definition goes (inputs : list Input) (p : Peer) : Peer := foldl (fun p x => (turn_ex 0 x p).2) p inputs.

Definition info_ex : PeerInfo :=
  info_new 65000 1 {| nc_name := "peer"; nc_asn := 100; nc_address := AV4 2; nc_router_id := 2; nc_passive := None |}
    (Capability.default 65000) [ipv4_unicast].

Definition stream_ex (port : Z) : TcpStream :=
  {| s_local_addr := AV4 1; s_local_port := port; s_peer_addr := AV4 2; s_peer_port := 179; s_connected := true |}.

Definition open_ex : Message.Message := Message.Open 4 100 90 2 [].

(** An update that announces a network with the given MED *)
Definition update_ex (med : Z) (nets : list IpNet) : Message.Message :=
  Message.Update []
    [ Attribute.Origin (Attribute.base_new Attribute.FLAG_TRANSITIVE Attribute.ORIGIN) 0;
      Attribute.ASPath (Attribute.base_new Attribute.FLAG_TRANSITIVE Attribute.AS_PATH)
        [{| Attribute.segment_type := Attribute.AS_SEQUENCE; Attribute.segments := [100; 7] |}];
      Attribute.NextHop (Attribute.base_new Attribute.FLAG_TRANSITIVE Attribute.NEXT_HOP) 2;
      Attribute.MultiExitDisc (Attribute.base_new Attribute.FLAG_OPTIONAL Attribute.MULTI_EXIT_DISC) med ]
    (map Prefix.from_ipnet nets).

Definition handshake : list Input :=
  [AdminRecv (Admin ManualStart); ConnRecv (stream_ex 50000); MsgRecv (BgpOpen 50000 179 open_ex);
   MsgRecv (KeepAliveMsg 50000 179)].

Definition p_up : Peer := goes handshake (new 0 info_ex false).
Definition p_paths : Peer := goes [MsgRecv (UpdateMsg (update_ex 5 [net24]))] p_up.


(** A speaker with two confirmed connections to the neighbor *)
Definition colliding (me other : Z) (l : list Connection) : Peer :=
  set_connections l (new 0 (info_new 65000 me
    {| nc_name := "peer"; nc_asn := 100; nc_address := AV4 other; nc_router_id := other; nc_passive := None |}
    (Capability.default 65000) [ipv4_unicast]) false).

Definition confirmed (a : Z) (ap : Z) (b : Z) (bp : Z) : Connection := conn_state OpenConfirm (conn_new (AV4 a) ap (AV4 b) bp).

Lemma collision_resolution_agrees_witness : exists i j a' b',
  decide_connection true (colliding 1 2 [confirmed 1 50000 2 179; confirmed 1 179 2 60000]) = (Ok (Some i), a') /\
  decide_connection true (colliding 2 1 [confirmed 2 179 1 50000; confirmed 2 60000 1 179]) = (Ok (Some j), b') /\
  ((connections a' = [confirmed 1 50000 2 179] /\ connections b' = [confirmed 2 179 1 50000]) \/
   (connections a' = [confirmed 1 179 2 60000] /\ connections b' = [confirmed 2 60000 1 179])).
Proof.
  destruct (collision_resolution_agrees (colliding 1 2 [confirmed 1 50000 2 179; confirmed 1 179 2 60000])
    (colliding 2 1 [confirmed 2 179 1 50000; confirmed 2 60000 1 179])
    (confirmed 1 50000 2 179) (confirmed 1 179 2 60000) (confirmed 2 179 1 50000) (confirmed 2 60000 1 179) true true)
    as (i & j & a' & b' & H1 & H2 & Hagree & _); [discriminate|reflexivity..|].
  exists i, j, a', b'. split; [exact H1|]. split; [exact H2|]. apply Hagree. repeat constructor.
Defined.

(** Each speaker has just read the OPEN on the connection it opened itself: both
    drop the other one. *)
Example collision_closes_both :
  let sent (c : Connection) := conn_state OpenSent c in
  connections (decide_connection false (colliding 1 2 [confirmed 1 50000 2 179; sent (confirmed 1 179 2 60000)])).2 =
    [confirmed 1 50000 2 179] /\
  connections (decide_connection false (colliding 2 1 [sent (confirmed 2 179 1 50000); confirmed 2 60000 1 179])).2 =
    [confirmed 2 60000 1 179].
Proof. split; reflexivity. Qed.

Lemma hold_time_negotiation_witness :
  exists p', negotiate_hold_time 5 90 (new 0 info_ex false) = (Ok 90, p') /\ 3 * keepalive_time p' <= 90.
Proof.
  destruct (hold_time_negotiation 5 90 (new 0 info_ex false)) as [_ H]; [lia|apply Z.leb_le; reflexivity|].
  destruct H as (p' & H & _ & H3); [right; apply Z.leb_le; reflexivity|]. exists p'. split; [exact H|].
  destruct H3 as (_ & _ & _ & _ & _ & H3); [apply Z.leb_le; reflexivity|exact H3].
Defined.

Lemma shared_state_in_sync_witness : in_sync (goes [AdminRecv (Admin ManualStart)] (new 0 info_ex false)).
Proof.
  apply (shared_state_in_sync (fun _ _ => true) (fun g => g) b_med (fun _ => 0) 0 (AdminRecv (Admin ManualStart))
    (new 0 info_ex false) _ (Ok true)); [reflexivity|discriminate|reflexivity].
Defined.

(** Ninety-five seconds without a message, of ninety agreed on *)
Definition silent : Peer :=
  set_negotiated_hold_time 90 (set_hold_timer {| ticker := [95]; interval := 90; last := 0 |} (new 0 info_ex false)).

Lemma hold_timer_rearmed_past_expiry_witness : hold_tick (fun _ _ => true) 95 silent = (Panic, rearmed [] silent).
Proof.
  destruct (hold_timer_rearmed_past_expiry (fun _ _ => true) 95 silent [] 90) as (_ & H & _);
    [reflexivity|reflexivity|reflexivity|lia|simpl; lia|]. apply H. simpl. lia.
Defined.

Lemma malformed_update_keeps_session_witness :
  turn_ex 0 (MsgRecv (UpdateMsgErr MalformedASPath)) (set_fsm {| state := Established |} (new 0 info_ex false)) =
  (Ok true, set_fsm {| state := Established |} (new 0 info_ex false)).
Proof. apply malformed_update_keeps_session; [reflexivity|simpl; lia]. Defined.
End witnesses.

End PeerFacts.
