(* ===== verification/BgpPeerSession.v ===== *)
(** * Sessions and the RIB manager

    What a peer has told the RIB manager to install, followed through the runs
    of its event loop: it is what the peer keeps in its Adj-RIB-In, and nothing
    is left of it when the session is down. The ways in which this fails are
    theorems too. *)

From S2P Require Import Prelude.
From S2P Require Import Net.
From S2P Require Import BgpFsm.
From S2P Require Import BgpFamily.
From S2P Require Import BgpPrefix.
From S2P Require Import BgpCapability.
From S2P Require Import BgpAttribute.
From S2P Require Import BgpMessage.
From S2P Require Import BgpPath.
From S2P Require Import BgpRib.
From S2P Require Import BgpLocRib.
From S2P Require Import BgpRibManager.
From S2P Require Import BgpEvent.
From S2P Require Import BgpPeer.
From S2P Require Import BgpPeerFacts.

Module PeerSession.
Import BgpError Family EventCode Fsm Path.
Import Event Peer PeerFacts.

Section spec.
Context {I : IpNetApi} {NI : NetIter} {P : Profile}.

(** The paths installed and not dropped: their networks and identifiers. *)
Definition offer (s : gset (IpNet * Z)) (o : Output) : gset (IpNet * Z) :=
  match o with
  | ToRib (RibManager.InstallPaths _ ps) => s ∪ list_to_set (map (fun q => (prefix q, id q)) ps)
  | ToRib (RibManager.DropPaths _ _ ids) => s ∖ list_to_set ids
  | _ => s
  end.

Definition offered (t : list Output) : gset (IpNet * Z) := foldl offer ∅ t.

(** A RIB holds a path, under its own network and in one family only. *)
Definition holds (r : AdjRib.AdjRib) (n : IpNet) (i : Z) : Prop :=
  exists f q, AdjRib.get f n r = Some q /\ id q = i.

Record sound (fams : list AddressFamily) (r : AdjRib.AdjRib) : Prop := {
  sound_dom f t : AdjRib.table r !! f = Some t -> f ∈ fams;
  sound_prefix f n q : AdjRib.get f n r = Some q -> prefix q = n;
  sound_uniq f g n q q' : AdjRib.get f n r = Some q -> AdjRib.get g n r = Some q' -> f = g;
}.

(** What is kept of the neighbor's paths. *)
Definition kept (p : Peer) : IpNet -> Z -> Prop := holds (adj_rib_in p).

Definition opening (s : State) : Prop := s = OpenSent \/ s = OpenConfirm \/ s = Established.

Record consistent (p : Peer) : Prop := {
  con_rib : sound (families (info p)) (adj_rib_in p);
  con_offered n i : (n, i) ∈ offered (trace p) <-> kept p n i;
  con_conn : connections p <> [] -> initialized p = false;
}.

Record inv (p : Peer) : Prop := {
  inv_con : consistent p;
  inv_est n i : kept p n i -> state_of p = Established;
  inv_open : opening (state_of p) -> initialized p = false;
}.

(** A released session. *)
Record quiet (p : Peer) : Prop := {
  quiet_con : consistent p;
  quiet_init : initialized p = true;
  quiet_none n i : ~ kept p n i;
}.

(** The networks an update announces *)
Definition mp_nlri (a : Attribute.Attribute) : list Prefix.Prefix :=
  match a with Attribute.MPReachNLRI _ _ _ nl => nl | _ => [] end.

Definition announced (attributes : list Attribute.Attribute) (nlri : list Prefix.Prefix) : list IpNet :=
  map Prefix.into_ipnet (flat_map mp_nlri attributes ++ nlri).

(** None of them has a path in the Adj-RIB-In. *)
Definition fresh (p : Peer) (msg : Message.Message) : Prop :=
  match msg with
  | Message.Update _ attributes nlri =>
      Forall (fun n => forall f, AdjRib.get f n (adj_rib_in p) = None) (announced attributes nlri)
  | _ => True
  end.

(** What the invariant depends on *)
Definition core (p : Peer) :=
  (fsm p, initialized p, connections p, adj_rib_in p, families (info p), offered (trace p)).
End spec.

#[global] Arguments offered : simpl never.

Section facts.
Context {I : IpNetApi} {NI : NetIter} {NL : NetIterLaws} {P : Profile}.
Context (accepts : list Output -> Output -> bool).
Context (accepts_rib : forall t e, accepts t (ToRib e) = true).
Context (group_iter : list (list Attribute.Attribute * list Path) -> list (list Attribute.Attribute * list Path)).
Context (hash_builder : PathBuilder -> Z).

Lemma offered_snoc t o : offered (t ++ [o]) = offer (offered t) o.
Proof. unfold offered. by rewrite foldl_app. Qed.

Lemma core_inj p p' : core p' = core p -> fsm p' = fsm p /\ initialized p' = initialized p /\
  connections p' = connections p /\ adj_rib_in p' = adj_rib_in p /\ families (info p') = families (info p) /\
  offered (trace p') = offered (trace p).
Proof. unfold core. by intros [= -> -> -> -> -> ->]. Qed.

Lemma consistent_core p p' : consistent p -> core p' = core p -> consistent p'.
Proof.
  intros [Hrib Ho Hc] (_ & Hi & Hcn & Hr & Hf & Ht)%core_inj. split; unfold kept in *; rewrite ?Hr, ?Hf, ?Ht, ?Hcn, ?Hi; done.
Qed.

Lemma inv_core p p' : inv p -> core p' = core p -> inv p'.
Proof.
  intros [Hc He Ho] Hcore. pose proof (core_inj _ _ Hcore) as (Hf & Hi & _ & Hr & _ & _).
  split; [by eapply consistent_core| |]; unfold kept, state_of in *; rewrite ?Hf, ?Hr, ?Hi; done.
Qed.

Lemma inv_empty p : inv p -> state_of p <> Established -> forall n i, ~ kept p n i.
Proof. intros Hp Hs n i Hk. by apply Hs, (inv_est _ Hp n i). Qed.

(** *** Actions that do not touch the session *)

#[local] Abbreviation inert act := (forall c, maintains (fun p => core p = c) act).

Lemma inert_output o : (forall s, offer s o = s) -> inert (output o).
Proof. intros Ho c. apply maintains_modify. intros p <-. unfold core. cbn. by rewrite offered_snoc, Ho. Qed.

Lemma inert_emit e o : (forall s, offer s o = s) -> inert (emit accepts e o).
Proof. intros Ho c. unfold emit. keep; by apply inert_output. Qed.

#[local] Ltac inert := repeat first [ keep1 | apply inert_emit; done | apply inert_output; done | solve [intros; subst; done] ].

Lemma inert_send m : inert (send accepts m).
Proof. intros c. unfold send, conn_send. inert. Qed.

Lemma inert_send_all m : inert (send_all_conn accepts m).
Proof. intros c. unfold send_all_conn, conn_send. inert. Qed.

Lemma inert_negotiate now h : inert (negotiate_hold_time now h).
Proof. intros c. unfold negotiate_hold_time. inert. Qed.

Lemma inert_request i : inert (request_paths accepts i).
Proof. intros c. unfold request_paths. inert. Qed.

Lemma inert_advertise ps : inert (advertise accepts group_iter ps).
Proof. intros c. unfold advertise, advertise_path. inert; apply inert_send. Qed.

Lemma inert_withdraw ns : inert (withdraw accepts ns).
Proof. intros c. unfold withdraw, withdraw_path. inert. apply inert_send. Qed.

Lemma inert_api : inert (get_info accepts) /\ (forall k f, inert (get_path accepts k f)).
Proof. unfold get_info, get_path. split; intros; inert. Qed.

Lemma inert_inv {A} (act : M Peer Error A) p r p' : inert act -> inv p -> act p = (r, p') -> inv p' /\ core p' = core p.
Proof. intros Ha Hp H. pose proof (Ha (core p) p r p' eq_refl H) as Hc. split; [by eapply inv_core|done]. Qed.

(** *** Moving the state *)

(** The action moves the machine and nothing else the invariant depends on. *)
Definition moves (e : Z) (act : M Peer Error unit) : Prop := forall p r p', act p = (r, p') ->
  core p' = ({| state := next_state (state_of p) e |}, initialized p, connections p, adj_rib_in p,
             families (info p), offered (trace p)).

Lemma moves_state e : moves e (move_state e).
Proof.
  intros p r p'. unfold move_state. mred. unfold mv. cbv zeta.
  destruct (exporter p && negb _); intros [= <- <-]; unfold core; cbn; [by rewrite offered_snoc|done].
Qed.

Lemma moves_tick : moves TIMER_KEEPALIVE_TIMER_EXPIRE
  (modify (fun p => set_fsm (mv TIMER_KEEPALIVE_TIMER_EXPIRE (fsm p)).2 p)).
Proof. by intros p r p' [= <- <-]. Qed.

Lemma moves_inv e act p r p' : moves e act -> consistent p ->
  (forall n i, kept p n i -> next_state (state_of p) e = Established) ->
  (opening (next_state (state_of p) e) -> initialized p = false) -> act p = (r, p') -> inv p'.
Proof.
  intros Hm Hc He Ho H. apply Hm in H. unfold core in H. injection H as Hf Hi Hcn Hr Hfam Ht.
  split; unfold state_of, get_state; rewrite ?Hf, ?Hi; [|unfold kept; by rewrite Hr|done].
  destruct Hc as [Hrib Hof Hconn]. split; unfold kept in *; rewrite ?Hr, ?Hfam, ?Ht, ?Hcn, ?Hi; done.
Qed.

(** A quiet action, then the rest *)
Lemma inert_step {A B} (act : M Peer Error A) (k : A -> M Peer Error B) p r p' : inert act -> inv p ->
  (act ≫= k) p = (r, p') ->
  (forall a p1, inv p1 -> core p1 = core p -> act p = (Ok a, p1) -> k a p1 = (r, p') -> inv p') -> inv p'.
Proof.
  intros Ha Hp H Hk. unfold mbind, M_bind in H. destruct (act p) as [x p1] eqn:H1.
  destruct (inert_inv _ _ _ _ Ha Hp H1) as [Hp1 Hc]. destruct x; [|by injection H as <- <-..]. eauto.
Qed.

Lemma core_state p p' : core p' = core p -> state_of p' = state_of p.
Proof. intros (Hf & _)%core_inj. unfold state_of. by rewrite Hf. Qed.

(** The session goes on. *)
Lemma inert_move {A} (act : M Peer Error A) e m p r p' : inv p -> (act ;; m) p = (r, p') -> inert act -> moves e m ->
  (state_of p = Established -> next_state (state_of p) e = Established) ->
  (opening (next_state (state_of p) e) -> initialized p = false) -> inv p'.
Proof.
  intros Hp H Ha Hm He Ho. eapply inert_step; [exact Ha|exact Hp|exact H|]. intros a p1 Hp1 Hc _ H1.
  pose proof (core_state _ _ Hc) as Hs. pose proof (core_inj _ _ Hc) as (_ & Hi & _).
  eapply moves_inv; [exact Hm|apply Hp1| | |exact H1]; rewrite Hs, ?Hi; [|done].
  intros n i Hk. apply He. rewrite <-Hs. by apply (inv_est _ Hp1 n i).
Qed.

(** *** Releasing *)

(** The action ends the session, or fails and changes nothing. *)
Definition quits {A} (act : M Peer Error A) : Prop := forall p r p', inv p -> act p = (r, p') ->
  match r with Ok _ => quiet p' /\ fsm p' = fsm p | _ => inv p' end.

Lemma quits_move {A} (act : M Peer Error A) e m p r p' : inv p -> (act ;; m) p = (r, p') ->
  quits act -> moves e m -> ~ opening (next_state (state_of p) e) -> inv p'.
Proof.
  intros Hp H Ha Hm Hn. unfold mbind, M_bind in H. destruct (act p) as [x p1] eqn:H1.
  apply Ha in H1; [|done]. destruct x; [|by injection H as <- <-..]. destruct H1 as [[Hc Hi Hnone] Hf].
  assert (Hs : state_of p1 = state_of p) by (unfold state_of; by rewrite Hf).
  eapply moves_inv; [exact Hm|done| |rewrite Hs; done|exact H]. intros n i Hk. by destruct (Hnone n i).
Qed.

Lemma quits_then {A B} (act : M Peer Error A) (k : A -> M Peer Error B) :
  quits act -> (forall a, inert (k a)) -> (forall a p, exists b p', k a p = (Ok b, p')) -> quits (act ≫= k).
Proof.
  intros Ha Hk Hok p r p' Hp H. unfold mbind, M_bind in H. destruct (act p) as [x p1] eqn:H1.
  apply Ha in H1; [|done]. destruct x as [a|e|]; [|by injection H as <- <-..]. destruct H1 as [[Hc Hi Hn] Hf].
  destruct (Hok a p1) as (b & p2 & H2). rewrite H2 in H. injection H as <- <-.
  pose proof (Hk a (core p1) p1 _ _ eq_refl H2) as Hcore. pose proof (core_inj _ _ Hcore) as (Hf2 & Hi2 & _ & Hr & _).
  split; [|congruence]. split; [by eapply consistent_core|congruence|]. unfold kept in *. by rewrite Hr.
Qed.

Lemma inert_quits {A B} (act : M Peer Error A) (k : A -> M Peer Error B) :
  inert act -> (forall a, quits (k a)) -> quits (act ≫= k).
Proof.
  intros Ha Hk p r p' Hp H. unfold mbind, M_bind in H. destruct (act p) as [x p1] eqn:H1.
  destruct (inert_inv _ _ _ _ Ha Hp H1) as [Hp1 Hc]. pose proof (core_inj _ _ Hc) as (Hf & _).
  destruct x as [a|e|]; [|by injection H as <- <-..]. apply Hk in H; [|done]. destruct r; [|done..].
  destruct H as [Hq Hf2]. split; [done|congruence].
Qed.

Lemma set_trace_id p : set_trace (trace p) p = p.
Proof. by destruct p. Qed.

(** The RIB manager is told to drop the paths of a family. *)
Lemma drop_family_ok f p : (forall n q, AdjRib.get f n (adj_rib_in p) = Some q -> prefix q = n) ->
  exists t, drop_family accepts f p = (Ok tt, set_trace t p) /\
    forall n i, (n, i) ∈ offered t <->
      (n, i) ∈ offered (trace p) /\ ~ exists q, AdjRib.get f n (adj_rib_in p) = Some q /\ id q = i.
Proof.
  intros Hpre. unfold drop_family. mred. pose proof (fun q => AdjRib.get_all_elem (adj_rib_in p) f q) as get_all_elem'.
  destruct (AdjRib.get_all f (adj_rib_in p)) as [paths|]; simpl in get_all_elem'.
  - unfold emit. mred. rewrite accepts_rib. eexists. split; [reflexivity|]. intros n i.
    rewrite offered_snoc. simpl. rewrite elem_of_difference, elem_of_list_to_set, list_elem_of_fmap.
    split; intros [Hin Hnot]; (split; [done|]); contradict Hnot.
    + destruct Hnot as (q & Hq & <-). exists q. rewrite (Hpre _ _ Hq). split; [done|]. apply get_all_elem'. by exists n.
    + destruct Hnot as (q & [= -> ->] & Hq). apply get_all_elem' in Hq as [k Hk]. exists q.
      by rewrite (Hpre _ _ Hk).
  - exists (trace p). split; [by rewrite set_trace_id|]. intros n i. split; [|by intros [? _]]. intros Hin. split; [done|].
    intros (q & Hq & _). assert (q ∈ []) as Hq' by (apply get_all_elem'; by exists n). by apply elem_of_nil in Hq'.
Qed.

Lemma drop_families_ok fs p :
  (forall f n q, AdjRib.get f n (adj_rib_in p) = Some q -> prefix q = n) ->
  exists t, for_each (drop_family accepts) fs p = (Ok tt, set_trace t p) /\
    forall n i, (n, i) ∈ offered t <->
      (n, i) ∈ offered (trace p) /\ ~ exists f q, f ∈ fs /\ AdjRib.get f n (adj_rib_in p) = Some q /\ id q = i.
Proof.
  intros Hpre. revert p Hpre. induction fs as [|f fs IH]; intros p Hpre.
  - exists (trace p). split; [by rewrite set_trace_id|]. intros n i. split; [|by intros [? _]]. intros Hin. split; [done|].
    intros (f & q & Hf & _). by apply elem_of_nil in Hf.
  - destruct (drop_family_ok f p (Hpre f)) as (t1 & H1 & Ht1).
    destruct (IH (set_trace t1 p)) as (t2 & H2 & Ht2); [done|]. exists t2. split.
    + cbn [for_each]. rewrite (bind_ok _ _ _ _ _ H1), H2. by destruct p.
    + intros n i. rewrite Ht2. cbn [trace set_trace adj_rib_in]. rewrite Ht1. setoid_rewrite elem_of_cons. naive_solver.
Qed.

(** What a release does to the record before the RIB manager is told *)
Lemma offered_close l t : offered (t ++ map CloseConn l) = offered t.
Proof.
  unfold offered. rewrite foldl_app. generalize (foldl offer ∅ t). induction l as [|c l IH]; intros s; [done|apply IH].
Qed.

(** An empty Adj-RIB-In, of which nothing is offered *)
Lemma quiet_intro p p0 : consistent p0 -> families (info p) = families (info p0) ->
  adj_rib_in p = AdjRib.clear (adj_rib_in p0) -> connections p = [] -> initialized p = true ->
  (forall n i, (n, i) ∉ offered (trace p)) -> quiet p.
Proof.
  intros [[Hd _ _] _ _] Hf Hr Hc Hi Ho.
  assert (Hk : forall n i, ~ kept p n i) by (intros n i (f & q & Hg & _); by rewrite Hr, AdjRib.get_clear in Hg).
  split; [|done|done]. split; [split; rewrite ?Hr, ?Hf| |].
  - intros f t Ht. simpl in Ht. rewrite lookup_fmap in Ht. destruct (AdjRib.table (adj_rib_in p0) !! f) eqn:E; [|done].
    by eapply Hd.
  - intros f n q Hg. by rewrite AdjRib.get_clear in Hg.
  - intros f g n q q' Hg. by rewrite AdjRib.get_clear in Hg.
  - intros n i. split; [intros H; by destruct (Ho n i)|intros H; by destruct (Hk n i)].
  - by rewrite Hc.
Qed.

(** The session with its timers stopped and its connections closed *)
Definition closing (now : Z) (p : Peer) : Peer :=
  set_recv_counter (counter_reset (recv_counter p)) (set_send_counter (counter_reset (send_counter p))
    (set_trace (trace p ++ map CloseConn (connections p)) (set_connections []
      (set_negotiated_hold_time Message.DEFAULT_HOLD_TIME (set_hold_timer (timer_stop now (hold_timer p))
        (set_keepalive_timer {| start := now + U32_MAX; period := U32_MAX |} (set_keepalive_time 0 p))))))).

(** ... and with its RIBs emptied *)
Definition cleared (p : Peer) : Peer :=
  set_initialized true (set_adj_rib_out (AdjRib.clear (adj_rib_out p))
    (set_adj_rib_in (AdjRib.clear (adj_rib_in p)) p)).

Definition withdraw_all (p : Peer) : M Peer Error unit :=
  if bool_decide (state_of p = Established) then for_each (drop_family accepts) (families (info p)) else mret tt.

Lemma release_eq now w p : initialized p = false ->
  release accepts now w p = (withdraw_all (closing now p) ;; modify cleared) (closing now p).
Proof.
  intros Hi. unfold release. rewrite bind_get, Hi, !bind_modify, bind_get.
  change (set_recv_counter _ _) with (closing now p). unfold withdraw_all.
  match goal with |- (?m ≫= _) ?s = _ => unfold mbind, M_bind; by destruct (m s) as [[] ?] end.
Qed.

Lemma closing_core now p : adj_rib_in (closing now p) = adj_rib_in p /\ info (closing now p) = info p /\
  offered (trace (closing now p)) = offered (trace p) /\ fsm (closing now p) = fsm p /\
  connections (closing now p) = [].
Proof. do 2 (split; [done|]). split; [apply offered_close|done]. Qed.

Lemma quits_release now w : quits (release accepts now w).
Proof.
  intros p r p' [Hcon Hest Hopen] H. pose proof Hcon as [[Hdom Hpre Huniq] Hoff Hconn].
  destruct (initialized p) eqn:Hinit.
  { unfold release in H. rewrite bind_get, Hinit in H.
    injection H as <- <-. split; [|done]. split; [done|done|]. intros n i Hk. specialize (Hest n i Hk).
    discriminate (Hopen (or_intror (or_intror Hest))). }
  rewrite release_eq in H by done. destruct (closing_core now p) as (Hr & Hf & Ht & Hm & Hc).
  revert H Hr Hf Ht Hm Hc. generalize (closing now p). intros p1 H Hr Hf Ht Hm Hc.
  unfold withdraw_all in H. destruct (bool_decide_reflect (state_of p1 = Established)) as [Hs|Hs].
  - destruct (drop_families_ok (families (info p1)) p1) as (t & Hdr & Hof); [by rewrite Hr|].
    rewrite (bind_ok _ _ _ _ _ Hdr) in H. injection H as <- <-. split; [|done].
    apply (quiet_intro _ p); cbn; [done|by rewrite Hf|by rewrite Hr|done|done|].
    intros n i [Hin Hno]%Hof. rewrite Ht in Hin. apply Hoff in Hin as (f & q & Hg & Hi).
    destruct Hno. exists f, q. rewrite Hr, Hf. split; [|done]. unfold AdjRib.get in Hg.
    destruct (AdjRib.table (adj_rib_in p) !! f) eqn:E; [|done]. by eapply Hdom.
  - injection H as <- <-. split; [|done].
    apply (quiet_intro _ p); cbn; [done|by rewrite Hf|by rewrite Hr|done|done|].
    intros n i Hin. rewrite Ht in Hin. apply Hoff, Hest in Hin. unfold state_of in *. congruence.
Qed.

Lemma quits_retry now w : quits (release accepts now w ;; count_retry).
Proof.
  apply quits_then; [apply quits_release| |].
  - intros _ c. apply maintains_modify. by intros p <-.
  - intros _ p. by eexists _, _.
Qed.

Lemma quits_notify now c sub : quits (notify_and_release accepts now c sub).
Proof.
  unfold notify_and_release. apply inert_quits; [intros ?; apply maintains_lift|]. intros m.
  apply inert_quits; [apply inert_send|]. intros _. apply quits_retry.
Qed.

(** *** Handlers *)

#[local] Ltac closed_state Hs := rewrite ?Hs; let Ho := fresh in
  first [ intros [Ho|[Ho|Ho]]; vm_compute in Ho; discriminate Ho
        | intros Ho; vm_compute in Ho; discriminate Ho ].

(** A branch that ends the session, or leaves it alone *)
#[local] Ltac ends Hp Hs H := eapply quits_move;
  [exact Hp|exact H|first [apply quits_notify | apply quits_retry | apply quits_release]
  |first [apply moves_state | apply moves_tick]|closed_state Hs].
#[local] Ltac goes_on Hp Hs H := eapply inert_move;
  [exact Hp|exact H|intros ?; inert|first [apply moves_state | apply moves_tick]
  |first [closed_state Hs | by rewrite ?Hs]
  |first [intros _; apply (inv_open _ Hp); rewrite Hs; unfold opening; by auto | closed_state Hs]].
#[local] Ltac handler := let p := fresh "p" in let r := fresh "r" in let p' := fresh "p'" in
  let Hp := fresh "Hp" in let H := fresh "H" in let Hs := fresh "Hs" in
  intros p r p' Hp H; rewrite bind_get in H; destruct (state_of p) eqn:Hs;
  first [ends Hp Hs H | goes_on Hp Hs H | idtac].

Lemma inv_retry_timer now : maintains inv (connect_retry_timer_expire accepts now).
Proof. unfold connect_retry_timer_expire. handler. Qed.

Lemma inv_hold_timer now : maintains inv (hold_timer_expire accepts now).
Proof. unfold hold_timer_expire. handler. Qed.

Lemma inv_fail now : maintains inv (tcp_connection_fail accepts now).
Proof. unfold tcp_connection_fail, drop_connections. handler. Qed.

Lemma inv_admin now : maintains inv manual_start /\ maintains inv (manual_stop accepts now) /\
  maintains inv manual_start_with_passive_tcp_establishment.
Proof.
  split_and!; intros p r p' Hp H.
  - unfold manual_start in H. rewrite bind_get in H. destruct (state_of p) eqn:Hs; goes_on Hp Hs H.
  - unfold manual_stop in H. destruct (state_of p) eqn:Hs; ends Hp Hs H.
  - change ((mret (M:=M Peer Error) tt ;; move_state ADMIN_MANUAL_START_WITH_PASSIVE_TCP_ESTABLISHMENT) p = (r, p')) in H.
    destruct (state_of p) eqn:Hs; goes_on Hp Hs H.
Qed.

Lemma inv_open_error now e : maintains inv (bgp_open_msg_error accepts now e).
Proof. unfold bgp_open_msg_error. handler. Qed.

Lemma inv_version_error now : maintains inv (notification_msg_ver_error accepts now).
Proof. unfold notification_msg_ver_error. handler. Qed.

Lemma inv_notification now m : maintains inv (notification_msg accepts now m).
Proof. unfold notification_msg. apply maintains_bind; [apply maintains_lift|]. intros _. handler. Qed.

Lemma inv_update_error now e : maintains inv (update_msg_error accepts now e).
Proof. unfold update_msg_error. handler. Qed.

Lemma inv_header_error now e : maintains inv (bgp_header_error accepts now e).
Proof.
  unfold bgp_header_error. intros p r p' Hp H. rewrite bind_get in H. destruct (state_of p) eqn:Hs.
  1: change ((mret (M:=M Peer Error) tt ;; move_state MESSAGE_BGP_HEADER_ERROR) p = (r, p')) in H; goes_on Hp Hs H.
  1,2: rewrite <-assoc_bind in H; ends Hp Hs H.
  1,2: ends Hp Hs H.
  eapply inert_step; [|exact Hp|exact H|]; [intros ?; inert|]. intros [] p1 Hp1 Hc _ H1.
  rewrite <-(core_state _ _ Hc) in Hs. destruct (_ <? 3); [by injection H1 as <- <-|ends Hp1 Hs H1].
Qed.

Lemma inv_tick now : maintains inv (keepalive_timer_expire accepts now).
Proof.
  unfold keepalive_timer_expire. intros p r p' Hp H. rewrite bind_get in H. destruct (state_of p) eqn:Hs.
  1-3: rewrite <-assoc_bind in H; ends Hp Hs H.
  - ends Hp Hs H.
  - rewrite <-assoc_bind in H. eapply inert_move;
      [exact Hp|exact H|intros ?; inert; apply inert_send_all|apply moves_tick|closed_state Hs|].
    intros _. apply (inv_open _ Hp). rewrite Hs. unfold opening. auto.
  - destruct (_ =? 0); [by injection H as <- <-|]. rewrite <-assoc_bind in H. eapply inert_move;
      [exact Hp|exact H|intros ?; inert; apply inert_send|apply moves_tick|by rewrite Hs|].
    intros _. apply (inv_open _ Hp). rewrite Hs. unfold opening. auto.
Qed.

(** *** Connections *)

(** A session with a connection, in the given state *)
Definition live (f : FiniteStateMachine) (p : Peer) : Prop := inv p /\ initialized p = false /\ fsm p = f.

Lemma live_inert {A} f (act : M Peer Error A) : inert act -> maintains (live f) act.
Proof.
  intros Ha p r p' (Hp & Hi & Hf) H. destruct (inert_inv _ _ _ _ Ha Hp H) as [Hp' (Hf' & Hi' & _)%core_inj].
  split; [done|]. split; congruence.
Qed.

Lemma live_conns f g : maintains (E:=Error) (live f) (modify (fun p => set_connections (g p) p)).
Proof.
  apply maintains_modify. intros p ([[Hrib Ho Hc] He Hop] & Hi & Hf). split; [|done]. split; [|done..].
  by split.
Qed.

#[local] Ltac live := repeat first
  [ apply live_conns | keep1 | apply live_inert; first [apply inert_emit; done | apply inert_output; done]
  | apply (live_conns _ (fun _ => _)) ].

Lemma live_decide f b : maintains (live f) (decide_connection b).
Proof. unfold decide_connection. apply maintains_bind; [apply maintains_get|]. intros p. cbv zeta. live. Qed.

Lemma live_dup f m b : maintains (live f) (send_to_dup_conn accepts m b).
Proof. unfold send_to_dup_conn, conn_send. apply maintains_bind; [apply maintains_get|]. intros p. live. Qed.

(** From such a session the invariant is reached. *)
Definition lands {A} f (act : M Peer Error A) : Prop := forall p r p', live f p -> act p = (r, p') -> inv p'.

Lemma lands_bind {A B} f (act : M Peer Error A) (k : A -> M Peer Error B) :
  maintains (live f) act -> (forall a, lands f (k a)) -> lands f (act ≫= k).
Proof.
  intros Ha Hk p r p' Hl H. unfold mbind, M_bind in H. destruct (act p) as [x p1] eqn:H1.
  apply Ha in H1; [|done]. destruct x; [by eapply Hk|injection H as <- <-; apply H1..].
Qed.

Lemma lands_move f e : (get_state f = Established -> next_state (get_state f) e = Established) ->
  lands f (move_state e).
Proof.
  intros He p r p' (Hp & Hi & Hf) H. eapply moves_inv; [apply moves_state|apply Hp| |done|exact H].
  unfold state_of. rewrite Hf. intros n i Hk. apply He. rewrite <-Hf. by apply (inv_est _ Hp n i).
Qed.

Lemma landed {A} f (act : M Peer Error A) p r p' : live f p -> act p = (r, p') -> lands f act -> inv p'.
Proof. intros Hl H Ha. by apply (Ha p r p'). Qed.

Lemma lands_live {A} f (act : M Peer Error A) : maintains (live f) act -> lands f act.
Proof. intros Ha p r p' Hl H. by apply (Ha p r p'). Qed.

Lemma live_intro p : inv p -> opening (state_of p) -> live (fsm p) p.
Proof. intros Hp Ho. split; [done|]. split; [by apply (inv_open _ Hp)|done]. Qed.

#[local] Ltac lands := cbv zeta; repeat first
  [ apply live_conns | apply live_decide | apply live_dup
  | apply live_inert; first [apply inert_send | apply inert_negotiate | apply inert_request | intros ?; solve [inert]]
  | apply lands_move | apply lands_bind; [|intros ?] | apply lands_live | keep1 ].

Lemma inv_keepalive now lp pp : maintains inv (keepalive_msg accepts now lp pp).
Proof.
  unfold keepalive_msg. intros p r p' Hp H. rewrite bind_get in H. destruct (state_of p) eqn:Hs.
  1-4: ends Hp Hs H.
  - eapply landed; [apply live_intro; [done|rewrite Hs; unfold opening; auto]|exact H|].
    lands. by unfold state_of in Hs; rewrite Hs.
  - goes_on Hp Hs H.
Qed.

Lemma send_conn m p p' : send accepts m p = (Ok tt, p') -> connections p <> [].
Proof. unfold send. rewrite bind_get. by destruct (connections p). Qed.

Lemma inv_bgp_open now lp pp m : maintains inv (bgp_open accepts now lp pp m).
Proof.
  unfold bgp_open. apply maintains_bind; [apply maintains_lift|]. intros [[[[? ?] h] i] ?].
  intros p r p' Hp H. rewrite bind_get in H. destruct (state_of p) eqn:Hs.
  1,2: change ((mret (M:=M Peer Error) tt ;; move_state MESSAGE_BGP_OPEN) p = (r, p')) in H; goes_on Hp Hs H.
  - eapply inert_step; [|exact Hp|exact H|]; [intros ?; inert|]. intros msg p1 Hp1 Hc1 _ H1.
    eapply inert_step; [|exact Hp1|exact H1|]; [apply inert_send|]. intros [] p2 Hp2 Hc2 Hsend H2.
    assert (Hi : initialized p2 = false).
    { pose proof (core_inj _ _ Hc2) as (_ & -> & _). by eapply (con_conn _ (inv_con _ Hp1)), send_conn. }
    assert (Hs2 : state_of p2 = Active) by (by rewrite (core_state _ _ Hc2), (core_state _ _ Hc1)).
    eapply landed; [exact (conj Hp2 (conj Hi eq_refl))|exact H2|]. lands. 
    unfold state_of in Hs2; by rewrite Hs2.
  - eapply landed; [apply live_intro; [done|rewrite Hs; unfold opening; auto]|exact H|].
    lands. unfold state_of in Hs; by rewrite Hs.
  - eapply landed; [apply live_intro; [done|rewrite Hs; unfold opening; auto]|exact H|].
    lands.
  - ends Hp Hs H.
Qed.

Lemma quits_panic now : quits (fun p => match release accepts now false p with (Err _, p') => (Panic, p') | x => x end).
Proof.
  intros p r p' Hp H. destruct (release accepts now false p) as [x p1] eqn:H1. apply quits_release in H1; [|done].
  by destruct x; injection H as <- <-.
Qed.

Lemma inv_close_one port p r p' : inv p ->
  match find_conn (fun c => local_port c =? port) 0 (connections p) with
  | Some (i, c) => modify (set_connections (delete i (connections p))) ;; output (CloseConn c)
  | None => mret tt
  end p = (r, p') -> r = Ok tt /\ inv p'.
Proof.
  intros [[Hrib Ho Hc] He Hop] H. destruct (find_conn _ _ _) as [[i c]|]; [|by injection H as <- <-].
  injection H as <- <-. split; [done|]. split; [|done..]. split; cbn; [done..|by rewrite offered_snoc|].
  intros Hl. apply Hc. intros Hn. by rewrite Hn in Hl.
Qed.

Lemma inv_close now port : maintains inv (close_conn accepts now port).
Proof.
  unfold close_conn. intros p r p' Hp H. rewrite bind_get in H.
  unfold mbind at 1, M_bind at 1 in H. 
  destruct (_ p) as [x p1] eqn:H1 in H. apply inv_close_one in H1 as [-> Hp1]; [|done].
  rewrite bind_get in H. destruct (connections p1); [|by injection H as <- <-].
  destruct (state_of p1) eqn:Hs; (eapply quits_move; [exact Hp1|exact H|apply quits_panic|apply moves_state|closed_state Hs]).
Qed.

Lemma core_set_info p a s : core (set_info (upd_info (neighbor (info p)) a s (info p)) p) = core p.
Proof. done. Qed.

(** A connection is opened. *)
Lemma live_open f c p : inv p -> fsm p = f -> 
  live f (set_initialized false (set_connections (connections p ++ [c]) p)).
Proof.
  intros [[Hrib Ho Hc] He Hop] Hf. split; [|done]. split; [|done..]. by split.
Qed.

Lemma inv_connect now stream e p r p' : inv p -> state_of p <> Established ->
  handle_tcp_connect accepts now stream e p = (r, p') -> ~ opening (next_state Idle e) -> inv p'.
Proof.
  intros Hp Hne H Hidle. unfold handle_tcp_connect in H. rewrite bind_get in H.
  destruct (decide (state_of p = Idle)) as [Hs|Hs].
  { rewrite Hs in H. eapply inert_move; [exact Hp|exact H|intros ?; inert|apply moves_state|by rewrite Hs|by rewrite Hs]. }
  replace (match state_of p with Idle => _ | _ => _ end) with 
    (passive ← handle_connection stream;
      p ← get_st;
      msg ← lift (build_open_msg p);
      map_err (fun _ => BgpError.Peer FailedToSendMessage) (send_to_dup_conn accepts msg passive) ;;
      modify (fun p => set_hold_timer (timer_push now (hold_time (info p)) (hold_timer p)) p)) in H
    by (by destruct (state_of p)).
  rewrite assoc_bind in H. unfold handle_connection in H.
  destruct (s_connected stream); [|by injection H as <- <-]. cbn [negb] in H.
  rewrite assoc_bind, bind_modify, assoc_bind, bind_get in H.
  match type of H with context [(2 <=? length (connections ?q))%nat] => set (p1 := q) in H end.
  assert (Hp1 : inv p1) by (by eapply inv_core; [exact Hp|apply core_set_info]).
  assert (Hf1 : fsm p1 = fsm p) by done. clearbody p1.
  destruct (_ <=? _)%nat; [by injection H as <- <-|].
  rewrite assoc_bind, bind_modify, assoc_bind, bind_modify in H.
  eapply landed; [apply (live_open (fsm p)); [exact Hp1|exact Hf1]|exact H|]. lands. done.
Qed.

(** *** Updates *)

Lemma set_rib_id p : set_adj_rib_in (adj_rib_in p) p = p.
Proof. by destruct p. Qed.

Lemma sound_remove fams r f n : sound fams r -> sound fams (AdjRib.remove f n r).2.
Proof.
  intros [Hd Hp Hu]. assert (Hsub : forall g m q, AdjRib.get g m (AdjRib.remove f n r).2 = Some q -> AdjRib.get g m r = Some q).
  { intros g m q. rewrite AdjRib.adj_get_remove. by case_decide. }
  split; [|by eauto..]. intros g t. unfold AdjRib.remove. destruct (AdjRib.table r !! f) eqn:Ht; [|apply Hd]. simpl.
  destruct (decide (f = g)) as [<-|Hne]; [intros _; by eapply Hd|]. rewrite lookup_insert_ne by done. apply Hd.
Qed.

(** Taking a network out of the family it is in takes it out of the RIB. *)
Lemma remove_holds fams r f n q : sound fams r -> AdjRib.get f n r = Some q ->
  forall m i, holds (AdjRib.remove f n r).2 m i <-> holds r m i /\ m <> n.
Proof.
  intros [Hd Hp Hu] Hq m i. unfold holds. setoid_rewrite AdjRib.adj_get_remove. split.
  - intros (g & x & Hg & Hi). case_decide as Hdec; [done|]. split; [by exists g, x|].
    intros ->. apply Hdec. split; [|done]. by eapply Hu.
  - intros [(g & x & Hg & Hi) Hne]. exists g, x. rewrite decide_False; [done|]. intros [_ Hmn]. by apply Hne.
Qed.

Lemma remove_none r f n : AdjRib.get f n r = None -> forall m i, holds (AdjRib.remove f n r).2 m i <-> holds r m i.
Proof.
  intros Hn m i. unfold holds. setoid_rewrite AdjRib.adj_get_remove. split.
  - intros (g & x & Hg & Hi). case_decide; [done|]. by exists g, x.
  - intros (g & x & Hg & Hi). exists g, x. rewrite decide_False; [done|]. intros [-> ->]. congruence.
Qed.

(** The withdrawn routes leave the RIB and are collected. *)
Lemma withdraw_loop fams ws acc p : sound fams (adj_rib_in p) ->
  exists f l r, for_fold withdraw_route ws acc p = (Ok (f, acc.2 ++ l), set_adj_rib_in r p) /\ sound fams r /\
    forall n i, holds r n i <-> holds (adj_rib_in p) n i /\ (n, i) ∉ l.
Proof.
  revert acc p. induction ws as [|w ws IH]; intros acc p Hs.
  { exists acc.1, [], (adj_rib_in p). rewrite app_nil_r, set_rib_id, <-surjective_pairing. split; [done|]. split; [done|].
    intros n i. split; [|by intros [? _]]. intros H. split; [done|apply not_elem_of_nil]. }
  set (n0 := Prefix.into_ipnet w). set (f0 := net_family n0). set (r0 := (AdjRib.remove f0 n0 (adj_rib_in p)).2).
  set (l0 := match AdjRib.get f0 n0 (adj_rib_in p) with Some q => [(prefix q, id q)] | None => [] end).
  assert (Hstep : withdraw_route acc w p = (Ok (f0, acc.2 ++ l0), set_adj_rib_in r0 p)).
  { unfold withdraw_route. rewrite bind_get. fold n0 f0. unfold l0, r0. rewrite <-AdjRib.get_removed.
    destruct (AdjRib.remove f0 n0 (adj_rib_in p)) as [[q|] r]; simpl; [done|by rewrite app_nil_r]. }
  assert (Hh : forall n i, holds r0 n i <-> holds (adj_rib_in p) n i /\ (n, i) ∉ l0).
  { intros n i. unfold l0, r0. destruct (AdjRib.get f0 n0 (adj_rib_in p)) as [q|] eqn:Hq.
    - rewrite (remove_holds _ _ _ _ _ Hs Hq), (sound_prefix _ _ Hs _ _ _ Hq), list_elem_of_singleton. split.
      + intros [H Hne]. split; [done|]. intros [= ? _]. done.
      + intros [H Hne]. split; [done|]. intros ->. apply Hne. f_equal. destruct H as (g & x & Hg & <-).
        pose proof (sound_uniq _ _ Hs _ _ _ _ _ Hq Hg) as <-. congruence.
    - rewrite remove_none by done. split; [|by intros [? _]]. intros H. split; [done|apply not_elem_of_nil]. }
  destruct (IH (f0, acc.2 ++ l0) (set_adj_rib_in r0 p)) as (f & l & r & Hrun & Hsr & Hl); [by apply sound_remove|].
  exists f, (l0 ++ l), r. cbn [for_fold]. rewrite (bind_ok _ _ _ _ _ Hstep), Hrun. simpl. rewrite app_assoc.
  split; [done|]. split; [done|]. intros n i. rewrite Hl. simpl. rewrite Hh, not_elem_of_app. tauto.
Qed.

(** *** Accepting paths *)

Lemma sound_insert fams r f q t : sound fams r -> AdjRib.table r !! f = Some t ->
  (forall g x, AdjRib.get g (prefix q) r = Some x -> g = f) -> sound fams (AdjRib.insert f (prefix q) q r).2.
Proof.
  intros [Hd Hp Hu] Ht Hin. split.
  - intros g t'. unfold AdjRib.insert. rewrite Ht. simpl. destruct (decide (f = g)) as [<-|Hne]; [intros _; by eapply Hd|].
    rewrite lookup_insert_ne by done. apply Hd.
  - intros g n x. rewrite (AdjRib.adj_get_insert _ _ _ _ _ _ t) by done. case_decide as H; [by destruct H; intros [= <-]|apply Hp].
  - intros g h n x y. rewrite !(AdjRib.adj_get_insert _ _ _ _ _ _ t) by done. repeat case_decide; naive_solver.
Qed.

(** Networks that are new to the RIB, or belong to paths of the same update *)
Definition addable (r : AdjRib.AdjRib) (f : AddressFamily) (i : Z) (q : Path) : Prop :=
  family q = f /\ id q = i /\ forall g x, AdjRib.get g (prefix q) r = Some x -> g = f /\ id x = i.

Lemma insert_holds fams r f i q t : sound fams r -> AdjRib.table r !! f = Some t -> addable r f i q ->
  forall n j, holds (AdjRib.insert f (prefix q) q r).2 n j <-> holds r n j \/ (n, j) = (prefix q, id q).
Proof.
  intros Hs Ht (Hf & Hi & Hin) n j. unfold holds. setoid_rewrite (AdjRib.adj_get_insert _ _ _ _ _ _ t Ht). split.
  - intros (g & x & Hg & Hx). case_decide as H; [|by left; exists g, x]. destruct H as [<- <-]. injection Hg as <-.
    right. by rewrite Hx.
  - intros [(g & x & Hg & Hx)|[= -> ->]]; [|exists f, q; by rewrite decide_True].
    destruct (decide (f = g /\ prefix q = n)) as [[<- <-]|H]; [|exists g, x; by rewrite decide_False].
    exists f, q. rewrite decide_True by done. split; [done|]. destruct (Hin _ _ Hg). congruence.
Qed.

Lemma addable_insert fams r f i q x t : sound fams r -> AdjRib.table r !! f = Some t ->
  addable r f i q -> addable r f i x -> addable (AdjRib.insert f (prefix q) q r).2 f i x.
Proof.
  intros Hs Ht (Hf & Hi & Hin) (Hf' & Hi' & Hin'). split; [done|]. split; [done|]. intros g y.
  rewrite (AdjRib.adj_get_insert _ _ _ _ _ _ t Ht). case_decide as H; [|apply Hin']. intros [= <-]. by destruct H.
Qed.

Lemma accept_loop fams f i t qs acc p : sound fams (adj_rib_in p) -> AdjRib.table (adj_rib_in p) !! f = Some t ->
  Forall (addable (adj_rib_in p) f i) qs ->
  exists l r, for_fold accept_path qs acc p = (Ok (acc ++ l), set_adj_rib_in r p) /\ sound fams r /\
    forall n j, holds r n j <-> holds (adj_rib_in p) n j \/ (n, j) ∈ map (fun q => (prefix q, id q)) l.
Proof.
  revert acc p t. induction qs as [|q qs IH]; intros acc p t Hs Ht Hall.
  { exists [], (adj_rib_in p). rewrite app_nil_r, set_rib_id. split; [done|]. split; [done|].
    intros n j. simpl. rewrite elem_of_nil. tauto. }
  apply Forall_cons_iff in Hall as [Hq Hqs]. cbn [for_fold]. destruct (has_own_as q) eqn:Hown.
  { rewrite (bind_ok _ _ p acc p); [by eapply IH|]. unfold accept_path. by rewrite Hown. }
  set (r0 := (AdjRib.insert f (prefix q) q (adj_rib_in p)).2).
  assert (Ht0 : exists t0, AdjRib.table r0 !! f = Some t0).
  { unfold r0, AdjRib.insert. rewrite Ht. simpl. rewrite lookup_insert_eq. by eexists. }
  destruct Ht0 as [t0 Ht0].
  destruct (IH (acc ++ [q]) (set_adj_rib_in r0 p) t0) as (l & r & Hrun & Hsr & Hl).
  - apply (sound_insert _ _ _ _ t); [done..|]. intros g x Hg. by apply Hq in Hg as [? _].
  - done.
  - eapply Forall_impl; [exact Hqs|]. intros x Hx. by eapply addable_insert.
  - exists (q :: l), r. rewrite (bind_ok _ _ p (acc ++ [q]) (set_adj_rib_in r0 p)).
    + rewrite Hrun, <-app_assoc. split; [done|]. split; [done|]. intros n j. rewrite Hl. simpl.
      unfold r0. rewrite (insert_holds _ _ _ i _ t), elem_of_cons by done. tauto.
    + destruct Hq as (Hf & _). unfold accept_path. rewrite Hown, Hf. unfold r0. mred. unfold AdjRib.insert. by rewrite Ht.
Qed.

(** Paths of a family that was not negotiated change nothing. *)
Lemma accept_none f i qs acc p x p' : AdjRib.table (adj_rib_in p) !! f = None ->
  Forall (addable (adj_rib_in p) f i) qs -> for_fold accept_path qs acc p = (x, p') ->
  p' = p /\ forall l, x = Ok l -> l = acc.
Proof.
  intros Ht. revert acc. induction qs as [|q qs IH]; intros acc Hall;
    [intros [= <- <-]; split; [done|]; by intros l [= <-]|].
  apply Forall_cons_iff in Hall as [Hq Hqs]. cbn [for_fold]. destruct (has_own_as q) eqn:Hown.
  { rewrite (bind_ok _ _ p acc p); [by apply IH|]. unfold accept_path. by rewrite Hown. }
  rewrite (bind_err _ _ p (Rib AddressFamilyNotSet) p); [by intros [= <- <-]|].
  destruct Hq as (Hf & _). unfold accept_path. rewrite Hown, Hf. mred. unfold AdjRib.insert. rewrite Ht.
  by rewrite set_rib_id.
Qed.

Lemma attr_nlri a b b' : attr a b = Ok b' -> b_nlri b' = b_nlri b ++ mp_nlri a.
Proof.
  assert (Hseg : forall segs as4 b, b_nlri (as_segments segs as4 b) = b_nlri b).
  { unfold as_segments. induction segs as [|x segs IH]; intros as4 c; [done|]. simpl. rewrite IH. unfold as_segment.
    by destruct as4, (_ =? _). }
  unfold attr. 
  set (b0 := if Attribute.is_optional a && Attribute.is_transitive a && Attribute.is_recognized a
             then propagate_attr a b else b).
  assert (Hb : b_nlri b0 = b_nlri b) by (unfold b0; by destruct (_ && _)). clearbody b0. rewrite <-Hb.
  destruct a; simpl; rewrite ?app_nil_r; try (intros [= <-]; cbn; rewrite ?Hseg; done).
  cbv [mbind res_bind]. case_match; [intros [= <-]|done|done]. done.
Qed.

Lemma attrs_nlri l b b' : attrs l b = Ok b' -> b_nlri b' = b_nlri b ++ flat_map mp_nlri l.
Proof.
  revert b. induction l as [|a l IH]; intros b; simpl; [intros [= <-]; by rewrite app_nil_r|].
  cbv [mbind res_bind]. destruct (attr a b) as [b1| |] eqn:Ha; [|done|done]. intros ->%IH.
  by rewrite (attr_nlri _ _ _ Ha), app_assoc.
Qed.

Lemma build_paths clock b qs : build hash_builder clock b = Ok qs ->
  Forall (fun q => family q = b_family b /\ id q = hash_builder b /\ prefix q ∈ map Prefix.into_ipnet (b_nlri b)) qs.
Proof.
  unfold build. cbv [mbind res_bind]. destruct (restore_as _ _ _) as [[seq k]| |]; [|done|done].
  destruct (restore_as _ _ _) as [[set j]| |]; [|done|done]. intros [= <-]. apply Forall_lookup. intros m q.
  rewrite list_lookup_imap, fmap_Some. intros (x & Hx & ->). split; [done|]. split; [done|]. simpl.
  apply list_elem_of_fmap. exists x. split; [done|]. by eapply list_elem_of_lookup_2.
Qed.

(** The Adj-RIB-In and what is offered of it change together. *)
Lemma inv_updated p r t : inv p -> state_of p = Established -> sound (families (info p)) r ->
  (forall n i, (n, i) ∈ offered t <-> holds r n i) -> inv (set_trace t (set_adj_rib_in r p)).
Proof. intros [[Hrib Ho Hc] He Hop] Hs Hsr Ht. split; [by split|done|done]. Qed.

(** A session that is up, and stays up *)
Definition up (p : Peer) : Prop := inv p /\ state_of p = Established.

Lemma up_update clock ws a nl p x p' : up p -> fresh p (Message.Update ws a nl) ->
  handle_update_msg accepts hash_builder clock ws a nl p = (x, p') -> up p'.
Proof.
  intros [Hp Hs] Hfresh H. pose proof (con_rib _ (inv_con _ Hp)) as Hrib. pose proof (con_offered _ (inv_con _ Hp)) as Ho.
  unfold handle_update_msg in H. rewrite bind_get in H.
  destruct (withdraw_loop _ ws (ipv4_unicast, []) p Hrib) as (f & l & r & Hrun & Hsr & Hl).
  rewrite (bind_ok _ _ _ _ _ Hrun) in H. simpl app in H. cbv beta iota zeta in H. destruct ws as [|w ws].
  - injection Hrun as _ _ Hp1. rewrite <-Hp1 in H. clear Hp1 Hl Hsr r l f.
    destruct (attrs a _) as [b|e|] eqn:Hb; [|by injection H as <- <-..].
    rewrite (bind_ok _ _ p b p) in H by done.
    destruct (build _ _ _) as [qs|e|] eqn:Hqs; [|by injection H as <- <-..].
    rewrite (bind_ok _ _ p qs p) in H by done.
    apply build_paths in Hqs. set (i := hash_builder (add_nlri nl b)) in Hqs. set (g := b_family (add_nlri nl b)) in Hqs.
    assert (Hadd : Forall (addable (adj_rib_in p) g i) qs).
    { eapply Forall_impl; [exact Hqs|]. intros q (Hf & Hi & Hin). split; [done|]. split; [done|]. intros h y Hy.
      cbn in Hin. rewrite (attrs_nlri _ _ _ Hb) in Hin. simpl in Hin. unfold fresh in Hfresh; rewrite Forall_forall in Hfresh.
      by rewrite (Hfresh _ Hin) in Hy. }
    destruct (AdjRib.table (adj_rib_in p) !! g) as [t|] eqn:Ht.
    + destruct (accept_loop _ g i t qs [] p Hrib Ht Hadd) as (l & r & Hacc & Hsr & Hl).
      rewrite (bind_ok _ _ _ _ _ Hacc) in H. unfold emit in H. rewrite bind_get, accepts_rib in H.
      injection H as <- <-. split; [|done]. apply inv_updated; [done..|]. intros n j. rewrite offered_snoc.
      simpl. by rewrite elem_of_union, elem_of_list_to_set, Ho, Hl.
    + destruct (for_fold accept_path qs [] p) as [y p2] eqn:Hacc. pose proof (accept_none _ _ _ _ _ _ _ Ht Hadd Hacc) as [-> Hy].
      destruct y as [l|e|]; [|rewrite (bind_err _ _ _ _ _ Hacc) in H; by injection H as <- <-
        |rewrite (bind_panic _ _ _ _ Hacc) in H; by injection H as <- <-].
      rewrite (bind_ok _ _ _ _ _ Hacc), (Hy l eq_refl) in H. unfold emit in H. rewrite bind_get, accepts_rib in H.
      injection H as <- <-. split; [|done]. eapply inv_core; [exact Hp|]. unfold core. cbn.
      rewrite offered_snoc. simpl. by rewrite union_empty_r_L.
  - unfold emit in H. rewrite bind_get, accepts_rib in H. injection H as <- <-. split; [|done].
    apply inv_updated; [done..|]. intros n i. rewrite offered_snoc. simpl.
    by rewrite elem_of_difference, elem_of_list_to_set, Ho, Hl.
Qed.

Lemma inv_update clock now m p r p' : inv p -> fresh p m ->
  update_msg accepts hash_builder clock now m p = (r, p') -> inv p'.
Proof.
  intros Hp Hfresh H. unfold update_msg in H. rewrite bind_get in H. destruct (state_of p) eqn:Hs.
  1-5: ends Hp Hs H.
  rewrite assoc_bind in H. destruct m as [|ws a nl| | |]; try (by injection H as <- <-).
  rewrite (bind_ok _ _ p (ws, a, nl) p), assoc_bind in H by done.
  eapply inert_step; [|exact Hp|exact H|]; [intros ?; inert|]. intros [] p1 Hp1 Hc _ H1.
  unfold mbind, M_bind in H1. destruct (handle_update_msg _ _ _ _ _ _ _) as [x p2] eqn:Hu.
  apply up_update in Hu as [Hp2 Hs2].
  - destruct x; [|by injection H1 as <- <-..]. eapply moves_inv; [apply moves_state|apply Hp2| | |exact H1].
    + intros n i _. by rewrite Hs2.
    + intros _. apply (inv_open _ Hp2). rewrite Hs2. unfold opening. auto.
  - split; [done|]. by rewrite (core_state _ _ Hc).
  - pose proof (core_inj _ _ Hc) as (_ & _ & _ & Hr & _). unfold fresh in *. by rewrite Hr.
Qed.

Lemma inv_hold_tick now : maintains inv (hold_tick accepts now).
Proof.
  assert (Htimer : forall f : Peer -> Timer, maintains (E:=Error) inv (modify (fun p => set_hold_timer (f p) p))).
  { intros f. apply maintains_modify. intros p Hp. by eapply inv_core. }
  assert (Hlog : maintains inv (log (hold_timer_expire accepts now))).
  { intros p r p' Hp H. unfold log in H. destruct (hold_timer_expire accepts now p) as [x p1] eqn:H1.
    apply inv_hold_timer in H1; [|done]. by destruct x; injection H as <- <-. }
  unfold hold_tick. repeat first [exact Hlog | apply Htimer | keep1].
Qed.

(** *** Runs *)

(** What the neighbor and the listener do: no second connection while the
    session is up, and no path for a network that has one. *)
Definition allowed (p : Peer) (input : Input) : Prop :=
  match input with
  | ConnRecv _ | AdminRecv (Event.Connection (TcpConnectionConfirmed _)) => state_of p <> Established
  | MsgRecv (UpdateMsg msg) => fresh p msg
  | _ => True
  end.

Inductive session (i : PeerInfo) (export : bool) : Peer -> Prop :=
| session_new now : session i export (new now i export)
| session_turn clock now input p go p' : session i export p -> allowed p input ->
    turn accepts group_iter hash_builder clock now input p = (Ok go, p') -> session i export p'.

Lemma inv_new now i export : inv (new now i export).
Proof.
  assert (Hk : forall n j, ~ kept (new now i export) n j).
  { intros n j (f & q & Hg & _). cbn [new adj_rib_in] in Hg. by rewrite AdjRib.get_new in Hg. }
  split; [|intros n j Hj; by destruct (Hk n j)|by intros [|[|]]]. split; [split|..]; cbn.
  - assert (Hgen : forall fs (t0 : gmap AddressFamily AdjRib.Table) f t,
      foldl (fun t family => <[family := AdjRib.table_new]> t) t0 fs !! f = Some t -> is_Some (t0 !! f) \/ f ∈ fs).
    { induction fs as [|g fs IH]; intros t0 f t H; [by left; exists t|]. simpl in H. apply IH in H as [H|H].
      - destruct (decide (g = f)) as [<-|Hne]; [right; by left|]. left. by rewrite lookup_insert_ne in H.
      - right. by right. }
    intros f t Ht. apply Hgen in Ht as [[? Ht]|Ht]; [by rewrite lookup_empty in Ht|done].
  - intros f n q Hg. by rewrite AdjRib.get_new in Hg.
  - intros f g n q q' Hg. by rewrite AdjRib.get_new in Hg.
  - intros n j. unfold offered. simpl. rewrite elem_of_empty. split; [done|intros Hj; by destruct (Hk n j)].
  - done.
Qed.

Lemma inv_log {A} (m : M Peer Error A) p r p' : (forall x p1, m p = (x, p1) -> inv p1) -> log m p = (r, p') -> inv p'.
Proof. intros Hm H. unfold log in H. destruct (m p) as [x p1]. specialize (Hm _ _ eq_refl). by destruct x; injection H as <- <-. Qed.

Lemma inv_then {A B} (m : M Peer Error A) (b : B) p r p' : (forall x p1, m p = (x, p1) -> inv p1) ->
  (m ;; mret b) p = (r, p') -> inv p'.
Proof.
  intros Hm H. unfold mbind, M_bind in H. destruct (m p) as [x p1]. specialize (Hm _ _ eq_refl). by destruct x; injection H as <- <-.
Qed.

Lemma inv_turn clock now input p r p' : inv p -> allowed p input ->
  turn accepts group_iter hash_builder clock now input p = (r, p') -> inv p'.
Proof.
  intros Hp Hal H. 
  destruct input as [| |[[]|[]|[]|e| |[]]|stream|[]|e|port]; cbn [turn allowed] in H, Hal;
    try (by injection H as <- <-);
    try (eapply inv_then; [|exact H]; clear H; intros x p1 H);
    try (eapply inv_log; [|exact H]; clear H; intros x1 p2 H);
    try (by injection H as <- <-).
  all: first
    [ eapply inv_hold_tick; eassumption | eapply inv_tick; eassumption | eapply (proj1 (inv_admin now)); eassumption
    | eapply (proj1 (proj2 (inv_admin now))); eassumption | eapply (proj2 (proj2 (inv_admin now))); eassumption
    | eapply inv_retry_timer; eassumption | eapply inv_fail; eassumption
    | eapply inv_connect; [eassumption|exact Hal|eassumption|by intros [|[|]]]
    | eapply inv_bgp_open; eassumption | eapply inv_header_error; eassumption | eapply inv_open_error; eassumption
    | eapply inv_version_error; eassumption | eapply inv_notification; eassumption | eapply inv_keepalive; eassumption
    | eapply inv_update; eassumption | eapply inv_update_error; eassumption | eapply inv_close; eassumption
    | eapply inert_inv; [apply (proj1 inert_api)|eassumption..]
    | eapply inert_inv; [apply (proj2 inert_api)|eassumption..]
    | unfold route_refresh_msg, route_refresh_msg_error in H; by injection H as <- <- | idtac ].
  rewrite bind_get in H. destruct (bool_decide _); [by injection H as <- <-|].
  destruct e; (eapply inv_then; [|exact H]; clear H; intros x p1 H; eapply inv_log; [|exact H]; clear H; intros x1 p2 H;
    first [by injection H as <- <- | eapply inert_inv; [apply inert_advertise|eassumption..]
          | eapply inert_inv; [apply inert_withdraw|eassumption..]]).
Qed.

Lemma session_inv i export p : session i export p -> inv p.
Proof. induction 1; [apply inv_new|]. by eapply inv_turn. Qed.

(** C4: what a peer has told the RIB manager is what it keeps, in runs without a
    second connection while the session is established and without the
    announcement of a network that the Adj-RIB-In already has
    ([second_connection_strands_paths] and
    [reannounced_path_survives_withdrawal] are what happens otherwise). In every
    such run of the event loop whose turns do not panic and in which the RIB
    manager takes what it is sent, whatever other messages, timers, errors and
    closed connections it meets, the paths the RIB manager was told to install
    and not told to drop are those in the Adj-RIB-In; while the session is not
    established there are none. *)
Theorem rib_manager_told_what_is_kept (i : PeerInfo) (export : bool) (p : Peer) (Hp : session i export p) :
  (forall n j, (n, j) ∈ offered (trace p) <-> kept p n j) /\
  (state_of p <> Established -> offered (trace p) = ∅).
Proof.
  apply session_inv in Hp. pose proof (con_offered _ (inv_con _ Hp)) as Ho. split; [exact Ho|].
  intros Hs. apply set_eq. intros [n j]. rewrite Ho, elem_of_empty. split; [|done]. by apply inv_empty.
Qed.

(** *** A second connection *)

(** A connection that is accepted while the session is established ends it
    without releasing it. The machine goes to [Idle], but the Adj-RIB-In stays
    and the RIB manager is not told to drop anything: what was offered before
    is offered still, by a peer whose session is down. *)
Theorem second_connection_strands_paths (now : Z) (stream : TcpStream) (e : Z) (p p' : Peer)
  (He : e = CONNECTION_TCP_CR_ACKED \/ e = CONNECTION_TCP_CONNECTION_CONFIRMED)
  (Hs : state_of p = Established) (Hc : handle_tcp_connect accepts now stream e p = (Ok tt, p')) :
  state_of p' = Idle /\ adj_rib_in p' = adj_rib_in p /\ offered (trace p') = offered (trace p).
Proof.
  set (J := fun q => fsm q = fsm p /\ adj_rib_in q = adj_rib_in p /\ offered (trace q) = offered (trace p)).
  unfold handle_tcp_connect in Hc. rewrite bind_get, Hs in Hc.
  apply bind_inv_ok in Hc as ([] & p1 & H1 & H2).
  assert (HJ : J p1).
  { assert (HJp : J p) by done. match type of H1 with ?act p = _ =>
      assert (Hm : maintains J act); [|exact (Hm p (Ok tt) p1 HJp H1)] end. clear H1.
    unfold handle_connection, send_to_dup_conn, conn_send, emit, output.
    repeat first [keep1 | solve [by intros x (Hx1 & Hx2 & Hx3)]
                 | intros x (Hx1 & Hx2 & Hx3); unfold J; cbn; by rewrite offered_snoc]. }
  destruct HJ as (Hf & Hr & Ho). apply moves_state in H2. unfold core in H2.
  injection H2 as Hf2 _ _ Hr2 _ Ht2. split_and!; [|congruence..].
  unfold state_of, get_state. rewrite Hf2. cbn. unfold state_of in *. rewrite Hf, Hs. by destruct He as [-> | ->].
Qed.
End facts.

(** ** Examples *)

Section witnesses.
#[local] Existing Instance simple_ipnet.
#[local] Existing Instance simple_iter.
#[local] Existing Instance simple_iter_laws.
#[local] Existing Instance debug_profile.

Example handshake_establishes : state_of p_up = Established.
Proof. exact (@eq_refl State Established <: state_of p_up = Established). Qed.

(** The networks and identifiers a peer has offered, as a list *)
Definition offers (p : Peer) : list (IpNet * Z) := elements (offered (trace p)).

Lemma offers_elem p n j : (n, j) ∈ offered (trace p) <-> (n, j) ∈ offers p.
Proof. unfold offers. by rewrite elem_of_elements. Qed.

Example paths_offered : offers p_paths = [(net24, 5)].
Proof. exact (@eq_refl (list (IpNet * Z)) [(net24, 5)] <: offers p_paths = [(net24, 5)]). Qed.

Lemma turn_ex_ok input p b : (turn_ex 0 input p).1 = Ok b ->
  turn (fun _ _ => true) (fun g => g) b_med (fun _ => 0) 0 input p = (Ok b, goes [input] p).
Proof. unfold goes. simpl. unfold turn_ex. destruct (turn _ _ _ _ _ input p) as [r p']. simpl. by intros ->. Qed.

#[local] Abbreviation session_ex := (session (fun _ _ => true) (fun g => g) b_med info_ex false).

Fixpoint legal (inputs : list Input) (p : Peer) : Prop :=
  match inputs with
  | [] => True
  | x :: l => allowed p x /\ (turn_ex 0 x p).1 = Ok true /\ legal l (goes [x] p)
  end.

Lemma session_run inputs p : session_ex p -> legal inputs p -> session_ex (goes inputs p).
Proof.
  revert p. induction inputs as [|x l IH]; intros p Hp; [done|]. intros (Hal & Hok & Hl).
  apply (IH (goes [x] p)); [|done]. eapply session_turn; [exact Hp|exact Hal|]. by apply turn_ex_ok.
Qed.

#[local] Ltac runs := match goal with |- ?l = Ok true => exact (@eq_refl (res Error bool) (Ok true) <: l = Ok true) end.

Lemma session_up : session_ex p_up.
Proof.
  apply session_run; [apply session_new|]. unfold handshake. cbn [legal].
  split; [exact I|]. split; [runs|]. split; [discriminate|]. split; [runs|].
  split; [exact I|]. split; [runs|]. split; [exact I|]. split; [runs|exact I].
Qed.

Lemma up_empty : forall n f, AdjRib.get f n (adj_rib_in p_up) = None.
Proof.
  intros n f. destruct (AdjRib.get f n (adj_rib_in p_up)) as [q|] eqn:Hq; [|reflexivity].
  assert (Hk : kept p_up n (id q)) by exact (ex_intro _ f (ex_intro _ q (conj Hq eq_refl))).
  apply (con_offered _ (inv_con _ (session_inv _ (fun _ _ => eq_refl) _ _ _ _ _ session_up))), offers_elem in Hk.
  assert (Hn : offers p_up = [])
    by apply nil_length_inv, (@eq_refl nat 0%nat <: length (offers p_up) = 0%nat).
  rewrite Hn in Hk. destruct (proj1 (elem_of_nil _) Hk).
Qed.

Lemma session_paths : session_ex p_paths.
Proof.
  apply session_run; [apply session_up|]. cbn [legal]. split; [|split; [runs|exact I]].
  constructor; [intros f; apply up_empty|constructor].
Qed.

Lemma rib_manager_told_what_is_kept_witness : kept p_paths net24 5.
Proof.
  apply (proj1 (rib_manager_told_what_is_kept (fun _ _ => true) (fun _ _ => eq_refl) (fun g => g) b_med
    info_ex false p_paths session_paths) net24 5). apply offers_elem. rewrite paths_offered. by left.
Defined.

Lemma second_connection_strands_paths_witness :
  state_of (goes [ConnRecv (stream_ex 50001)] p_paths) = Idle /\
  offered (trace (goes [ConnRecv (stream_ex 50001)] p_paths)) = offered (trace p_paths).
Proof.
  set (p' := goes [ConnRecv (stream_ex 50001)] p_paths).
  assert (Hok : (handle_tcp_connect (fun _ _ => true) 0 (stream_ex 50001) CONNECTION_TCP_CR_ACKED p_paths).1 = Ok tt)
    by exact (@eq_refl (res Error unit) (Ok tt) <:
      (handle_tcp_connect (fun _ _ => true) 0 (stream_ex 50001) CONNECTION_TCP_CR_ACKED p_paths).1 = Ok tt).
  assert (Hrun : handle_tcp_connect (fun _ _ => true) 0 (stream_ex 50001) CONNECTION_TCP_CR_ACKED p_paths = (Ok tt, p')).
  { unfold p', goes. cbn [foldl]. unfold turn_ex. cbn [turn]. unfold log, mbind, M_bind. revert Hok.
    destruct (handle_tcp_connect _ _ _ _ p_paths) as [r q]. cbn [fst]. intros ->. reflexivity. }
  destruct (second_connection_strands_paths (fun _ _ => true) 0 (stream_ex 50001) CONNECTION_TCP_CR_ACKED p_paths p')
    as (Hs & _ & Ho); [left; reflexivity|exact (@eq_refl State Established <: state_of p_paths = Established)|exact Hrun|].
  split; [exact Hs|exact Ho].
Defined.

(** The events the RIB manager gets from a peer *)
Definition rib_events (t : list Output) : list RibManager.RibEvent :=
  omap (fun o => match o with ToRib e => Some e | _ => None end) t.

(** A neighbor announces a network, announces it again with other attributes,
    and withdraws it. *)
Definition p_twice : Peer := goes [MsgRecv (UpdateMsg (update_ex 6 [net24]))] p_paths.
Definition p_withdrawn : Peer :=
  goes [MsgRecv (UpdateMsg (Message.Update [Prefix.from_ipnet net24] [] []))] p_twice.

Definition rib_after (p : Peer) : RibManager.RibManager :=
  RibManager.after (RibManager.AddPeer (Neighbor.new (AV4 2) 100) 7 :: rib_events (trace p)) (RibManager.speaker false).

(** The first path is never dropped: the RIB manager still has it, and selects
    it, when the neighbor has withdrawn the network and the peer keeps nothing. *)
Lemma reannounced_path_survives_withdrawal :
  length (default [] (AdjRib.get_all ipv4_unicast (adj_rib_in p_withdrawn))) = 0%nat /\
  offers p_withdrawn = [(net24, 5)] /\
  option_map id (RibManager.best_path net24 (RibManager.loc_rib (rib_after p_withdrawn))) = Some 5.
Proof.
  split; [|split].
  - exact (@eq_refl nat 0%nat <:
      length (default [] (AdjRib.get_all ipv4_unicast (adj_rib_in p_withdrawn))) = 0%nat).
  - exact (@eq_refl (list (IpNet * Z)) [(net24, 5)] <: offers p_withdrawn = [(net24, 5)]).
  - exact (@eq_refl (option Z) (Some 5) <:
      option_map id (RibManager.best_path net24 (RibManager.loc_rib (rib_after p_withdrawn))) = Some 5).
Qed.
End witnesses.
End PeerSession.
