(* ===== verification/BgpServer.v ===== *)
(** * The BGP server

    [Bgp] of [bgp/src/server.rs]: the task that starts and stops peers, keeps
    the configuration, and forwards the events of the API. Its theorems say that
    the RIB manager agrees with it on the configuration and on the set of peers,
    and that a neighbor is never served by two peers. *)

From S2P Require Import Prelude.
From S2P Require Import Net.
From S2P Require Import BgpFsm.
From S2P Require Import BgpFamily.
From S2P Require Import BgpCapability.
From S2P Require Import BgpAttribute.
From S2P Require Import BgpMessage.
From S2P Require Import BgpPath.
From S2P Require Import BgpRib.
From S2P Require Import BgpLocRib.
From S2P Require Import BgpRibManager.
From S2P Require Import BgpEvent.
From S2P Require Import BgpPeer.

Module Server.
Import BgpError Family Fsm.
Import Event.

Definition API_SERVER_PORT : Z := 5000.

Section defs.
Context {I : IpNetApi} {NI : NetIter} {P : Profile}.

(** An answer to the API: a neighbor as [list_peer] shows it. *)
Record PeerView : Type := {
  v_name : string; v_asn : Z; v_address : IpAddr; v_router_id : Z; v_hold_time : Z;
  v_families : list AddressFamily; v_keepalive_time : Z; v_state : State;
}.

(** What the server sends: events to the RIB manager and to the peer of a
    neighbor, answers and the signal for the API; a peer it starts; a second it
    sleeps. *)
Inductive Output : Type :=
| ToRib (e : RibManager.RibEvent)
| ToPeer (a : IpAddr) (e : Event)
| ApiInfo (asn router_id port : Z) (multi_path : bool)
| ApiNeighbors (peers : list PeerView)
| Notified
| Spawned (a : IpAddr) (i : Peer.PeerInfo) (tx : Z)
| Slept.

(** The managers hold the information a peer shares; [next_tx] numbers the
    channels to the peers. *)
Record Bgp : Type := {
  config : Config.Config;
  peer_managers : gmap IpAddr Peer.PeerInfo;
  global_capabilities : Capability.CapabilitySet;
  families : list AddressFamily;
  connect_retry_time : Z;
  api_server_port : Z;
  exporter : option string;
  next_tx : Z;
  trace : list Output;
}.

Definition new (c : Config.Config) : Bgp :=
  {| config := c; peer_managers := ∅; global_capabilities := Capability.default (Config.asn c);
     families := [ipv4_unicast; ipv6_unicast]; connect_retry_time := Peer.DEFAULT_CONNECT_RETRY_TIME;
     api_server_port := API_SERVER_PORT; exporter := Config.exporter c; next_tx := 0; trace := [] |}.

Definition set_config (c : Config.Config) (s : Bgp) : Bgp :=
  {| config := c; peer_managers := peer_managers s; global_capabilities := global_capabilities s;
     families := families s; connect_retry_time := connect_retry_time s; api_server_port := api_server_port s;
     exporter := exporter s; next_tx := next_tx s; trace := trace s |}.

Definition set_managers (m : gmap IpAddr Peer.PeerInfo) (s : Bgp) : Bgp :=
  {| config := config s; peer_managers := m; global_capabilities := global_capabilities s;
     families := families s; connect_retry_time := connect_retry_time s; api_server_port := api_server_port s;
     exporter := exporter s; next_tx := next_tx s; trace := trace s |}.

Definition set_capabilities (c : Capability.CapabilitySet) (s : Bgp) : Bgp :=
  {| config := config s; peer_managers := peer_managers s; global_capabilities := c;
     families := families s; connect_retry_time := connect_retry_time s; api_server_port := api_server_port s;
     exporter := exporter s; next_tx := next_tx s; trace := trace s |}.

Definition set_next_tx (n : Z) (s : Bgp) : Bgp :=
  {| config := config s; peer_managers := peer_managers s; global_capabilities := global_capabilities s;
     families := families s; connect_retry_time := connect_retry_time s; api_server_port := api_server_port s;
     exporter := exporter s; next_tx := n; trace := trace s |}.

Definition record (o : Output) (s : Bgp) : Bgp :=
  {| config := config s; peer_managers := peer_managers s; global_capabilities := global_capabilities s;
     families := families s; connect_retry_time := connect_retry_time s; api_server_port := api_server_port s;
     exporter := exporter s; next_tx := next_tx s; trace := trace s ++ [o] |}.

(** The environment: whether a receiver takes what is sent, and the order in
    which the map of peers is iterated. *)
Variable accepts : list Output -> Output -> bool.
Variable manager_iter : gmap IpAddr Peer.PeerInfo -> list (IpAddr * Peer.PeerInfo).

#[local] Abbreviation BM := (M Bgp Error).

Definition output (o : Output) : BM unit := modify (record o).

Definition emit (e : Error) (o : Output) : BM unit :=
  s ← get_st;
  if accepts (trace s) o then output o else throw e.

(** [tx.send(..).unwrap()] *)
Definition emit_unwrap (o : Output) : BM unit :=
  s ← get_st;
  if accepts (trace s) o then output o else panic.

Definition get_bgp_info : BM unit :=
  s ← get_st;
  let c := config s in
  emit (Control FailedToSendRecvChannel)
    (ApiInfo (Config.asn c) (Config.router_id c) Peer.BGP_PORT (default false (Config.multi_path c))).

Definition get_peer (a : IpAddr) : BM unit :=
  s ← get_st;
  match peer_managers s !! a with
  | Some _ => emit (Control FailedToSendRecvChannel) (ToPeer a (Api GetPeer))
  | None => mret tt
  end.

Definition peer_view (i : Peer.PeerInfo) : PeerView :=
  {| v_name := Peer.name i; v_asn := Peer.n_asn (Peer.neighbor i); v_address := Peer.n_addr (Peer.neighbor i);
     v_router_id := Peer.n_router_id (Peer.neighbor i); v_hold_time := Peer.n_hold_time (Peer.neighbor i);
     v_families := Peer.families i; v_keepalive_time := wrap 32 (Peer.i_keepalive_time i);
     v_state := Peer.i_state i |}.

Definition list_peer : BM unit :=
  s ← get_st;
  emit (Control FailedToSendRecvChannel)
    (ApiNeighbors (map (fun x => peer_view x.2) (manager_iter (peer_managers s)))).

Definition get_path (f : AddressFamily) : BM unit :=
  emit (Control FailedToSendRecvChannel) (ToRib (RibManager.GetPath f)).

Definition get_neighbor_path (k : LocRib.RibKind) (a : IpAddr) (f : AddressFamily) : BM unit :=
  s ← get_st;
  match peer_managers s !! a with
  | Some _ => emit (Control FailedToSendRecvChannel) (ToPeer a (Api (GetPath k f)))
  | None => mret tt
  end.

Definition get_path_by_prefix (n : IpNet) (f : AddressFamily) : BM unit :=
  emit (Control FailedToSendRecvChannel) (ToRib (RibManager.GetPathByPrefix n f)).

(** [cap.set(asn)] on the capability for four-byte AS numbers *)
Definition set_capability (asn : Z) : BM unit :=
  s ← get_st;
  match Capability.get Cap.FOUR_OCTET_AS_NUMBER (global_capabilities s) with
  | Some (Capability.CFourOctetASNumber c) =>
      modify (set_capabilities (Capability.insert Cap.FOUR_OCTET_AS_NUMBER
        (Capability.CFourOctetASNumber {| Capability.asn_inner := asn |}) (global_capabilities s)).2)
  | Some _ => throw (BgpError.Config (InvalidArgument "failed to set ASN"))
  | None => mret tt
  end.

Definition set_asn (asn : Z) : BM unit :=
  s ← get_st;
  if negb (Config.asn (config s) =? 0) then mret tt
  else
    modify (set_config (Config.set_as_number asn (config s))) ;;
    set_capability asn ;;
    emit (Rib ManagerDown) (ToRib (RibManager.SetAsn asn)).

Definition set_router_id (i : Z) : BM unit :=
  s ← get_st;
  if negb (Config.router_id (config s) =? 0) then mret tt
  else
    modify (set_config (Config.set_router_id i (config s))) ;;
    emit (Rib ManagerDown) (ToRib (RibManager.SetRouterId i)).

Definition with_multi_path (enable : bool) (c : Config.Config) : Config.Config :=
  {| Config.asn := Config.asn c; Config.router_id := Config.router_id c; Config.fib_endpoint := Config.fib_endpoint c;
     Config.fib_table := Config.fib_table c; Config.exporter := Config.exporter c;
     Config.neighbors := Config.neighbors c; Config.multi_path := Some enable; Config.paths := Config.paths c |}.

Definition set_multipath (enable : bool) : BM unit :=
  modify (fun s => set_config (with_multi_path enable (config s)) s) ;;
  emit (Rib ManagerDown) (ToRib (RibManager.SetMultiPath enable)).

Definition clear_bgp_info : BM unit := mret tt.

Definition start_event (n : NeighborConfig) : AdministrativeEvent :=
  match nc_passive n with
  | Some true => ManualStartWithPassiveTcpEstablishment
  | _ => ManualStart
  end.

Definition add_peer (n : NeighborConfig) : BM unit :=
  s ← get_st;
  match peer_managers s !! nc_address n with
  | Some _ => throw (Control PeerAlreadyExists)
  | None =>
      let info := Peer.info_new (Config.asn (config s)) (Config.router_id (config s)) n
                    (global_capabilities s) (families s) in
      let tx := next_tx s in
      modify (set_next_tx (tx + 1)) ;;
      emit (Rib ManagerDown) (ToRib (RibManager.AddPeer (Peer.pair_from_config n) tx)) ;;
      modify (fun s => set_managers (<[nc_address n := info]> (peer_managers s)) s) ;;
      output (Spawned (nc_address n) info tx) ;;
      emit (BgpError.Peer Down) (ToPeer (nc_address n) (Admin (start_event n)))
  end.

(** [for _ in 0..n]: wait until the peer is idle. [seen] is the state that is
    found at each look. *)
Fixpoint wait_idle (seen : nat -> State) (n : nat) : BM unit :=
  match n with
  | O => mret tt
  | S m =>
      if bool_decide (seen O = Idle) then mret tt
      else output Slept ;; wait_idle (fun k => seen (S k)) m
  end.

Definition delete_peer (seen : nat -> State) (a : IpAddr) : BM unit :=
  s ← get_st;
  match peer_managers s !! a with
  | Some i =>
      emit (BgpError.Peer Down) (ToPeer a (Admin ManualStop)) ;;
      wait_idle seen 10 ;;
      emit (Control FailedToSendRecvChannel)
        (ToRib (RibManager.DeletePeer (Neighbor.new a (Peer.n_asn (Peer.neighbor i)))))
  | None => mret tt
  end ;;
  modify (fun s => set_managers (delete a (peer_managers s)) s).

Definition add_path (prefixes : list IpNet) (attributes : list Attribute.Attribute) : BM unit :=
  emit (Control FailedToSendRecvChannel) (ToRib (RibManager.AddPath prefixes attributes)).

Definition delete_path (f : AddressFamily) (prefixes : list IpNet) : BM unit :=
  emit (Control FailedToSendRecvChannel) (ToRib (RibManager.DeletePath f prefixes)).

Definition handle_event (seen : nat -> State) (event : ControlEvent) : BM unit :=
  match event with
  | Health => mret tt
  | GetBgpInfo => get_bgp_info
  | CGetPeer a => get_peer a
  | ListPeer => list_peer
  | CGetPath f => get_path f
  | GetNeighborPath k a f => get_neighbor_path k a f
  | CGetPathByPrefix n f => get_path_by_prefix n f
  | CSetAsn asn => set_asn asn
  | CSetRouterId i => set_router_id i
  | ClearBgpInfo => clear_bgp_info
  | CAddPeer n => add_peer n
  | CDeletePeer a => delete_peer seen a
  | CAddPath prefixes attributes => add_path prefixes attributes
  | CDeletePath f prefixes => delete_path f prefixes
  | ConfigureMultiPath enable => set_multipath enable
  end ;;
  output Notified.

(** *** The loop of [serve] *)

(** A connection on the listeners is handed to the peer it comes from. *)
Definition accept (stream : TcpStream) : BM unit :=
  if negb (s_connected stream) then panic
  else
    s ← get_st;
    match peer_managers s !! s_peer_addr stream with
    | Some _ => emit_unwrap (ToPeer (s_peer_addr stream) (Connection (TcpConnectionConfirmed stream)))
    | None => mret tt
    end.

(** Idle peers are started again. *)
Definition restart : BM unit :=
  s ← get_st;
  for_each (fun '(a, i) =>
      if bool_decide (Peer.i_state i = Idle) then emit_unwrap (ToPeer a (Admin ManualStart)) else mret tt)
    (manager_iter (peer_managers s)).

(** What one turn of the loop reacts to, apart from the events of the RIB
    manager, which has its own state. *)
Inductive Input : Type :=
| Stream (stream : option TcpStream)
| Ctrl (seen : nat -> State) (e : ControlEvent)
| Retry.

Definition turn (input : Input) : BM unit :=
  match input with
  | Stream (Some stream) => accept stream
  | Stream None => mret tt
  | Ctrl seen e => fun s =>
      match handle_event seen e s with
      | (Err _, s') => (Ok tt, s')
      | x => x
      end
  | Retry => restart
  end.

(** What [serve] starts with: the RIB manager, the server and the events of the
    configuration. *)
Definition start (connect : string -> bool) (parse_net : string -> option IpNet) (c : Config.Config) :
    res Error (RibManager.RibManager * Bgp * list ControlEvent) :=
  let fib_table_id := default Config.ROUTE_TABLE_MAIN (Config.fib_table c) in
  let multi_path := default false (Config.multi_path c) in
  match RibManager.new connect (Config.asn c) (Config.router_id c) (Config.fib_endpoint c) fib_table_id
          [IPv4; IPv6] multi_path with
  | Ok m => es ← Config.get_control_event parse_net c; Ok (m, new c, es)
  | _ => Panic
  end.
End defs.

(** ** Specification *)

Section spec.
Context {I : IpNetApi} {NI : NetIter} {P : Profile}.

(** What the server and the RIB manager both know *)
Record View : Type := { vw_asn : Z; vw_id : Z; vw_multi : bool; vw_peers : gset Neighbor.NeighborPair }.

Definition step_view (v : View) (e : RibManager.RibEvent) : View :=
  match e with
  | RibManager.SetAsn a => {| vw_asn := a; vw_id := vw_id v; vw_multi := vw_multi v; vw_peers := vw_peers v |}
  | RibManager.SetRouterId i => {| vw_asn := vw_asn v; vw_id := i; vw_multi := vw_multi v; vw_peers := vw_peers v |}
  | RibManager.SetMultiPath b => {| vw_asn := vw_asn v; vw_id := vw_id v; vw_multi := b; vw_peers := vw_peers v |}
  | RibManager.AddPeer n _ =>
      {| vw_asn := vw_asn v; vw_id := vw_id v; vw_multi := vw_multi v; vw_peers := vw_peers v ∪ {[ n ]} |}
  | RibManager.DeletePeer n =>
      {| vw_asn := vw_asn v; vw_id := vw_id v; vw_multi := vw_multi v; vw_peers := vw_peers v ∖ {[ n ]} |}
  | _ => v
  end.

(** The events that change it; only the server sends them. *)
Definition configures (e : RibManager.RibEvent) : bool :=
  match e with
  | RibManager.SetAsn _ | RibManager.SetRouterId _ | RibManager.SetMultiPath _
  | RibManager.AddPeer _ _ | RibManager.DeletePeer _ => true
  | _ => false
  end.

Definition rib_view (m : RibManager.RibManager) : View :=
  {| vw_asn := RibManager.asn m; vw_id := RibManager.router_id m;
     vw_multi := LocRib.multi_path (RibManager.loc_rib m); vw_peers := dom (RibManager.peers_tx m) |}.

Definition pair_of (x : IpAddr * Peer.PeerInfo) : Neighbor.NeighborPair :=
  Neighbor.new x.1 (Peer.n_asn (Peer.neighbor x.2)).

Definition server_view (s : Bgp) : View :=
  {| vw_asn := Config.asn (config s); vw_id := Config.router_id (config s);
     vw_multi := default false (Config.multi_path (config s));
     vw_peers := list_to_set (map pair_of (map_to_list (peer_managers s))) |}.

(** The events the server has sent to the RIB manager *)
Definition rib_events (t : list Output) : list RibManager.RibEvent :=
  omap (fun o => match o with ToRib e => Some e | _ => None end) t.

(** The RIB manager handles the events in turn, whatever their results. *)
Definition handled accepts peer_iter hash_builder (now : nat -> nat -> Z) (es : list RibManager.RibEvent)
    (m : RibManager.RibManager) : RibManager.RibManager :=
  (foldl (fun x e => (S x.1, (RibManager.handle accepts peer_iter hash_builder (now x.1) e x.2).2)) (O, m) es).2.
End spec.

Section facts.
Context {I : IpNetApi} {NI : NetIter} {P : Profile}.
Context (accepts : list Output -> Output -> bool).
Context (accepts_rib : forall t e, accepts t (ToRib e) = true).
Context (manager_iter : gmap IpAddr Peer.PeerInfo -> list (IpAddr * Peer.PeerInfo)).

Lemma rib_events_snoc t o : rib_events (t ++ [o]) = rib_events t ++ match o with ToRib e => [e] | _ => [] end.
Proof. unfold rib_events. rewrite omap_app. by destruct o. Qed.

(** *** The peers of a view *)

Lemma peers_elem (m : gmap IpAddr Peer.PeerInfo) n :
  n ∈ (list_to_set (map pair_of (map_to_list m)) : gset Neighbor.NeighborPair) <->
  exists i, m !! Neighbor.addr n = Some i /\ Peer.n_asn (Peer.neighbor i) = Neighbor.asn n.
Proof.
  rewrite elem_of_list_to_set, list_elem_of_fmap. split.
  - intros ([a i] & -> & Hin). exists i. by apply elem_of_map_to_list in Hin.
  - intros (i & Hi & Ha). exists (Neighbor.addr n, i). split; [by destruct n; cbv in *; subst|].
    by apply elem_of_map_to_list.
Qed.

Lemma peers_insert (m : gmap IpAddr Peer.PeerInfo) a i : m !! a = None ->
  (list_to_set (map pair_of (map_to_list (<[a := i]> m))) : gset Neighbor.NeighborPair) =
  list_to_set (map pair_of (map_to_list m)) ∪ {[ pair_of (a, i) ]}.
Proof.
  intros Ha. apply set_eq. intros n. rewrite elem_of_union, !peers_elem, elem_of_singleton. split.
  - intros (j & Hj & Hn). destruct (decide (a = Neighbor.addr n)) as [->|Hne].
    + rewrite lookup_insert_eq in Hj. injection Hj as <-. right. by destruct n; cbv in *; subst.
    + rewrite lookup_insert_ne in Hj by done. left. by exists j.
  - intros [(j & Hj & Hn)| ->]; [|exists i; by rewrite lookup_insert_eq].
    exists j. rewrite lookup_insert_ne; [done|]. intros ->. congruence.
Qed.

Lemma peers_delete (m : gmap IpAddr Peer.PeerInfo) a i : m !! a = Some i ->
  (list_to_set (map pair_of (map_to_list (delete a m))) : gset Neighbor.NeighborPair) =
  list_to_set (map pair_of (map_to_list m)) ∖ {[ pair_of (a, i) ]}.
Proof.
  intros Ha. apply set_eq. intros n. rewrite elem_of_difference, !peers_elem, elem_of_singleton. split.
  - intros (j & Hj & Hn). apply lookup_delete_Some in Hj as [Hne Hj]. split; [by exists j|]. by intros ->.
  - intros [(j & Hj & Hn) Hne]. exists j. rewrite lookup_delete_ne; [done|]. intros ->.
    apply Hne. rewrite Ha in Hj. injection Hj as ->. by destruct n; cbv in *; subst.
Qed.

(** Information that changes without the neighbor's AS number *)
Lemma peers_publish (m : gmap IpAddr Peer.PeerInfo) a i j : m !! a = Some i ->
  Peer.n_asn (Peer.neighbor j) = Peer.n_asn (Peer.neighbor i) ->
  (list_to_set (map pair_of (map_to_list (<[a := j]> m))) : gset Neighbor.NeighborPair) =
  list_to_set (map pair_of (map_to_list m)).
Proof.
  intros Ha Hj. apply set_eq. intros n. rewrite !peers_elem. destruct (decide (a = Neighbor.addr n)) as [->|Hne].
  - rewrite lookup_insert_eq, Ha. split; intros (k & [= <-] & Hn); eexists; (split; [done|congruence]).
  - by rewrite lookup_insert_ne.
Qed.

(** *** The server *)

(** The capability announces the configured AS number. *)
Definition caps_ok (s : Bgp) : Prop :=
  Capability.get Cap.FOUR_OCTET_AS_NUMBER (global_capabilities s) =
    Some (Capability.CFourOctetASNumber {| Capability.asn_inner := Config.asn (config s) |}).

(** A peer was started with the AS number it announces. *)
Definition spawn_ok (o : Output) : Prop :=
  match o with
  | Spawned a i _ => Capability.get Cap.FOUR_OCTET_AS_NUMBER (Peer.local_capabilities i) =
      Some (Capability.CFourOctetASNumber {| Capability.asn_inner := Peer.asn i |}) /\
      Peer.n_addr (Peer.neighbor i) = a
  | _ => True
  end.

Record inv (v : View) (s : Bgp) : Prop := {
  inv_view : server_view s = foldl step_view v (rib_events (trace s));
  inv_caps : caps_ok s;
  inv_spawned : Forall spawn_ok (trace s);
}.

Lemma inv_output v o s : match o with ToRib e => configures e = false | Spawned _ _ _ => False | _ => True end ->
  inv v s -> inv v (record o s).
Proof.
  intros Ho [Hv Hc Hs]. split; [|done|].
  - change (server_view s = foldl step_view v (rib_events (trace s ++ [o]))).
    rewrite rib_events_snoc, foldl_app, <-Hv. by destruct o as [[]| | | | | |].
  - apply Forall_app. split; [done|]. constructor; [|constructor]. by destruct o.
Qed.

Lemma inv_emit v e o : match o with ToRib e => configures e = false | Spawned _ _ _ => False | _ => True end ->
  maintains (inv v) (emit accepts e o).
Proof. intros Ho. unfold emit, output. keep. intros s. by apply inv_output. Qed.

Lemma inv_unwrap v o : match o with ToRib e => configures e = false | Spawned _ _ _ => False | _ => True end ->
  maintains (inv v) (emit_unwrap accepts o).
Proof. intros Ho. unfold emit_unwrap, output. keep. intros s. by apply inv_output. Qed.

(** A change of the server's own state and the event that reports it *)
Lemma inv_report v e (f : Bgp -> Bgp) s : inv v s -> trace (f s) = trace s -> caps_ok (f s) ->
  server_view (f s) = step_view (server_view s) e -> inv v (record (ToRib e) (f s)).
Proof.
  intros [Hv Hc Hs] Ht Hc' Hf. split; [|done|].
  - change (server_view (f s) = foldl step_view v (rib_events (trace (f s) ++ [ToRib e]))).
    by rewrite Ht, rib_events_snoc, foldl_app, <-Hv, Hf.
  - change (Forall spawn_ok (trace (f s) ++ [ToRib e])). rewrite Ht. apply Forall_app. split; [done|]. by constructor.
Qed.

Lemma emit_rib e ev s : emit accepts e (ToRib ev) s = (Ok tt, record (ToRib ev) s).
Proof. unfold emit. rewrite bind_get, accepts_rib. done. Qed.

Lemma inv_asn v n : maintains (inv v) (set_asn accepts n).
Proof.
  intros s r s' Hs H. unfold set_asn in H. rewrite bind_get in H.
  destruct (negb (Config.asn (config s) =? 0)); [by injection H as <- <-|]. rewrite bind_modify in H.
  unfold set_capability in H. rewrite assoc_bind, bind_get in H. cbn [global_capabilities set_config] in H.
  rewrite (inv_caps _ _ Hs), bind_modify, emit_rib in H. injection H as <- <-.
  apply (inv_report v (RibManager.SetAsn n) (fun s => set_capabilities _ (set_config _ s))); [done|done| |done].
  unfold caps_ok. cbn. by rewrite lookup_insert_eq.
Qed.

Lemma inv_router_id v n : maintains (inv v) (set_router_id accepts n).
Proof.
  intros s r s' Hs H. unfold set_router_id in H. rewrite bind_get in H.
  destruct (negb (Config.router_id (config s) =? 0)); [by injection H as <- <-|].
  rewrite bind_modify, emit_rib in H. injection H as <- <-.
  by apply (inv_report v (RibManager.SetRouterId n) (set_config _)); [|done|apply Hs|].
Qed.

Lemma inv_multipath v b : maintains (inv v) (set_multipath accepts b).
Proof.
  intros s r s' Hs H. unfold set_multipath in H. rewrite bind_modify, emit_rib in H. injection H as <- <-.
  by apply (inv_report v (RibManager.SetMultiPath b) (set_config _)); [|done|apply Hs|].
Qed.

Lemma inv_add v n : maintains (inv v) (add_peer accepts n).
Proof.
  intros s r s' Hs H. unfold add_peer in H. rewrite bind_get in H.
  destruct (peer_managers s !! nc_address n) eqn:Hn; [by injection H as <- <-|]. cbv zeta in H.
  set (i := Peer.info_new _ _ _ _ _) in H.
  rewrite bind_modify, (bind_ok _ _ _ _ _ (emit_rib _ _ _)), bind_modify in H.
  unfold output in H. rewrite bind_modify in H.
  match type of H with emit _ _ _ ?q = _ => assert (Hq : inv v q); [|by eapply (inv_emit v _ (ToPeer _ _) Logic.I); [exact Hq|exact H]] end.
  assert (H1 : inv v (record (ToRib (RibManager.AddPeer (Peer.pair_from_config n) (next_tx s)))
    (set_managers (<[nc_address n := i]> (peer_managers s)) (set_next_tx (next_tx s + 1) s)))).
  { apply (inv_report v _ (fun s => set_managers _ (set_next_tx _ s))); [done|done|apply Hs|].
    unfold server_view, step_view. cbn [config peer_managers set_managers set_next_tx vw_asn vw_id vw_multi vw_peers].
    by rewrite peers_insert. }
  destruct H1 as [Hv Hc Hsp]. split; [|done|].
  - change (server_view (set_managers (<[nc_address n := i]> (peer_managers s)) s) =
      foldl step_view v (rib_events ((trace s ++ [ToRib (RibManager.AddPeer (Peer.pair_from_config n) (next_tx s))]) ++
        [Spawned (nc_address n) i (next_tx s)]))).
    rewrite rib_events_snoc, app_nil_r. exact Hv.
  - change (Forall spawn_ok ((trace s ++ [ToRib (RibManager.AddPeer (Peer.pair_from_config n) (next_tx s))]) ++
      [Spawned (nc_address n) i (next_tx s)])).
    apply Forall_app. split; [exact Hsp|]. constructor; [|constructor]. split; [apply Hs|done].
Qed.

(** Waiting changes nothing but the clock. *)
Lemma wait_idle_ok seen n s : exists k, (k <= n)%nat /\
  wait_idle seen n s = (Ok tt, Nat.iter k (record Slept) s).
Proof.
  revert seen s. induction n as [|n IH]; intros seen s; simpl; [by exists O|].
  case_bool_decide; [exists O; split; [lia|done]|]. destruct (IH (fun k => seen (S k)) (record Slept s)) as (k & Hk & Hw).
  exists (S k). split; [lia|]. unfold output. rewrite bind_modify, Hw, Nat.iter_swap. done.
Qed.

Lemma iter_slept k s : server_view (Nat.iter k (record Slept) s) = server_view s /\
  peer_managers (Nat.iter k (record Slept) s) = peer_managers s.
Proof. induction k as [|k [IH1 IH2]]; [done|]. by cbn. Qed.

Lemma inv_delete v seen a : maintains (inv v) (delete_peer accepts seen a).
Proof.
  intros s r s' Hs H. unfold delete_peer in H. rewrite bind_get in H.
  destruct (peer_managers s !! a) as [i|] eqn:Ha.
  - rewrite assoc_bind in H. unfold mbind, M_bind in H.
    destruct (emit accepts (BgpError.Peer Down) (ToPeer a (Admin ManualStop)) s) as [x s1] eqn:H1.
    assert (Hs1 : inv v s1) by (by eapply (inv_emit v _ (ToPeer a (Admin ManualStop)) Logic.I); [exact Hs|exact H1]).
    assert (Hm : peer_managers s1 = peer_managers s).
    { unfold emit in H1. rewrite bind_get in H1. by destruct (accepts _ _); injection H1 as <- <-. }
    destruct x; [|by injection H as <- <-..].
    destruct (wait_idle_ok seen 10 s1) as (k & _ & Hw). rewrite Hw, emit_rib in H. injection H as <- <-.
    assert (Hs2 : inv v (Nat.iter k (record Slept) s1)).
    { clear Hw. induction k as [|k IH]; [done|]. by apply (inv_output v Slept). }
    destruct (iter_slept k s1) as [_ Hm2]. rewrite Hm in Hm2.
    change (inv v (record (ToRib (RibManager.DeletePeer (Neighbor.new a (Peer.n_asn (Peer.neighbor i)))))
      (set_managers (delete a (peer_managers (Nat.iter k (record Slept) s1))) (Nat.iter k (record Slept) s1)))).
    apply (inv_report v _ (set_managers _)); [done|done|apply Hs2|].
    unfold server_view, step_view. cbn [config peer_managers set_managers vw_asn vw_id vw_multi vw_peers].
    rewrite Hm2. by rewrite (peers_delete _ a i) by done.
  - injection H as <- <-. destruct Hs as [Hv Hc Hsp]. split; [|done|done]. cbn [trace set_managers].
    rewrite <-Hv. unfold server_view. cbn [config peer_managers set_managers]. by rewrite delete_id.
Qed.

Lemma inv_event v seen e : maintains (inv v) (handle_event accepts manager_iter seen e).
Proof.
  unfold handle_event. apply maintains_bind; [|intros _; apply maintains_modify; intros s; by apply inv_output].
  destruct e; unfold get_bgp_info, get_peer, list_peer, get_path, get_neighbor_path, get_path_by_prefix, clear_bgp_info,
    add_path, delete_path;
    first [apply inv_asn | apply inv_router_id | apply inv_add | apply inv_delete | apply inv_multipath
          | repeat first [keep1 | apply inv_emit; done]].
Qed.

Lemma inv_serve_turn v input : maintains (inv v) (turn accepts manager_iter input).
Proof.
  destruct input as [[stream|]|seen e|]; cbn [turn].
  - unfold accept. repeat first [keep1 | apply inv_unwrap; done].
  - apply maintains_ret.
  - intros s r s' Hs H. destruct (handle_event accepts manager_iter seen e s) as [x s1] eqn:H1.
    apply inv_event with (v := v) in H1; [|done]. by destruct x; injection H as <- <-.
  - unfold restart. repeat first [keep1 | apply inv_unwrap; done].
Qed.

(** *** Runs *)

(** Turns of the loop, and updates of the shared information by the peers,
    which leave the neighbor's AS number alone. *)
Inductive serves (c : Config.Config) : Bgp -> Prop :=
| serves_new : serves c (new c)
| serves_turn input s s' : serves c s -> turn accepts manager_iter input s = (Ok tt, s') -> serves c s'
| serves_peer s a i j : serves c s -> peer_managers s !! a = Some i ->
    Peer.n_asn (Peer.neighbor j) = Peer.n_asn (Peer.neighbor i) ->
    serves c (set_managers (<[a := j]> (peer_managers s)) s).

Definition view_new (c : Config.Config) : View :=
  {| vw_asn := Config.asn c; vw_id := Config.router_id c; vw_multi := default false (Config.multi_path c);
     vw_peers := ∅ |}.

Lemma serves_inv c s : serves c s -> inv (view_new c) s.
Proof.
  induction 1 as [|input s s' _ IH Ht|s a i j _ IH Ha Hj].
  - split; [done| |constructor]. reflexivity.
  - by eapply inv_serve_turn.
  - destruct IH as [Hv Hc Hs]. split; [|done|done]. cbn [trace set_managers]. rewrite <-Hv.
    unfold server_view. cbn [config peer_managers set_managers]. by rewrite (peers_publish _ a i j).
Qed.

(** *** The RIB manager follows *)

Section rib.
Context (rib_accepts : list RibManager.Output -> RibManager.Output -> bool).
Context (peer_iter : gmap Neighbor.NeighborPair Z -> list (Neighbor.NeighborPair * Z)).
Context (hash_builder : Path.PathBuilder -> Z).

#[local] Abbreviation keeps_view v := (maintains (fun m => rib_view m = v)).

Lemma view_emit v e o : keeps_view v (RibManager.emit rib_accepts e o).
Proof. unfold RibManager.emit. keep; done. Qed.

Lemma multi_zoom {A} (f : M LocRib.LocRib Error A) v :
  (forall b, maintains (fun r => LocRib.multi_path r = b) f) -> keeps_view v (RibManager.on_rib f).
Proof.
  intros Hf m r m' Hm H. unfold RibManager.on_rib, zoom in H.
  destruct (f (RibManager.loc_rib m)) as [x t] eqn:Hx. injection H as <- <-.
  apply (Hf (LocRib.multi_path (RibManager.loc_rib m))) in Hx; [|done]. rewrite <-Hm. unfold rib_view. cbn. by rewrite Hx.
Qed.

Lemma multi_insert f p b : maintains (fun r => LocRib.multi_path r = b) (LocRib.insert f p).
Proof. unfold LocRib.insert. keep; done. Qed.

Lemma multi_drop f n i b : maintains (fun r => LocRib.multi_path r = b) (LocRib.drop f n i).
Proof. unfold LocRib.drop. keep; done. Qed.

#[local] Ltac views := repeat first
  [ apply view_emit | apply multi_zoom; intros ?; first [apply multi_insert | apply multi_drop] | keep1 ].

Lemma view_fib v b p f : keeps_view v (RibManager.to_fib rib_accepts b p f).
Proof. unfold RibManager.to_fib. views. Qed.

Lemma view_install v n ps b : keeps_view v (RibManager.install_paths rib_accepts peer_iter n ps b).
Proof.
  unfold RibManager.install_paths, RibManager.install_path, RibManager.advertise, RibManager.send.
  repeat first [apply view_fib | progress views].
Qed.

Lemma view_drop v n f ids b : keeps_view v (RibManager.drop_paths rib_accepts peer_iter n f ids b).
Proof.
  unfold RibManager.drop_paths, RibManager.drop_path, RibManager.advertise, RibManager.withdraw, RibManager.send.
  repeat first [apply view_fib | progress views].
Qed.

(** An event of the RIB manager does to its state what it does to the view. *)
Lemma rib_step now e m r m' : RibManager.handle rib_accepts peer_iter hash_builder now e m = (r, m') ->
  rib_view m' = step_view (rib_view m) e.
Proof.
  intros H. destruct e; cbn [RibManager.handle step_view] in *;
    try (injection H as <- <-; done).
  - unfold RibManager.add_peer in H. rewrite bind_get in H.
    destruct (RibManager.peers_tx m !! neighbor) eqn:Hn; injection H as <- <-; unfold rib_view; cbn; f_equal.
    + apply elem_of_dom_2 in Hn. set_solver.
    + rewrite dom_insert_L. set_solver.
  - unfold RibManager.delete_peer in H. rewrite bind_get in H.
    destruct (RibManager.peers_tx m !! neighbor) eqn:Hn; injection H as <- <-; unfold rib_view; cbn; f_equal.
    + by rewrite dom_delete_L.
    + apply not_elem_of_dom_2 in Hn. set_solver.
  - assert (Hk : keeps_view (rib_view m) (RibManager.init rib_accepts f neighbor))
      by (unfold RibManager.init, RibManager.send; views). by eapply Hk.
  - assert (Hk : keeps_view (rib_view m) (RibManager.add_path rib_accepts peer_iter hash_builder now networks attributes))
      by (unfold RibManager.add_path; keep; apply view_install). by eapply Hk.
  - assert (Hk : keeps_view (rib_view m) (RibManager.delete_path rib_accepts peer_iter f networks))
      by (unfold RibManager.delete_path; keep; apply view_drop). by eapply Hk.
  - by eapply view_install.
  - by eapply view_drop.
  - assert (Hk : keeps_view (rib_view m) (RibManager.get_path rib_accepts f))
      by (unfold RibManager.get_path; views). by eapply Hk.
  - assert (Hk : keeps_view (rib_view m) (RibManager.get_path_by_prefix rib_accepts n f))
      by (unfold RibManager.get_path_by_prefix; views). by eapply Hk.
Qed.

Lemma handled_view now es m :
  rib_view (handled rib_accepts peer_iter hash_builder now es m) = foldl step_view (rib_view m) es.
Proof.
  unfold handled. generalize O. revert m. induction es as [|e es IH]; intros m k; [done|]. simpl. rewrite IH. f_equal.
  destruct (RibManager.handle _ _ _ (now k) e m) as [r m'] eqn:H. by apply rib_step in H.
Qed.

Lemma fold_configures v es : foldl step_view v es = foldl step_view v (List.filter configures es).
Proof.
  revert v. induction es as [|e es IH]; intros v; [done|]. simpl. rewrite IH. by destruct e.
Qed.

(** C5: the RIB manager knows the server's configuration and peers. It starts
    with the configuration of the server and handles events of the server and
    of the peers, mixed in any way and with any result. Once it has handled
    all that the server sent to configure it, its AS number, router identifier,
    multipath flag and set of peers are those of the server, whatever the API
    asked for and whichever requests failed. And every peer was started with
    the AS number that its capability announces. *)
Theorem rib_agrees_with_server (connect : string -> bool) (parse_net : string -> option IpNet)
  (c : Config.Config) (m : RibManager.RibManager) (s0 s : Bgp) (init : list ControlEvent)
  (now : nat -> nat -> Z) (es : list RibManager.RibEvent)
  (Hstart : start connect parse_net c = Ok (m, s0, init))
  (Hs : serves c s)
  (Hes : List.filter configures es = List.filter configures (rib_events (trace s))) :
  rib_view (handled rib_accepts peer_iter hash_builder now es m) = server_view s /\
  Forall spawn_ok (trace s).
Proof.
  apply serves_inv in Hs as [Hv _ Hsp]. split; [|done].
  rewrite handled_view, fold_configures, Hes, <-fold_configures, Hv. f_equal.
  unfold start in Hstart. destruct (RibManager.new _ _ _ _ _ _ _) as [m1| |] eqn:Hn; [|done|done].
  destruct (Config.get_control_event parse_net c); [|done|done]. injection Hstart as <- _ _.
  unfold RibManager.new in Hn. destruct (Config.fib_endpoint c) as [ep|]; [destruct (connect ep)|]; (discriminate Hn || by injection Hn as <-).
Qed.
End rib.

(** *** Peers that are gone *)

(** A peer whose task has ended cannot be removed. When the channel to it is
    closed, deleting the peer fails before anything is done, whatever is tried
    first, and adding the neighbor again is refused: the manager and the RIB
    manager keep it. *)
Theorem dead_peer_cannot_be_removed (s : Bgp) (a : IpAddr) (i : Peer.PeerInfo) (n : NeighborConfig) (seen : nat -> State)
  (Ha : peer_managers s !! a = Some i) (Hn : nc_address n = a)
  (Hdead : accepts (trace s) (ToPeer a (Admin ManualStop)) = false) :
  turn accepts manager_iter (Ctrl seen (CDeletePeer a)) s = (Ok tt, s) /\
  turn accepts manager_iter (Ctrl seen (CAddPeer n)) s = (Ok tt, s).
Proof.
  split; cbn [turn]; unfold handle_event, mbind, M_bind.
  - unfold delete_peer, emit. mred. by rewrite Ha, Hdead.
  - unfold add_peer. mred. by rewrite Hn, Ha.
Qed.

(** The retry timer then ends the server when the peer's state was idle. *)
Lemma dead_idle_peer_panics (s : Bgp) a i : manager_iter (peer_managers s) = [(a, i)] -> Peer.i_state i = Idle ->
  accepts (trace s) (ToPeer a (Admin ManualStart)) = false ->
  turn accepts manager_iter Retry s = (Panic, s).
Proof.
  intros Hi Hs Hd. cbn [turn]. unfold restart, emit_unwrap. mred. rewrite Hi. cbn. rewrite bool_decide_true by done.
  mred. by rewrite Hd.
Qed.
End facts.

(** ** Examples *)

Section witnesses.
#[local] Existing Instance simple_ipnet.
#[local] Existing Instance simple_iter.
#[local] Existing Instance debug_profile.

Definition neighbor_ex : NeighborConfig :=
  {| nc_name := "peer"; nc_asn := 100; nc_address := AV4 2; nc_router_id := 2; nc_passive := None |}.

Definition turn_ex (input : Input) : M Bgp Error unit := turn (fun _ _ => true) map_to_list input.

Definition s_asn : Bgp := (turn_ex (Ctrl (fun _ => Idle) (CSetAsn 65000)) (new Config.default)).2.
Definition s_ex : Bgp := (turn_ex (Ctrl (fun _ => Idle) (CAddPeer neighbor_ex)) s_asn).2.

Lemma serves_ex : serves (fun _ _ => true) map_to_list Config.default s_ex.
Proof.
  apply (serves_turn _ _ _ (Ctrl (fun _ => Idle) (CAddPeer neighbor_ex)) s_asn); [|reflexivity].
  apply (serves_turn _ _ _ (Ctrl (fun _ => Idle) (CSetAsn 65000)) (new Config.default)); [constructor|reflexivity].
Qed.

Lemma rib_agrees_with_server_witness : exists m,
  RibManager.new (fun _ => true) 0 0 None 254 [IPv4; IPv6] false = Ok m /\
  rib_view (handled (fun _ _ => true) map_to_list (fun _ => 77) (fun _ _ => 0) (rib_events (trace s_ex)) m) =
  server_view s_ex.
Proof.
  eexists. split; [reflexivity|].
  refine (proj1 (rib_agrees_with_server (fun _ _ => true) (fun _ _ => eq_refl) map_to_list (fun _ _ => true)
    map_to_list (fun _ => 77) (fun _ => true) (fun _ => None) Config.default _ _ s_ex [] (fun _ _ => 0)
    (rib_events (trace s_ex)) _ serves_ex eq_refl)). reflexivity.
Defined.

(** The peer's task has ended: nothing reaches it. *)
Lemma dead_peer_cannot_be_removed_witness :
  turn (fun _ _ => false) map_to_list (Ctrl (fun _ => Idle) (CDeletePeer (AV4 2))) s_ex = (Ok tt, s_ex).
Proof.
  refine (proj1 (dead_peer_cannot_be_removed (fun _ _ => false) map_to_list s_ex (AV4 2)
    (Peer.info_new 65000 0 neighbor_ex (Capability.default 65000) [ipv4_unicast; ipv6_unicast])
    neighbor_ex (fun _ => Idle) _ _ _)); reflexivity.
Defined.
End witnesses.
End Server.
