(* ===== verification/BgpApi.v ===== *)
(** * The gRPC interface of the BGP speaker

    [Proto] holds the protobuf messages that attributes, families and paths are
    turned into and read from ([bgp/src/packet/attribute.rs], [family.rs],
    [path.rs], [config.rs], [util/src/lib.rs]); the encoding of the [prost] crate
    is an interface with its documented law. [ApiServer] is
    [bgp/src/api_server.rs]: every request becomes a control event for the
    server, and a query waits for an answer on one channel that all queries
    share. *)

From S2P Require Import Prelude.
From S2P Require Import Net.
From S2P Require Import NetText.
From S2P Require Import BgpFamily.
From S2P Require Import BgpAttribute.
From S2P Require Import BgpPath.
From S2P Require Import BgpLocRib.
From S2P Require Import BgpEvent.
From S2P Require Import BgpServer.

Module Proto.
Import BgpError Family Attribute.

(** ** Messages *)

(** [sart.v1.AsSegment]: an [i32] and [u32]s *)
Record AsSegment : Type := { as_type : Z; elm : list Z }.

(** The messages that are put into a [prost_types::Any] *)
Inductive Kind : Type :=
| OriginAttribute | AsPathAttribute | NextHopAttribute | LocalPrefAttribute | MultiExitDiscAttribute
| AtomicAggregateAttribute | AggregatorAttribute | UnknownAttribute | AddressFamilyMessage | AsSegmentMessage.

Definition message_name (k : Kind) : string :=
  match k with
  | OriginAttribute => "OriginAttribute"
  | AsPathAttribute => "AsPathAttribute"
  | NextHopAttribute => "NextHopAttribute"
  | LocalPrefAttribute => "LocalPrefAttribute"
  | MultiExitDiscAttribute => "MultiExitDiscAttribute"
  | AtomicAggregateAttribute => "AtomicAggregateAttribute"
  | AggregatorAttribute => "AggregatorAttribute"
  | UnknownAttribute => "UnknownAttribute"
  | AddressFamilyMessage => "AddressFamily"
  | AsSegmentMessage => "AsSegment"
  end.

(** The fields of a message *)
Definition fields (k : Kind) : Type :=
  match k with
  | OriginAttribute | LocalPrefAttribute | MultiExitDiscAttribute => Z
  | AsPathAttribute => list AsSegment
  | NextHopAttribute => string
  | AtomicAggregateAttribute => unit
  | AggregatorAttribute => Z * string
  | UnknownAttribute => Z * Z * list Z
  | AddressFamilyMessage => Z * Z
  | AsSegmentMessage => AsSegment
  end.

Definition int32 (z : Z) : Prop := - 2 ^ 31 <= z < 2 ^ 31.
Definition segment_ok (s : AsSegment) : Prop := int32 (as_type s) /\ Forall (uint 32) (elm s).

(** The fields have the widths of their types. *)
Definition fields_ok (k : Kind) : fields k -> Prop :=
  match k with
  | OriginAttribute | LocalPrefAttribute | MultiExitDiscAttribute => uint 32
  | AsPathAttribute => Forall segment_ok
  | NextHopAttribute => fun _ => True
  | AtomicAggregateAttribute => fun _ => True
  | AggregatorAttribute => fun x => uint 32 x.1
  | UnknownAttribute => fun x => uint 32 x.1.1 /\ uint 32 x.1.2 /\ Forall (uint 8) x.2
  | AddressFamilyMessage => fun x => int32 x.1 /\ int32 x.2
  | AsSegmentMessage => segment_ok
  end.

(** [prost::Message]: [decode] returns the fields or the text of its error. *)
Class ProtoApi : Type := {
  encode (k : Kind) : fields k -> list Z;
  decode (k : Kind) : list Z -> string + fields k;
}.

Class ProtoLaws {R : ProtoApi} : Prop := {
  decode_encode k x : fields_ok k x -> decode k (encode k x) = inr x;
}.

(** [prost_types::Any] *)
Record Any : Type := { type_url : string; value : list Z }.

Definition TYPE_URL_PREFACE : string := "type.googleapis.com/sart.v1.".

(** [sartd_util::type_url] *)
Definition url (k : Kind) : string := TYPE_URL_PREFACE +:+ message_name k.

Section defs.
Context {I : IpNetApi} {T : TextApi} {R : ProtoApi}.

(** [sartd_util::to_any] *)
Definition to_any (k : Kind) (x : fields k) : Any := {| type_url := url k; value := encode k x |}.

Definition decode_attr (k : Kind) (v : list Z) : res Error (fields k) :=
  match decode k v with inl e => Err (Config (InvalidArgument e)) | inr x => Ok x end.

(** [str::parse::<Ipv4Addr>] accepts what [parse::<IpAddr>] reads as IPv4. *)
Definition parse_v4 (s : string) : option Z :=
  match parse_addr s with Some (AV4 a) => Some a | _ => None end.

Definition parsed {A} (o : option A) : res Error A :=
  match o with Some a => Ok a | None => Err (Config ConfigInvalidData) end.

(** The elements of the first segment of the type *)
Definition elements (t : Z) (l : list AsSegment) : list Z :=
  match List.find (fun s => as_type s =? t) l with Some s => elm s | None => [] end.

(** [TryFrom<prost_types::Any> for Attribute] *)
Definition attribute_try_from (a : Any) : res Error Attribute :=
  if String.eqb (type_url a) (url OriginAttribute) then
    x ← decode_attr OriginAttribute (value a); new_origin (wrap 8 x)
  else if String.eqb (type_url a) (url AsPathAttribute) then
    l ← decode_attr AsPathAttribute (value a);
    new_as_path (elements AS_SEQUENCE l) (elements AS_SET l) true
  else if String.eqb (type_url a) (url NextHopAttribute) then
    x ← decode_attr NextHopAttribute (value a); y ← parsed (parse_v4 x); Ok (new_nexthop y)
  else if String.eqb (type_url a) (url LocalPrefAttribute) then
    x ← decode_attr LocalPrefAttribute (value a); new_local_pref x
  else if String.eqb (type_url a) (url MultiExitDiscAttribute) then
    x ← decode_attr MultiExitDiscAttribute (value a); new_med x
  else if String.eqb (type_url a) (url AtomicAggregateAttribute) then
    Ok (AtomicAggregate (base_new 0 ATOMIC_AGGREGATE))
  else if String.eqb (type_url a) (url AggregatorAttribute) then
    x ← decode_attr AggregatorAttribute (value a);
    y ← parsed (parse_addr x.2);
    Ok (AS4Aggregator (base_new (FLAG_TRANSITIVE + FLAG_OPTIONAL) AGGREGATOR) x.1 y)
  else Err (Config (InvalidArgument "invalid attribute")).

(** [From<&ASSegment> for AsSegment] *)
Definition segment_from (s : ASSegment) : AsSegment :=
  {| as_type := segment_type s; elm := segments s |}.

(** [From<&Attribute> for prost_types::Any]; [todo!()] panics. *)
Definition attribute_into (a : Attribute) : res Error Any :=
  match a with
  | Origin _ val => Ok (to_any OriginAttribute val)
  | ASPath _ segs => Ok (to_any AsPathAttribute (map segment_from segs))
  | NextHop _ addr => Ok (to_any NextHopAttribute (show_addr (AV4 addr)))
  | LocalPref _ val => Ok (to_any LocalPrefAttribute val)
  | MultiExitDisc _ val => Ok (to_any MultiExitDiscAttribute val)
  | AtomicAggregate _ => Ok (to_any AtomicAggregateAttribute tt)
  | Aggregator _ asn addr => Ok (to_any AggregatorAttribute (asn, show_addr addr))
  | Unsupported b data => Ok (to_any UnknownAttribute (flag b, code b, data))
  | Communities _ _ | MPReachNLRI _ _ _ _ | MPUnReachNLRI _ _ _ | ExtendedCommunities _ _ _
  | AS4Path _ _ | AS4Aggregator _ _ _ => Panic
  end.

(** [TryFrom<prost_types::Any> for ASSegment] *)
Definition segment_try_from (a : Any) : res Error ASSegment :=
  if String.eqb (type_url a) (url AsSegmentMessage) then
    match decode AsSegmentMessage (value a) with
    | inr s => Ok {| segment_type := wrap 8 (as_type s); segments := elm s |}
    | inl _ => Err (Config ConfigInvalidData)
    end
  else Err (Config (InvalidArgument "failed to parse AS Segement")).

(** [From<&ASSegment> for prost_types::Any] *)
Definition segment_into (s : ASSegment) : Any := to_any AsSegmentMessage (segment_from s).

(** [From<&AddressFamily> for sart::AddressFamily]: [afi] and [safi] *)
Definition family_message (f : AddressFamily) : Z * Z := (afi_code (afi f), safi_code (safi f)).

(** [From<&AddressFamily> for prost_types::Any] *)
Definition family_into (f : AddressFamily) : Any := to_any AddressFamilyMessage (family_message f).

(** [TryFrom<prost_types::Any> for AddressFamily]: the type is not looked at. *)
Definition family_try_from (a : Any) : res string AddressFamily :=
  match decode AddressFamilyMessage (value a) with
  | inl _ => Err "invalid argument"
  | inr m => x ← afi_try_from (wrap 16 m.1); y ← safi_try_from (wrap 8 m.2); Ok {| afi := x; safi := y |}
  end.

(** [sart.v1.Path]; the timestamp is the [SystemTime]. *)
Record PathMessage : Type := {
  nlri : string; pm_family : option (Z * Z); pm_origin : Z; pm_next_hops : list string;
  pm_segments : list AsSegment; pm_local_pref : Z; pm_med : Z; pm_peer_asn : Z; pm_peer_addr : string;
  pm_best : bool; pm_timestamp : option Z;
}.

(** [From<&Path> for sart::Path] *)
Definition path_message (p : Path.Path) : PathMessage :=
  {| nlri := show_net (Path.prefix p); pm_family := Some (family_message (Path.family p));
     pm_origin := Path.origin p; pm_next_hops := map show_addr (Path.next_hops p);
     pm_segments :=
       (match Path.as_sequence p with [] => [] | l => [{| as_type := AS_SEQUENCE; elm := l |}] end) ++
       (match Path.as_set p with [] => [] | l => [{| as_type := AS_SET; elm := l |}] end);
     pm_local_pref := Path.local_pref p; pm_med := Path.med p; pm_peer_asn := Path.peer_asn p;
     pm_peer_addr := show_addr (Path.peer_addr p); pm_best := Path.best p;
     pm_timestamp := Some (Path.timestamp p) |}.

(** [sart.v1.Peer], the fields a request to add a peer is read for *)
Record PeerMessage : Type := {
  pr_name : string; pr_asn : Z; pr_address : string; pr_router_id : string; pr_passive_open : bool;
}.

(** [TryFrom<&sart::Peer> for NeighborConfig]; the texts are the standard
    library's. *)
Definition neighbor_try_from (p : PeerMessage) : res Error Event.NeighborConfig :=
  match parse_addr (pr_address p) with
  | None => Err (Config (InvalidArgument "invalid IP address syntax"))
  | Some a =>
      match parse_v4 (pr_router_id p) with
      | None => Err (Config (InvalidArgument "invalid IPv4 address syntax"))
      | Some i =>
          Ok {| Event.nc_name := pr_name p; Event.nc_asn := pr_asn p; Event.nc_address := a;
                Event.nc_router_id := i; Event.nc_passive := Some (pr_passive_open p) |}
      end
  end.
End defs.
End Proto.

Module ApiServer.
Import BgpError Family Event Proto.

(** [tonic::Status]: its code and its message *)
Inductive Code : Type := Aborted | Internal | DeadlineExceeded | NotFound.
Record Status : Type := { st_code : Code; st_message : string }.

Definition aborted (m : string) : Status := {| st_code := Aborted; st_message := m |}.
Definition internal (m : string) : Status := {| st_code := Internal; st_message := m |}.
Definition deadline_exceeded (m : string) : Status := {| st_code := DeadlineExceeded; st_message := m |}.
Definition not_found (m : string) : Status := {| st_code := NotFound; st_message := m |}.

(** [sart.v1.BgpInfo] *)
Record BgpInfo : Type := { bi_asn : Z; bi_router_id : string; bi_port : Z; bi_multi_path : bool }.

Section defs.
Context {I : IpNetApi} {T : TextApi} {R : ProtoApi}.

Inductive ApiResponse : Type :=
| RBgpInfo (info : BgpInfo)
| RNeighbor (p : Server.PeerView)
| RNeighbors (l : list Server.PeerView)
| RPath (p : PathMessage)
| RPaths (l : list PathMessage).

(** The two channels: the control events that were sent, and the answers that
    have arrived and were not received yet. The mutex of the first is held until
    a request is done, so requests are served one after the other. *)
Record Channels : Type := { events : list ControlEvent; responses : list ApiResponse }.

(** The other ends: whether the server takes the event, which answers arrive
    within [internal_timeout] after it was sent, whether the channel of the
    answers is closed, and whether [signal] is notified; and the texts of the
    errors of the [ipnet] crate and of the [Debug] of [Error]. *)
Record Env : Type := {
  takes : list ControlEvent -> ControlEvent -> bool;
  arrives : list ControlEvent -> list ApiResponse;
  closed : list ControlEvent -> bool;
  notified : list ControlEvent -> bool;
  net_error : string -> string;
  debug_net_error : string -> string;
  debug_error : Error -> string;
}.

Variable E : Env.
#[local] Abbreviation H := (M Channels Status).

(** [guard_tx.send(e).await.is_ok()] *)
Definition send (e : ControlEvent) : H bool := fun s =>
  if takes E (events s) e then (Ok true, {| events := events s ++ [e]; responses := responses s |}) else (Ok false, s).

(** [timeout(internal_timeout, rx.recv()).await]: the first answer in the
    channel, or nothing when the channel is closed or the time is over *)
Inductive Waited : Type := Received (r : ApiResponse) | ChannelClosed | Elapsed.

Definition recv : H Waited := fun s =>
  match responses s ++ arrives E (events s) with
  | r :: rest => (Ok (Received r), {| events := events s; responses := rest |})
  | [] => (Ok (if closed E (events s) then ChannelClosed else Elapsed), {| events := events s; responses := [] |})
  end.

(** [guard_tx.send(e).await.unwrap()], then the answer *)
Definition ask (e : ControlEvent) : H Waited := ok ← send e; if (ok : bool) then recv else panic.

(** What all requests that change the server do *)
Definition tell {A} (e : ControlEvent) (failed : Status) (response : A) : H A :=
  ok ← send e; if (ok : bool) then mret response else throw failed.

Definition failed_to_send : Status := aborted "failed to send rib event".

(** *** Queries *)

(** [None] is a request that still waits for the signal. *)
Definition health : H (option unit) :=
  ok ← send Health;
  if (ok : bool) then s ← get_st; mret (if notified E (events s) then Some tt else None) else panic.

Definition get_bgp_info : H BgpInfo :=
  w ← ask GetBgpInfo;
  match w with
  | Received (RBgpInfo info) => mret info
  | Received _ | ChannelClosed => throw (internal "failed to get bgp information")
  | Elapsed => throw (deadline_exceeded "timeout")
  end.

Definition get_neighbor (addr : string) : H Server.PeerView :=
  match parse_addr addr with
  | None => throw (aborted "failed to parse peer address")
  | Some a =>
      w ← ask (CGetPeer a);
      match w with
      | Received (RNeighbor p) => mret p
      | Received _ | ChannelClosed => throw (internal "failed to get neighbor information")
      | Elapsed => throw (not_found "peer not found")
      end
  end.

Definition list_neighbor : H (list Server.PeerView) :=
  w ← ask ListPeer;
  match w with
  | Received (RNeighbors l) => mret l
  | Received _ | ChannelClosed => throw (internal "failed to get neighbors list information")
  | Elapsed => throw (not_found "peers not found")
  end.

(** [AddressFamily::new(f.afi as u16, f.safi as u8)] *)
Definition family_new (f : Z * Z) : res string AddressFamily := Family.new (wrap 16 f.1) (wrap 8 f.2).

(** The family of a query *)
Definition query_family (f : option (Z * Z)) : H AddressFamily :=
  match f with
  | None => throw (aborted "failed to receive AddressFamily")
  | Some f => match family_new f with Ok f => mret f | _ => throw (aborted "failed to get AddressFamily") end
  end.

(** The answer to a query for paths *)
Definition paths (w : Waited) (late : string) : H (list PathMessage) :=
  match w with
  | Received (RPaths l) => mret l
  | Received _ | ChannelClosed => throw (internal "failed to get path information")
  | Elapsed => throw (not_found late)
  end.

Definition get_path (family : option (Z * Z)) : H (list PathMessage) :=
  f ← query_family family; w ← ask (CGetPath f); paths w "path not found".

Definition get_neighbor_path (kind : Z) (addr : string) (family : option (Z * Z)) : H (list PathMessage) :=
  f ← query_family family;
  match parse_addr addr with
  | None => throw (aborted "failed to parse peer address")
  | Some a =>
      match LocRib.kind_try_from (wrap 32 kind) with
      | Ok k => w ← ask (GetNeighborPath k a f); paths w "neighbor's paths not found"
      | _ => throw (aborted "failed to get rib kind")
      end
  end.

Definition get_path_by_prefix (prefix : string) (family : option (Z * Z)) : H (list PathMessage) :=
  match parse_net prefix with
  | None => throw (aborted ("failed to parse prefix: " +:+ net_error E prefix))
  | Some n => f ← query_family family; w ← ask (CGetPathByPrefix n f); paths w "path not found"
  end.

(** *** Changes *)

Definition set_as (asn : Z) : H unit := tell (CSetAsn asn) failed_to_send tt.

Definition set_router_id (router_id : string) : H unit :=
  match parse_v4 router_id with
  | None => throw (aborted "failed to parse router_id as Ipv4Addr")
  | Some i => tell (CSetRouterId i) failed_to_send tt
  end.

Definition configure_multi_path (enable : bool) : H unit := tell (ConfigureMultiPath enable) failed_to_send tt.

Definition clear_bgp_info : H unit := tell ClearBgpInfo (internal "failed to clear BGP server information") tt.

(** [Error::Config(_)] is shown as the text below, whatever its cause. *)
Definition add_peer (peer : option PeerMessage) : H unit :=
  match peer with
  | None => throw (aborted "Neighbor information is not set")
  | Some p =>
      match neighbor_try_from p with
      | Ok c => tell (CAddPeer c) failed_to_send tt
      | _ => throw (aborted "config error")
      end
  end.

Definition delete_peer (addr : string) : H unit :=
  match parse_addr addr with
  | None => throw (aborted "failed to parse peer addr as IpAddr")
  | Some a => tell (CDeletePeer a) failed_to_send tt
  end.

Definition prefix_of (p : string) : H IpNet :=
  match parse_net p with
  | Some n => mret n
  | None => throw (aborted ("invalid network format: " +:+ debug_net_error E p))
  end.

Definition attribute_of (a : Any) : H Attribute.Attribute :=
  match attribute_try_from a with
  | Ok a => mret a
  | Err e => throw (aborted ("invalid attribute format: " +:+ debug_error E e))
  | Panic => panic
  end.

Definition add_path (prefixes : list string) (attributes : list Any) : H unit :=
  ps ← for_collect prefix_of prefixes;
  l ← for_collect attribute_of attributes;
  tell (CAddPath ps l) failed_to_send tt.

(** The family of a request without one is that of its first prefix. *)
Definition delete_family (family : option (Z * Z)) (prefixes : list string) : H AddressFamily :=
  match family with
  | Some f => match family_new f with Ok f => mret f | _ => panic end
  | None =>
      match head prefixes ≫= parse_net with
      | Some (NV4 _) => mret ipv4_unicast
      | Some (NV6 _) => mret ipv6_unicast
      | None => panic
      end
  end.

Definition delete_path (family : option (Z * Z)) (prefixes : list string) : H unit :=
  f ← delete_family family prefixes;
  ps ← for_collect prefix_of prefixes;
  tell (CDeletePath f ps) failed_to_send tt.
End defs.
End ApiServer.
