(* ===== verification/BgpApiFacts.v ===== *)
(** * Properties of the gRPC interface

    Which attributes survive the way through an [Any], and which answers queries
    get: those of the server in order, until one comes late. *)

From S2P Require Import Prelude.
From S2P Require Import Net.
From S2P Require Import NetText.
From S2P Require Import BgpFamily.
From S2P Require Import BgpPrefix.
From S2P Require Import BgpAttribute.
From S2P Require Import BgpPath.
From S2P Require Import BgpLocRib.
From S2P Require Import BgpEvent.
From S2P Require Import BgpServer.
From S2P Require Import BgpApi.

Module ApiFacts.
Import BgpError Family Attribute Proto.

Section attributes.
Context {I : IpNetApi} {T : TextApi} {TL : TextLaws} {R : ProtoApi} {RL : ProtoLaws}.

(** The values have the widths of their types. *)
Definition in_range (a : Attribute) : Prop :=
  match a with
  | Origin _ val => uint 8 val
  | ASPath _ segs => Forall (fun s => uint 8 (segment_type s) /\ Forall (uint 32) (segments s)) segs
  | LocalPref _ val | MultiExitDisc _ val => uint 32 val
  | Aggregator _ asn _ => uint 32 asn
  | Unsupported b data => uint 8 (flag b) /\ uint 8 (code b) /\ Forall (uint 8) data
  | _ => True
  end.

(** The attributes as [Attribute::new_*] make them *)
Definition canonical (a : Attribute) : Prop :=
  match a with
  | Origin b val => b = base_new FLAG_TRANSITIVE ORIGIN /\ val ∈ [ORIGIN_IGP; ORIGIN_EGP; ORIGIN_INCOMPLETE]
  | ASPath b segs =>
      b = base_new (FLAG_TRANSITIVE + FLAG_EXTENDED) AS_PATH /\ exists as_sequence as_set, segs = path_segments as_sequence as_set
  | NextHop b _ => b = base_new FLAG_TRANSITIVE NEXT_HOP
  | LocalPref b _ => b = base_new FLAG_TRANSITIVE LOCAL_PREF
  | MultiExitDisc b _ => b = base_new FLAG_OPTIONAL MULTI_EXIT_DISC
  | AtomicAggregate b => b = base_new 0 ATOMIC_AGGREGATE
  | _ => False
  end.

Lemma parse_v4_show x : parse_v4 (show_addr (AV4 x)) = Some x.
Proof. unfold parse_v4. by rewrite parse_show_addr. Qed.

Lemma parse_v4_show6 x : parse_v4 (show_addr (AV6 x)) = None.
Proof. unfold parse_v4. by rewrite parse_show_addr. Qed.

Lemma uint_widen v : uint 8 v -> uint 32 v.
Proof. unfold uint. lia. Qed.

Lemma decode_attr_encode k x : fields_ok k x -> decode_attr k (encode k x) = Ok x.
Proof. intros H. unfold decode_attr. by rewrite (decode_encode k x H). Qed.

(** What is found in the segments of a path *)
Lemma elements_path as_sequence as_set :
  elements AS_SEQUENCE (map segment_from (path_segments as_sequence as_set)) = as_sequence /\
  elements AS_SET (map segment_from (path_segments as_sequence as_set)) = as_set.
Proof. by destruct as_set. Qed.

Lemma segments_range segs :
  Forall (fun s => uint 8 (segment_type s) /\ Forall (uint 32) (segments s)) segs ->
  Forall segment_ok (map segment_from segs).
Proof.
  intros H. apply Forall_map. eapply Forall_impl; [exact H|]. intros s [Ht Hs]. split; [|done]. cbn. unfold int32, uint in *. lia.
Qed.

Ltac urls :=
  repeat match goal with
  | |- context [String.eqb (url ?a) (url ?b)] =>
      let r := eval vm_compute in (String.eqb (url a) (url b)) in change (String.eqb (url a) (url b)) with r
  end; cbv iota.

(** The attribute that is read from what an attribute is turned into *)
Definition carried (a : Attribute) : res Error Attribute := x ← attribute_into a; attribute_try_from x.

Lemma carried_origin b val : uint 8 val -> carried (Origin b val) = new_origin val.
Proof.
  intros H. unfold carried, attribute_into, to_any, mbind, res_bind, attribute_try_from. cbn [type_url value]. urls.
  rewrite (decode_attr_encode OriginAttribute) by (by apply uint_widen). cbn. by rewrite wrap_small.
Qed.

Lemma carried_as_path b segs :
  Forall (fun s => uint 8 (segment_type s) /\ Forall (uint 32) (segments s)) segs ->
  carried (ASPath b segs) =
    new_as_path (elements AS_SEQUENCE (map segment_from segs)) (elements AS_SET (map segment_from segs)) true.
Proof.
  intros H. unfold carried, attribute_into, to_any, mbind, res_bind, attribute_try_from. cbn [type_url value]. urls.
  by rewrite (decode_attr_encode AsPathAttribute) by (by apply segments_range).
Qed.

Lemma carried_next_hop b addr : carried (NextHop b addr) = Ok (new_nexthop addr).
Proof.
  unfold carried, attribute_into, to_any, mbind, res_bind, attribute_try_from. cbn [type_url value]. urls.
  rewrite (decode_attr_encode NextHopAttribute) by done. unfold mbind, res_bind. by rewrite parse_v4_show.
Qed.

Lemma carried_local_pref b val : uint 32 val -> carried (LocalPref b val) = new_local_pref val.
Proof.
  intros H. unfold carried, attribute_into, to_any, mbind, res_bind, attribute_try_from. cbn [type_url value]. urls.
  by rewrite (decode_attr_encode LocalPrefAttribute).
Qed.

Lemma carried_med b val : uint 32 val -> carried (MultiExitDisc b val) = new_med val.
Proof.
  intros H. unfold carried, attribute_into, to_any, mbind, res_bind, attribute_try_from. cbn [type_url value]. urls.
  by rewrite (decode_attr_encode MultiExitDiscAttribute).
Qed.

(** An aggregator is read as one with four-byte AS numbers, with the code of the
    other. *)
Lemma carried_aggregator b asn addr : uint 32 asn ->
  carried (Aggregator b asn addr) = Ok (AS4Aggregator (base_new (FLAG_TRANSITIVE + FLAG_OPTIONAL) AGGREGATOR) asn addr).
Proof.
  intros H. unfold carried, attribute_into, to_any, mbind, res_bind, attribute_try_from. cbn [type_url value]. urls.
  rewrite (decode_attr_encode AggregatorAttribute) by done. unfold mbind, res_bind. cbn [fst snd]. by rewrite parse_show_addr.
Qed.

(** C21: an attribute that is sent in a message is read as it was exactly if it is one
    of the six kinds the interface knows and has the flags and segments with
    which the speaker makes it; an aggregator, an unknown attribute and
    everything else is refused, changed or not turned into a message at all. *)
Theorem attribute_any_roundtrip (a : Attribute) (Ha : in_range a) : carried a = Ok a <-> canonical a.
Proof.
  destruct a as [b v|b segs|b x|b v|b v|b|b n x| | | | | | |b d]; cbn [in_range canonical] in *; try by split.
  - rewrite carried_origin by done. unfold new_origin. case_bool_decide as Hv; split; [intros [= <-]|intros [-> _]|done|intros []]; done.
  - rewrite carried_as_path by done. unfold new_as_path. split.
    + intros [= <- Hs]. split; [done|]. rewrite <- Hs. eauto.
    + intros [-> (q & t & ->)]. destruct (elements_path q t) as [-> ->]. done.
  - rewrite carried_next_hop. unfold new_nexthop. split; [by intros [= <-]|by intros ->].
  - rewrite carried_med by done. unfold new_med. split; [by intros [= <-]|by intros ->].
  - rewrite carried_local_pref by done. unfold new_local_pref. split; [by intros [= <-]|by intros ->].
  - split; [by intros [= <-]|by intros ->].
  - by rewrite carried_aggregator.
Qed.
End attributes.

(** ** Queries *)

Section queries.
Import Event ApiServer.
Context {I : IpNetApi} {T : TextApi} {R : ProtoApi}.

Inductive Query : Type :=
| QInfo
| QNeighbor (addr : string)
| QNeighbors
| QPath (family : option (Z * Z))
| QNeighborPath (kind : Z) (addr : string) (family : option (Z * Z))
| QPathByPrefix (prefix : string) (family : option (Z * Z)).

(** What a client is told *)
Inductive Reply : Type :=
| TheInfo (i : BgpInfo) | TheNeighbor (p : Server.PeerView) | TheNeighbors (l : list Server.PeerView)
| ThePaths (l : list PathMessage).

Definition serve (E : Env) (q : Query) : M Channels Status Reply :=
  match q with
  | QInfo => i ← get_bgp_info E; mret (TheInfo i)
  | QNeighbor a => p ← get_neighbor E a; mret (TheNeighbor p)
  | QNeighbors => l ← list_neighbor E; mret (TheNeighbors l)
  | QPath f => l ← get_path E f; mret (ThePaths l)
  | QNeighborPath k a f => l ← get_neighbor_path E k a f; mret (ThePaths l)
  | QPathByPrefix p f => l ← get_path_by_prefix E p f; mret (ThePaths l)
  end.

Definition family_of (f : option (Z * Z)) : option AddressFamily :=
  x ← f; match family_new x with Ok y => Some y | _ => None end.

(** The event that a well-formed query asks the server with *)
Definition event_of (q : Query) : option ControlEvent :=
  match q with
  | QInfo => Some GetBgpInfo
  | QNeighbor a => CGetPeer <$> parse_addr a
  | QNeighbors => Some ListPeer
  | QPath f => CGetPath <$> family_of f
  | QNeighborPath k a f =>
      x ← family_of f; y ← parse_addr a;
      match LocRib.kind_try_from (wrap 32 k) with Ok z => Some (GetNeighborPath z y x) | _ => None end
  | QPathByPrefix p f => n ← parse_net p; CGetPathByPrefix n <$> family_of f
  end.

(** What the client is told after the wait *)
Definition reply (q : Query) (w : Waited) : res Status Reply :=
  match q, w with
  | QInfo, Received (RBgpInfo i) => Ok (TheInfo i)
  | QInfo, Elapsed => Err (deadline_exceeded "timeout")
  | QInfo, _ => Err (internal "failed to get bgp information")
  | QNeighbor _, Received (RNeighbor p) => Ok (TheNeighbor p)
  | QNeighbor _, Elapsed => Err (not_found "peer not found")
  | QNeighbor _, _ => Err (internal "failed to get neighbor information")
  | QNeighbors, Received (RNeighbors l) => Ok (TheNeighbors l)
  | QNeighbors, Elapsed => Err (not_found "peers not found")
  | QNeighbors, _ => Err (internal "failed to get neighbors list information")
  | _, Received (RPaths l) => Ok (ThePaths l)
  | QNeighborPath _ _ _, Elapsed => Err (not_found "neighbor's paths not found")
  | _, Elapsed => Err (not_found "path not found")
  | _, _ => Err (internal "failed to get path information")
  end.

Variable E : Env.

Lemma ask_received e s r rest : takes E (events s) e = true ->
  responses s ++ arrives E (events s ++ [e]) = r :: rest ->
  ask E e s = (Ok (Received r), {| events := events s ++ [e]; responses := rest |}).
Proof.
  intros Ht Hr. unfold ask, send, mbind, M_bind. rewrite Ht. unfold recv. cbn [events responses]. by rewrite Hr.
Qed.

Lemma ask_elapsed e s : takes E (events s) e = true -> responses s ++ arrives E (events s ++ [e]) = [] ->
  closed E (events s ++ [e]) = false ->
  ask E e s = (Ok Elapsed, {| events := events s ++ [e]; responses := [] |}).
Proof.
  intros Ht Hr Hc. unfold ask, send, mbind, M_bind. rewrite Ht. unfold recv. cbn [events responses]. by rewrite Hr, Hc.
Qed.

Lemma query_family_of f x s : family_of f = Some x -> query_family f s = (Ok x, s).
Proof.
  unfold family_of, query_family. destruct f as [y|]; [|done]. cbn. by destruct (family_new y) as [z| |]; intros [= <-].
Qed.

Lemma serve_ask q e s w s' : event_of q = Some e -> ask E e s = (Ok w, s') -> serve E q s = (reply q w, s').
Proof.
  intros Hq Ha. destruct q as [|a| |f|k a f|p f]; cbn [event_of serve] in *.
  - injection Hq as <-. unfold get_bgp_info, mbind, M_bind. rewrite Ha. by destruct w as [[]| |].
  - unfold get_neighbor. destruct (parse_addr a) as [x|]; [|done]. injection Hq as <-.
    unfold mbind, M_bind. rewrite Ha. by destruct w as [[]| |].
  - injection Hq as <-. unfold list_neighbor, mbind, M_bind. rewrite Ha. by destruct w as [[]| |].
  - destruct (family_of f) as [x|] eqn:Hf; [|done]. injection Hq as <-. unfold get_path, mbind, M_bind.
    rewrite (query_family_of f x s Hf), Ha. by destruct w as [[]| |].
  - destruct (family_of f) as [x|] eqn:Hf; [|done]. unfold get_neighbor_path, mbind, M_bind. rewrite (query_family_of f x s Hf).
    cbn in Hq. destruct (parse_addr a) as [y|]; [|done]. cbn in Hq. destruct (LocRib.kind_try_from _) as [z| |]; [|done..].
    injection Hq as <-. rewrite Ha. by destruct w as [[]| |].
  - unfold get_path_by_prefix. destruct (parse_net p) as [n|]; [|done]. cbn in Hq.
    destruct (family_of f) as [x|] eqn:Hf; [|done]. injection Hq as <-. unfold mbind, M_bind.
    rewrite (query_family_of f x s Hf), Ha. by destruct w as [[]| |].
Qed.

(** Queries one after the other *)
Fixpoint serve_all (qs : list Query) (s : Channels) : list (res Status Reply) * Channels :=
  match qs with
  | [] => ([], s)
  | q :: qs' => let '(r, s1) := serve E q s in let '(rs, s2) := serve_all qs' s1 in (r :: rs, s2)
  end.

(** After [n] events, the server takes every event and gives its answer in time. *)
Definition prompt (n : nat) (answer : list ControlEvent -> ApiResponse) : Prop :=
  forall t e, (n <= length t)%nat -> takes E t e = true /\ arrives E (t ++ [e]) = [answer (t ++ [e])].

(** The answers of the server to the events *)
Fixpoint answers (answer : list ControlEvent -> ApiResponse) (t es : list ControlEvent) : list ApiResponse :=
  match es with [] => [] | e :: es' => answer (t ++ [e]) :: answers answer (t ++ [e]) es' end.

(** The first answers there are, in order *)
Lemma serve_in_order answer qs es s : Forall2 (fun q e => event_of q = Some e) qs es ->
  prompt (length (events s)) answer ->
  let l := responses s ++ answers answer (events s) es in
  serve_all qs s = (zip_with (fun q r => reply q (Received r)) qs l, {| events := events s ++ es; responses := drop (length qs) l |}).
Proof.
  intros Hqs. revert s. induction Hqs as [|q e qs es Hq _ IH]; intros s Hp.
  - destruct s. cbn. by rewrite !app_nil_r.
  - destruct (Hp (events s) e ltac:(lia)) as [Ht Hr]. intros l. cbn [serve_all length].
    assert (exists r rest, responses s ++ arrives E (events s ++ [e]) = r :: rest) as (r & rest & Hfirst).
    { rewrite Hr. destruct (responses s) as [|r l0]; cbn; eauto. }
    rewrite (serve_ask q e s _ _ Hq (ask_received e s r rest Ht Hfirst)).
    assert (Hl : l = r :: rest ++ answers answer (events s ++ [e]) es).
    { unfold l. cbn [answers]. rewrite Hr in Hfirst. replace (answer (events s ++ [e]) :: answers answer (events s ++ [e]) es)
        with ([answer (events s ++ [e])] ++ answers answer (events s ++ [e]) es) by done.
      by rewrite app_assoc, Hfirst. }
    rewrite (IH {| events := events s ++ [e]; responses := rest |}).
    2:{ intros t e' Hlen. apply Hp. cbn in Hlen. rewrite length_app in Hlen. lia. }
    cbn [events responses]. rewrite Hl. cbn [zip_with drop]. by rewrite <- app_assoc.
Qed.

Lemma answers_length answer t es : length (answers answer t es) = length es.
Proof. revert t. induction es as [|e es IH]; intros t; cbn; auto. Qed.

(** As long as the server answers every query in time, every query gets its own
    answer and none is left in the channel. *)
Theorem queries_get_their_answers (answer : list ControlEvent -> ApiResponse) (qs : list Query) (es : list ControlEvent)
  (s : Channels) (Hqs : Forall2 (fun q e => event_of q = Some e) qs es) (Hp : prompt (length (events s)) answer)
  (Hs : responses s = []) :
  serve_all qs s = (zip_with (fun q r => reply q (Received r)) qs (answers answer (events s) es),
                    {| events := events s ++ es; responses := [] |}).
Proof.
  rewrite (serve_in_order answer qs es s Hqs Hp), Hs. cbn [app]. rewrite drop_ge; [done|].
  rewrite answers_length. by rewrite (Forall2_length _ _ _ Hqs).
Qed.

(** C39: when the answer to one query comes after its time is over, every later query,
    although it is answered in time, is given the answer to the query before it,
    and one answer stays in the channel. *)
Theorem late_answer_shifts_all (answer : list ControlEvent -> ApiResponse) (q : Query) (e : ControlEvent) (late : ApiResponse)
  (qs : list Query) (es : list ControlEvent) (s : Channels)
  (Hq : event_of q = Some e) (Hqs : Forall2 (fun q e => event_of q = Some e) qs es) (Hs : responses s = [])
  (Ht : takes E (events s) e = true) (Hlate : arrives E (events s ++ [e]) = []) (Hopen : closed E (events s ++ [e]) = false)
  (Hp : prompt (length (events s ++ [e])) answer) :
  serve E q s = (reply q Elapsed, {| events := events s ++ [e]; responses := [] |}) /\
  exists left, serve_all qs {| events := events s ++ [e]; responses := [late] |} =
    (zip_with (fun q r => reply q (Received r)) qs (late :: answers answer (events s ++ [e]) es),
     {| events := events s ++ [e] ++ es; responses := [left] |}).
Proof.
  split.
  { apply (serve_ask q e); [done|]. apply ask_elapsed; [done| |done]. by rewrite Hs, Hlate. }
  pose proof (serve_in_order answer qs es {| events := events s ++ [e]; responses := [late] |} Hqs Hp) as H.
  cbn [events responses app] in H. rewrite H.
  pose proof (length_drop (late :: answers answer (events s ++ [e]) es) (length qs)) as Hlen.
  cbn [length] in Hlen. rewrite answers_length in Hlen. pose proof (Forall2_length _ _ _ Hqs) as Hl.
  destruct (drop _ _) as [|left [|]]; cbn in Hlen; [lia| |lia]. exists left. by rewrite <- app_assoc.
Qed.
End queries.

(** ** Changes *)

Section changes.
Import Event ApiServer.
Context {I : IpNetApi} {T : TextApi} {TL : TextLaws} {R : ProtoApi}.
Variable E : Env.
Hypothesis Htakes : forall t e, takes E t e = true.

Definition sending (e : ControlEvent) (c : Channels) : Channels :=
  {| events := events c ++ [e]; responses := responses c |}.

Lemma tell_sent e st c : tell E e st tt c = (Ok tt, sending e c).
Proof. unfold tell, send, mbind, M_bind. by rewrite Htakes. Qed.

Lemma prefixes_read ns c : for_collect (prefix_of E) (map show_net ns) c = (Ok ns, c).
Proof.
  induction ns as [|n ns IH]; [done|]. cbn [map for_collect]. unfold mbind, M_bind, prefix_of at 1. rewrite parse_show_net.
  unfold mbind, M_bind in IH. cbn. by rewrite IH.
Qed.

Lemma attributes_read anys l c : Forall2 (fun x a => attribute_try_from x = Ok a) anys l ->
  for_collect (attribute_of E) anys c = (Ok l, c).
Proof.
  induction 1 as [|x a anys l Hx _ IH]; [done|]. cbn [for_collect]. unfold mbind, M_bind, attribute_of at 1. rewrite Hx.
  unfold mbind, M_bind in IH. cbn. by rewrite IH.
Qed.

(** Paths that are named by their networks and attributes reach the server. *)
Lemma add_path_sent ns anys l c : Forall2 (fun x a => attribute_try_from x = Ok a) anys l ->
  add_path E (map show_net ns) anys c = (Ok tt, sending (CAddPath ns l) c).
Proof.
  intros H. unfold add_path, mbind, M_bind. rewrite prefixes_read. rewrite (attributes_read anys l) by done. apply tell_sent.
Qed.

Lemma delete_path_sent f fam ns c : family_new f = Ok fam ->
  delete_path E (Some f) (map show_net ns) c = (Ok tt, sending (CDeletePath fam ns) c).
Proof.
  intros H. unfold delete_path, delete_family, mbind, M_bind. rewrite H. cbn. rewrite prefixes_read. apply tell_sent.
Qed.
End changes.

(** ** Examples *)

(** An encoding that satisfies the law: the number of the fields. *)
#[local] Instance AsSegment_eq_dec : EqDecision AsSegment.
Proof. solve_decision. Defined.
#[local] Instance AsSegment_countable : Countable AsSegment.
Proof. by refine (inj_countable' (fun s => (as_type s, elm s)) (fun p => {| as_type := p.1; elm := p.2 |}) _); intros []. Defined.
#[local] Instance fields_eq_dec k : EqDecision (fields k).
Proof. destruct k; cbn; apply _. Defined.
#[local] Instance fields_countable k : Countable (fields k).
Proof. destruct k; apply _. Defined.

Definition simple_proto : ProtoApi := {|
  encode k x := [Z.pos (countable.encode x)];
  decode k l := match l with
                | [Z.pos p] => match countable.decode p with Some x => inr x | None => inl "invalid"%string end
                | _ => inl "invalid"%string
                end;
|}.

Lemma simple_proto_laws : @ProtoLaws simple_proto.
Proof. constructor. intros k x _. unfold encode, decode, simple_proto. by rewrite countable.decode_encode. Qed.

Section witnesses.
Import Event ApiServer.
#[local] Existing Instances simple_ipnet simple_ipnet_laws simple_text simple_text_laws simple_proto simple_proto_laws.

Lemma attribute_any_roundtrip_witness :
  carried (ASPath (base_new (FLAG_TRANSITIVE + FLAG_EXTENDED) AS_PATH) [seg_new AS_SEQUENCE [65000; 65010]; seg_new AS_SET [100]])
  = Ok (ASPath (base_new (FLAG_TRANSITIVE + FLAG_EXTENDED) AS_PATH) [seg_new AS_SEQUENCE [65000; 65010]; seg_new AS_SET [100]]).
Proof.
  apply (attribute_any_roundtrip (ASPath (base_new (FLAG_TRANSITIVE + FLAG_EXTENDED) AS_PATH) [seg_new AS_SEQUENCE [65000; 65010]; seg_new AS_SET [100]])).
  - cbn [in_range]. repeat first [apply List.Forall_nil | apply List.Forall_cons | apply conj | done].
  - split; [done|]. by exists [65000; 65010], [100].
Defined.

(** A server that is slow once: what it answers is the family of a query. *)
Definition shown (n : string) : PathMessage :=
  {| nlri := n; pm_family := None; pm_origin := 0; pm_next_hops := []; pm_segments := []; pm_local_pref := 100;
     pm_med := 0; pm_peer_asn := 0; pm_peer_addr := ""; pm_best := true; pm_timestamp := None |}.
Definition family_answer (t : list ControlEvent) : ApiResponse :=
  match last t with
  | Some (CGetPath f) => RPaths [shown (if bool_decide (f = ipv4_unicast) then "10.0.0.0/24" else "2001:db8::/64")]
  | _ => RNeighbors []
  end.
Definition slow_once : Env := {|
  takes _ _ := true; arrives t := match t with [] | [_] => [] | _ => [family_answer t] end; closed _ := false;
  notified _ := true; net_error _ := ""; debug_net_error _ := ""; debug_error _ := "" |}.

Lemma slow_once_prompt : prompt slow_once 1 family_answer.
Proof. intros [|x [|y t]] e Hlen; cbn in Hlen; [lia|done..]. Qed.

Lemma queries_get_their_answers_witness :
  serve_all slow_once [QPath (Some (2, 1)); QPath (Some (1, 1))] {| events := [Health]; responses := [] |} =
  ([Ok (ThePaths [shown "2001:db8::/64"]); Ok (ThePaths [shown "10.0.0.0/24"])],
   {| events := [Health; CGetPath ipv6_unicast; CGetPath ipv4_unicast]; responses := [] |}).
Proof.
  refine (queries_get_their_answers slow_once family_answer [QPath (Some (2, 1)); QPath (Some (1, 1))]
    [CGetPath ipv6_unicast; CGetPath ipv4_unicast] {| events := [Health]; responses := [] |} _ _ _);
    [by repeat constructor|apply slow_once_prompt|done].
Defined.

(** The paths of IPv4 are shown as those of IPv6. *)
Lemma late_answer_shifts_all_witness : exists left,
  serve_all slow_once [QPath (Some (2, 1)); QPath (Some (1, 1))]
    {| events := [CGetPath ipv4_unicast]; responses := [RPaths [shown "10.0.0.0/24"]] |} =
  ([Ok (ThePaths [shown "10.0.0.0/24"]); Ok (ThePaths [shown "2001:db8::/64"])],
   {| events := [CGetPath ipv4_unicast; CGetPath ipv6_unicast; CGetPath ipv4_unicast]; responses := [left] |}).
Proof.
  refine (proj2 (late_answer_shifts_all slow_once family_answer (QPath (Some (1, 1))) (CGetPath ipv4_unicast) (RPaths [shown "10.0.0.0/24"])
    [QPath (Some (2, 1)); QPath (Some (1, 1))] [CGetPath ipv6_unicast; CGetPath ipv4_unicast] {| events := []; responses := [] |} _ _ _ _ _ _ _));
    [done|by repeat constructor|done..|apply slow_once_prompt].
Defined.
End witnesses.
End ApiFacts.
