(* ===== verification/FibRoute.v ===== *)
(** * Routes of the FIB server

    The data of [fib/src/route.rs]: a route, its enumerations with their
    numbers, the merge of multipath routes, and the conversion from and to the
    messages of the gRPC interface. A route that is written into a message is
    read back unchanged, and every route the RIB manager of the BGP speaker
    sends is accepted. *)

From S2P Require Import Prelude.
From S2P Require Import Net.
From S2P Require Import NetText.
From S2P Require Import BgpFamily.
From S2P Require Import BgpPath.
From S2P Require Import BgpRib.
From S2P Require Import BgpLocRib.
From S2P Require Import BgpRibManager.

Module FibRoute.

(** [Error] of [fib/src/error.rs]; the sources of the wrapped errors are left out. *)
Inductive Error : Type :=
| StdIoErr | FailedToCommunicateWithNetlink | FailedToCommunicateWithgRPC | Timeout | GotgPRCError
| FailedToRecvSendViaChannel | AlreadyExists | FailedToGetPrefix | GatewayNotFound | InvalidADValue
| InvalidProtocol | InvalidScope | InvalidType | InvalidIpVersion | InvalidNextHopFlag
| FailedToParseAddress | DestinationNotFound | ConfigE | FailedToInsert | FailedToRemove
| FailedToRegister | MultipathIsNotEqual.

#[global] Instance Error_eq_dec : EqDecision Error.
Proof. solve_decision. Defined.

(** [rtnetlink::IpVersion] *)
Inductive IpVersion : Type := V4 | V6.
#[global] Instance IpVersion_eq_dec : EqDecision IpVersion.
Proof. solve_decision. Defined.

Inductive NextHopFlags : Type := Empty | Dead | Pervasive | Onlink | Offload | Linkdown | Unresolved.
#[global] Instance NextHopFlags_eq_dec : EqDecision NextHopFlags.
Proof. solve_decision. Defined.

Definition flags_try_from (value : Z) : res Error NextHopFlags :=
  match value with
  | 0 => Ok Empty
  | 1 => Ok Dead
  | 2 => Ok Pervasive
  | 3 => Ok Onlink
  | 4 => Ok Offload
  | 16 => Ok Linkdown
  | 32 => Ok Unresolved
  | _ => Err InvalidNextHopFlag
  end.

Definition flags_code (f : NextHopFlags) : Z :=
  match f with
  | Empty => 0 | Dead => 1 | Pervasive => 2 | Onlink => 3 | Offload => 4 | Linkdown => 16 | Unresolved => 32
  end.

Inductive Scope : Type := Universe | Site | Link | Host | Nowhere.
#[global] Instance Scope_eq_dec : EqDecision Scope.
Proof. solve_decision. Defined.

Definition scope_try_from (value : Z) : res Error Scope :=
  match value with
  | 0 => Ok Universe
  | 200 => Ok Site
  | 253 => Ok Link
  | 254 => Ok Host
  | 255 => Ok Nowhere
  | _ => Err InvalidScope
  end.

(** [route.scope as i32] *)
Definition scope_code (s : Scope) : Z :=
  match s with Universe => 0 | Site => 200 | Link => 253 | Host => 254 | Nowhere => 255 end.

Inductive Kind : Type :=
| UnspecType | Unicast | Local | Broadcast | Anycast | Multicast | Blackhole | Unreachable | Prohibit | Throw | Nat_.
#[global] Instance Kind_eq_dec : EqDecision Kind.
Proof. solve_decision. Defined.

Definition kind_try_from (value : Z) : res Error Kind :=
  match value with
  | 0 => Ok UnspecType
  | 1 => Ok Unicast
  | 2 => Ok Local
  | 3 => Ok Broadcast
  | 4 => Ok Anycast
  | 5 => Ok Multicast
  | 6 => Ok Blackhole
  | 7 => Ok Unreachable
  | 8 => Ok Prohibit
  | 9 => Ok Throw
  | 10 => Ok Nat_
  | _ => Err InvalidType
  end.

Definition kind_code (k : Kind) : Z :=
  match k with
  | UnspecType => 0 | Unicast => 1 | Local => 2 | Broadcast => 3 | Anycast => 4 | Multicast => 5
  | Blackhole => 6 | Unreachable => 7 | Prohibit => 8 | Throw => 9 | Nat_ => 10
  end.

Definition to_safi (k : Kind) : Z := match k with Broadcast | Multicast => 2 | _ => 1 end.

Inductive Protocol : Type :=
| Unspec | Redirect | Kernel | Boot | Static | Bgp | Ospf | Rip | Other (val : Z).
#[global] Instance Protocol_eq_dec : EqDecision Protocol.
Proof. solve_decision. Defined.

Definition protocol_code (p : Protocol) : Z :=
  match p with
  | Unspec => 0 | Redirect => 1 | Kernel => 2 | Boot => 3 | Static => 4 | Bgp => 186 | Ospf => 188 | Rip => 189
  | Other v => v
  end.

Definition protocol_from (value : Z) : Protocol :=
  match value with
  | 0 => Unspec
  | 1 => Redirect
  | 2 => Kernel
  | 3 => Boot
  | 4 => Static
  | 186 => Bgp
  | 188 => Ospf
  | 189 => Rip
  | _ => Other value
  end.

Inductive AdministrativeDistance : Type := Connected | AdStatic | EBGP | AdOSPF | AdRIP | IBGP.
#[global] Instance AdministrativeDistance_eq_dec : EqDecision AdministrativeDistance.
Proof. solve_decision. Defined.

(** The discriminants, in which the derived order of the distances is that of numbers *)
Definition ad_code (a : AdministrativeDistance) : Z :=
  match a with Connected => 0 | AdStatic => 1 | EBGP => 20 | AdOSPF => 110 | AdRIP => 120 | IBGP => 200 end.

Definition ad_try_from (value : Z) : res Error AdministrativeDistance :=
  match value with
  | 0 => Ok Connected
  | 1 => Ok AdStatic
  | 20 => Ok EBGP
  | 110 => Ok AdOSPF
  | 120 => Ok AdRIP
  | 200 => Ok IBGP
  | _ => Err InvalidADValue
  end.

Definition from_protocol (protocol : Protocol) (internal : bool) : AdministrativeDistance :=
  match protocol with
  | Unspec | Redirect | Kernel | Boot | Other _ => Connected
  | Static => AdStatic
  | Bgp => if internal then IBGP else EBGP
  | Ospf => AdOSPF
  | Rip => AdRIP
  end.

Definition ip_version_from (val : Z) : res Error IpVersion :=
  match val with
  | 2 => Ok V4
  | 10 => Ok V6
  | _ => Err InvalidProtocol
  end.

Definition ip_version_into (v : IpVersion) : Z := match v with V4 => 2 | V6 => 10 end.
Definition ip_version_to_afi (v : IpVersion) : Z := match v with V4 => 1 | V6 => 2 end.

(** Bytes of a netlink attribute *)
Definition parse_ipaddr (data : list Z) : res Error IpAddr :=
  if (length data =? 4)%nat then Ok (AV4 (be_val data))
  else if (length data =? 16)%nat then Ok (AV6 (be_val data))
  else Err FailedToGetPrefix.

Section defs.
Context {I : IpNetApi}.

Record NextHop : Type := { gateway : IpAddr; weight : Z; flags : NextHopFlags; interface : Z }.

#[global] Instance NextHop_eq_dec : EqDecision NextHop.
Proof. solve_decision. Defined.

Record Route : Type := {
  destination : IpNet;
  version : IpVersion;
  protocol : Protocol;
  scope : Scope;
  kind : Kind;
  next_hops : list NextHop;
  source : option IpAddr;
  priority : Z;
  ad : AdministrativeDistance;
  table : Z;
}.

#[global] Instance Route_eq_dec : EqDecision Route.
Proof. solve_decision. Defined.

Definition set_next_hops (l : list NextHop) (r : Route) : Route :=
  {| destination := destination r; version := version r; protocol := protocol r; scope := scope r; kind := kind r;
     next_hops := l; source := source r; priority := priority r; ad := ad r; table := table r |}.

Definition set_table (t : Z) (r : Route) : Route :=
  {| destination := destination r; version := version r; protocol := protocol r; scope := scope r; kind := kind r;
     next_hops := next_hops r; source := source r; priority := priority r; ad := ad r; table := t |}.

(** Routes that can be parts of one multipath route *)
Definition mergeable (r other : Route) : bool :=
  bool_decide (destination r = destination other) && bool_decide (version r = version other)
  && bool_decide (protocol r = protocol other) && bool_decide (scope r = scope other)
  && bool_decide (kind r = kind other) && bool_decide (ad r = ad other) && (table r =? table other).

Definition has_gateway (l : list NextHop) (nh : NextHop) : bool :=
  existsb (fun n => bool_decide (gateway n = gateway nh)) l.

Definition merge_multipath (r other : Route) : res Error Route :=
  if negb (mergeable r other) then Err MultipathIsNotEqual
  else Ok (set_next_hops (next_hops r ++
         List.filter (fun nh => negb (has_gateway (next_hops r) nh)) (next_hops other)) r).

Definition pop_multipath (r other : Route) : res Error Route :=
  if negb (mergeable r other) then Err MultipathIsNotEqual
  else Ok (set_next_hops
         (List.filter (fun nh => negb (has_gateway (next_hops other) nh)) (next_hops r)) r).

(** *** Messages *)

(** [sartd_proto::sart::NextHop] and [sartd_proto::sart::Route] *)
Record PNextHop : Type := { p_gateway : string; p_weight : Z; p_flags : Z; p_interface : Z }.

Record PRoute : Type := {
  p_table : Z; p_version : Z; p_destination : string; p_protocol : Z; p_scope : Z; p_type : Z;
  p_next_hops : list PNextHop; p_source : string; p_ad : Z; p_priority : Z; p_ibgp : bool;
}.

Context {T : TextApi}.

Definition next_hop_try_from (n : PNextHop) : res Error NextHop :=
  match parse_addr (p_gateway n) with
  | None => Err FailedToParseAddress
  | Some g => f ← flags_try_from (p_flags n);
      Ok {| gateway := g; weight := p_weight n; flags := f; interface := p_interface n |}
  end.

Fixpoint next_hops_try_from (l : list PNextHop) : res Error (list NextHop) :=
  match l with
  | [] => Ok []
  | n :: l' => h ← next_hop_try_from n; hs ← next_hops_try_from l'; Ok (h :: hs)
  end.

Definition route_try_from (value : PRoute) : res Error Route :=
  match parse_net (p_destination value) with
  | None => Err FailedToParseAddress
  | Some dst =>
      ver ← match p_version value with 2 => Ok V4 | 10 => Ok V6 | _ => Err InvalidIpVersion end;
      hops ← next_hops_try_from (p_next_hops value);
      let src := parse_addr (p_source value) in
      s ← scope_try_from (p_scope value);
      k ← kind_try_from (p_type value);
      a ← ad_try_from (wrap 8 (p_ad value));
      Ok {| destination := dst; version := ver; protocol := protocol_from (wrap 8 (p_protocol value)); scope := s;
            kind := k; next_hops := hops; source := src; priority := p_priority value; ad := a;
            table := wrap 8 (p_table value) |}
  end.

Definition next_hop_into (n : NextHop) : PNextHop :=
  {| p_gateway := show_addr (gateway n); p_weight := weight n; p_flags := flags_code (flags n);
     p_interface := interface n |}.

Definition route_into (r : Route) : PRoute :=
  {| p_table := table r; p_version := ip_version_into (version r); p_destination := show_net (destination r);
     p_protocol := protocol_code (protocol r); p_scope := scope_code (scope r); p_type := kind_code (kind r);
     p_next_hops := map next_hop_into (next_hops r);
     p_source := match source r with Some s => show_addr s | None => "" end;
     p_ad := ad_code (ad r); p_priority := priority r; p_ibgp := false |}.

(** The text of a message of the RIB manager *)
Definition rib_route (r : RibManager.Route) : PRoute :=
  {| p_table := RibManager.rt_table r; p_version := RibManager.rt_version r;
     p_destination := show_net (RibManager.destination r); p_protocol := RibManager.protocol r;
     p_scope := RibManager.scope r; p_type := RibManager.rt_type r;
     p_next_hops := map (fun n => {| p_gateway := show_addr (RibManager.gateway n); p_weight := RibManager.weight n;
       p_flags := RibManager.nh_flags n; p_interface := RibManager.interface n |}) (RibManager.rt_next_hops r);
     p_source := ""; p_ad := RibManager.ad r; p_priority := RibManager.priority r; p_ibgp := RibManager.ibgp r |}.
End defs.

Section facts.
Context {I : IpNetApi} {T : TextApi} {TL : TextLaws}.

Lemma flags_roundtrip f : flags_try_from (flags_code f) = Ok f.
Proof. by destruct f. Qed.
Lemma scope_roundtrip s : scope_try_from (scope_code s) = Ok s.
Proof. by destruct s. Qed.
Lemma kind_roundtrip k : kind_try_from (kind_code k) = Ok k.
Proof. by destruct k. Qed.
Lemma ad_roundtrip a : ad_try_from (wrap 8 (ad_code a)) = Ok a.
Proof. by destruct a. Qed.

(** The protocols that have one form: a named protocol, or a byte without a name *)
Definition protocol_ok (p : Protocol) : Prop := uint 8 (protocol_code p) /\ protocol_from (protocol_code p) = p.

Definition route_ok (r : Route) : Prop := protocol_ok (protocol r) /\ uint 8 (table r).

#[global] Instance route_ok_dec r : Decision (route_ok r).
Proof. unfold route_ok, protocol_ok. apply _. Defined.

Lemma next_hops_roundtrip l : next_hops_try_from (map next_hop_into l) = Ok l.
Proof.
  induction l as [|n l IH]; [done|]. cbn [map next_hops_try_from]. rewrite IH. unfold next_hop_try_from.
  cbn [next_hop_into p_gateway p_flags]. rewrite parse_show_addr, flags_roundtrip. by destruct n.
Qed.

(** A route written into a message of the FIB interface is read back
    unchanged, source and next hops included. *)
Theorem route_message_roundtrip (r : Route) (Hr : route_ok r) : route_try_from (route_into r) = Ok r.
Proof.
  destruct r as [dst ver pr sc k hops src prio a t], Hr as [[Hp Hpr] Ht]. cbn in Hp, Hpr, Ht.
  unfold route_try_from, route_into. cbn. rewrite parse_show_net, next_hops_roundtrip, scope_roundtrip, kind_roundtrip.
  replace (match ip_version_into ver with 2 => Ok V4 | 10 => Ok V6 | _ => Err InvalidIpVersion end) with (Ok ver : res Error _)
    by (by destruct ver).
  cbv [mbind res_bind]. rewrite ad_roundtrip, !wrap_small, Hpr by done.
  by destruct src; [rewrite parse_show_addr|rewrite parse_addr_empty].
Qed.

Lemma rib_route_read (tbl : Z) (path : Path.Path) (next_hop : IpAddr) :
  exists r, route_try_from (rib_route (RibManager.path_route tbl path next_hop)) = Ok r /\
    destination r = Path.prefix path /\ protocol r = Bgp /\ table r = wrap 8 tbl /\
    version r = (match Family.afi (Path.family path) with Family.IPv4 => V4 | Family.IPv6 => V6 end) /\
    ad r = (if Path.is_external path then EBGP else IBGP) /\
    map gateway (next_hops r) = [next_hop].
Proof.
  unfold route_try_from, rib_route, RibManager.path_route. cbn. rewrite parse_show_net, parse_addr_empty.
  unfold next_hop_try_from. cbn. rewrite parse_show_addr. cbv [mbind res_bind]. cbn [flags_try_from].
  destruct (Family.afi (Path.family path)), (Family.safi (Path.family path)), (Path.is_external path); cbn;
    eexists; (split; [reflexivity|]); done.
Qed.

(** C12: every route the RIB manager sends is one the FIB server accepts: for
    any path, gateway and table the message is read as a BGP route to the
    path's network through that gateway, with the distance of an external or an
    internal path. *)
Theorem rib_routes_accepted (tbl : Z) (path : Path.Path) (next_hop : IpAddr) (Ht : uint 8 tbl) :
  exists r, route_try_from (rib_route (RibManager.path_route tbl path next_hop)) = Ok r /\
    destination r = Path.prefix path /\ protocol r = Bgp /\ table r = tbl /\
    version r = (match Family.afi (Path.family path) with Family.IPv4 => V4 | Family.IPv6 => V6 end) /\
    ad r = (if Path.is_external path then EBGP else IBGP) /\
    map gateway (next_hops r) = [next_hop].
Proof.
  destruct (rib_route_read tbl path next_hop) as (r & H). exists r. by rewrite (wrap_small 8 tbl) in H.
Qed.

(** *** Multipath *)

Lemma has_gateway_spec l nh : has_gateway l nh = true <-> gateway nh ∈ map gateway l.
Proof.
  unfold has_gateway. rewrite existsb_exists, list_elem_of_fmap. setoid_rewrite bool_decide_eq_true.
  split; intros (n & H1 & H2); exists n; [by rewrite list_elem_of_In|by rewrite <-list_elem_of_In].
Qed.

(** Adding the next hops of a second route and taking them away again
    gives the gateways the route had before, when none of them was common;
    merging never repeats a gateway, and nothing else of the route changes. *)
Theorem multipath_merge_pop (r other m : Route) (Hm : merge_multipath r other = Ok m)
  (Hd : Forall (fun nh => has_gateway (next_hops r) nh = false) (next_hops other))
  (Hn : NoDup (map gateway (next_hops r))) (Ho : NoDup (map gateway (next_hops other))) :
  pop_multipath m other = Ok r /\ NoDup (map gateway (next_hops m)) /\
  map gateway (next_hops m) = map gateway (next_hops r) ++ map gateway (next_hops other).
Proof.
  unfold merge_multipath in Hm. destruct (mergeable r other) eqn:Hmr; [|done]. cbn in Hm. injection Hm as <-.
  assert (Hf : List.filter (fun nh => negb (has_gateway (next_hops r) nh)) (next_hops other) = next_hops other).
  { apply filter_all. eapply Forall_impl; [exact Hd|]. by intros nh ->. }
  rewrite Hf. split_and!.
  - unfold pop_multipath. change (mergeable (set_next_hops _ r) other) with (mergeable r other). rewrite Hmr. cbn [negb].
    f_equal. unfold set_next_hops. cbn [next_hops destination version protocol scope kind source priority ad table].
    rewrite List.filter_app.
    rewrite filter_all, filter_none, app_nil_r; [by destruct r|..]; apply Forall_forall; intros nh Hnh.
    + apply negb_false_iff, has_gateway_spec, list_elem_of_fmap. by exists nh.
    + apply negb_true_iff, not_true_iff_false. intros (x & Hx & Hin)%has_gateway_spec%list_elem_of_fmap.
      rewrite Forall_forall in Hd. specialize (Hd _ Hin). apply not_true_iff_false in Hd. apply Hd, has_gateway_spec.
      rewrite <-Hx. apply list_elem_of_fmap. by exists nh.
  - cbn. rewrite map_app. apply NoDup_app. split_and!; [done| |done]. intros g Hg Hg'.
    apply list_elem_of_fmap in Hg' as (nh & -> & Hnh). rewrite Forall_forall in Hd. specialize (Hd _ Hnh).
    by rewrite (proj2 (has_gateway_spec _ _) Hg) in Hd.
  - cbn. by rewrite map_app.
Qed.
End facts.

(** ** Examples *)

Section witnesses.
#[local] Existing Instance simple_ipnet.
#[local] Existing Instance simple_text.
#[local] Existing Instance simple_text_laws.

Definition hop (a : Z) : NextHop := {| gateway := AV4 a; weight := 1; flags := Empty; interface := 0 |}.

(** A BGP route through the given gateway, with the given distance *)
Definition bgp_route (a : AdministrativeDistance) (g : Z) : Route :=
  {| destination := Path.net24; version := V4; protocol := Bgp; scope := Universe; kind := Unicast;
     next_hops := [hop g]; source := None; priority := 20; ad := a; table := 254 |}.

Lemma route_message_roundtrip_witness : route_try_from (route_into (bgp_route EBGP 2)) = Ok (bgp_route EBGP 2).
Proof. apply route_message_roundtrip. repeat split; unfold uint; simpl; lia. Defined.

Lemma rib_routes_accepted_witness : exists r,
  route_try_from (rib_route (RibManager.path_route 254 Path.path_ex (AV4 2))) = Ok r /\
  protocol r = Bgp /\ table r = 254.
Proof.
  destruct (rib_routes_accepted 254 Path.path_ex (AV4 2)) as (r & H & _ & Hp & Ht & _); [unfold uint; lia|].
  exists r. split; [exact H|]. split; [exact Hp|exact Ht].
Defined.

Lemma multipath_merge_pop_witness : exists m,
  merge_multipath (bgp_route EBGP 2) (bgp_route EBGP 3) = Ok m /\ pop_multipath m (bgp_route EBGP 3) = Ok (bgp_route EBGP 2).
Proof.
  exists (set_next_hops [hop 2; hop 3] (bgp_route EBGP 2)).
  assert (Hm : merge_multipath (bgp_route EBGP 2) (bgp_route EBGP 3) = Ok (set_next_hops [hop 2; hop 3] (bgp_route EBGP 2))).
  { unfold merge_multipath, mergeable. rewrite !bool_decide_true by reflexivity. reflexivity. }
  split; [exact Hm|].
  apply (multipath_merge_pop (bgp_route EBGP 2) (bgp_route EBGP 3)); [exact Hm| |apply NoDup_singleton..].
  repeat constructor.
Defined.
End witnesses.
End FibRoute.
