(* ===== verification/FibRib.v ===== *)
(** * The FIB server's table and channels

    [Rib] of [fib/src/rib.rs], [Channel] and [Protocol] of [channel.rs], the
    subscriber side of [bgp.rs], the publisher side of [kernel.rs] and the task
    of [server.rs] that joins them: requests of the subscribers change the table
    of a channel, and what it publishes goes to the publishers. *)

From S2P Require Import Prelude.
From S2P Require Import Net.
From S2P Require Import NetText.
From S2P Require Import BgpFamily.
From S2P Require Import BgpPath.
From S2P Require Import BgpRib.
From S2P Require Import BgpLocRib.
From S2P Require Import BgpRibManager.
From S2P Require Import FibRoute.

Module FibRib.
Import FibRoute.

Inductive RequestType : Type := Add | Delete | Replace | AddMultiPath | DeleteMultiPath.
#[global] Instance RequestType_eq_dec : EqDecision RequestType.
Proof. solve_decision. Defined.

Section defs.
Context {I : IpNetApi} {NI : NetIter}.

(** ** The table *)

Record Rib : Type := { ip_version : IpVersion; inner : gmap IpNet (list Route) }.

Definition default_rib : Rib := {| ip_version := V4; inner := ∅ |}.
Definition new (v : IpVersion) : Rib := {| ip_version := v; inner := ∅ |}.

Definition set_routes (d : IpNet) (l : list Route) (r : Rib) : Rib :=
  {| ip_version := ip_version r; inner := <[d := l]> (inner r) |}.

(** [Ord for Route]: the order of the distances *)
Definition route_le (a b : Route) : bool := ad_code (ad a) <=? ad_code (ad b).

(** [routes.sort()], which is stable *)
Fixpoint insert_sorted (r : Route) (l : list Route) : list Route :=
  match l with
  | [] => [r]
  | x :: l' => if route_le r x then r :: x :: l' else x :: insert_sorted r l'
  end.

Definition sort (l : list Route) : list Route := foldr insert_sorted [] l.

(** The first route of the protocol is replaced, or the route is pushed. *)
Fixpoint put_route (route : Route) (l : list Route) : list Route :=
  match l with
  | [] => [route]
  | r :: l' => if bool_decide (protocol r = protocol route) then route :: l' else r :: put_route route l'
  end.

Definition insert (d : IpNet) (route : Route) (rib : Rib) : option (Route * bool) * Rib :=
  if bool_decide (version route <> ip_version rib) then (None, rib)
  else
    match inner rib !! d with
    | Some [] => (Some (route, false), set_routes d [route] rib)
    | Some (old_published :: l) =>
        let routes := sort (put_route route (old_published :: l)) in
        (match routes with
         | new_published :: _ => if route_le new_published old_published then Some (new_published, true) else None
         | [] => None
         end, set_routes d routes rib)
    | None => (Some (route, false), set_routes d [route] rib)
    end.

Definition get (d : IpNet) (rib : Rib) : option (list Route) := inner rib !! d.

Definition list_routes (rib : Rib) : option (list Route) :=
  match net_iter (inner rib) with
  | [] => None
  | l => Some (flat_map snd l)
  end.

Definition get_published (d : IpNet) (rib : Rib) : option Route :=
  match inner rib !! d with
  | Some (r :: _) => Some r
  | _ => None
  end.

(** The test of [position]: as many next hops, and the gateways of all but the
    last equal. With no next hops [len - 1] underflows. *)
Definition same_gateways (r route : Route) : res Error bool :=
  if negb (length (next_hops r) =? length (next_hops route))%nat then Ok false
  else if (length (next_hops r) =? 0)%nat then Panic
  else Ok (bool_decide (map gateway (take (length (next_hops r) - 1) (next_hops r)) =
                        map gateway (take (length (next_hops r) - 1) (next_hops route)))).

Fixpoint position (route : Route) (i : nat) (l : list Route) : res Error (option nat) :=
  match l with
  | [] => Ok None
  | r :: l' => b ← same_gateways r route; if b : bool then Ok (Some i) else position route (S i) l'
  end.

Definition remove (route : Route) (rib : Rib) : res Error (option (Route * bool)) * Rib :=
  if bool_decide (version route <> ip_version rib) then (Ok None, rib)
  else
    match inner rib !! destination route with
    | Some (r :: l) =>
        match position route 0 (r :: l) with
        | Ok (Some index) =>
            match (r :: l) !! index with
            | Some ret_route =>
                let routes := delete index (r :: l) in
                (Ok (if (index =? 0)%nat then
                       match routes with
                       | alt :: _ => Some (alt, true)
                       | [] => Some (ret_route, false)
                       end
                     else None), set_routes (destination route) routes rib)
            | None => (Panic, rib)
            end
        | Ok None => (Ok None, rib)
        | Err e => (Err e, rib)
        | Panic => (Panic, rib)
        end
    | _ => (Ok None, rib)
    end.

(** ** Channels *)

(** A publisher: the kernel with its tables, when its sender is registered, or
    a BGP speaker at an endpoint. *)
Inductive Publisher : Type :=
| PKernel (tables : list Z) (publish_tx : bool)
| PBgp (endpoint : string).

Record Channel : Type := {
  name : string;
  ch_version : string;
  publishers : list Publisher;
  subscribers : list Publisher;
  rib : Rib;
}.

Definition set_rib (r : Rib) (c : Channel) : Channel :=
  {| name := name c; ch_version := ch_version c; publishers := publishers c; subscribers := subscribers c; rib := r |}.

Definition register_publisher (p : Publisher) : Publisher :=
  match p with PKernel tables _ => PKernel tables true | PBgp e => PBgp e end.

Definition get_route (d : IpNet) (p : Protocol) (c : Channel) : option Route :=
  match get d (rib c) with
  | Some routes => List.find (fun r => bool_decide (protocol r = p)) routes
  | None => None
  end.

Definition register_route (route : Route) (c : Channel) : option (Route * bool) * Channel :=
  let '(x, r) := insert (destination route) route (rib c) in (x, set_rib r c).

Definition remove_route (route : Route) (c : Channel) : res Error (option (Route * bool)) * Channel :=
  match get (destination route) (rib c) with
  | Some (_ :: _) => let '(x, r) := remove route (rib c) in (x, set_rib r c)
  | _ => (Ok None, c)
  end.

(** What the publishers send: a request for a kernel table, or one for the API
    of the BGP speaker. *)
Inductive Output : Type :=
| ToKernel (req : RequestType) (route : Route)
| AddPath (endpoint : string) (afi safi : Z) (prefix : IpNet)
| DeletePath (endpoint : string) (afi safi : Z) (prefix : IpNet).

#[global] Instance Output_eq_dec : EqDecision Output.
Proof. solve_decision. Defined.

(** Whether the receiver takes what is sent *)
Variable accepts : Output -> bool.

Fixpoint send_tables (req : RequestType) (route : Route) (tables : list Z) : list Output * option Error :=
  match tables with
  | [] => ([], None)
  | t :: tables' =>
      let o := ToKernel req (set_table (wrap 8 t) route) in
      if accepts o then let '(os, e) := send_tables req route tables' in (o :: os, e)
      else ([], Some FailedToRecvSendViaChannel)
  end.

(** [Protocol::publish]: what is sent, and the error *)
Definition publish (p : Publisher) (req : RequestType) (route : Route) : list Output * option Error :=
  match p with
  | PKernel tables true => send_tables req route tables
  | PKernel _ false => ([], None)
  | PBgp e =>
      let afi := ip_version_to_afi (version route) in
      let safi := to_safi (kind route) in
      match req with
      | Add | Replace =>
          let o := AddPath e afi safi (destination route) in
          if accepts o then ([o], None) else ([], Some GotgPRCError)
      | Delete =>
          let o := DeletePath e afi safi (destination route) in
          if accepts o then ([o], None) else ([], Some GotgPRCError)
      | AddMultiPath | DeleteMultiPath => ([], None)
      end
  end.

(** The task of a channel: its state and what was sent. *)
Record Task : Type := { ch : Channel; sent : list Output }.

(** The published route goes to every publisher; errors are logged. *)
Definition publish_all (req : RequestType) (x : option (Route * bool)) (c : Channel) : list Output :=
  match x with
  | Some (route, replace) =>
      flat_map (fun p => (publish p (if replace : bool then Replace else req) route).1) (publishers c)
  | None => []
  end.

(** The answer of the channel to a request: [None] is the [continue]. *)
Definition apply_request (req : RequestType) (route : Route) (c : Channel) :
    res Error (option (option (Route * bool))) * Channel :=
  match req with
  | Add | Replace => let '(x, c') := register_route route c in (Ok (Some x), c')
  | AddMultiPath =>
      match get_route (destination route) (protocol route) c with
      | Some existing_route =>
          match merge_multipath existing_route route with
          | Ok r => let '(x, c') := register_route r c in (Ok (Some x), c')
          | _ => (Ok None, c)
          end
      | None => let '(x, c') := register_route route c in (Ok (Some x), c')
      end
  | Delete => let '(x, c') := remove_route route c in (x ← x; Ok (Some x), c')
  | DeleteMultiPath =>
      match get_route (destination route) (protocol route) c with
      | Some existing_route =>
          match pop_multipath existing_route route with
          | Ok r => let '(x, c') := register_route r c in (Ok (Some x), c')
          | _ => (Ok None, c)
          end
      | None => let '(x, c') := remove_route route c in (x ← x; Ok (Some x), c')
      end
  end.

Definition handle_request (req : RequestType) (route : Route) : M Task Error unit := fun t =>
  let '(x, c) := apply_request req route (ch t) in
  match x with
  | Ok (Some x) => (Ok tt, {| ch := c; sent := sent t ++ publish_all req x c |})
  | Ok None => (Ok tt, {| ch := c; sent := sent t |})
  | Err e => (Err e, {| ch := c; sent := sent t |})
  | Panic => (Panic, {| ch := c; sent := sent t |})
  end.

(** ** The subscriber of a BGP speaker *)

(** [tonic::Status] *)
Inductive Status : Type := Aborted | Internal.

Context {T : TextApi}.

(** [Route::default] with a destination and a version *)
Definition default_route (d : IpNet) (v : IpVersion) : Route :=
  {| destination := d; version := v; protocol := Unspec; scope := Universe; kind := UnspecType; next_hops := [];
     source := None; priority := 0; ad := AdStatic; table := 0 |}.

(** The requests that are queued for the handlers of the FIB interface *)
Definition sub_add_route (r : option PRoute) : res Status (RequestType * Route) :=
  match r with
  | Some p => match route_try_from p with Ok route => Ok (Add, route) | Err _ => Err Aborted | Panic => Panic end
  | None => Err Aborted
  end.

Definition sub_delete_route (ver : Z) (dest : string) : res Status (RequestType * Route) :=
  match ip_version_from ver with
  | Ok v => match parse_net dest with Some d => Ok (Delete, default_route d v) | None => Err Aborted end
  | _ => Err Aborted
  end.

Definition sub_add_multi_path_route (r : option PRoute) : res Status (RequestType * Route) :=
  match r with
  | Some p => match route_try_from p with Ok route => Ok (AddMultiPath, route) | Err _ => Err Internal | Panic => Panic end
  | None => Err Aborted
  end.

Fixpoint parse_gateways (l : list string) : option (list NextHop) :=
  match l with
  | [] => Some []
  | g :: l' =>
      a ← parse_addr g;
      hs ← parse_gateways l';
      Some ({| gateway := a; weight := 1; flags := Empty; interface := 0 |} :: hs)
  end.

Definition sub_delete_multi_path_route (ver : Z) (dest : string) (gateways : list string) :
    res Status (RequestType * Route) :=
  match ip_version_from ver with
  | Ok v =>
      match parse_net dest with
      | Some d =>
          match parse_gateways gateways with
          | Some hs => Ok (DeleteMultiPath, set_next_hops hs (default_route d v))
          | None => Err Aborted
          end
      | None => Err Aborted
      end
  | _ => Err Aborted
  end.
End defs.

(** ** Specification *)

Section spec.
Context {I : IpNetApi} {NI : NetIter}.

(** The routes of a destination: ordered by distance, one for each protocol. *)
Definition ordered (l : list Route) : Prop :=
  StronglySorted (fun a b => ad_code (ad a) <= ad_code (ad b)) l.

Definition routes_ok (d : IpNet) (l : list Route) : Prop :=
  ordered l /\ NoDup (map protocol l) /\ Forall (fun r => destination r = d) l.

Definition rib_ok (r : Rib) : Prop := forall d l, inner r !! d = Some l -> routes_ok d l.

(** The requests the task that writes to the kernel gets for a destination of a
    table, and the last of them *)
Definition kernel_request (t : Z) (d : IpNet) (o : Output) : option (RequestType * Route) :=
  match o with
  | ToKernel req r => if (table r =? t) && bool_decide (destination r = d) then Some (req, r) else None
  | _ => None
  end.

Definition last_request (t : Z) (d : IpNet) (os : list Output) : option (RequestType * Route) :=
  last (omap (kernel_request t d) os).

(** The requests that are for the route to be there *)
Definition installs (req : RequestType) : bool :=
  match req with Add | Replace | AddMultiPath => true | Delete | DeleteMultiPath => false end.

(** The route the last request wants in the table, if any *)
Definition requested (t : Z) (d : IpNet) (os : list Output) : option Route :=
  '(req, r) ← last_request t d os;
  if installs req then Some r else None.

(** The kernel is a publisher of the channel for the table. *)
Definition publishes_to (t : Z) (c : Channel) : Prop :=
  exists tables, PKernel tables true ∈ publishers c /\ t ∈ map (wrap 8) tables.

(** A request that does not make a route worse, adds a next hop only to a
    destination that has a route, and takes next hops only from a route of the
    same protocol. *)
Definition fair (req : RequestType) (route : Route) (c : Channel) : Prop :=
  match req with
  | Add | Replace => forall r, get_route (destination route) (protocol route) c = Some r ->
      ad_code (ad route) <= ad_code (ad r)
  | AddMultiPath => is_Some (get_published (destination route) (rib c)) /\
      forall r, get_route (destination route) (protocol route) c = Some r -> ad r = ad route
  | Delete => True
  | DeleteMultiPath => is_Some (get_route (destination route) (protocol route) c)
  end.
End spec.

Section facts.
Context {I : IpNetApi} {NI : NetIter}.

(** *** Sorting *)

Lemma insert_sorted_perm r l : insert_sorted r l ≡ₚ r :: l.
Proof.
  induction l as [|x l IH]; [done|]. simpl. destruct (route_le r x); [done|]. rewrite IH. apply Permutation_swap.
Qed.

Lemma sort_perm l : sort l ≡ₚ l.
Proof. induction l as [|r l IH]; [done|]. simpl. by rewrite insert_sorted_perm, IH. Qed.

Lemma insert_sorted_ordered r l : ordered l -> ordered (insert_sorted r l).
Proof.
  unfold ordered. induction 1 as [|x l Hl IH Hx]; [repeat constructor|]. simpl. unfold route_le.
  destruct (Z.leb_spec (ad_code (ad r)) (ad_code (ad x))) as [Hrx|Hrx].
  - constructor; [by constructor|]. constructor; [done|]. eapply Forall_impl; [exact Hx|]. simpl. lia.
  - constructor; [done|]. rewrite insert_sorted_perm. constructor; [lia|done].
Qed.

Lemma sort_ordered l : ordered (sort l).
Proof. induction l as [|r l IH]; [constructor|]. by apply insert_sorted_ordered. Qed.

Lemma ordered_head r l x : ordered (r :: l) -> x ∈ r :: l -> ad_code (ad r) <= ad_code (ad x).
Proof.
  intros H. inversion H as [|? ? _ Hr]; subst. intros [->|Hx]%elem_of_cons; [lia|]. rewrite Forall_forall in Hr. by apply Hr.
Qed.

(** *** Replacing the route of a protocol *)

Lemma put_elem route l : route ∈ put_route route l.
Proof.
  induction l as [|r l IH]; simpl; [by left|]. case_bool_decide; [by left|by right].
Qed.

Lemma put_kept route l x : x ∈ l -> protocol x <> protocol route -> x ∈ put_route route l.
Proof.
  induction l as [|r l IH]; intros Hx Hp; simpl; [by apply elem_of_nil in Hx|].
  apply elem_of_cons in Hx as [->|Hx].
  - rewrite bool_decide_false by done. by left.
  - case_bool_decide; right; auto.
Qed.

Lemma put_inv route l x : x ∈ put_route route l -> x = route \/ x ∈ l.
Proof.
  induction l as [|r l IH]; simpl; [intros ->%list_elem_of_singleton; by left|].
  case_bool_decide; intros [->|Hx]%elem_of_cons; [by left|right; by right|right; by left|].
  destruct (IH Hx); [by left|right; by right].
Qed.

Lemma put_protocols route l : NoDup (map protocol l) -> NoDup (map protocol (put_route route l)).
Proof.
  induction l as [|r l IH]; simpl; [intros _; apply NoDup_singleton|]. rewrite NoDup_cons. intros [Hr Hl].
  case_bool_decide as He; simpl; rewrite NoDup_cons.
  - by rewrite <-He.
  - split; [|by apply IH]. rewrite list_elem_of_fmap. intros (x & Hx & [->|Hin]%put_inv); [done|].
    apply Hr. rewrite Hx. apply list_elem_of_fmap. by exists x.
Qed.

Lemma put_ok d route l : destination route = d -> routes_ok d l -> routes_ok d (sort (put_route route l)).
Proof.
  intros Hd (Ho & Hn & Hf). split; [apply sort_ordered|]. split.
  - rewrite sort_perm. by apply put_protocols.
  - rewrite sort_perm, Forall_forall. rewrite Forall_forall in Hf. intros x [->|Hx]%put_inv; auto.
Qed.

(** *** The operations keep the table in order *)

Lemma set_ok d l r : rib_ok r -> routes_ok d l -> rib_ok (set_routes d l r).
Proof.
  intros Hr Hl d' l'. simpl. destruct (decide (d = d')) as [<-|Hne].
  - rewrite lookup_insert_eq. by intros [= <-].
  - rewrite lookup_insert_ne by done. apply Hr.
Qed.

Lemma one_ok route : routes_ok (destination route) [route].
Proof. repeat constructor. apply not_elem_of_nil. Qed.

Lemma insert_ok route r : rib_ok r -> rib_ok (insert (destination route) route r).2.
Proof.
  intros Hr. unfold insert. case_bool_decide; [done|].
  destruct (inner r !! destination route) as [[|x l]|] eqn:Hl; cbn [snd]; (apply set_ok; [done|]); [apply one_ok| |apply one_ok].
  by apply put_ok; [|apply Hr].
Qed.

Lemma delete_ok d i l : routes_ok d l -> routes_ok d (base.delete i l).
Proof.
  intros (Ho & Hn & Hf). split_and!.
  - clear Hn Hf. revert i. induction Ho as [|x l Hl IH Hx]; intros [|i]; simpl; [constructor..|done|].
    constructor; [apply IH|]. by apply Forall_delete.
  - eapply sublist_NoDup; [exact Hn|]. apply (fmap_sublist protocol), sublist_delete.
  - by apply Forall_delete.
Qed.

Lemma remove_ok route r : rib_ok r -> rib_ok (remove route r).2.
Proof.
  intros Hr. unfold remove. case_bool_decide; [done|].
  destruct (inner r !! destination route) as [[|x l]|] eqn:Hl; [done| |done].
  destruct (position route 0 (x :: l)) as [[i|]| |]; [|done..].
  destruct ((x :: l) !! i); [|done]. apply set_ok; [done|]. apply delete_ok. by apply Hr.
Qed.

(** *** Publishing *)

Lemma published_set d l r d' : get_published d' (set_routes d l r) =
  if decide (d = d') then (match l with x :: _ => Some x | [] => None end) else get_published d' r.
Proof.
  unfold get_published. simpl. case_decide as H; [subst; by rewrite lookup_insert_eq|by rewrite lookup_insert_ne].
Qed.

(** What an operation on the table does to a destination and tells of it *)
Definition tells (x : option (Route * bool)) (d : IpNet) (r r' : Rib) : Prop :=
  (forall d', d' <> d -> get_published d' r' = get_published d' r) /\
  match x with
  | Some (route, true) => get_published d r' = Some route /\ destination route = d
  | Some (route, false) => destination route = d
  | None => get_published d r' = get_published d r
  end.

Lemma insert_tells route r x r' : rib_ok r -> version route = ip_version r ->
  (forall l y, inner r !! destination route = Some l -> y ∈ l -> protocol y = protocol route ->
     ad_code (ad route) <= ad_code (ad y)) ->
  insert (destination route) route r = (x, r') ->
  tells x (destination route) r r' /\
  match get_published (destination route) r with
  | None => x = Some (route, false) /\ get_published (destination route) r' = Some route
  | Some _ => exists new, x = Some (new, true)
  end.
Proof.
  intros Hr Hv Hw H. unfold insert in H. rewrite bool_decide_false in H by (intros Hne; by apply Hne).
  set (d := destination route) in *.
  assert (Hother : forall l d', d' <> d -> get_published d' (set_routes d l r) = get_published d' r).
  { intros l d' Hne. rewrite published_set. by case_decide. }
  destruct (inner r !! d) as [[|old l]|] eqn:Hl.
  1,3: injection H as <- <-; (replace (get_published d r) with (@None Route) by (unfold get_published; by rewrite Hl));
    split; [split; [by apply Hother|done]|]; (split; [done|]); rewrite published_set, decide_True by done; done.
  replace (get_published d r) with (Some old) by (unfold get_published; by rewrite Hl).
  destruct (put_ok d route (old :: l) eq_refl (Hr _ _ Hl)) as (Ho' & _ & Hf').
  assert (Hmin : exists y, y ∈ sort (put_route route (old :: l)) /\ ad_code (ad y) <= ad_code (ad old)).
  { setoid_rewrite sort_perm. destruct (decide (protocol old = protocol route)) as [He|He].
    - exists route. split; [apply put_elem|]. eapply Hw; [done| |done]. by left.
    - exists old. split; [apply put_kept; [by left|done]|lia]. }
  destruct (sort (put_route route (old :: l))) as [|new l'] eqn:Hs.
  { destruct Hmin as (y & Hy & _). by apply elem_of_nil in Hy. }
  destruct Hmin as (y & Hy & Hle). pose proof (ordered_head _ _ _ Ho' Hy).
  unfold route_le in H. destruct (Z.leb_spec (ad_code (ad new)) (ad_code (ad old))); [|lia]. injection H as <- <-.
  split; [|by exists new]. split; [by apply Hother|]. rewrite published_set, decide_True by done.
  split; [done|]. rewrite Forall_cons in Hf'. apply Hf'.
Qed.

Lemma remove_tells route r x r' : rib_ok r -> remove route r = (Ok x, r') ->
  tells x (destination route) r r' /\
  match x with
  | Some (_, false) => get_published (destination route) r' = None
  | _ => True
  end.
Proof.
  intros Hr H. unfold remove in H. case_bool_decide; [by injection H as <- <-|].
  destruct (inner r !! destination route) as [[|old l]|] eqn:Hl; [by injection H as <- <-| |by injection H as <- <-].
  destruct (position route 0 (old :: l)) as [[i|]| |]; [|by injection H as <- <-|done|done].
  destruct ((old :: l) !! i) as [ret|] eqn:Hi; [|done]. injection H as <- <-.
  pose proof (Hr _ _ Hl) as (_ & _ & Hf).
  assert (Hother : forall l d', d' <> destination route ->
    get_published d' (set_routes (destination route) l r) = get_published d' r).
  { intros l' d' Hne. rewrite published_set. by case_decide. }
  unfold tells. destruct i as [|i].
  - cbn [Nat.eqb base.delete list_delete]. injection Hi as <-. destruct l as [|alt l].
    + split; [split; [by apply Hother|]|by rewrite published_set, decide_True]. rewrite Forall_cons in Hf. apply Hf.
    + split; [|done]. split; [by apply Hother|]. rewrite published_set, decide_True by done. split; [done|].
      rewrite !Forall_cons in Hf. apply Hf.
  - split; [|done]. split; [by apply Hother|]. cbn [Nat.eqb]. rewrite published_set, decide_True by done. simpl.
    unfold get_published. by rewrite Hl.
Qed.

(** *** What reaches the kernel *)

Section kernel.
Context (accepts : Output -> bool) (accepts_kernel : forall req r, accepts (ToKernel req r) = true).
Context (t : Z).

Lemma send_tables_ok req route tables :
  send_tables accepts req route tables = (map (fun x => ToKernel req (set_table (wrap 8 x) route)) tables, None).
Proof. induction tables as [|x tables IH]; [done|]. simpl. by rewrite accepts_kernel, IH. Qed.

Lemma last_request_app d os os' : last_request t d (os ++ os') =
  match last_request t d os' with Some x => Some x | None => last_request t d os end.
Proof. unfold last_request. by rewrite omap_app, last_app. Qed.

(** Requests for one route: the last is one of them if there is one for the table *)
Lemma last_of_one req route os d :
  Forall (fun o => match o with ToKernel q r => q = req /\ exists x, r = set_table x route | _ => True end) os ->
  last_request t d os =
    if decide (d = destination route /\ Exists (fun o => o = ToKernel req (set_table t route)) os)
    then Some (req, set_table t route) else None.
Proof.
  induction os as [|o os IH] using rev_ind; intros Hos.
  { rewrite decide_False; [done|]. intros [_ H]. by apply Exists_nil in H. }
  apply Forall_app in Hos as [Hos Ho]. apply Forall_cons in Ho as [Ho _]. rewrite last_request_app, IH by done. clear IH.
  assert (Hk : last_request t d [o] = if decide (d = destination route /\ o = ToKernel req (set_table t route))
    then Some (req, set_table t route) else None).
  { destruct o as [q r|e a sf n|e a sf n]; [|by rewrite decide_False by (by intros [_ ?])..].
    destruct Ho as [-> [x ->]]. unfold last_request. cbn. destruct (Z.eqb_spec x t) as [->|Hne].
    - cbn. destruct (decide (destination route = d)) as [<-|Hd].
      + by rewrite bool_decide_true, decide_True.
      + by rewrite bool_decide_false, decide_False by (done || intros [? _]; congruence).
    - rewrite decide_False; [done|]. by intros [_ [= Hx]]. }
  rewrite Hk. repeat case_decide; try done; rewrite Exists_app, Exists_cons, Exists_nil in *; naive_solver.
Qed.

Lemma publish_kernel c req (x : Route * bool) : publishes_to t c ->
  Forall (fun o => match o with ToKernel q r => q = (if x.2 then Replace else req) /\ exists y, r = set_table y x.1 | _ => True end)
    (publish_all accepts req (Some x) c) /\
  Exists (fun o => o = ToKernel (if x.2 then Replace else req) (set_table t x.1)) (publish_all accepts req (Some x) c).
Proof.
  intros (tables & Hp & Ht). destruct x as [route rep]. cbn [publish_all fst snd].
  set (q := if rep then Replace else req). clearbody q. split.
  - apply Forall_forall. intros o Ho. apply list_elem_of_In, in_flat_map in Ho as (p & _ & Ho).
    destruct p as [tabs [|]|e]; cbn [publish] in Ho; [|done|].
    + rewrite send_tables_ok in Ho. cbn in Ho. apply in_map_iff in Ho as (y & <- & _). by split; [|eexists].
    + destruct q; try done; (destruct (accepts _); cbn in Ho; [by destruct Ho as [<-|[]]|done]).
  - apply Exists_exists. eexists. split; [|reflexivity]. apply list_elem_of_In, in_flat_map.
    exists (PKernel tables true). split; [by apply list_elem_of_In|]. cbn [publish]. rewrite send_tables_ok. cbn.
    apply list_elem_of_fmap in Ht as (y & -> & Hy). apply in_map_iff. exists y. split; [done|]. by apply list_elem_of_In.
Qed.

Definition mirrors (tk : Task) : Prop :=
  rib_ok (rib (ch tk)) /\ publishes_to t (ch tk) /\
  forall d, requested t d (sent tk) = set_table t <$> get_published d (rib (ch tk)).

(** The table changes as it tells, and the requests follow. *)
Lemma mirrors_step req x r tk d : mirrors tk -> rib_ok r -> tells x d (rib (ch tk)) r ->
  match x with
  | Some (route, false) => get_published d r = if installs req then Some route else None
  | _ => True
  end ->
  mirrors {| ch := set_rib r (ch tk); sent := sent tk ++ publish_all accepts req x (set_rib r (ch tk)) |}.
Proof.
  intros (Hr & Hp & Hv) Hr' [Hother Hd] Hx. split; [done|]. split; [done|]. intros d'. cbn [rib ch set_rib sent].
  specialize (Hv d'). unfold requested in Hv |- *. rewrite last_request_app.
  destruct x as [[route rep]|].
  - destruct (publish_kernel (set_rib r (ch tk)) req (route, rep) Hp) as [Hall Hex].
    rewrite (last_of_one _ _ _ d' Hall). cbn [fst snd] in *.
    assert (Hdest : destination route = d) by (destruct rep; [apply Hd|done]). rewrite Hdest.
    destruct (decide (d' = d)) as [->|Hne].
    + rewrite decide_True by done. cbn. destruct rep; [destruct Hd as [-> _]; done|]. rewrite Hx. by destruct (installs req).
    + rewrite decide_False by (by intros [? _]). by rewrite Hother.
  - simpl. rewrite Hv. destruct (decide (d' = d)) as [->|Hne]; [by rewrite Hd|by rewrite Hother].
Qed.

Lemma get_route_some d p c r : rib_ok (rib c) -> get_route d p c = Some r ->
  exists l, inner (rib c) !! d = Some l /\ r ∈ l /\ protocol r = p /\ destination r = d /\
    forall y, y ∈ l -> protocol y = p -> y = r.
Proof.
  intros Hok H. unfold get_route, get in H. destruct (inner (rib c) !! d) as [l|] eqn:Hl; [|done].
  destruct (Hok _ _ Hl) as (_ & Hn & Hf). apply List.find_some in H as [Hin Hp]. apply bool_decide_eq_true in Hp.
  apply list_elem_of_In in Hin. exists l. split_and!; [done..| |].
  - rewrite Forall_forall in Hf. by apply Hf.
  - intros y Hy Hyp. destruct (list_elem_of_lookup_1 _ _ Hin) as [i Hi], (list_elem_of_lookup_1 _ _ Hy) as [j Hj].
    assert (i = j); [|congruence]. eapply NoDup_lookup; [exact Hn| |]; rewrite list_lookup_fmap; [by rewrite Hi|].
    rewrite Hj. cbn. by rewrite Hyp, Hp.
Qed.

Lemma get_route_none d p c l y : get_route d p c = None -> inner (rib c) !! d = Some l -> y ∈ l -> protocol y <> p.
Proof.
  intros H Hl Hy Hp. unfold get_route, get in H. rewrite Hl in H.
  apply list_elem_of_In, (List.find_none _ _ H) in Hy. by apply bool_decide_eq_false in Hy.
Qed.

Lemma insert_version d route r : version route <> ip_version r -> insert d route r = (None, r).
Proof. intros H. unfold insert. by rewrite bool_decide_true. Qed.

(** Registering a route that is not worse than that of its protocol *)
Lemma mirrors_register req route tk c' x :
  mirrors tk -> (forall r, get_route (destination route) (protocol route) (ch tk) = Some r -> ad_code (ad route) <= ad_code (ad r)) ->
  (installs req = true \/ is_Some (get_published (destination route) (rib (ch tk)))) ->
  register_route route (ch tk) = (x, c') ->
  mirrors {| ch := c'; sent := sent tk ++ publish_all accepts req x c' |}.
Proof.
  intros Hm Hw Hreq H. unfold register_route in H. destruct (insert _ _ _) as [y r'] eqn:Hi. injection H as -> <-.
  pose proof Hm as (Hr & _ & _).
  assert (Hr' : rib_ok r') by (pose proof (insert_ok route _ Hr) as Ho; by rewrite Hi in Ho).
  assert (Hall : forall l y, inner (rib (ch tk)) !! destination route = Some l -> y ∈ l -> protocol y = protocol route ->
    ad_code (ad route) <= ad_code (ad y)).
  { intros l y Hl Hy Hp. destruct (get_route (destination route) (protocol route) (ch tk)) as [z|] eqn:Hz;
      [|by destruct (get_route_none _ _ _ _ _ Hz Hl Hy)].
    destruct (get_route_some _ _ _ _ Hr Hz) as (l' & Hl' & _ & _ & _ & Huniq).
    rewrite Hl in Hl'. injection Hl' as <-. rewrite (Huniq y Hy Hp). by apply Hw. }
  destruct (decide (version route = ip_version (rib (ch tk)))) as [Hv|Hv].
  - apply insert_tells in Hi as [Ht Hx]; [|done..]. apply (mirrors_step req x r' tk (destination route)); [done..|].
    destruct (get_published (destination route) (rib (ch tk))) as [old|]; [by destruct Hx as [new ->]|].
    destruct Hx as [-> ->]. by destruct Hreq as [->|[? ?]].
  - rewrite insert_version in Hi by done. injection Hi as <- <-.
    by apply (mirrors_step req None _ tk (destination route)).
Qed.

Lemma mirrors_remove req route tk x c' : mirrors tk -> installs req = false ->
  remove_route route (ch tk) = (Ok x, c') ->
  mirrors {| ch := c'; sent := sent tk ++ publish_all accepts req x c' |}.
Proof.
  intros Hm Hreq H. pose proof Hm as (Hr & _ & _). unfold remove_route in H.
  assert (Hsame : forall y, y = None -> x = y -> c' = ch tk -> mirrors {| ch := c'; sent := sent tk ++ publish_all accepts req x c' |}).
  { intros y -> -> ->. simpl. rewrite app_nil_r. by destruct tk. }
  destruct (get (destination route) (rib (ch tk))) as [[|z l]|];
    [injection H as <- <-; by eapply Hsame| |injection H as <- <-; by eapply Hsame].
  destruct (remove route (rib (ch tk))) as [y r'] eqn:Hrem. injection H as -> <-.
  pose proof (remove_ok route _ Hr) as Hr'. rewrite Hrem in Hr'. apply remove_tells in Hrem as [Ht Hx]; [|done].
  apply (mirrors_step req x r' tk (destination route)); [done..|]. destruct x as [[y [|]]|]; [done| |done].
  by rewrite Hreq.
Qed.

Lemma merged_route (f : Route -> Route -> res Error Route) r other m :
  (forall r o m, f r o = Ok m -> exists l, m = set_next_hops l r) -> f r other = Ok m ->
  destination m = destination r /\ protocol m = protocol r /\ ad m = ad r.
Proof. intros Hf H. by destruct (Hf _ _ _ H) as [l ->]. Qed.

Lemma merge_shape r o m : merge_multipath r o = Ok m -> exists l, m = set_next_hops l r.
Proof. unfold merge_multipath. destruct (negb _); [done|]. intros [= <-]. by eexists. Qed.

Lemma pop_shape r o m : pop_multipath r o = Ok m -> exists l, m = set_next_hops l r.
Proof. unfold pop_multipath. destruct (negb _); [done|]. intros [= <-]. by eexists. Qed.

Lemma mirrors_same tk c x : mirrors tk -> c = ch tk -> x = sent tk -> mirrors {| ch := c; sent := x |}.
Proof. intros Hm -> ->. by destruct tk. Qed.

Lemma listed_published d p c r : rib_ok (rib c) -> get_route d p c = Some r -> is_Some (get_published d (rib c)).
Proof.
  intros Hok H. destruct (get_route_some _ _ _ _ Hok H) as (l & Hl & Hin & _). unfold get_published. rewrite Hl.
  destruct l; [by apply elem_of_nil in Hin|]. by eexists.
Qed.

Lemma mirrors_request req route tk tk' : mirrors tk -> fair req route (ch tk) ->
  handle_request accepts req route tk = (Ok tt, tk') -> mirrors tk'.
Proof.
  intros Hm Hfair H. pose proof Hm as (Hr & _ & _). unfold handle_request in H.
  destruct (apply_request req route (ch tk)) as [x c] eqn:Ha.
  assert (Hnone : x = Ok None -> c = ch tk -> mirrors tk').
  { intros -> ->. injection H as <-. by apply mirrors_same with tk. }
  unfold apply_request in Ha. destruct req; cbn [fair] in Hfair.
  - destruct (register_route route (ch tk)) as [y c'] eqn:Hy. injection Ha as <- <-. injection H as <-.
    eapply mirrors_register; [exact Hm|exact Hfair|by left|exact Hy].
  - destruct (remove_route route (ch tk)) as [[y|e|] c'] eqn:Hy; injection Ha as <- <-; [|done..]. injection H as <-.
    eapply mirrors_remove; [exact Hm|done|exact Hy].
  - destruct (register_route route (ch tk)) as [y c'] eqn:Hy. injection Ha as <- <-. injection H as <-.
    eapply mirrors_register; [exact Hm|exact Hfair|by left|exact Hy].
  - destruct (get_route (destination route) (protocol route) (ch tk)) as [old|] eqn:Hg.
    + destruct (merge_multipath old route) as [m|e|] eqn:Hmm; [|injection Ha as <- <-; by apply Hnone..].
      destruct (merged_route _ _ _ _ merge_shape Hmm) as (Hd & Hp & Had).
      destruct (get_route_some _ _ _ _ Hr Hg) as (_ & _ & _ & Hpo & Hdo & _).
      destruct (register_route m (ch tk)) as [y c'] eqn:Hy. injection Ha as <- <-. injection H as <-.
      eapply mirrors_register; [exact Hm| |by left|exact Hy]. rewrite Hd, Hp, Hdo, Hpo, Hg. intros r [= <-]. by rewrite Had.
    + destruct (register_route route (ch tk)) as [y c'] eqn:Hy. injection Ha as <- <-. injection H as <-.
      eapply mirrors_register; [exact Hm| |by left|exact Hy]. by rewrite Hg.
  - destruct Hfair as [old Hg]. rewrite Hg in Ha.
    destruct (pop_multipath old route) as [m|e|] eqn:Hmm; [|injection Ha as <- <-; by apply Hnone..].
    destruct (merged_route _ _ _ _ pop_shape Hmm) as (Hd & Hp & Had).
    destruct (get_route_some _ _ _ _ Hr Hg) as (_ & _ & _ & Hpo & Hdo & _).
    destruct (register_route m (ch tk)) as [y c'] eqn:Hy. injection Ha as <- <-. injection H as <-.
    eapply mirrors_register; [exact Hm| |right|exact Hy]; rewrite Hd, Hdo.
    + rewrite Hp, Hpo, Hg. intros r [= <-]. by rewrite Had.
    + by eapply listed_published.
Qed.

(** *** Runs *)

(** The task of a channel with an empty table *)
Inductive runs (c : Channel) : Task -> Prop :=
| runs_new v : rib c = new v -> runs c {| ch := c; sent := [] |}
| runs_request req route tk tk' : runs c tk -> fair req route (ch tk) ->
    handle_request accepts req route tk = (Ok tt, tk') -> runs c tk'.

(** C6: the last request the kernel's task gets for a destination is for its
    best route. In every run of a channel from an empty table, when the kernel's
    task takes what it is sent and every request is handled without a failure and
    is fair - no route is replaced
    by a worse one of the same protocol, a next hop is added only to a
    destination that has a route, of the same distance if it is of the same
    protocol, and next hops are taken only from a route of the same protocol -
    the last request sent for a destination of a table the channel publishes to
    asks for the route the channel's table has first, and there is none, or the
    last is a deletion, when the table has no route. The routes of a destination
    are in the order of their administrative distances, one for each protocol,
    so the first has the smallest distance. *)
Theorem last_request_is_best_route (c : Channel) (tk : Task) (Hc : publishes_to t c) (Hrun : runs c tk) (d : IpNet) :
  match last_request t d (sent tk) with
  | Some (req, r) =>
      if installs req then exists best, get_published d (rib (ch tk)) = Some best /\ r = set_table t best
      else get_published d (rib (ch tk)) = None
  | None => get_published d (rib (ch tk)) = None
  end /\
  (forall l, inner (rib (ch tk)) !! d = Some l -> routes_ok d l /\
     forall r, r ∈ l -> exists best, get_published d (rib (ch tk)) = Some best /\ ad_code (ad best) <= ad_code (ad r)).
Proof.
  assert (Hm : mirrors tk).
  { induction Hrun as [v Hv|req route tk tk' _ IH Hf H]; [|by eapply mirrors_request].
    split_and!; [|done|]; cbn; rewrite Hv; [intros d' l; simpl; by rewrite lookup_empty|].
    intros d'. unfold get_published. simpl. by rewrite !lookup_empty. }
  destruct Hm as (Hok & _ & Hv). split.
  { specialize (Hv d). unfold requested in Hv. destruct (get_published d (rib (ch tk))) as [best|];
      destruct (last_request t d (sent tk)) as [[req r]|]; cbn in Hv; try destruct (installs req); try done.
    injection Hv as ->. by eexists. }
  intros l Hl. split; [by apply Hok|]. intros r Hr.
  unfold get_published. rewrite Hl. destruct l as [|best l]; [by apply elem_of_nil in Hr|]. exists best. split; [done|].
  eapply ordered_head; [|exact Hr]. by apply (Hok d).
Qed.
End kernel.

(** *** Requests without effect *)

Section ignored.
Context (accepts : Output -> bool) {T : TextApi} {TL : TextLaws}.

Lemma find_pos_none route i l : next_hops route = [] -> Forall (fun r => next_hops r <> []) l ->
  position route i l = Ok None.
Proof.
  intros Hn Hl. revert i. induction Hl as [|r l Hr _ IH]; intros i; [done|]. simpl. unfold same_gateways. rewrite Hn.
  destruct (next_hops r); [done|]. simpl. apply IH.
Qed.

(** A route that the BGP speaker deletes stays. The request of its RIB
    manager for a destination is read as a route without next hops, which no
    stored route has the number of next hops of: when every stored route has a
    gateway, the table of the channel is unchanged and nothing is published. *)
Theorem bgp_delete_ignored (tk : Task) (d : IpNet) (v : IpVersion)
  (Hhops : forall l, inner (rib (ch tk)) !! d = Some l -> Forall (fun r => next_hops r <> []) l) :
  exists req route, sub_delete_route (ip_version_into v) (show_net d) = Ok (req, route) /\
    handle_request accepts req route tk = (Ok tt, tk).
Proof.
  exists Delete, (default_route d v). split.
  { unfold sub_delete_route. rewrite parse_show_net. by destruct v. }
  unfold handle_request. cbn [apply_request]. unfold remove_route, get. cbn [destination default_route].
  destruct (inner (rib (ch tk)) !! d) as [[|r l]|] eqn:Hl;
    [by cbn; rewrite app_nil_r; destruct tk| |by cbn; rewrite app_nil_r; destruct tk].
  unfold remove. cbn [version default_route destination]. case_bool_decide; [by cbn; rewrite app_nil_r; destruct tk as [[]]|].
  rewrite Hl, find_pos_none by (done || by apply Hhops). cbn. rewrite app_nil_r. by destruct tk as [[]].
Qed.

(** A route that gets worse is not published. When the only route of a
    destination is replaced by one of the same protocol with a larger distance,
    as when the best path of the BGP speaker changes from an external to an
    internal one, the table has the new route and the kernel keeps the old. *)
Theorem worse_route_not_published (tk : Task) (old route : Route) (d : IpNet)
  (Hold : inner (rib (ch tk)) !! d = Some [old]) (Hd : destination route = d)
  (Hv : version route = ip_version (rib (ch tk))) (Hp : protocol old = protocol route)
  (Hworse : ad_code (ad old) < ad_code (ad route)) :
  exists tk', handle_request accepts Add route tk = (Ok tt, tk') /\ sent tk' = sent tk /\
    get_published d (rib (ch tk')) = Some route.
Proof.
  unfold handle_request. cbn [apply_request]. unfold register_route, insert. rewrite Hd, Hold.
  rewrite bool_decide_false by (intros H; by apply H). cbn [put_route]. rewrite bool_decide_true by done.
  cbn [sort foldr insert_sorted]. unfold route_le. destruct (Z.leb_spec (ad_code (ad route)) (ad_code (ad old))); [lia|].
  eexists. split; [reflexivity|]. cbn. rewrite app_nil_r. split; [done|]. unfold get_published. cbn. by rewrite lookup_insert_eq.
Qed.

(** The table of a channel read from the configuration is one for IPv4,
    whatever [ip_version] says: no IPv6 route is ever registered. *)
Lemma ipv6_route_ignored route c : rib c = default_rib -> version route = V6 -> register_route route c = (None, c).
Proof.
  intros Hc Hv. unfold register_route, insert. rewrite Hc, bool_decide_true by (by rewrite Hv). by destruct c; cbn in *; subst.
Qed.

(** A next hop that the speaker deletes is looked up under the wrong protocol,
    so the route of the speaker is not the one that is changed. *)
Lemma bgp_delete_next_hop_protocol dest v gws req route :
  sub_delete_multi_path_route v dest gws = Ok (req, route) -> protocol route = Unspec.
Proof.
  unfold sub_delete_multi_path_route. destruct (ip_version_from v); [|done..]. destruct (parse_net dest); [|done].
  destruct (parse_gateways gws); [|done]. by intros [= <- <-].
Qed.
End ignored.
End facts.

(** ** Examples *)

Section witnesses.
#[local] Existing Instance simple_ipnet.
#[local] Existing Instance simple_iter.
#[local] Existing Instance simple_text.
#[local] Existing Instance simple_text_laws.

(** A channel from a BGP speaker to a kernel table *)
Definition chan : Channel :=
  {| name := "bgp_rib"; ch_version := "ipv4"; publishers := [PKernel [254] true]; subscribers := [PBgp "localhost:5000"];
     rib := default_rib |}.

Definition t0 : Task := {| ch := chan; sent := [] |}.
Definition t1 : Task := (handle_request (fun _ => true) Add (bgp_route EBGP 2) t0).2.

Lemma runs_ex : runs (fun _ => true) chan t1.
Proof.
  apply (runs_request _ _ Add (bgp_route EBGP 2) t0); [by apply (runs_new _ _ V4)| |reflexivity].
  intros r Hr. unfold get_route, get in Hr. cbn in Hr. by rewrite lookup_empty in Hr.
Qed.

Lemma last_request_is_best_route_witness :
  match last_request 254 Path.net24 (sent t1) with
  | Some (req, r) =>
      if installs req then exists best, get_published Path.net24 (rib (ch t1)) = Some best /\ r = set_table 254 best
      else get_published Path.net24 (rib (ch t1)) = None
  | None => get_published Path.net24 (rib (ch t1)) = None
  end.
Proof.
  apply (last_request_is_best_route (fun _ => true) (fun _ _ => eq_refl) 254 chan t1); [|exact runs_ex].
  exists [254]. split; [left|]. left.
Defined.

(** There the last request is the addition of the route. *)
Example last_request_ex : last_request 254 Path.net24 (sent t1) = Some (Add, set_table 254 (bgp_route EBGP 2)).
Proof. reflexivity. Qed.

Lemma t1_routes : inner (rib (ch t1)) !! Path.net24 = Some [bgp_route EBGP 2].
Proof. reflexivity. Qed.

Lemma bgp_delete_ignored_witness : exists req route,
  sub_delete_route 2 (show_net Path.net24) = Ok (req, route) /\ handle_request (fun _ => true) req route t1 = (Ok tt, t1).
Proof.
  apply (bgp_delete_ignored (fun _ => true) t1 Path.net24 V4). intros l. rewrite t1_routes. intros [= <-].
  repeat constructor. discriminate.
Defined.

Lemma worse_route_not_published_witness : exists tk',
  handle_request (fun _ => true) Add (bgp_route IBGP 3) t1 = (Ok tt, tk') /\ sent tk' = sent t1 /\
  get_published Path.net24 (rib (ch tk')) = Some (bgp_route IBGP 3).
Proof.
  apply (worse_route_not_published (fun _ => true) t1 (bgp_route EBGP 2)); [exact t1_routes|reflexivity..|simpl; lia].
Defined.
End witnesses.
End FibRib.
