(* ===== verification/FibWorld.v ===== *)
(** * The speaker and the FIB server

    The requests of the RIB manager of [bgp/src/rib.rs] as the interface of the
    FIB server ([fib/src/bgp.rs]) reads them and the task of a channel
    ([fib/src/server.rs]) handles them, one after the other. What the table of
    the channel then has is compared with the best paths of the speaker. *)

From S2P Require Import Prelude.
From S2P Require Import Net.
From S2P Require Import NetText.
From S2P Require Import BgpFamily.
From S2P Require Import BgpPath.
From S2P Require Import BgpRib.
From S2P Require Import BgpLocRib.
From S2P Require Import BgpRibManager.
From S2P Require Import FibRoute.
From S2P Require Import FibRib.

Module FibWorld.
Import FibRoute FibRib.

Section defs.
Context {I : IpNetApi} {NI : NetIter} {T : TextApi}.
Variable accepts : Output -> bool.

(** A message of the RIB manager at the interface of the FIB server: the request
    that is queued for the channel, or the status the speaker gets. Events and
    answers go elsewhere. *)
Definition receive (o : RibManager.Output) : option (res Status (RequestType * Route)) :=
  match o with
  | RibManager.AddRoute _ _ r _ => Some (sub_add_route (Some (rib_route r)))
  | RibManager.AddMultiPathRoute _ _ r => Some (sub_add_multi_path_route (Some (rib_route r)))
  | RibManager.DeleteRoute _ v d => Some (sub_delete_route v (show_net d))
  | RibManager.DeleteMultiPathRoute _ v d gws => Some (sub_delete_multi_path_route v (show_net d) (map show_addr gws))
  | RibManager.ToPeer _ _ | RibManager.ToApi _ => None
  end.

(** The channel serves the message; [None] when it is refused or the task fails. *)
Definition serve (tk : Task) (o : RibManager.Output) : option Task :=
  match receive o with
  | None => Some tk
  | Some (Ok (req, route)) =>
      match handle_request accepts req route tk with
      | (Ok tt, tk') => Some tk'
      | _ => None
      end
  | Some _ => None
  end.

Fixpoint serve_all (os : list RibManager.Output) (tk : Task) : option Task :=
  match os with
  | [] => Some tk
  | o :: os' => serve tk o ≫= serve_all os'
  end.
End defs.

Section facts.
Context {I : IpNetApi} {NI : NetIter} {T : TextApi} {TL : TextLaws}.
Context (accepts : Output -> bool).

(** Every destination has at most one route, the speaker's, with a gateway. *)
Definition speakers_own (r : Rib) : Prop := ip_version r = V4 /\
  forall d l, inner r !! d = Some l -> exists x, l = [x] /\ protocol x = Bgp /\ destination x = d /\ next_hops x <> [].

(** The table has the gateways the speaker asked for, IPv4 routes only. *)
Definition follows (v : gmap IpNet (Z * list IpAddr)) (r : Rib) : Prop := speakers_own r /\
  forall d gws, v !! d = Some (ip_version_into V4, gws) ->
    exists x, inner r !! d = Some [x] /\ map gateway (next_hops x) = gws.

Lemma speakers_set d x r : speakers_own r -> protocol x = Bgp -> destination x = d -> next_hops x <> [] ->
  speakers_own (set_routes d [x] r).
Proof.
  intros [Hv Hr] Hp Hd Hn. split; [done|]. intros d' l. cbn. destruct (decide (d = d')) as [<-|Hne].
  - rewrite lookup_insert_eq. intros [= <-]. by eexists.
  - rewrite lookup_insert_ne by done. apply Hr.
Qed.

(** The only writer of a table replaces its own route. *)
Lemma insert_own x r : speakers_own r -> version x = V4 -> protocol x = Bgp ->
  (insert (destination x) x r).2 = set_routes (destination x) [x] r.
Proof.
  intros [Hv Hr] Hx Hp. unfold insert. rewrite bool_decide_false by congruence.
  destruct (inner r !! destination x) as [l|] eqn:Hl; [|done].
  destruct (Hr _ _ Hl) as (y & -> & Hy & _). cbn [put_route]. by rewrite bool_decide_true by congruence.
Qed.

Lemma add_served tk v p nh tbl ver b :
  follows v (rib (ch tk)) -> exists tk', serve accepts tk (RibManager.AddRoute tbl ver (RibManager.path_route tbl p nh) b) = Some tk' /\
    follows (RibManager.ask v (RibManager.AddRoute tbl ver (RibManager.path_route tbl p nh) b)) (rib (ch tk')).
Proof.
  intros [Hown Hv]. destruct (rib_route_read tbl p nh) as (x & Hx & Hd & Hp & _ & Hver & _ & Hgw).
  unfold serve. cbn [receive sub_add_route]. rewrite Hx. unfold handle_request. cbn [apply_request]. unfold register_route.
  assert (Hhops : next_hops x <> []) by (intros Hn; by rewrite Hn in Hgw).
  destruct (insert (destination x) x (rib (ch tk))) as [y r'] eqn:Hi. eexists. split; [reflexivity|]. cbn [ch rib set_rib].
  destruct (decide (Family.afi (Path.family p) = Family.IPv4)) as [H4|H6].
  - rewrite H4 in Hver. pose proof (insert_own x _ Hown Hver Hp) as Hins. rewrite Hi in Hins. cbn [snd] in Hins. subst r'.
    split; [by apply speakers_set|]. cbn. intros d gws. rewrite <-Hd. destruct (decide (destination x = d)) as [<-|Hne].
    + rewrite !lookup_insert_eq. intros [= _ <-]. by exists x.
    + rewrite !lookup_insert_ne by done. apply Hv.
  - destruct (Family.afi (Path.family p)) eqn:Hf; [done|]. rewrite insert_version in Hi by (rewrite Hver; by destruct Hown as [-> _]).
    injection Hi as <- <-. split; [done|]. cbn. rewrite Hf. intros d gws [[_ [=]]|[_ Hd']]%lookup_insert_Some. by apply Hv.
Qed.

Lemma delete_served tk v d a tbl : follows v (rib (ch tk)) ->
  serve accepts tk (RibManager.DeleteRoute tbl (Family.afi_inet a) d) = Some tk.
Proof.
  intros [[_ Hown] _]. destruct (bgp_delete_ignored accepts tk d (match a with Family.IPv4 => V4 | Family.IPv6 => V6 end))
    as (req & route & Hs & Hh).
  { intros l Hl. destruct (Hown _ _ Hl) as (x & -> & _ & _ & Hn). by repeat constructor. }
  unfold serve. cbn [receive].
  replace (Family.afi_inet a) with (ip_version_into (match a with Family.IPv4 => V4 | Family.IPv6 => V6 end)) by (by destruct a).
  by rewrite Hs, Hh.
Qed.

Lemma serve_all_snoc os o tk : serve_all accepts (os ++ [o]) tk = serve_all accepts os tk ≫= (fun tk' => serve accepts tk' o).
Proof.
  revert tk. induction os as [|o' os IH]; intros tk; cbn.
  - by destruct (serve accepts tk o).
  - destruct (serve accepts tk o'); [apply IH|done].
Qed.

(** All requests of a manager without multipath are taken, and the table
    follows them. *)
Lemma all_served os tk : rib (ch tk) = default_rib -> Forall RibManager.single_path os ->
  exists tk', serve_all accepts os tk = Some tk' /\ follows (RibManager.asked os) (rib (ch tk')).
Proof.
  intros Hnew. induction os as [|o os IH] using rev_ind; intros Hos.
  { exists tk. split; [done|]. rewrite Hnew. split; [split; [done|]|]; intros d l; cbn; by rewrite lookup_empty. }
  apply Forall_app in Hos as [Hos Ho]. destruct (IH Hos) as (tk1 & Hs & Hf). apply Forall_cons in Ho as [Ho _].
  rewrite serve_all_snoc, Hs, RibManager.asked_snoc. cbn [mbind option_bind].
  destruct o as [tx e|tbl ver r b|tbl ver r|tbl ver d|tbl ver d gws|ps]; cbn [RibManager.single_path] in Ho; [by exists tk1| |done| |done|by exists tk1].
  - destruct Ho as (p & nh & ->). by apply add_served.
  - destruct Ho as (a & ->). exists tk1. split; [by eapply delete_served|]. destruct Hf as [Hown Hv]. split; [done|].
    cbn. intros d' gws [_ Hd]%lookup_delete_Some. by apply Hv.
Qed.

Context {P : Profile} {NL : NetIterLaws}.
Context (rib_accepts : list RibManager.Output -> RibManager.Output -> bool).
Context (peer_iter : gmap Neighbor.NeighborPair Z -> list (Neighbor.NeighborPair * Z)).
Context (peer_iter_perm : forall m, peer_iter m ≡ₚ map_to_list m).
Context (connect : string -> bool) (hash_builder : Path.PathBuilder -> Z).

(** C3: the table of the FIB server has the route of every IPv4 best path. In
    every run of the RIB manager without multipath in which all paths come from
    peers, in batches of unmarked paths of one family, and every event is
    handled without an error: a channel that starts with the empty table of a
    configuration and is written by this speaker alone takes all the requests
    sent so far, and then has for each network with an IPv4 best path exactly
    one route, a BGP route through the first next hop of that path. Networks
    without a path may be left in the table, with one BGP route each: deletions
    are ignored ([bgp_delete_ignored]). *)
Theorem fib_has_best_paths (m : RibManager.RibManager) (tk : Task)
  (Hrun : RibManager.fib_run rib_accepts peer_iter connect hash_builder m) (Hnew : rib (ch tk) = default_rib) :
  exists tk', serve_all accepts (RibManager.trace m) tk = Some tk' /\
    (forall n p, RibManager.best_path n (RibManager.loc_rib m) = Some p -> Family.afi (Path.family p) = Family.IPv4 ->
       exists r nh, get n (rib (ch tk')) = Some [r] /\ protocol r = Bgp /\ destination r = n /\
         map gateway (next_hops r) = [nh] /\ head (Path.next_hops p) = Some nh) /\
    (forall n l, get n (rib (ch tk')) = Some l -> exists r, l = [r] /\ protocol r = Bgp /\ destination r = n).
Proof.
  destruct (RibManager.fi_fib _ (RibManager.fib_run_inv _ _ peer_iter_perm _ _ _ Hrun)) as [Hask Hone].
  destruct (all_served _ tk Hnew Hone) as (tk' & Hs & [Hv Hown] & Hf). exists tk'. split; [done|]. unfold get. split.
  - intros n p Hp H4. destruct (Hf n (take 1 (Path.next_hops p))) as (r & Hr & Hgw).
    { rewrite Hask, Hp. cbn. unfold RibManager.path_request. by rewrite H4. }
    destruct (Hown _ _ Hr) as (x & [= <-] & Hpr & Hd & Hn). destruct (Path.next_hops p) as [|nh nhs].
    + by destruct (next_hops r).
    + by exists r, nh.
  - intros n l Hl. destruct (Hown _ _ Hl) as (x & -> & Hp & Hd & _). by exists x.
Qed.
End facts.

(** ** Examples *)

Section witnesses.
#[local] Existing Instance simple_ipnet.
#[local] Existing Instance simple_iter.
#[local] Existing Instance simple_iter_laws.
#[local] Existing Instance simple_text.
#[local] Existing Instance simple_text_laws.
#[local] Existing Instance debug_profile.

Definition m_one : RibManager.RibManager :=
  RibManager.after [RibManager.InstallPaths RibManager.ext_peer [RibManager.ext_path]] (RibManager.speaker true).

Lemma m_one_best : exists p, RibManager.best_path Path.net24 (RibManager.loc_rib m_one) = Some p /\
  Family.afi (Path.family p) = Family.IPv4 /\ Path.next_hops p = [AV4 2].
Proof. eexists. split_and!; reflexivity. Qed.

Lemma fib_has_best_paths_witness : exists tk' r,
  serve_all (fun _ => true) (RibManager.trace m_one) t0 = Some tk' /\
  get Path.net24 (rib (ch tk')) = Some [r] /\ map gateway (next_hops r) = [AV4 2].
Proof.
  destruct (fib_has_best_paths (fun _ => true) (fun _ _ => true) map_to_list (fun _ => ltac:(reflexivity))
    (fun _ => true) (fun _ => 77) m_one t0 RibManager.fib_run_ex eq_refl) as (tk' & Hs & Hbest & _).
  destruct m_one_best as (p & Hp & Hf & Hn). destruct (Hbest _ _ Hp Hf) as (r & nh & Hr & _ & _ & Hg & Hh).
  exists tk', r. split_and!; [exact Hs|exact Hr|]. rewrite Hn in Hh. injection Hh as <-. exact Hg.
Defined.
End witnesses.
End FibWorld.
