(* ===== verification/FibKernel.v ===== *)
(** * The kernel side of the FIB server

    The conversion of netlink messages in [fib/src/route.rs] and the poller of
    [fib/src/kernel.rs]: which messages of the kernel become requests of a
    channel, and which netlink requests a published route becomes. Netlink
    itself is a parameter: what a dump of the routes returns and which requests
    are carried out. *)

From S2P Require Import Prelude.
From S2P Require Import Net.
From S2P Require Import NetText.
From S2P Require Import BgpFamily.
From S2P Require Import BgpPath.
From S2P Require Import BgpRib.
From S2P Require Import FibRoute.
From S2P Require Import FibRib.

Module FibKernel.
Import FibRoute FibRib.

Section defs.
Context {I : IpNetApi} {NI : NetIter} {P : Profile}.

(** The attributes of a route message the code looks at; a next hop of a
    multipath attribute has attributes of its own. *)
Inductive Nla : Type :=
| NPriority (p : Z)
| NMultiPath (hops : list KHop)
| NGateway (g : list Z)
| NPrefSource (g : list Z)
| NOif (i : Z)
| NDestination (a : list Z)
| NSource (a : list Z)
| NOther
with KHop : Type := mkHop (hops : Z) (hflags : Z) (interface_id : Z) (nlas : list Nla).

Definition h_hops (h : KHop) : Z := let 'mkHop x _ _ _ := h in x.
Definition h_flags (h : KHop) : Z := let 'mkHop _ x _ _ := h in x.
Definition h_interface (h : KHop) : Z := let 'mkHop _ _ x _ := h in x.
Definition h_nlas (h : KHop) : list Nla := let 'mkHop _ _ _ x := h in x.

(** [RouteMessage]: the header, the attributes, and what the crate's
    [destination_prefix], [source_prefix], [gateway] and [output_interface]
    return *)
Record RouteMessage : Type := {
  m_family : Z; m_table : Z; m_protocol : Z; m_scope : Z; m_kind : Z;
  m_destination : option (IpAddr * Z); m_source : option IpAddr;
  m_gateway : option IpAddr; m_oif : option Z;
  m_nlas : list Nla;
}.

(** [IpNet::new(addr, prefix_len)] *)
Definition ipnet_new (a : IpAddr) (len : Z) : option IpNet :=
  match a with
  | AV4 x => NV4 <$> net_new x len
  | AV6 x => NV6 <$> net_new x len
  end.

Definition no_gateway : IpAddr := AV4 0.

(** The attributes of one next hop *)
Fixpoint hop_nlas (l : list Nla) (nh : NextHop) : res Error NextHop :=
  match l with
  | [] => Ok nh
  | NGateway g :: l' =>
      a ← parse_ipaddr g;
      hop_nlas l' {| gateway := a; weight := weight nh; flags := flags nh; interface := interface nh |}
  | NOif i :: l' => hop_nlas l' {| gateway := gateway nh; weight := weight nh; flags := flags nh; interface := i |}
  | _ :: l' => hop_nlas l' nh
  end.

Fixpoint read_hops (l : list KHop) : res Error (list NextHop) :=
  match l with
  | [] => Ok []
  | h :: l' =>
      f ← flags_try_from (h_flags h);
      nh ← hop_nlas (h_nlas h)
        {| gateway := no_gateway; weight := h_hops h; flags := f; interface := h_interface h |};
      nhs ← read_hops l';
      Ok (nh :: nhs)
  end.

Definition set_priority (p : Z) (r : Route) : Route :=
  {| destination := destination r; version := version r; protocol := protocol r; scope := scope r; kind := kind r;
     next_hops := next_hops r; source := source r; priority := p; ad := ad r; table := table r |}.

(** The attributes of a multipath route *)
Fixpoint multipath_nlas (l : list Nla) (r : Route) : res Error Route :=
  match l with
  | [] => Ok r
  | NPriority p :: l' => multipath_nlas l' (set_priority p r)
  | NMultiPath hops :: l' =>
      nhs ← read_hops hops;
      multipath_nlas l' (set_next_hops (next_hops r ++ nhs) r)
  | _ :: l' => multipath_nlas l' r
  end.

(** The attributes of a route with one next hop *)
Fixpoint single_nlas (l : list Nla) (r : Route) (nh : NextHop) : res Error (Route * NextHop) :=
  match l with
  | [] => Ok (r, nh)
  | NPriority p :: l' => single_nlas l' (set_priority p r) nh
  | NGateway g :: l' | NPrefSource g :: l' =>
      a ← parse_ipaddr g;
      single_nlas l' r {| gateway := a; weight := weight nh; flags := flags nh; interface := interface nh |}
  | NOif i :: l' =>
      single_nlas l' r {| gateway := gateway nh; weight := weight nh; flags := flags nh; interface := i |}
  | _ :: l' => single_nlas l' r nh
  end.

Definition is_multipath (n : Nla) : bool := match n with NMultiPath _ => true | _ => false end.

Definition message_try_from (msg : RouteMessage) : res Error Route :=
  match m_destination msg with
  | None => Err FailedToGetPrefix
  | Some (a, len) =>
      match ipnet_new a len with
      | None => Err FailedToGetPrefix
      | Some dst =>
          ver ← match m_family msg with 2 => Ok V4 | 10 => Ok V6 | _ => Err InvalidIpVersion end;
          let p := protocol_from (m_protocol msg) in
          s ← scope_try_from (m_scope msg);
          k ← kind_try_from (m_kind msg);
          let r := {| destination := dst; version := ver; protocol := p; scope := s; kind := k; next_hops := [];
                      source := m_source msg; priority := 0; ad := from_protocol p false; table := m_table msg |} in
          if existsb is_multipath (m_nlas msg) then multipath_nlas (m_nlas msg) r
          else
            '(r, nh) ← single_nlas (m_nlas msg) r
              {| gateway := no_gateway; weight := 0; flags := Empty; interface := 0 |};
            Ok (set_next_hops (next_hops r ++ [nh]) r)
      end
  end.

(** ** The poller *)

(** A message that adds a route *)
Record AddMessage : Type := {
  a_table : Z; a_kind : Z; a_protocol : Z; a_scope : Z; a_family : Z; a_prefix_len : Z; a_nlas : list Nla;
}.

(** What the poller does: netlink requests, and requests for a channel *)
Inductive KOutput : Type :=
| NlDel (m : RouteMessage)
| NlAdd (v : IpVersion) (m : AddMessage)
| ToChannel (tx : Z) (req : RequestType) (route : Route).

(** The environment: a dump of the routes after what was done, which netlink
    requests succeed, and which channels take a request. *)
Variable dump : list KOutput -> IpVersion -> res Error (list RouteMessage).
Variable does : list KOutput -> KOutput -> bool.

Record Poller : Type := { tx_map : gmap Z Z; done_ : list KOutput }.

#[local] Abbreviation KM := (M Poller Error).

Definition emit (e : Error) (o : KOutput) : KM unit :=
  p ← get_st;
  if does (done_ p) o then modify (fun p => {| tx_map := tx_map p; done_ := done_ p ++ [o] |}) else throw e.

Definition get_routes (v : IpVersion) : KM (list RouteMessage) :=
  p ← get_st;
  lift (dump (done_ p) v).

Definition register_subscriber (tables : list Z) (tx : Z) : KM unit :=
  for_each (fun id => modify (fun p => {| tx_map := <[id := tx]> (tx_map p); done_ := done_ p |})) tables.

Definition addr_octets (a : IpAddr) : list Z :=
  match a with AV4 x => be_bytes 4 x | AV6 x => be_bytes 16 x end.

Definition net_addr_of (n : IpNet) : IpAddr :=
  match n with NV4 c => AV4 (net_addr c) | NV6 c => AV6 (net_addr c) end.

(** A route of the kernel for the destination, in the table *)
Definition matches (r : Route) (m : RouteMessage) : bool :=
  match m_destination m with
  | Some (dst, len) =>
      (ipnet_prefix_len (destination r) =? len) && bool_decide (net_addr_of (destination r) = dst)
      && (m_table m =? table r)
  | None => false
  end.

(** The gateways of routes that contain a target; a later route overwrites. *)
Definition resolve (targets : list IpAddr) (m : RouteMessage) (new_targets : gmap IpAddr (IpAddr * Z)) :
    res Error (gmap IpAddr (IpAddr * Z)) :=
  match m_destination m with
  | Some (a, len) =>
      match ipnet_new a len with
      | None => Panic
      | Some dst_net =>
          Ok (foldl (fun acc target =>
                if ipnet_contains dst_net target then
                  match m_gateway m with
                  | Some g => <[target := (g, default 0 (m_oif m))]> acc
                  | None => acc
                  end
                else acc) new_targets targets)
      end
  | None => Ok new_targets
  end.

Fixpoint resolve_all (targets : list IpAddr) (ms : list RouteMessage) (acc : gmap IpAddr (IpAddr * Z)) :
    res Error (gmap IpAddr (IpAddr * Z)) :=
  match ms with
  | [] => Ok acc
  | m :: ms' => acc' ← resolve targets m acc; resolve_all targets ms' acc'
  end.

Definition extract_nexthop (route : Route) : KM Route :=
  ms ← get_routes (version route);
  new_targets ← lift (resolve_all (map gateway (next_hops route)) ms ∅);
  mret (set_next_hops (map (fun nxt =>
      match new_targets !! gateway nxt with
      | Some (g, i) => {| gateway := g; weight := weight nxt; flags := flags nxt; interface := i |}
      | None => nxt
      end) (next_hops route)) route).

(** A next hop of a multipath attribute *)
Definition write_hop (h : NextHop) : KHop :=
  mkHop (if 0 <? weight h then wrap 8 (weight h - 1) else 0) (flags_code (flags h)) (interface h)
    [NGateway (addr_octets (gateway h))].

Definition add_message (route : Route) : res Error AddMessage :=
  let nlas :=
    [NDestination (addr_octets (net_addr_of (destination route)))]
    ++ (match source route with Some s => [NSource (addr_octets s)] | None => [] end)
    ++ (if negb (priority route =? 0) then [NPriority (priority route)] else []) in
  let msg := fun n =>
    {| a_table := table route; a_kind := kind_code (kind route); a_protocol := protocol_code (protocol route);
       a_scope := scope_code (scope route); a_family := ip_version_into (version route);
       a_prefix_len := ipnet_prefix_len (destination route); a_nlas := nlas ++ [n] |} in
  match next_hops route with
  | [] => Err GatewayNotFound
  | [h] => Ok (msg (NGateway (addr_octets (gateway h))))
  | hs => Ok (msg (NMultiPath (map write_hop hs)))
  end.

(** [existing] is set only where a route is replaced. *)
Definition replace_existing (req : RequestType) (route : Route) (existing : bool) (m : RouteMessage) : KM bool :=
  if matches route m then
    if bool_decide (req = Replace) then emit FailedToCommunicateWithNetlink (NlDel m) ;; mret true
    else mret existing
  else mret existing.

Definition add_route (req : RequestType) (route : Route) : KM unit :=
  ms ← get_routes (version route);
  existing ← for_fold (replace_existing req route) ms false;
  if negb (bool_decide (req = Replace)) && existing then throw AlreadyExists
  else
    msg ← lift (add_message route);
    emit FailedToCommunicateWithNetlink (NlAdd (version route) msg).

Definition delete_route (route : Route) : KM unit :=
  ms ← get_routes (version route);
  for_each (fun m => if matches route m then emit FailedToCommunicateWithNetlink (NlDel m) else mret tt) ms ;;
  throw DestinationNotFound.

Fixpoint read_routes (tbl : Z) (v : IpVersion) (ms : list RouteMessage) : res Error (list Route) :=
  match ms with
  | [] => Ok []
  | m :: ms' =>
      if negb (m_table m =? tbl) || negb (m_family m =? ip_version_into v) then read_routes tbl v ms'
      else r ← message_try_from m; rs ← read_routes tbl v ms'; Ok (r :: rs)
  end.

Definition list_routes (tbl : Z) (v : IpVersion) : KM (list Route) :=
  ms ← get_routes v;
  lift (read_routes tbl v ms).

Definition get_route (tbl : Z) (v : IpVersion) (d : IpNet) : KM Route :=
  routes ← list_routes tbl v;
  match List.find (fun r => bool_decide (destination r = d)) routes with
  | Some r => mret r
  | None => throw DestinationNotFound
  end.

Definition set_weight (w : Z) (n : NextHop) : NextHop :=
  {| gateway := gateway n; weight := w; flags := flags n; interface := interface n |}.

Definition add_multi_path_route (route : Route) : KM unit :=
  r ← get_route (table route) (version route) (destination route);
  add_route Replace (set_next_hops (next_hops r ++ map (set_weight 1) (next_hops route)) r).

(** [retain(|n| route.next_hops.iter().any(|nn| nn.gateway.ne(&n.gateway)))] *)
Definition retained (route : Route) (n : NextHop) : bool :=
  existsb (fun nn => negb (bool_decide (gateway nn = gateway n))) (next_hops route).

Definition delete_multi_path_route (route : Route) : KM unit :=
  r ← get_route (table route) (version route) (destination route);
  add_route Replace (set_next_hops (List.filter (retained route) (next_hops r)) r).

(** An error is logged. *)
Definition logged (m : KM unit) : KM unit := fun p => match m p with (Err _, p') => (Ok tt, p') | x => x end.

(** A netlink message about a route of a subscribed table becomes a request. *)
Definition kernel_event (req : RequestType) (m : RouteMessage) : KM unit :=
  p ← get_st;
  match tx_map p !! m_table m with
  | Some tx =>
      match message_try_from m with
      | Ok route => logged (emit FailedToRecvSendViaChannel (ToChannel tx req route))
      | Err _ => mret tt
      | Panic => panic
      end
  | None => mret tt
  end.

(** A request of a publisher: a failure to resolve the next hops ends the
    poller, the others are logged. *)
Definition kernel_request (req : RequestType) (route : Route) : KM unit :=
  match req with
  | Add | Replace => new_route ← extract_nexthop route; logged (add_route req new_route)
  | Delete => logged (delete_route route)
  | AddMultiPath => new_route ← extract_nexthop route; logged (add_multi_path_route new_route)
  | DeleteMultiPath => logged (delete_multi_path_route route)
  end.
End defs.

Section facts.
Context {I : IpNetApi} {L : IpNetLaws} {NI : NetIter} {P : Profile}.

(** *** Routes the kernel reports *)

Lemma parse_octets a : addr_ok a -> parse_ipaddr (addr_octets a) = Ok a.
Proof.
  unfold parse_ipaddr, addr_ok. destruct a as [x|x]; intros Ha; cbn [addr_octets]; rewrite length_be_bytes; cbn [Nat.eqb];
    by rewrite be_val_bytes_small.
Qed.

(** The message for a route as a dump returns it *)
Record reports (route : Route) (a : AddMessage) (m : RouteMessage) : Prop := {
  rep_family : m_family m = a_family a;
  rep_table : m_table m = a_table a;
  rep_protocol : m_protocol m = a_protocol a;
  rep_scope : m_scope m = a_scope a;
  rep_kind : m_kind m = a_kind a;
  rep_nlas : m_nlas m = a_nlas a;
  rep_destination : m_destination m = Some (net_addr_of (destination route), a_prefix_len a);
  rep_source : m_source m = source route;
}.

Definition kernel_ok (route : Route) : Prop :=
  protocol_from (protocol_code (protocol route)) = protocol route /\
  Forall (fun h => addr_ok (gateway h)) (next_hops route).

Lemma ipnet_eta n : ipnet_new (net_addr_of n) (ipnet_prefix_len n) = Some n.
Proof. destruct n as [c|c]; simpl; by rewrite net_eta. Qed.

Lemma read_written l : Forall (fun h => addr_ok (gateway h)) l ->
  exists hs, read_hops (map write_hop l) = Ok hs /\ map gateway hs = map gateway l.
Proof.
  induction 1 as [|h l Hh _ (hs & IH & Hg)]; [by exists []|]. cbn [map read_hops write_hop h_flags h_nlas h_hops h_interface].
  rewrite flags_roundtrip. cbv [mbind res_bind]. cbn [hop_nlas]. rewrite parse_octets by done. cbv [mbind res_bind].
  cbn [hop_nlas]. rewrite IH. eexists. split; [reflexivity|]. cbn. by rewrite Hg.
Qed.

(** The attributes before the next hops *)
Definition head_nlas (route : Route) : list Nla :=
  [NDestination (addr_octets (net_addr_of (destination route)))]
  ++ (match source route with Some s => [NSource (addr_octets s)] | None => [] end)
  ++ (if negb (priority route =? 0) then [NPriority (priority route)] else []).

Lemma head_multi route n r : priority r = 0 ->
  multipath_nlas (head_nlas route ++ n) r = multipath_nlas n (set_priority (priority route) r).
Proof.
  intros Hr. unfold head_nlas. destruct (source route), (Z.eqb_spec (priority route) 0) as [Hp|Hp]; cbn; try done;
    rewrite Hp, <-Hr; by destruct r.
Qed.

Lemma head_single route n r nh : priority r = 0 ->
  single_nlas (head_nlas route ++ n) r nh = single_nlas n (set_priority (priority route) r) nh.
Proof.
  intros Hr. unfold head_nlas. destruct (source route), (Z.eqb_spec (priority route) 0) as [Hp|Hp]; cbn; try done;
    rewrite Hp, <-Hr; by destruct r.
Qed.

Lemma head_not_multi route n : existsb is_multipath (head_nlas route ++ [n]) = is_multipath n.
Proof. unfold head_nlas. destruct (source route), (priority route =? 0); cbn; by rewrite orb_false_r. Qed.

(** The kernel's report of a route that was added is read as that route:
    the destination, the gateways in order, and all attributes are the same,
    whether it has one next hop or several. *)
Theorem kernel_report_roundtrip (route : Route) (a : AddMessage) (m : RouteMessage)
  (Ha : add_message route = Ok a) (Hm : reports route a m) (Hok : kernel_ok route) :
  exists r, message_try_from m = Ok r /\ destination r = destination route /\ version r = version route /\
    protocol r = protocol route /\ scope r = scope route /\ kind r = kind route /\ source r = source route /\
    priority r = priority route /\ table r = table route /\
    map gateway (next_hops r) = map gateway (next_hops route).
Proof.
  destruct Hm as [Hf Ht Hp Hs Hk Hn Hd Hsrc], Hok as [Hproto Hgw]. unfold add_message in Ha. fold (head_nlas route) in Ha.
  cbv zeta in Ha. unfold message_try_from. rewrite Hd.
  destruct (next_hops route) as [|h hs] eqn:Hhops; [done|].
  assert (Hfields : a_family a = ip_version_into (version route) /\ a_table a = table route /\
    a_protocol a = protocol_code (protocol route) /\ a_scope a = scope_code (scope route) /\
    a_kind a = kind_code (kind route) /\ a_prefix_len a = ipnet_prefix_len (destination route) /\
    a_nlas a = head_nlas route ++ [match hs with [] => NGateway (addr_octets (gateway h)) | _ => NMultiPath (map write_hop (h :: hs)) end])
    by (destruct hs; injection Ha as <-; done).
  destruct Hfields as (Ef & Et & Ep & Es & Ek & El & En).
  rewrite El, ipnet_eta, Hf, Ef, Hp, Ep, Hs, Es, Hk, Ek, Hn, En, Ht, Et, Hsrc, Hproto.
  replace (match ip_version_into (version route) with 2 => Ok V4 | 10 => Ok V6 | _ => Err InvalidIpVersion end)
    with (Ok (version route) : res Error _) by (by destruct (version route)).
  cbv [mbind res_bind]. rewrite scope_roundtrip, kind_roundtrip, head_not_multi. destruct hs as [|h' hs].
  - cbn [is_multipath]. rewrite head_single by done. cbn [single_nlas]. rewrite parse_octets by (by inversion Hgw).
    eexists. split; [reflexivity|]. done.
  - cbn [is_multipath]. rewrite head_multi by done. cbn [multipath_nlas].
    destruct (read_written _ Hgw) as (rs & Hrs & Hg). cbv [mbind res_bind]. rewrite Hrs.
    eexists. split; [reflexivity|]. cbn [multipath_nlas]. cbn. by rewrite Hg.
Qed.

(** *** Requests *)

Section requests.
Context (dump : list KOutput -> IpVersion -> res Error (list RouteMessage)).
Context (does : list KOutput -> KOutput -> bool) (does_all : forall t o, does t o = true).

Definition extend (os : list KOutput) (p : Poller) : Poller := {| tx_map := tx_map p; done_ := done_ p ++ os |}.

Lemma kemit_ok e o p : emit does e o p = (Ok tt, extend [o] p).
Proof. unfold emit. by rewrite bind_get, does_all. Qed.

Lemma extend_app os1 os2 p : extend os2 (extend os1 p) = extend (os1 ++ os2) p.
Proof. unfold extend. simpl. by rewrite app_assoc. Qed.

Lemma extend_nil p : extend [] p = p.
Proof. unfold extend. rewrite app_nil_r. by destruct p. Qed.

Lemma replace_loop req route ms b p : exists b',
  for_fold (replace_existing does req route) ms b p =
    (Ok b', extend (if bool_decide (req = Replace) then map NlDel (List.filter (matches route) ms) else []) p) /\
  (req <> Replace -> b' = b).
Proof.
  revert b p. induction ms as [|m ms IH]; intros b p.
  { exists b. split; [|done]. cbn. by destruct (bool_decide _); cbn; rewrite extend_nil. }
  cbn [for_fold List.filter].
  assert (Hstep : replace_existing does req route b m p =
    if matches route m && bool_decide (req = Replace) then (Ok true, extend [NlDel m] p) else (Ok b, p)).
  { unfold replace_existing. destruct (matches route m), (bool_decide (req = Replace)); try done. cbn [andb].
    by rewrite (bind_ok _ _ _ _ _ (kemit_ok _ _ _)). }
  destruct (matches route m); cbn [andb] in Hstep; [|rewrite (bind_ok _ _ _ _ _ Hstep); by apply IH].
  destruct (bool_decide_reflect (req = Replace)) as [Hr|Hr]; rewrite (bind_ok _ _ _ _ _ Hstep).
  - destruct (IH true (extend [NlDel m] p)) as (b' & H & _). exists b'. split; [|done].
    by rewrite H, extend_app.
  - destruct (IH b p) as (b' & H & Hb). exists b'. by split.
Qed.

(** Adding a route to the kernel. A replacement first deletes exactly the
    routes to the same destination in the same table; an addition deletes none
    and is not refused when there are some. Then the route is added, unless it
    has no next hop: then the routes it replaces are gone and none is added. *)
Theorem add_route_spec (req : RequestType) (route : Route) (ms : list RouteMessage) (p : Poller)
  (Hd : dump (done_ p) (version route) = Ok ms) :
  let deleted := if bool_decide (req = Replace) then map NlDel (List.filter (matches route) ms) else [] in
  add_route dump does req route p =
    match add_message route with
    | Ok msg => (Ok tt, extend (deleted ++ [NlAdd (version route) msg]) p)
    | Err e => (Err e, extend deleted p)
    | Panic => (Panic, extend deleted p)
    end /\
  (add_message route = Err GatewayNotFound <-> next_hops route = []).
Proof.
  intros deleted. split.
  - unfold add_route. rewrite (bind_ok _ _ p ms p) by (unfold get_routes; by rewrite bind_get, Hd).
    destruct (replace_loop req route ms false p) as (b & Hloop & Hb). rewrite (bind_ok _ _ _ _ _ Hloop). fold deleted.
    replace (negb (bool_decide (req = Replace)) && b) with false.
    + unfold lift. mred. destruct (add_message route); [|done|done].
      by rewrite kemit_ok, extend_app.
    + destruct (bool_decide_reflect (req = Replace)); [done|]. by rewrite Hb.
  - unfold add_message. destruct (next_hops route) as [|h [|h' hs]]; done.
Qed.

(** A deletion never succeeds: after the routes of the destination are deleted
    it reports that there was none. *)
Lemma delete_route_fails route p : (delete_route dump does route p).1 <> Ok tt.
Proof.
  intros H. destruct (delete_route dump does route p) as [r q] eqn:E. cbn in H. subst r. unfold delete_route in E.
  apply bind_inv_ok in E as (ms & p1 & _ & E). by apply bind_inv_ok in E as (? & p2 & _ & E).
Qed.

(** Two gateways to be deleted keep every next hop. *)
Lemma delete_two_gateways_keeps_all route n g h : next_hops route = [g; h] -> gateway g <> gateway h -> retained route n = true.
Proof.
  intros Hr Hgh. unfold retained. rewrite Hr. cbn. destruct (decide (gateway g = gateway n)) as [Hg|Hg].
  - rewrite (bool_decide_false (gateway h = gateway n)) by congruence. by rewrite orb_true_r.
  - by rewrite bool_decide_false.
Qed.
End requests.
End facts.

(** ** Examples *)

Section witnesses.
#[local] Existing Instance simple_ipnet.
#[local] Existing Instance simple_ipnet_laws.
#[local] Existing Instance simple_iter.
#[local] Existing Instance debug_profile.

Definition message_ex : RouteMessage :=
  {| m_family := 2; m_table := 254; m_protocol := 186; m_scope := 0; m_kind := 1;
     m_destination := Some (net_addr_of Path.net24, 24); m_source := None; m_gateway := None; m_oif := None;
     m_nlas := head_nlas (bgp_route EBGP 2) ++ [NGateway (addr_octets (AV4 2))] |}.

Lemma kernel_report_roundtrip_witness : exists r, message_try_from message_ex = Ok r /\
  destination r = Path.net24 /\ map gateway (next_hops r) = [AV4 2].
Proof.
  destruct (kernel_report_roundtrip (bgp_route EBGP 2) {| a_table := 254; a_kind := 1; a_protocol := 186; a_scope := 0;
    a_family := 2; a_prefix_len := 24; a_nlas := head_nlas (bgp_route EBGP 2) ++ [NGateway (addr_octets (AV4 2))] |}
    message_ex) as (r & H & Hd & _ & _ & _ & _ & _ & _ & _ & Hg).
  - reflexivity.
  - split; reflexivity.
  - split; [reflexivity|]. constructor; [|constructor]. unfold addr_ok, uint. simpl. lia.
  - exists r. split; [exact H|]. split; [exact Hd|exact Hg].
Defined.

Lemma add_route_spec_witness : exists msg,
  add_route (fun _ _ => Ok [message_ex]) (fun _ _ => true) Replace (bgp_route EBGP 3) {| tx_map := ∅; done_ := [] |} =
    (Ok tt, {| tx_map := ∅; done_ := [NlDel message_ex; NlAdd V4 msg] |}).
Proof.
  eexists. rewrite (proj1 (add_route_spec (fun _ _ => Ok [message_ex]) (fun _ _ => true) (fun _ _ => eq_refl)
    Replace (bgp_route EBGP 3) [message_ex] {| tx_map := ∅; done_ := [] |} eq_refl)). reflexivity.
Defined.
End witnesses.
End FibKernel.
