(* ===== verification/KubeApi.v ===== *)
(** * Kubernetes objects and the controllers' environment

    The objects the controllers of [kubernetes/src] read and write (the fields
    they look at), the errors of [controller/error.rs], the helpers of
    [util.rs], the custom resources of the address pools ([crd/address_pool.rs],
    [crd/address_block.rs], [crd/block_request.rs]), and the state of a
    controller process: its in-memory component and what it has sent to the
    API server. The API server is not part of the repository: which writes it
    accepts and what it returns for a read are parameters of the reconcilers. *)

From Stdlib Require Import Ascii.
From S2P Require Import Prelude.
From S2P Require Import Net.
From S2P Require Import NetText.
From S2P Require Import IpamAllocator.

Module Kube.

(** ** Objects *)

Record OwnerReference : Type := {
  o_name : string; o_api_version : string; o_kind : string; o_uid : string;
  o_block_owner_deletion : option bool; o_controller : option bool;
}.

(** Metadata: [m_name] is what [name_any()] returns; labels and annotations that
    are not set are empty. *)
Record ObjectMeta : Type := {
  m_name : string;
  m_namespace : option string;
  m_uid : option string;
  m_labels : gmap string string;
  m_annotations : gmap string string;
  m_owner_references : list OwnerReference;
}.

Definition default_meta : ObjectMeta :=
  {| m_name := ""; m_namespace := None; m_uid := None; m_labels := ∅; m_annotations := ∅;
     m_owner_references := [] |}.

Definition set_annotations (a : gmap string string) (m : ObjectMeta) : ObjectMeta :=
  {| m_name := m_name m; m_namespace := m_namespace m; m_uid := m_uid m; m_labels := m_labels m;
     m_annotations := a; m_owner_references := m_owner_references m |}.

(** [core/v1.Service]; the conditions and ports are only copied. *)
Record LoadBalancerIngress : Type := {
  hostname : option string; ip : option string; ports : option (list string);
}.
Record LoadBalancerStatus : Type := { ingress : option (list LoadBalancerIngress) }.
Record ServiceStatus : Type := {
  conditions : option (list string); load_balancer : option LoadBalancerStatus;
}.
Record ServiceSpec : Type := {
  type_ : option string; external_traffic_policy : option string;
}.
Record Service : Type := {
  svc_meta : ObjectMeta; svc_spec : option ServiceSpec; svc_status : option ServiceStatus;
}.

(** [discovery/v1.EndpointSlice] *)
Record EndpointConditions : Type := { serving : option bool }.
Record Endpoint : Type := {
  addresses : list string; ep_conditions : option EndpointConditions; node_name : option string;
}.
Record EndpointSlice : Type := { eps_meta : ObjectMeta; endpoints : list Endpoint }.

Definition eps_annotate (f : gmap string string -> gmap string string) (e : EndpointSlice) : EndpointSlice :=
  {| eps_meta := set_annotations (f (m_annotations (eps_meta e))) (eps_meta e); endpoints := endpoints e |}.

(** ** Address pools, blocks and block requests *)

Definition ADDRESS_POOL_FINALIZER : string := "addresspool.sart.terassyi.net/finalizer".
Definition ADDRESS_POOL_ANNOTATION : string := "sart.terassyi.net/addresspool".
Definition LOADBALANCER_ADDRESS_ANNOTATION : string := "sart.terassyi.net/loadBalancerIPs".
Definition MAX_BLOCK_SIZE : Z := 32.
Definition ADDRESS_BLOCK_FINALIZER_CONTROLLER : string := "controller.addressblock.sart.terassyi.net/finalizer".
Definition ADDRESS_BLOCK_FINALIZER_AGENT : string := "agent.addressblock.sart.terassyi.net/finalizer".
Definition ADDRESS_BLOCK_NODE_LABEL : string := "addressblock.sart.terassyi.net/node".
Definition BLOCK_REQUEST_FINALIZER : string := "blockrequest.sart.terassyi.net/finalizer".

Inductive AddressType : Type := TService | TPod.
#[global] Instance AddressType_eq_dec : EqDecision AddressType.
Proof. solve_decision. Defined.

Definition show_address_type (t : AddressType) : string :=
  match t with TService => "service" | TPod => "pod" end.

Inductive AllocationType : Type := AllocBit.

Record AddressPoolSpec : Type := {
  ap_cidr : string; ap_type : AddressType; alloc_type : option AllocationType;
  block_size : option Z; ap_auto_assign : option bool;
}.
Record AddressPool : Type := { ap_meta : ObjectMeta; ap_spec : AddressPoolSpec }.

Record AddressBlockSpec : Type := {
  ab_cidr : string; ab_type : AddressType; pool_ref : string; node_ref : option string;
  ab_auto_assign : bool;
}.
Record AddressBlockStatus : Type := { index : Z }.
Record AddressBlock : Type := {
  ab_meta : ObjectMeta; ab_spec : AddressBlockSpec; ab_status : option AddressBlockStatus;
}.

Record BlockRequestSpec : Type := { br_pool : string; br_node : string }.
Record BlockRequest : Type := { br_meta : ObjectMeta; br_spec : BlockRequestSpec }.

(** ** Errors ([controller/error.rs])

    An error of a library keeps only its kind. *)
Inductive ConfigError : Type := AlreadyConfigured | FailedToLoad | InvalidArgument | InvalidData.

Inductive Error : Type :=
| StdIo
| FailedToGetLock
| Config (e : ConfigError)
| Serialization
| SerializePatch
| KubeErr
| GRPC
| GRPCConnection
| FinalizerApply (e : Error)
| FinalizerCleanup (e : Error)
| FinalizerOther
| CRD
| KubeLibrary
| Ipam (e : Ipam.Error)
| LabelMatching (s : string)
| InvalidParameter (s : string)
| NodeNotFound
| PeerAlreadyExists
| AddressNotFound
| InvalidAddress
| AsnNotFound
| InvalidAsnValue
| ClientTimeout
| InvalidProtocol
| FailedToGetData (s : string)
| InvalidEndpoint
| InvalidExternalTrafficPolicy
| NoAllocatableAddress
| NoAllocatableBlock
| ReleaseAddress
| UnavailableAllocation
| Withdrawing
| AutoAssignMustBeOne
| FailedToEnableAutoAssign
| NotEmpty
| CannotDelete
| BlockRequestAlreadyExists
| BlockRequestNotPerformed
| BlockRequestNotCompleted
| InvalidAddressType
| InvalidCIDR
| InvalidPool
| AddressBlockIndexNotSet
| AddressPoolNotEmpty.

(** ** Helpers ([util.rs]) *)

Definition get_namespace (m : ObjectMeta) : res Error string :=
  match m_namespace m with Some ns => Ok ns | None => Err KubeLibrary end.

Definition get_namespaced_name (m : ObjectMeta) : string :=
  match m_namespace m with
  | Some ns => ns +:+ "/" +:+ m_name m
  | None => m_name m
  end.

(** [api_version] and [kind] are those of the owner's type. *)
Definition create_owner_reference (api_version kind : string) (owner : ObjectMeta) : OwnerReference :=
  {| o_name := m_name owner; o_api_version := api_version; o_kind := kind;
     o_uid := match m_uid owner with Some uid => uid | None => "" end;
     o_block_owner_deletion := Some true; o_controller := Some true |}.

(** [s.replace('/', "~1")] *)
Fixpoint escape_slash (s : string) : string :=
  match s with
  | "" => ""
  | String c s' => if (c =? "/")%char then "~1" +:+ escape_slash s' else String c (escape_slash s')
  end%string.

(** [diff(prev, now)]: what was added, kept and removed. *)
Definition diff {T} `{EqDecision T} (prev now : list T) : list T * list T * list T :=
  let removed := List.filter (fun p => negb (bool_decide (p ∈ now))) prev in
  let added := List.filter (fun n => negb (bool_decide (n ∈ prev)) && negb (bool_decide (n ∈ removed))) now in
  let shared := List.filter (fun p => bool_decide (p ∈ now)) prev in
  (added, shared, removed).

(** [names.sort()]: texts are compared byte by byte. *)
Definition name_le (a b : string) : Prop := String.leb a b = true.
#[global] Instance name_le_dec a b : Decision (name_le a b).
Proof. unfold name_le. apply _. Defined.
Definition sort_names (l : list string) : list string := merge_sort name_le l.

(** ** A controller process *)

(** [kube::runtime::controller::Action] *)
Inductive Action : Type := AwaitChange | Requeue (secs : Z).

(** Which of its two closures [finalizer] calls. *)
Inductive Event : Type := Apply | Cleanup.

(** The component a controller keeps in memory, and what it has sent. *)
Record Proc (C O : Type) : Type := { comp : C; sent : list O }.
Arguments comp {C O} _.
Arguments sent {C O} _.
Arguments Build_Proc {C O} _ _.

Section proc.
Context {C O : Type}.
#[local] Abbreviation H := (M (Proc C O) Error).

Definition set_comp (c : C) (p : Proc C O) : Proc C O := Build_Proc c (sent p).
Definition push (o : O) (p : Proc C O) : Proc C O := Build_Proc (comp p) (sent p ++ [o]).

(** A method of the component. *)
Definition on_comp {A} (m : M C Error A) : H A := zoom comp set_comp m.

(** A write: sent, and refused with an error of the API server if it does not
    accept it. *)
Definition write (accepts : list O -> O -> bool) (o : O) : H unit :=
  p ← get_st;
  modify (push o) ;;
  if accepts (sent p) o then mret tt else throw KubeErr.

(** A read: what the API server answers at this point, or its error. *)
Definition read {A} (answer : list O -> option A) : H A :=
  p ← get_st;
  match answer (sent p) with Some a => mret a | None => throw KubeErr end.

(** A metric is counted. *)
Definition count (o : O) : H unit := modify (push o).
End proc.

(** A call that has no error of its own: it returns or panics. *)
Definition known {E E' A} (r : res E A) : res E' A :=
  match r with Ok a => Ok a | _ => Panic end.

(** ** Facts *)

Section facts.
Context {T : Type} `{EqDecision T}.

Lemma elem_of_lfilter (f : T -> bool) l x : x ∈ List.filter f l <-> x ∈ l /\ f x = true.
Proof. by rewrite !list_elem_of_In, filter_In. Qed.

Lemma elem_of_diff (prev now : list T) x :
  let '(added, shared, removed) := diff prev now in
  (x ∈ added <-> x ∈ now /\ x ∉ prev) /\ (x ∈ shared <-> x ∈ prev /\ x ∈ now) /\
  (x ∈ removed <-> x ∈ prev /\ x ∉ now).
Proof.
  unfold diff. pose proof (elem_of_lfilter (fun p => negb (bool_decide (p ∈ now))) prev x) as Hr.
  rewrite negb_true_iff, bool_decide_eq_false in Hr.
  rewrite elem_of_lfilter, andb_true_iff, !negb_true_iff, !bool_decide_eq_false, Hr.
  rewrite elem_of_lfilter, bool_decide_eq_true. tauto.
Qed.
End facts.

End Kube.
