(* ===== verification/KubeService.v ===== *)
(** * Addresses of load balancer services

    [ServiceWatcher] is [kubernetes/src/controller/reconciler/service_watcher.rs]:
    it allocates the addresses of the services of type LoadBalancer from the
    blocks the controller keeps in memory, writes them to the status of the
    service, passes them on to its endpoint slices, and releases them. The
    webhook of [controller/webhook/service.rs] that notes the addresses of a
    service which stops being a load balancer is modelled with it. *)

From S2P Require Import Prelude.
From S2P Require Import Net.
From S2P Require Import NetText.
From S2P Require Import IpamBitset.
From S2P Require Import IpamAllocator.
From S2P Require Import IpamManager.
From S2P Require Import KubeApi.

Module ServiceWatcher.
Import Kube.

Definition SERVICE_FINALIZER : string := "service.sart.terassyi.net/finalizer".
Definition SERVICE_NAME_LABEL : string := "kubernetes.io/service-name".
Definition SERVICE_ETP_ANNOTATION : string := "service.sart.terassyi.net/etp".
Definition SERVICE_ALLOCATION_ANNOTATION : string := "service.sart.terassyi.net/allocation".
Definition RELEASE_ANNOTATION : string := "service.sart.terassyi.net/release".

Inductive MarkedAllocation : Type :=
| NotMarked (a : option IpAddr)
| Allocated (a : IpAddr)
| Allocate (a : option IpAddr)
| Release (a : IpAddr).

#[global] Instance MarkedAllocation_eq_dec : EqDecision MarkedAllocation.
Proof. solve_decision. Defined.

(** [addrs.sort()] *)
Definition addr_le (a b : IpAddr) : Prop := addr_cmp a b <> Gt.
#[global] Instance addr_le_dec a b : Decision (addr_le a b).
Proof. unfold addr_le. apply _. Defined.
Definition sort_addrs (l : list IpAddr) : list IpAddr := merge_sort addr_le l.

(** What the watcher sends: updates of an endpoint slice and of the status of a
    service, each with its namespace and name, and a metric. *)
Inductive Output : Type :=
| ReplaceSlice (ns name : string) (e : EndpointSlice)
| ReplaceStatus (ns name : string) (s : Service)
| Reconciliation.

Section defs.
Context {I : IpNetApi} {T : TextApi} {P : Profile}.

#[local] Abbreviation AllocatorSet := AllocatorSetInner.AllocatorSetInner.
#[local] Abbreviation St := (Proc AllocatorSet Output).

(** ** What a service says *)

Definition is_loadbalancer (svc : Service) : bool :=
  match svc_spec svc ≫= type_ with
  | Some t => bool_decide (t = "LoadBalancer"%string)
  | None => false
  end.

Definition ingress_addrs (l : list LoadBalancerIngress) : list IpAddr :=
  omap (fun i => ip i ≫= parse_addr) l.

Definition get_allocated_lb_addrs (svc : Service) : option (list IpAddr) :=
  st ← svc_status svc;
  lb ← load_balancer st;
  l ← ingress lb;
  Some (ingress_addrs l).

Definition nonempty {A} (l : list A) : option (list A) :=
  match l with [] => None | _ => Some l end.

Definition annotation (key : string) (svc : Service) : option string :=
  m_annotations (svc_meta svc) !! key.

Definition get_releasable_addrs (svc : Service) : option (list IpAddr) :=
  annotation RELEASE_ANNOTATION svc ≫= fun s => nonempty (read_addrs s).

Definition get_required_lb_addrs (svc : Service) : option (list IpAddr) :=
  annotation LOADBALANCER_ADDRESS_ANNOTATION svc ≫= fun s => nonempty (read_addrs s).

Definition get_desired_pools (svc : Service) : option (list string) :=
  split_comma <$> annotation ADDRESS_POOL_ANNOTATION svc.

Definition get_etp (svc : Service) : option string := svc_spec svc ≫= external_traffic_policy.

(** ** The status that is written *)

Definition addr_ingress (a : IpAddr) : LoadBalancerIngress :=
  {| hostname := None; ip := Some (show_addr a); ports := None |}.

Definition set_status (st : option ServiceStatus) (svc : Service) : Service :=
  {| svc_meta := svc_meta svc; svc_spec := svc_spec svc; svc_status := st |}.

Definition update_svc_lb_addrs (svc : Service) (addrs : list IpAddr) : Service :=
  let lb := Some {| ingress := Some (addr_ingress <$> addrs) |} in
  set_status (Some match svc_status svc with
                   | Some st => {| conditions := conditions st; load_balancer := lb |}
                   | None => {| conditions := None; load_balancer := lb |}
                   end) svc.

Definition keep_ingress (released_str : list string) (i : LoadBalancerIngress) : bool :=
  match ip i with
  | Some a => negb (bool_decide (a ∈ released_str))
  | None => true
  end.

Definition clear_svc_lb_addrs (svc : Service) (released : list IpAddr) : Service :=
  let released_str := show_addr <$> released in
  match svc_status svc with
  | Some st =>
      match load_balancer st with
      | Some lb =>
          match ingress lb with
          | Some l =>
              set_status (Some {| conditions := conditions st;
                load_balancer := Some {| ingress := Some (List.filter (keep_ingress released_str) l) |} |}) svc
          | None => svc
          end
      | None => svc
      end
  | None => svc
  end.

(** ** Desired and merged allocations

    [block_iter] and [alloc_iter] are the orders in which the hash maps are
    iterated. *)
Context (block_iter : gmap string Block.Block -> list (string * Block.Block)).
Context (alloc_iter : gmap string (list MarkedAllocation) -> list (string * list MarkedAllocation)).

Definition desired_marks (blocks : gmap string (list IpAddr)) (name : string) : list MarkedAllocation :=
  match blocks !! name with
  | Some addrs => (fun a => NotMarked (Some a)) <$> addrs
  | None => [NotMarked None]
  end.

(** [collect] into a hash map: the last of equal keys stays. *)
Definition collect_map {V} (l : list (string * V)) : gmap string V :=
  foldl (fun m kv => <[kv.1 := kv.2]> m) ∅ l.

Definition build_desired_allocation (svc : Service) (s : AllocatorSet) :
    res Error (gmap string (list MarkedAllocation)) :=
  pools ← match get_desired_pools svc with
          | Some pools => Ok pools
          | None => match AllocatorSetInner.auto_assign s with
                    | Some a => Ok [a]
                    | None => Err NoAllocatableAddress
                    end
          end;
  match get_required_lb_addrs svc with
  | Some addrs =>
      let blocks := AllocatorSetInner.get_blocks_from_addrs block_iter s addrs in
      mret (collect_map ((fun name => (name, desired_marks blocks name)) <$> pools))
  | None => mret (collect_map ((fun name => (name, [NotMarked None])) <$> pools))
  end.

Definition added_mark (ma : MarkedAllocation) : MarkedAllocation :=
  match ma with NotMarked a => Allocate a | _ => ma end.

Definition removed_mark (ma : MarkedAllocation) : option MarkedAllocation :=
  match ma with Allocated a => Some (Release a) | _ => None end.

Definition shared_desired (a_allocs : list MarkedAllocation) (da : MarkedAllocation) : option MarkedAllocation :=
  match da with
  | NotMarked (Some addr) =>
      if decide (Allocated addr ∈ a_allocs) then Some (Allocated addr) else Some (Allocate (Some addr))
  | _ => None
  end.

Definition shared_actual (d_allocs : list MarkedAllocation) (aa : MarkedAllocation) : option MarkedAllocation :=
  match aa with
  | Allocated addr => if decide (NotMarked (Some addr) ∈ d_allocs) then None else Some (Release addr)
  | _ => None
  end.

(** An entry of the merged map is appended to, or made. *)
Definition append_marks (name : string) (l : list MarkedAllocation) (m : gmap string (list MarkedAllocation)) :
    gmap string (list MarkedAllocation) :=
  match m !! name with
  | Some v => <[name := v ++ l]> m
  | None => <[name := l]> m
  end.

Definition merge_marked_allocation (actual desired : gmap string (list MarkedAllocation)) :
    res Error (gmap string (list MarkedAllocation)) :=
  let '(added, shared, removed) := diff (alloc_iter actual).*1 (alloc_iter desired).*1 in
  ((for_each (fun name =>
      match desired !! name with
      | Some d_allocs => modify (append_marks name (added_mark <$> d_allocs))
      | None => mret tt
      end) added ;;
    for_each (fun name =>
      match actual !! name with
      | Some a_allocs => modify (append_marks name (omap removed_mark a_allocs))
      | None => mret tt
      end) removed ;;
    for_each (fun name =>
      match desired !! name, actual !! name with
      | Some d_allocs, Some a_allocs =>
          if decide (d_allocs = [NotMarked None]) then modify (insert name a_allocs)
          else modify (insert name (omap (shared_desired a_allocs) d_allocs ++ omap (shared_actual d_allocs) a_allocs))
      | _, _ => panic
      end) shared ;;
    get_st) ∅).1.

(** ** Changing the blocks *)

Definition with_allocator (a : Allocator.Allocator) (b : Block.Block) : Block.Block :=
  Block.mkBlock (Block.name b) (Block.pool_name b) a.

Definition on_allocator {A} (m : M Allocator.Allocator Ipam.Error A) : M Block.Block Error A :=
  zoom Block.allocator with_allocator (map_err Ipam m).

(** One mark; the addresses that remain and those that were removed. *)
Definition update_allocation (acc : list IpAddr * list IpAddr) (ma : MarkedAllocation) :
    M Block.Block Error (list IpAddr * list IpAddr) :=
  match ma with
  | Allocate (Some addr) =>
      addr ← on_allocator (Allocator.allocate addr false); mret (acc.1 ++ [addr], acc.2)
  | Allocate None =>
      addr ← on_allocator Allocator.allocate_next; mret (acc.1 ++ [addr], acc.2)
  | Release addr =>
      addr ← on_allocator (Allocator.release addr); mret (acc.1, acc.2 ++ [addr])
  | Allocated addr =>
      b ← get_st;
      allocated ← lift (known (Allocator.is_allocated (Block.allocator b) addr));
      (if (allocated : bool) then mret tt
       else on_allocator (Allocator.allocate addr true) ;; mret tt) ;;
      mret (acc.1 ++ [addr], acc.2)
  | NotMarked _ => throw UnavailableAllocation
  end.

Definition update_allocations (allocs : list MarkedAllocation) : M Block.Block Error (list IpAddr * list IpAddr) :=
  acc ← for_fold update_allocation allocs ([], []);
  mret (sort_addrs acc.1, sort_addrs acc.2).

Definition set_block (name : string) (b : Block.Block) (s : AllocatorSet) : AllocatorSet :=
  AllocatorSetInner.get_mut name (fun _ => b) s.

(** [if let Some(block) = alloc_set.get_mut(name)]: a method of the block. *)
Definition on_block {A} (name : string) (m : M Block.Block Error A) : M AllocatorSet Error (option A) :=
  s ← get_st;
  match AllocatorSetInner.blocks s !! name with
  | Some b => let '(r, b') := m b in
              modify (set_block name b') ;; a ← lift r; mret (Some a)
  | None => mret None
  end.

Definition update_block (acc : list IpAddr * list IpAddr) (na : string * list MarkedAllocation) :
    M AllocatorSet Error (list IpAddr * list IpAddr) :=
  r ← on_block na.1 (update_allocations na.2);
  mret match r with
       | Some (a, r) => (acc.1 ++ a, acc.2 ++ r)
       | None => acc
       end.

(** *** Releasing *)

(** [match block.allocator.release(addr)]: a failure is only logged. *)
Definition try_release (acc : list IpAddr) (addr : IpAddr) : M Block.Block Error (list IpAddr) := fun b =>
  match on_allocator (Allocator.release addr) b with
  | (Ok a, b') => (Ok (acc ++ [a]), b')
  | (Err _, b') => (Ok acc, b')
  | (Panic, b') => (Panic, b')
  end.

Definition release_one (acc : list IpAddr) (addr : IpAddr) : M Block.Block Error (list IpAddr) :=
  b ← get_st;
  if negb (ipnet_contains (Allocator.cidr (Block.allocator b)) addr) then mret acc
  else
    allocated ← lift (known (Allocator.is_allocated (Block.allocator b) addr));
    if negb allocated then mret acc else try_release acc addr.

Definition release_pools (svc : Service) (s : AllocatorSet) : list string :=
  match get_desired_pools svc with
  | Some p => p
  | None => match AllocatorSetInner.auto_assign s with Some d => [d] | None => [] end
  end.

Definition release_lb_addrs (svc : Service) (allocated_addrs : list IpAddr) : M AllocatorSet Error (list IpAddr) :=
  lift (get_namespace (svc_meta svc)) ;;
  s ← get_st;
  let pools := release_pools svc s in
  if bool_decide (pools = []) then throw NoAllocatableBlock
  else for_fold (fun acc pool =>
         r ← on_block pool (for_fold release_one allocated_addrs acc);
         mret (default acc r)) pools [].

(** ** The reconciler

    [accepts] and [list_slices] are the API server's answers: whether a write is
    accepted after what was sent so far, and the endpoint slices of a namespace
    with the label of a service. *)
Context (accepts : list Output -> Output -> bool).
Context (list_slices : list Output -> string -> string -> option (list EndpointSlice)).

Definition etp_changed (etp : string) (a : gmap string string) : bool :=
  negb (bool_decide (a !! SERVICE_ETP_ANNOTATION = Some etp)).

Definition allocation_changed (addrs : string) (a : gmap string string) : bool :=
  negb (bool_decide (a !! SERVICE_ALLOCATION_ANNOTATION = Some addrs)).

(** The annotations of an endpoint slice, and whether they have to be written. *)
Definition sync_annotations (etp addrs : string) (a : gmap string string) : gmap string string * bool :=
  let '(a1, u1) := if etp_changed etp a then (<[SERVICE_ETP_ANNOTATION := etp]> a, true) else (a, false) in
  if allocation_changed addrs a1 then (<[SERVICE_ALLOCATION_ANNOTATION := addrs]> a1, true) else (a1, u1).

Definition sync_slice (ns etp addrs : string) (eps : EndpointSlice) : M St Error unit :=
  let '(a, need_update) := sync_annotations etp addrs (m_annotations (eps_meta eps)) in
  if need_update
  then write accepts (ReplaceSlice ns (m_name (eps_meta eps)) (eps_annotate (fun _ => a) eps))
  else mret tt.

Definition annotate_slice (ns : string) (addrs : option string) (eps : EndpointSlice) : M St Error unit :=
  write accepts (ReplaceSlice ns (m_name (eps_meta eps))
    (eps_annotate (fun a => match addrs with
                            | Some v => <[SERVICE_ALLOCATION_ANNOTATION := v]> a
                            | None => delete SERVICE_ALLOCATION_ANNOTATION a
                            end) eps)).

Definition mark_actual (m : gmap string (list IpAddr)) : gmap string (list MarkedAllocation) :=
  fmap (fun l : list IpAddr => Allocated <$> l) m.

(** The reconciliation of the allocation: the addresses that remain. *)
Definition reallocate (svc : Service) (actual_addrs : list IpAddr) : M AllocatorSet Error (list IpAddr) :=
  s ← get_st;
  let actual := mark_actual (AllocatorSetInner.get_blocks_from_addrs block_iter s actual_addrs) in
  desired ← lift (build_desired_allocation svc s);
  merged ← lift (merge_marked_allocation actual desired);
  acc ← for_fold update_block (alloc_iter merged) ([], []);
  mret acc.1.

Definition reconcile_lb (svc : Service) (ns : string) : M St Error Action :=
  s ← get_st;
  if bool_decide (AllocatorSetInner.blocks (comp s) = ∅) then throw NoAllocatableBlock else
  let name := m_name (svc_meta svc) in
  let actual_addrs := default [] (get_allocated_lb_addrs svc) in
  etp ← lift (match get_etp svc with Some e => Ok e | None => Err InvalidExternalTrafficPolicy end);
  epss ← read (fun t => list_slices t ns name);
  for_each (sync_slice ns etp (write_addrs actual_addrs)) epss ;;
  remained ← on_comp (reallocate svc actual_addrs);
  if decide (actual_addrs = remained) then mret AwaitChange else
  let new_svc := update_svc_lb_addrs svc remained in
  write accepts (ReplaceStatus ns name new_svc) ;;
  for_each (annotate_slice ns (write_addrs <$> get_allocated_lb_addrs new_svc)) epss ;;
  mret AwaitChange.

Definition reconcile (svc : Service) : M St Error Action :=
  ns ← lift (get_namespace (svc_meta svc));
  if is_loadbalancer svc then reconcile_lb svc ns
  else match get_releasable_addrs svc with
       | Some addrs => on_comp (release_lb_addrs svc addrs) ;; mret AwaitChange
       | None => mret AwaitChange
       end.

Definition cleanup (svc : Service) : M St Error Action :=
  ns ← lift (get_namespace (svc_meta svc));
  match get_allocated_lb_addrs svc with
  | None => mret AwaitChange
  | Some allocated_addrs =>
      released ← on_comp (release_lb_addrs svc allocated_addrs);
      write accepts (ReplaceStatus ns (m_name (svc_meta svc)) (clear_svc_lb_addrs svc released)) ;;
      mret AwaitChange
  end.

Definition reconciler (ev : Event) (svc : Service) : M St Error Action :=
  lift (get_namespace (svc_meta svc)) ;;
  count Reconciliation ;;
  match ev with
  | Apply => map_err FinalizerApply (reconcile svc)
  | Cleanup => map_err FinalizerCleanup (cleanup svc)
  end.

(** ** The mutating webhook ([controller/webhook/service.rs])

    What [handle_mutation] answers to the request to change [old] into [new]:
    the patch of the annotation, if there is one. *)
Inductive AnnotationPatch : Type :=
| PatchRemove (path : string)
| PatchAdd (path value : string).

Definition release_path : string := "/metadata/annotations/" +:+ escape_slash RELEASE_ANNOTATION.

Definition handle_mutation (new : Service) (old : option Service) : option AnnotationPatch :=
  if is_loadbalancer new && bool_decide (is_Some (annotation RELEASE_ANNOTATION new))
  then Some (PatchRemove release_path)
  else match old with
       | Some old =>
           if is_loadbalancer old && negb (is_loadbalancer new)
           then (fun l => PatchAdd release_path (write_addrs l)) <$> get_allocated_lb_addrs old
           else None
       | None => None
       end.
End defs.
End ServiceWatcher.
