(* ===== verification/KubeServiceFacts.v ===== *)
(** * Properties of the service watcher

    What the marks of a reconciliation do to the blocks in memory, and from it
    that two services never hold the same address; that a service that was
    reconciled is left alone; and the runs in which an address is given away
    twice. *)

From S2P Require Import Prelude.
From S2P Require Import Net.
From S2P Require Import NetText.
From S2P Require Import IpamBitset.
From S2P Require Import IpamAllocator.
From S2P Require Import IpamManager.
From S2P Require Import KubeApi.
From S2P Require Import KubeService.

Module ServiceFacts.
Import Kube ServiceWatcher.
Import BitAllocator(cidr_size, addr_at, index_of, repr, spec_step, run_op, OAllocate, ONext, ORelease).

#[local] Abbreviation AllocatorSet := AllocatorSetInner.AllocatorSetInner.
#[local] Abbreviation blocks := AllocatorSetInner.blocks.

Section blocks.
Context {I : IpNetApi} {L : IpNetLaws} {P : Profile}.

Definition block_cidr (b : Block.Block) : IpNet := Allocator.cidr (Block.allocator b).

(** A block hands out the set [H] of addresses: its allocator represents [H],
    with a counter that is not above the size of [H]. *)
Record block_ok (b : Block.Block) (H : gset IpAddr) : Prop := {
  bo_repr : exists n, repr (Allocator.unBit (Block.allocator b)) H n /\ n <= Z.of_nat (size H);
  bo_size : cidr_size (block_cidr b) <= 2 ^ 32;
}.

Lemma held_contained b H x : block_ok b H -> x ∈ H -> ipnet_contains (block_cidr b) x = true.
Proof. intros [(n & R & _) _] Hx. by apply (BitAllocator.r_mem _ _ _ R) in Hx as [? _]. Qed.

(** A set of addresses of a CIDR is not larger than the CIDR. *)
Lemma held_size c (H : gset IpAddr) : (forall x, x ∈ H -> ipnet_contains c x = true) ->
  Z.of_nat (size H) <= cidr_size c.
Proof.
  intros Hin. pose proof (BitAllocator.cidr_size_pos c) as Hpos.
  assert (Hsub : H ⊆ list_to_set (addr_at c <$> seqZ 0 (cidr_size c))).
  { intros x Hx. apply elem_of_list_to_set, list_elem_of_fmap. apply Hin, BitAllocator.contains_index in Hx as [Hi Hx].
    exists (index_of c x). split; [done|]. apply elem_of_seqZ. lia. }
  apply subseteq_size in Hsub. rewrite size_list_to_set in Hsub.
  - rewrite length_fmap, length_seqZ in Hsub. lia.
  - apply NoDup_fmap_2; [|apply NoDup_seqZ]. intros i j Hij.
    apply (f_equal (index_of c)) in Hij. by rewrite !BitAllocator.index_of_addr_at in Hij.
Qed.

Lemma is_allocated_held b H x : block_ok b H ->
  Allocator.is_allocated (Block.allocator b) x = Ok (bool_decide (x ∈ H)).
Proof.
  intros [(n & R & _) _]. unfold Allocator.is_allocated, BitAllocator.is_allocated.
  set (a := Allocator.unBit _) in *. destruct (ipnet_contains (BitAllocator.cidr a) x) eqn:Hx.
  - rewrite BitAllocator.addr_to_index_ok, BitSet.is_set_mem by (done || apply R || by eapply BitAllocator.index_lt_size).
    by rewrite (BitAllocator.mem_held _ _ _ _ R Hx).
  - destruct (BitAllocator.addr_to_index_err _ _ Hx) as (e & -> & _). rewrite bool_decide_false; [done|].
    intros Hin. apply (BitAllocator.r_mem _ _ _ R) in Hin as [? _]. congruence.
Qed.

(** What an operation of the allocator does to the set. *)
Inductive op_effect (c : IpNet) (H : gset IpAddr) : BitAllocator.op -> res Error IpAddr -> gset IpAddr -> Prop :=
| oe_allocate x f : ipnet_contains c x = true -> f = true \/ (x ∉ H) ->
    op_effect c H (OAllocate x f) (Ok x) ({[x]} ∪ H)
| oe_next x : ipnet_contains c x = true -> (x ∉ H) -> op_effect c H ONext (Ok x) ({[x]} ∪ H)
| oe_release x : ipnet_contains c x = true -> op_effect c H (ORelease x) (Ok x) (H ∖ {[x]})
| oe_err o e : op_effect c H o (Err e) H.

(** An allocation that is forced may take an address the set has already; the
    watcher forces only the address it found free. *)
Definition fair (H : gset IpAddr) (o : BitAllocator.op) : Prop :=
  forall x, o = OAllocate x true -> x ∉ H.

Lemma block_op b H o : block_ok b H -> fair H o ->
  exists r b' H', on_allocator (Allocator.on_bit (run_op o)) b = (r, b') /\
    op_effect (block_cidr b) H o r H' /\ block_ok b' H' /\ block_cidr b' = block_cidr b.
Proof.
  intros Hb Hfair. pose proof Hb as [(n & R & Hn) Hs]. unfold block_cidr, Allocator.cidr in *.
  set (a := Allocator.unBit (Block.allocator b)) in *.
  pose proof (held_size (BitAllocator.cidr a) H) as Hsz.
  destruct (BitAllocator.simulation a H n o R) as (r & a' & H' & n' & Hrun & Hst & R' & Hc).
  { enough (Z.of_nat (size H) <= cidr_size (BitAllocator.cidr a)) by lia. apply Hsz. intros x Hx.
    by apply (BitAllocator.r_mem _ _ _ R) in Hx as [? _]. }
  exists (res_map_err Ipam r), (with_allocator (Allocator.Bit a') b), H'. split_and!.
  - unfold on_allocator, Allocator.on_bit, zoom, map_err. fold a. rewrite Hrun. by destruct r.
  - destruct Hst; cbn; try constructor; auto.
    by apply BitAllocator.addr_at_contains.
  - split; [|unfold block_cidr, Allocator.cidr; cbn; by rewrite Hc]. exists n'. split; [done|]. cbn in *.
    destruct Hst; try done.
    + destruct (decide (x ∈ H)) as [Hx|Hx].
      * destruct force; [by destruct (Hfair x)|naive_solver].
      * rewrite size_union, size_singleton by set_solver. lia.
    + rewrite size_union, size_singleton by set_solver. lia.
    + destruct (decide (x ∈ H)) as [Hx|Hx].
      * rewrite size_difference, size_singleton by set_solver. lia.
      * rewrite difference_disjoint by set_solver. lia.
  - by cbn.
Qed.

(** *** Marks *)

Inductive mark_effect (c : IpNet) (H : gset IpAddr) (acc : list IpAddr * list IpAddr) :
  MarkedAllocation -> res Error (list IpAddr * list IpAddr) -> gset IpAddr -> Prop :=
| me_new o x : o = Some x \/ o = None -> ipnet_contains c x = true -> (x ∉ H) ->
    mark_effect c H acc (Allocate o) (Ok (acc.1 ++ [x], acc.2)) ({[x]} ∪ H)
| me_keep x : ipnet_contains c x = true ->
    mark_effect c H acc (Allocated x) (Ok (acc.1 ++ [x], acc.2)) ({[x]} ∪ H)
| me_release x : mark_effect c H acc (Release x) (Ok (acc.1, acc.2 ++ [x])) (H ∖ {[x]})
| me_fail ma e : mark_effect c H acc ma (Err e) H.

Lemma update_step b H acc ma : block_ok b H ->
  exists r b' H', update_allocation acc ma b = (r, b') /\ mark_effect (block_cidr b) H acc ma r H' /\
    block_ok b' H' /\ block_cidr b' = block_cidr b.
Proof.
  intros Hb. destruct ma as [a|a|[a|]|a]; cbn [update_allocation].
  - exists (Err UnavailableAllocation), b, H. by split_and!; [|constructor|..].
  - rewrite bind_get. unfold lift. rewrite (is_allocated_held _ _ a Hb). cbn [known].
    unfold mbind at 1. unfold M_bind at 1. case_bool_decide as Ha.
    + exists (Ok (acc.1 ++ [a], acc.2)), b, H. split_and!; [done| |done|done].
      replace H with ({[a]} ∪ H) at 2 by set_solver. constructor. by eapply held_contained.
    + destruct (block_op b H (OAllocate a true) Hb) as (r & b' & H' & Hrun & He & Hb' & Hc); [by intros ? [= <-]|].
      unfold Allocator.allocate. change (BitAllocator.allocate a true) with (run_op (OAllocate a true)).
      unfold mbind, M_bind, mret, M_ret. rewrite Hrun.
      destruct r as [y|e|]; inversion He; subst; eexists _, b', _; split_and!; try done; by constructor.
  - destruct (block_op b H (OAllocate a false) Hb) as (r & b' & H' & Hrun & He & Hb' & Hc); [done|].
    unfold Allocator.allocate. change (BitAllocator.allocate a false) with (run_op (OAllocate a false)).
    unfold mbind, M_bind. rewrite Hrun.
    destruct r as [y|e|]; inversion He; subst; eexists _, b', _; split_and!; try done; constructor; naive_solver.
  - destruct (block_op b H ONext Hb) as (r & b' & H' & Hrun & He & Hb' & Hc); [done|].
    unfold Allocator.allocate_next. change BitAllocator.allocate_next with (run_op ONext).
    unfold mbind, M_bind. rewrite Hrun.
    destruct r as [y|e|]; inversion He; subst; eexists _, b', _; split_and!; try done; constructor; naive_solver.
  - destruct (block_op b H (ORelease a) Hb) as (r & b' & H' & Hrun & He & Hb' & Hc); [done|].
    unfold Allocator.release. change (BitAllocator.release a) with (run_op (ORelease a)).
    unfold mbind, M_bind. rewrite Hrun.
    destruct r as [y|e|]; inversion He; subst; eexists _, b', _; split_and!; try done; constructor.
Qed.

(** The marks of one block never give and take the same address. *)
Definition marks_ok (l : list MarkedAllocation) : Prop :=
  (forall x, (Release x ∉ l)) \/
  ((Allocate None ∉ l) /\ forall x, Release x ∈ l -> (Allocate (Some x) ∉ l) /\ Allocated x ∉ l).

(** What a loop over the marks [l] started with the set [H0] has done when it
    has reached the set [H] and the addresses [rem]. *)
Definition marks_done (c : IpNet) (l : list MarkedAllocation) (H0 H : gset IpAddr) (rem : list IpAddr) : Prop :=
  (forall x, x ∈ H0 -> (Release x ∉ l) -> x ∈ H) /\
  (marks_ok l -> forall x, x ∈ rem ->
     x ∈ H /\ ipnet_contains c x = true /\ (Release x ∉ l) /\ (Allocated x ∈ l \/ (x ∉ H0))).

Lemma marks_loop c l H0 k b H acc : (forall m, m ∈ k -> m ∈ l) ->
  block_ok b H -> block_cidr b = c -> marks_done c l H0 H acc.1 ->
  exists r b' H', for_fold update_allocation k acc b = (r, b') /\ r <> Panic /\ block_ok b' H' /\
    block_cidr b' = c /\ (forall x, x ∈ H0 -> (Release x ∉ l) -> x ∈ H') /\
    (forall acc', r = Ok acc' -> marks_done c l H0 H' acc'.1).
Proof.
  revert b H acc. induction k as [|m k IH]; intros b H acc Hk Hb Hc Hd.
  { eexists (Ok acc), b, H. split_and!; try done; [apply Hd|]. by intros acc' [= <-]. }
  assert (Hm : m ∈ l) by (apply Hk; left). cbn [for_fold].
  destruct (update_step b H acc m Hb) as (r & b1 & H1 & Hrun & He & Hb1 & Hc1).
  unfold mbind, M_bind. rewrite Hrun. destruct r as [acc1|e|]; [|inversion He; subst|inversion He].
  2: { eexists _, b1, _. split_and!; try done. apply Hd. }
  apply IH with (H := H1); [by intros ? ?; apply Hk; right|done|congruence|]. clear IH Hrun.
  destruct Hd as [Hd1 Hd2]. rewrite Hc in He. inversion He as [o x Ho Hx Hn|x Hx|x|]; subst; cbn.
  - split; [set_solver|]. intros Hok y. rewrite elem_of_app, list_elem_of_singleton. intros [Hy| ->].
    { destruct (Hd2 Hok y Hy) as (? & ? & ? & ?). split_and!; [set_solver|done..]. }
    assert (Hr : Release x ∉ l).
    { destruct Hok as [Hok|[HN Hok]]; [apply Hok|]. intros Hr. destruct (Hok _ Hr). destruct Ho as [->| ->]; tauto. }
    split_and!; [set_solver|done|done|right]. intros Hx0. by apply Hn, Hd1.
  - split; [set_solver|]. intros Hok y. rewrite elem_of_app, list_elem_of_singleton. intros [Hy| ->].
    { destruct (Hd2 Hok y Hy) as (? & ? & ? & ?). split_and!; [set_solver|done..]. }
    split_and!; [set_solver|done| |by left].
    destruct Hok as [Hok|[HN Hok]]; [apply Hok|]. intros Hr. destruct (Hok _ Hr). tauto.
  - split.
    + intros y Hy Hr. apply elem_of_difference. split; [by apply Hd1|]. intros Hyx%elem_of_singleton. by subst.
    + intros Hok y Hy. destruct (Hd2 Hok y Hy) as (? & ? & Hr & ?). split_and!; try done.
      apply elem_of_difference. split; [done|]. intros Hyx%elem_of_singleton. by subst.
Qed.

Lemma update_allocations_run b H l : block_ok b H ->
  exists r b' H', update_allocations l b = (r, b') /\ r <> Panic /\ block_ok b' H' /\
    block_cidr b' = block_cidr b /\ (forall x, x ∈ H -> (Release x ∉ l) -> x ∈ H') /\
    (forall acc, r = Ok acc -> marks_done (block_cidr b) l H H' acc.1).
Proof.
  intros Hb. destruct (marks_loop (block_cidr b) l H l b H ([], [])) as (r & b' & H' & Hrun & Hp & Hb' & Hc & Hk & Hd);
    [done|done|done| |].
  { split; [done|]. intros _ x Hx. by apply elem_of_nil in Hx. }
  unfold update_allocations, mbind, M_bind. rewrite Hrun.
  destruct r as [acc|e|]; [|by eexists _, b', H'|done].
  eexists _, b', H'. split_and!; try done. intros acc' [= <-]. cbn. destruct (Hd acc eq_refl) as [Hd1 Hd2].
  split; [done|]. intros Hok x. unfold sort_addrs. rewrite merge_sort_Permutation. by apply Hd2.
Qed.

(** *** The set of blocks *)

(** Every block is well formed, and no address belongs to two of them. *)
Definition set_ok (s : AllocatorSet) : Prop :=
  (forall n b, blocks s !! n = Some b -> exists H, block_ok b H) /\
  (forall n m b b' x, blocks s !! n = Some b -> blocks s !! m = Some b' ->
     ipnet_contains (block_cidr b) x = true -> ipnet_contains (block_cidr b') x = true -> n = m).

(** The address is in use in its block. *)
Definition Held (s : AllocatorSet) (x : IpAddr) : Prop :=
  exists n b H, blocks s !! n = Some b /\ block_ok b H /\ x ∈ H.

Definition same_cidrs (s s' : AllocatorSet) : Prop :=
  AllocatorSetInner.auto_assign s' = AllocatorSetInner.auto_assign s /\
  forall n, block_cidr <$> blocks s' !! n = block_cidr <$> blocks s !! n.

Lemma block_ok_unique b H H' : block_ok b H -> block_ok b H' -> H = H'.
Proof.
  intros [(n & R & _) _] [(n' & R' & _) _]. apply set_eq. intros x.
  by rewrite (BitAllocator.r_mem _ _ _ R), (BitAllocator.r_mem _ _ _ R').
Qed.

Lemma Held_in s n b H x : set_ok s -> blocks s !! n = Some b -> block_ok b H ->
  ipnet_contains (block_cidr b) x = true -> Held s x <-> x ∈ H.
Proof.
  intros [_ Hdis] Hn Hb Hx. split; [|by exists n, b, H]. intros (m & b' & H' & Hm & Hb' & Hin).
  assert (n = m) as <- by (eapply Hdis; eauto using held_contained).
  rewrite Hn in Hm. injection Hm as <-. by rewrite (block_ok_unique _ _ _ Hb Hb').
Qed.

Lemma lookup_set_block s n b b' m : blocks s !! n = Some b ->
  blocks (set_block n b' s) !! m = if decide (n = m) then Some b' else blocks s !! m.
Proof.
  intros Hn. cbn. rewrite lookup_alter. case_decide as Hd; [|done]. subst. by rewrite Hn.
Qed.

Lemma set_block_ok s n b b' H H' : set_ok s -> blocks s !! n = Some b -> block_ok b H ->
  block_ok b' H' -> block_cidr b' = block_cidr b ->
  set_ok (set_block n b' s) /\ same_cidrs s (set_block n b' s) /\
  (forall x, Held (set_block n b' s) x <->
     if ipnet_contains (block_cidr b) x then x ∈ H' else Held s x).
Proof.
  intros Hs Hn Hb Hb' Hc. assert (Hs' : set_ok (set_block n b' s)).
  { destruct Hs as [Hok Hdis]. split.
    - intros m c. rewrite (lookup_set_block _ _ b) by done. case_decide; [intros [= <-]; eauto|apply Hok].
    - intros m k c c' x. rewrite !(lookup_set_block _ _ b) by done.
      destruct (decide (n = m)) as [<-|], (decide (n = k)) as [<-|]; naive_solver congruence. }
  split; [done|]. split.
  { split; [done|]. intros m. rewrite (lookup_set_block _ _ b) by done. case_decide; [|done]. subst. rewrite Hn. cbn. by rewrite Hc. }
  intros x. destruct (ipnet_contains (block_cidr b) x) eqn:Hx.
  - rewrite (Held_in _ n b' H' x Hs'); [done| |done|by rewrite Hc].
    rewrite (lookup_set_block _ _ b) by done. by rewrite decide_True.
  - split; intros (m & c & K & Hm & Hbc & Hin).
    + rewrite (lookup_set_block _ _ b) in Hm by done. case_decide; [|by exists m, c, K].
      injection Hm as <-. eapply held_contained in Hin; [|done]. congruence.
    + exists m, c, K. rewrite (lookup_set_block _ _ b) by done. case_decide; [|done]. subst.
      rewrite Hn in Hm. injection Hm as <-. eapply held_contained in Hin; [|done]. congruence.
Qed.

Lemma same_cidrs_refl s : same_cidrs s s.
Proof. done. Qed.

Lemma same_cidrs_trans s1 s2 s3 : same_cidrs s1 s2 -> same_cidrs s2 s3 -> same_cidrs s1 s3.
Proof. intros [Ha H1] [Hb H2]. split; [congruence|]. intros n. by rewrite H2. Qed.

Lemma same_cidrs_lookup s s' n b : same_cidrs s s' -> blocks s' !! n = Some b ->
  exists b0, blocks s !! n = Some b0 /\ block_cidr b0 = block_cidr b.
Proof.
  intros [_ H] Hn. specialize (H n). rewrite Hn in H. destruct (blocks s !! n) as [b0|]; [|done].
  injection H as H. eauto.
Qed.

(** *** The loop over the merged marks *)

Definition mark_in (c : IpNet) (m : MarkedAllocation) : Prop :=
  match m with
  | Release x | Allocated x => ipnet_contains c x = true
  | _ => True
  end.

(** The marks are for the addresses of the block they are filed under. *)
Definition filed (s : AllocatorSet) (l : list (string * list MarkedAllocation)) : Prop :=
  forall n ms b, (n, ms) ∈ l -> blocks s !! n = Some b -> Forall (mark_in (block_cidr b)) ms.

(** What the loop over [l] that started at [s] guarantees of an address it gives out. *)
Definition given (s s' : AllocatorSet) (l : list (string * list MarkedAllocation)) (x : IpAddr) : Prop :=
  Held s' x /\ exists n ms b, (n, ms) ∈ l /\ blocks s !! n = Some b /\
    ipnet_contains (block_cidr b) x = true /\ (Allocated x ∈ ms \/ ~ Held s x).

Lemma on_block_eq {A} n (m : M Block.Block Error A) s :
  on_block n m s =
    match blocks s !! n with
    | Some b => let '(r, b') := m b in
                (match r with Ok a => Ok (Some a) | Err e => Err e | Panic => Panic end, set_block n b' s)
    | None => (Ok None, s)
    end.
Proof.
  unfold on_block. rewrite bind_get. destruct (blocks s !! n) as [b|]; [|done].
  destruct (m b) as [[a|e|] b'] eqn:Hm; done.
Qed.

Lemma update_block_eq acc n ms s :
  update_block acc (n, ms) s =
    match blocks s !! n with
    | Some b => let '(r, b') := update_allocations ms b in
                (match r with Ok (a, rm) => Ok (acc.1 ++ a, acc.2 ++ rm) | Err e => Err e | Panic => Panic end,
                 set_block n b' s)
    | None => (Ok acc, s)
    end.
Proof.
  unfold update_block, mbind, M_bind. rewrite on_block_eq. cbn [fst snd]. destruct (blocks s !! n) as [b|]; [|done].
  by destruct (update_allocations ms b) as [[[]|e|] b'].
Qed.

(** No mark for a block that exists releases the address. *)
Definition unreleased (s : AllocatorSet) (l : list (string * list MarkedAllocation)) (x : IpAddr) : Prop :=
  forall n ms b, (n, ms) ∈ l -> blocks s !! n = Some b -> Release x ∉ ms.

Lemma update_blocks_run l s acc : NoDup l.*1 -> set_ok s -> filed s l ->
  exists r s', for_fold update_block l acc s = (r, s') /\ r <> Panic /\ set_ok s' /\ same_cidrs s s' /\
    (forall x, Held s x -> unreleased s l x -> Held s' x) /\
    (forall acc', r = Ok acc' -> Forall marks_ok l.*2 -> forall x, x ∈ acc'.1 -> x ∈ acc.1 \/ given s s' l x).
Proof.
  revert s acc. induction l as [|[n ms] l IH]; intros s acc Hnd Hs Hf.
  { exists (Ok acc), s. split_and!; try done. intros acc' [= <-]. eauto. }
  cbn in Hnd. apply NoDup_cons in Hnd as [Hnin Hnd].
  assert (Hf' : filed s l) by (intros m k b Hk; apply (Hf m k); by right).
  cbn [for_fold]. unfold mbind, M_bind. rewrite update_block_eq.
  destruct (blocks s !! n) as [b|] eqn:Hn.
  2: { destruct (IH s acc Hnd Hs Hf') as (r & s' & Hrun & Hp & Hs' & Hsc & Hk & Hg). exists r, s'. split_and!; try done.
       - intros x Hx Hr. apply Hk; [done|]. intros m k c Hm. apply (Hr m k c). by right.
       - intros acc' Hr [_ Hok]%Forall_cons x Hx. destruct (Hg acc' Hr Hok x Hx) as [|(Hh & m & k & c & Hm & Hgx)]; [by left|].
         right. split; [done|]. exists m, k, c. split; [by right|done]. }
  destruct (proj1 Hs _ _ Hn) as [H Hb].
  destruct (update_allocations_run b H ms Hb) as (r & b1 & H1 & Hrun & Hp & Hb1 & Hc1 & Hk1 & Hd1).
  destruct (set_block_ok s n b b1 H H1 Hs Hn Hb Hb1 Hc1) as (Hs1 & Hsc1 & Hheld).
  assert (Hkeep : forall x, Held s x -> (Release x ∉ ms) -> Held (set_block n b1 s) x).
  { intros x Hx Hr. rewrite Hheld. destruct (ipnet_contains (block_cidr b) x) eqn:Hcx; [|done].
    apply Hk1; [|done]. by apply (Held_in s n b H x). }
  rewrite Hrun. destruct r as [[a rm]|e|]; [|exists (Err e), (set_block n b1 s); split_and!; try done|done].
  2: { intros x Hx Hr. apply Hkeep; [done|]. eapply Hr; [by left|done]. }
  assert (Hf1 : filed (set_block n b1 s) l).
  { intros m k c Hk Hm. destruct (same_cidrs_lookup _ _ _ _ Hsc1 Hm) as (c0 & Hm0 & <-). by eapply Hf'. }
  destruct (IH (set_block n b1 s) (acc.1 ++ a, acc.2 ++ rm) Hnd Hs1 Hf1) as (r' & s' & Hrun' & Hp' & Hs' & Hsc & Hk & Hg).
  exists r', s'. rewrite Hrun'. split_and!; try done.
  - by eapply same_cidrs_trans.
  - intros x Hx Hr. apply Hk; [apply Hkeep; [done|]; eapply Hr; [by left|done]|]. intros m k c Hm Hmb.
    destruct (same_cidrs_lookup _ _ _ _ Hsc1 Hmb) as (c0 & Hm0 & _). eapply Hr; [by right|done].
  - intros acc' Hr [Hok1 Hok]%Forall_cons x Hx.
    destruct (Hg acc' Hr Hok x Hx) as [Ha|(Hh & m & k & c & Hm & Hmb & Hcx & Hax)].
    + cbn in Ha. apply elem_of_app in Ha as [Ha|Ha]; [by left|right].
      destruct (proj2 (Hd1 _ eq_refl) Hok1 x Ha) as (HxH & Hcx & Hrx & Hax). split.
      * apply Hk; [by rewrite Hheld, Hcx|]. intros m k c Hm Hmb Hrel.
        destruct (same_cidrs_lookup _ _ _ _ Hsc1 Hmb) as (c0 & Hm0 & _).
        assert (Hin : mark_in (block_cidr c0) (Release x)).
        { eapply (proj1 (Forall_forall _ _)); [eapply Hf; [by right|done]|done]. }
        assert (n = m) as -> by (by eapply (proj2 Hs)). apply Hnin, list_elem_of_fmap. by exists (m, k).
      * exists n, ms, b. split_and!; [by left|done|done|].
        destruct Hax as [|Hx0]; [by left|right]. by rewrite (Held_in s n b H x).
    + right. split; [done|]. destruct (same_cidrs_lookup _ _ _ _ Hsc1 Hmb) as (c0 & Hm0 & Hc0).
      exists m, k, c0. rewrite Hc0. split_and!; [by right|done|done|].
      destruct Hax as [|Hnh]; [by left|right]. intros Hx0. apply Hnh. rewrite Hheld.
      destruct (ipnet_contains (block_cidr b) x) eqn:Hcb; [|done].
      assert (n = m) as -> by (eapply (proj2 Hs); [exact Hn|exact Hm0|done|by rewrite Hc0]).
      destruct Hnin. apply list_elem_of_fmap. by exists (m, k).
Qed.
End blocks.

(** *** Merging *)

Lemma for_each_modify {A S E} (f : A -> M S E unit) (g : A -> S -> S) l s :
  (forall x s, x ∈ l -> f x s = (Ok tt, g x s)) -> for_each f l s = (Ok tt, foldl (fun s x => g x s) s l).
Proof.
  revert s. induction l as [|x l IH]; intros s Hf; [done|]. cbn [for_each foldl].
  unfold mbind, M_bind. rewrite (Hf x s) by left. apply IH. intros y s' Hy. apply Hf. by right.
Qed.

Section fill.
Context {V : Type} (g : string -> gmap string V -> gmap string V) (v : string -> V).
Context (g_other : forall n m k, k <> n -> g n m !! k = m !! k).
Context (g_new : forall n m, m !! n = None -> g n m !! n = Some (v n)).

(** A loop that makes an entry for each of the names. *)
Lemma fill_lookup l m k : NoDup l -> (forall n, n ∈ l -> m !! n = None) ->
  foldl (fun m n => g n m) m l !! k = if decide (k ∈ l) then Some (v k) else m !! k.
Proof.
  revert m. induction l as [|n l IH]; intros m Hnd Hm; [done|]. cbn.
  apply NoDup_cons in Hnd as [Hn Hnd]. rewrite IH; [|done|].
  - destruct (decide (k = n)) as [->|Hne].
    + rewrite decide_False, decide_True by (done || left). apply g_new, Hm. left.
    + rewrite g_other by done. destruct (decide (k ∈ l)) as [Hk|Hk]; [rewrite decide_True by (by right)|rewrite decide_False by (rewrite elem_of_cons; tauto)]; done.
  - intros n' Hn'. rewrite g_other by (intros ->; done). apply Hm. by right.
Qed.
End fill.

Lemma append_other n l m k : k <> n -> append_marks n l m !! k = m !! k.
Proof. intros Hk. unfold append_marks. by destruct (m !! n); rewrite lookup_insert_ne. Qed.

Lemma append_new n l m : m !! n = None -> append_marks n l m !! n = Some l.
Proof. intros Hn. unfold append_marks. by rewrite Hn, lookup_insert_eq. Qed.

(** The marks of a block, from the allocation it has and the one it should have. *)
Definition merged_marks (a d : option (list MarkedAllocation)) : option (list MarkedAllocation) :=
  match a, d with
  | None, None => None
  | None, Some d => Some (added_mark <$> d)
  | Some a, None => Some (omap removed_mark a)
  | Some a, Some d =>
      Some (if decide (d = [NotMarked None]) then a
            else omap (shared_desired a) d ++ omap (shared_actual d) a)
  end.

(** Marks as [build_desired_allocation] makes them. *)
Definition wanted (d : list MarkedAllocation) : Prop :=
  d = [NotMarked None] \/ exists l, d = (fun x => NotMarked (Some x)) <$> l.

Lemma elem_of_shared_desired a (d : list MarkedAllocation) x m : m ∈ omap (shared_desired a) d ->
  m = Allocated x \/ m = Allocate (Some x) -> NotMarked (Some x) ∈ d.
Proof.
  rewrite list_elem_of_omap. intros (y & Hy & Hm) Hx. destruct y as [[y|]| | |]; try done. cbn in Hm.
  case_decide; injection Hm as <-; naive_solver.
Qed.

Lemma elem_of_shared_actual (a d : list MarkedAllocation) m : m ∈ omap (shared_actual d) a ->
  exists x, m = Release x /\ Allocated x ∈ a /\ NotMarked (Some x) ∉ d.
Proof.
  rewrite list_elem_of_omap. intros (y & Hy & Hm). destruct y; try done. cbn in Hm.
  case_decide; [done|]. injection Hm as <-. eauto.
Qed.

Lemma merged_marks_ok a d ms l : merged_marks a d = Some ms -> default [] a = Allocated <$> l ->
  (forall d', d = Some d' -> wanted d') ->
  marks_ok ms /\ (forall x, Release x ∈ ms \/ Allocated x ∈ ms -> x ∈ l).
Proof.
  assert (Hl : forall x, Allocated x ∈ (Allocated <$> l) <-> x ∈ l).
  { intros x. rewrite list_elem_of_fmap. naive_solver. }
  intros Hm Ha Hd. destruct a as [a|], d as [d|]; cbn in *; try done; injection Hm as <-; subst.
  - specialize (Hd d eq_refl). case_decide as Hdn.
    { split; [left|]; setoid_rewrite list_elem_of_fmap; naive_solver. }
    destruct Hd as [|[w ->]]; [done|]. set (d := _ <$> w) in *. split; [right; split|].
    + rewrite elem_of_app, list_elem_of_omap. intros [(y & Hy & Hm)|Hm].
      * destruct y as [[y|]| | |]; try done. cbn in Hm. by case_decide.
      * apply elem_of_shared_actual in Hm as (x & [=] & _).
    + intros x. rewrite !elem_of_app. intros [Hr|Hr].
      { apply list_elem_of_omap in Hr as (y & Hy & Hm). destruct y as [[y|]| | |]; try done. cbn in Hm. by case_decide. }
      apply elem_of_shared_actual in Hr as (y & [= <-] & _ & Hnd).
      split; intros [Hx|Hx]; try (apply elem_of_shared_actual in Hx as (z & [=] & _));
        eapply Hnd, elem_of_shared_desired; eauto.
    + intros x. rewrite !elem_of_app. intros [[Hr|Hr]|[Hr|Hr]].
      * apply list_elem_of_omap in Hr as (y & Hy & Hm). destruct y as [[y|]| | |]; try done. cbn in Hm. by case_decide.
      * apply elem_of_shared_actual in Hr as (y & [= <-] & Hx & _). by apply Hl.
      * apply list_elem_of_omap in Hr as (y & Hy & Hm). destruct y as [[y|]| | |]; try done. cbn in Hm.
        case_decide; [|done]. injection Hm as <-. by apply Hl.
      * by apply elem_of_shared_actual in Hr as (y & [=] & _).
  - split; [right; split|].
    + rewrite list_elem_of_omap. intros ([] & ? & ?); done.
    + intros x _. rewrite !list_elem_of_omap. split; intros ([] & ? & ?); done.
    + intros x. rewrite !list_elem_of_omap. intros [(y & Hy & Hm)|(y & Hy & Hm)]; destruct y; try done.
      injection Hm as <-. by apply Hl.
  - assert (Hal : forall m, m ∈ added_mark <$> d -> exists o, m = Allocate o).
    { intros m Hm. apply list_elem_of_fmap in Hm as (y & -> & Hy).
      destruct (Hd d eq_refl) as [->|[w ->]]; [set_solver|].
      apply list_elem_of_fmap in Hy as (z & -> & _). by eexists. }
    split; [left; intros x Hx|intros x [Hx|Hx]]; by destruct (Hal _ Hx).
Qed.

Section merge.
Context (alloc_iter : gmap string (list MarkedAllocation) -> list (string * list MarkedAllocation)).
Context (alloc_iter_perm : forall m, alloc_iter m ≡ₚ map_to_list m).

Lemma elem_of_keys m n : n ∈ (alloc_iter m).*1 <-> is_Some (m !! n).
Proof.
  rewrite alloc_iter_perm, list_elem_of_fmap. split.
  - intros ([k l] & -> & Hk). apply elem_of_map_to_list in Hk. by eexists.
  - intros [l Hl]. exists (n, l). by rewrite elem_of_map_to_list.
Qed.

Lemma NoDup_keys m : NoDup (alloc_iter m).*1.
Proof. rewrite alloc_iter_perm. apply NoDup_fst_map_to_list. Qed.

Lemma merge_lookup actual desired :
  exists m, merge_marked_allocation alloc_iter actual desired = Ok m /\
    forall n, m !! n = merged_marks (actual !! n) (desired !! n).
Proof.
  unfold merge_marked_allocation.
  pose proof (fun n => elem_of_diff (alloc_iter actual).*1 (alloc_iter desired).*1 n) as Hdiff.
  destruct (diff _ _) as [[added shared] removed] eqn:Hd.
  assert (Hnds : NoDup added /\ NoDup shared /\ NoDup removed).
  { unfold diff in Hd. injection Hd as <- <- <-. split_and!; apply NoDup_ListNoDup, List.NoDup_filter, NoDup_ListNoDup, NoDup_keys. }
  destruct Hnds as (Hna & Hns & Hnr). setoid_rewrite elem_of_keys in Hdiff.
  set (va := fun n => added_mark <$> default [] (desired !! n)).
  set (vr := fun n => omap removed_mark (default [] (actual !! n))).
  set (vs := fun n => default [] (merged_marks (actual !! n) (desired !! n))).
  unfold mbind at 1, M_bind at 1. rewrite (for_each_modify _ (fun n => append_marks n (va n))).
  2: { intros n s Hn. apply Hdiff in Hn as [[d Hn] _]. unfold va. by rewrite Hn. }
  unfold mbind at 1, M_bind at 1. rewrite (for_each_modify _ (fun n => append_marks n (vr n))).
  2: { intros n s Hn. apply Hdiff in Hn as [[d Hn] _]. unfold vr. by rewrite Hn. }
  unfold mbind at 1, M_bind at 1. rewrite (for_each_modify _ (fun n => insert n (vs n))).
  2: { intros n s Hn. apply Hdiff in Hn as [[a Ha] [d Hd']]. unfold vs. rewrite Ha, Hd'. cbn. by case_decide. }
  eexists. split; [done|]. intros n.
  set (m1 := foldl _ ∅ added). set (m2 := foldl _ m1 removed).
  assert (H1 : forall k, m1 !! k = if decide (k ∈ added) then Some (va k) else None).
  { intros k. unfold m1. erewrite (fill_lookup _ va); [by rewrite lookup_empty|..];
      eauto using append_other, append_new. }
  assert (H2 : forall k, m2 !! k = if decide (k ∈ removed) then Some (vr k) else m1 !! k).
  { intros k. unfold m2. apply (fill_lookup (fun n => append_marks n (vr n)) vr); eauto using append_other, append_new.
    intros j Hj. rewrite H1, decide_False; [done|]. rewrite (proj1 (Hdiff j)). apply Hdiff in Hj. tauto. }
  rewrite (fill_lookup (fun n => insert n (vs n)) vs); [|..|done|].
  - rewrite H2, H1. pose proof (Hdiff n) as (Da & Ds & Dr). unfold va, vr, vs.
    destruct (actual !! n) as [a|], (desired !! n) as [d|]; cbn in *.
    + rewrite decide_True by (apply Ds; split; eauto). done.
    + rewrite decide_False by (rewrite Ds; intros [_ []]; done). rewrite decide_True by (apply Dr; split; [eauto|by intros []]). done.
    + rewrite decide_False by (rewrite Ds; intros [[] _]; done). rewrite decide_False by (rewrite Dr; intros [[] _]; done).
      rewrite decide_True by (apply Da; split; [eauto|by intros []]). done.
    + rewrite !decide_False; [done|rewrite Da; intros [[] _]; done|rewrite Dr; intros [[] _]; done|rewrite Ds; intros [[] _]; done].
  - intros k m j Hj. by rewrite lookup_insert_ne.
  - intros k m _. by rewrite lookup_insert_eq.
  - intros k Hk. apply Hdiff in Hk as Hk'. rewrite H2, decide_False, H1, decide_False; [done|..].
    + rewrite (proj1 (Hdiff k)). tauto.
    + rewrite (proj2 (proj2 (Hdiff k))). tauto.
Qed.
End merge.

(** *** The reconciliation of an allocation *)

Lemma collect_lookup {V} (f : string -> V) pools n :
  collect_map ((fun name => (name, f name)) <$> pools) !! n = if decide (n ∈ pools) then Some (f n) else None.
Proof.
  unfold collect_map. induction pools as [|p pools IH] using rev_ind; [done|].
  rewrite fmap_app, foldl_app. cbn. destruct (decide (p = n)) as [->|Hne].
  - rewrite lookup_insert_eq, decide_True by set_solver. done.
  - rewrite lookup_insert_ne, IH by done. destruct (decide (n ∈ pools)) as [Hin|Hin];
      [rewrite decide_True by set_solver|rewrite decide_False by set_solver]; done.
Qed.

Section reallocate.
Context {I : IpNetApi} {L : IpNetLaws} {T : TextApi} {P : Profile}.
(** The addresses of the list that belong to the block. *)
Definition of_block (s : AllocatorSet) (addrs : list IpAddr) (n : string) : list IpAddr :=
  match blocks s !! n with
  | Some b => filter (fun a => ipnet_contains (block_cidr b) a = true) addrs
  | None => []
  end.

Lemma elem_of_block s addrs n x : x ∈ of_block s addrs n <->
  x ∈ addrs /\ exists b, blocks s !! n = Some b /\ ipnet_contains (block_cidr b) x = true.
Proof.
  unfold of_block. destruct (blocks s !! n) as [b|]; [|set_solver].
  rewrite list_elem_of_filter. naive_solver.
Qed.

(** The pools a service asks for. *)
Definition pools_of (svc : Service) (s : AllocatorSet) : option (list string) :=
  match get_desired_pools svc with
  | Some p => Some p
  | None => (fun a => [a]) <$> AllocatorSetInner.auto_assign s
  end.

(** What is wanted of a pool: the addresses asked for that are in it, or any. *)
Definition want (svc : Service) (s : AllocatorSet) (n : string) : list MarkedAllocation :=
  match of_block s (default [] (get_required_lb_addrs svc)) n with
  | [] => [NotMarked None]
  | l => (fun a => NotMarked (Some a)) <$> l
  end.

Lemma want_wanted svc s n : wanted (want svc s n).
Proof. unfold want, wanted. destruct (of_block _ _ _); [by left|right; by eexists]. Qed.

(** The merged marks of a reconciliation: one entry for each block that is held
    or wanted. *)
Definition marks_for (svc : Service) (s : AllocatorSet) (addrs : list IpAddr) (pools : list string) (n : string) :
    option (list MarkedAllocation) :=
  merged_marks (match of_block s addrs n with [] => None | l => Some (Allocated <$> l) end)
    (if decide (n ∈ pools) then Some (want svc s n) else None).

Lemma marks_for_ok svc s addrs pools n ms : marks_for svc s addrs pools n = Some ms ->
  marks_ok ms /\ forall x, Release x ∈ ms \/ Allocated x ∈ ms -> x ∈ of_block s addrs n.
Proof.
  intros Hm. eapply merged_marks_ok; [exact Hm| |].
  - by destruct (of_block s addrs n).
  - intros d. case_decide; [|done]. intros [= <-]. apply want_wanted.
Qed.

Context (block_iter : gmap string Block.Block -> list (string * Block.Block)).
Context (block_iter_perm : forall m, block_iter m ≡ₚ map_to_list m).
Context (alloc_iter : gmap string (list MarkedAllocation) -> list (string * list MarkedAllocation)).
Context (alloc_iter_perm : forall m, alloc_iter m ≡ₚ map_to_list m).

Lemma actual_lookup s addrs n :
  mark_actual (AllocatorSetInner.get_blocks_from_addrs block_iter s addrs) !! n =
    match of_block s addrs n with [] => None | l => Some (Allocated <$> l) end.
Proof.
  unfold mark_actual, of_block, block_cidr. rewrite lookup_fmap, (AllocatorSetInner.get_blocks_from_addrs_spec block_iter block_iter_perm).
  destruct (blocks s !! n) as [b|]; [|done]. by destruct (filter _ addrs).
Qed.

Lemma desired_lookup svc s :
  match pools_of svc s with
  | Some pools => exists d, build_desired_allocation block_iter svc s = Ok d /\
      forall n, d !! n = if decide (n ∈ pools) then Some (want svc s n) else None
  | None => build_desired_allocation block_iter svc s = Err NoAllocatableAddress
  end.
Proof.
  assert (Hreq : forall pools, exists d : gmap string (list MarkedAllocation),
    match get_required_lb_addrs svc with
    | Some addrs => mret (collect_map ((fun name => (name, desired_marks (AllocatorSetInner.get_blocks_from_addrs block_iter s addrs) name)) <$> pools))
    | None => mret (collect_map ((fun name => (name, [NotMarked None])) <$> pools))
    end = Ok (E:=Error) d /\ forall n, d !! n = if decide (n ∈ pools) then Some (want svc s n) else None).
  { intros pools. unfold want. destruct (get_required_lb_addrs svc) as [addrs|]; cbn; eexists; (split; [done|]); intros n.
    - rewrite collect_lookup. case_decide; [|done]. f_equal. unfold desired_marks, of_block.
      rewrite (AllocatorSetInner.get_blocks_from_addrs_spec block_iter block_iter_perm). unfold block_cidr.
      destruct (blocks s !! n) as [b|]; [|done]. by destruct (filter _ addrs).
    - rewrite collect_lookup. case_decide; [|done]. f_equal. unfold of_block. by destruct (blocks s !! n). }
  unfold pools_of, build_desired_allocation. destruct (get_desired_pools svc) as [pools|]; [apply Hreq|].
  destruct (AllocatorSetInner.auto_assign s) as [a|]; [apply Hreq|done].
Qed.

Lemma reallocate_eq svc s addrs :
  match pools_of svc s with
  | None => reallocate block_iter alloc_iter svc addrs s = (Err NoAllocatableAddress, s)
  | Some pools => exists l, NoDup l.*1 /\
      (forall n ms, (n, ms) ∈ l <-> marks_for svc s addrs pools n = Some ms) /\
      reallocate block_iter alloc_iter svc addrs s =
        (match for_fold update_block l ([], []) s with
         | (Ok acc, s') => (Ok acc.1, s') | (Err e, s') => (Err e, s') | (Panic, s') => (Panic, s')
         end)
  end.
Proof.
  pose proof (desired_lookup svc s) as Hd. unfold reallocate. rewrite bind_get. cbv zeta.
  destruct (pools_of svc s) as [pools|].
  - destruct Hd as (d & Hd & Hdl).
    destruct (merge_lookup alloc_iter alloc_iter_perm
      (mark_actual (AllocatorSetInner.get_blocks_from_addrs block_iter s addrs)) d) as (m & Hm & Hml).
    exists (alloc_iter m). split; [by apply NoDup_keys|]. split.
    + intros n ms. rewrite alloc_iter_perm, elem_of_map_to_list, Hml, actual_lookup, Hdl. done.
    + unfold lift, mbind, M_bind. rewrite Hd, Hm. by destruct (for_fold _ _ _ _) as [[]].
  - unfold lift, mbind, M_bind. by rewrite Hd.
Qed.

Lemma reallocate_run svc s addrs : set_ok s ->
  exists r s', reallocate block_iter alloc_iter svc addrs s = (r, s') /\ r <> Panic /\ set_ok s' /\ same_cidrs s s' /\
    (forall x, Held s x -> (x ∉ addrs) -> Held s' x) /\
    (forall rem, r = Ok rem -> forall x, x ∈ rem -> Held s' x /\ (x ∈ addrs \/ ~ Held s x)).
Proof.
  intros Hs. pose proof (reallocate_eq svc s addrs) as Hr. destruct (pools_of svc s) as [pools|].
  2: { exists (Err NoAllocatableAddress), s. rewrite Hr. by split_and!; try done; apply same_cidrs_refl. }
  destruct Hr as (l & Hnd & Hl & ->).
  assert (Hown : forall n ms x, (n, ms) ∈ l -> Release x ∈ ms \/ Allocated x ∈ ms -> x ∈ of_block s addrs n).
  { intros n ms x Hn. apply Hl in Hn. by apply (marks_for_ok _ _ _ _ _ _ Hn). }
  destruct (update_blocks_run l s ([], []) Hnd Hs) as (r & s' & Hrun & Hp & Hs' & Hsc & Hk & Hg).
  { intros n ms b Hn Hb. apply Forall_forall. intros m Hm.
    destruct m as [|x| |x]; try done; cbn; (destruct (proj1 (elem_of_block s addrs n x)) as (_ & b' & Hb' & Hx);
      [eapply Hown; eauto|congruence]). }
  rewrite Hrun. exists (match r with Ok acc => Ok acc.1 | Err e => Err e | Panic => Panic end), s'.
  split_and!; try done; [by destruct r|by destruct r| |].
  - intros x Hx Hna. apply Hk; [done|]. intros n ms b Hn _ Hrel. apply Hna.
    apply (elem_of_block s addrs n x). eapply Hown; eauto.
  - intros rem Hr x Hx. destruct r as [acc|e|]; [|done|done]. injection Hr as <-.
    destruct (Hg acc eq_refl) with (x := x) as [Hnil|(Hh & n & ms & b & Hn & Hb & Hc & Hax)]; [|done|by apply elem_of_nil in Hnil|].
    + apply Forall_fmap, Forall_forall. intros [n ms] Hn. apply Hl in Hn. by apply (marks_for_ok _ _ _ _ _ _ Hn).
    + split; [done|]. destruct Hax as [Hax|]; [left|by right]. apply (elem_of_block s addrs n x). eapply Hown; eauto.
Qed.
End reallocate.

(** *** Releasing *)

Section release.
Context {I : IpNetApi} {L : IpNetLaws} {T : TextApi} {P : Profile}.

Lemma release_one_eq acc a b H : block_ok b H ->
  release_one acc a b =
    if decide (a ∈ H) then
      match on_allocator (Allocator.on_bit (run_op (ORelease a))) b with
      | (Ok a, b') => (Ok (acc ++ [a]), b') | (Err _, b') => (Ok acc, b') | (Panic, b') => (Panic, b')
      end
    else (Ok acc, b).
Proof.
  intros Hb. unfold release_one. rewrite bind_get. destruct (ipnet_contains _ a) eqn:Hc; cbn [negb].
  - unfold lift, mbind, M_bind. rewrite (is_allocated_held _ _ a Hb). cbn [known].
    destruct (decide (a ∈ H)) as [Ha|Ha]; [by rewrite bool_decide_true|by rewrite bool_decide_false].
  - rewrite decide_False; [done|]. intros Ha. eapply held_contained in Ha; [|done]. unfold block_cidr in Ha. congruence.
Qed.

Lemma release_loop k b H acc : block_ok b H ->
  exists acc' b' H', for_fold release_one k acc b = (Ok acc', b') /\ block_ok b' H' /\
    block_cidr b' = block_cidr b /\ (forall x, x ∈ H -> (x ∉ acc') -> x ∈ H') /\
    (forall x, x ∈ acc -> x ∈ acc') /\ (forall x, x ∈ acc' -> x ∈ acc \/ x ∈ k).
Proof.
  revert b H acc. induction k as [|a k IH]; intros b H acc Hb.
  { exists acc, b, H. split_and!; try done. by left. }
  assert (Hskip : exists acc' b' H', for_fold release_one k acc b = (Ok acc', b') /\ block_ok b' H' /\
    block_cidr b' = block_cidr b /\ (forall x, x ∈ H -> (x ∉ acc') -> x ∈ H') /\
    (forall x, x ∈ acc -> x ∈ acc') /\ (forall x, x ∈ acc' -> x ∈ acc \/ x ∈ a :: k)).
  { destruct (IH b H acc Hb) as (acc' & b' & H' & Hrun & Hb' & Hc & Hk & Hin & Hout). exists acc', b', H'.
    split_and!; try done. intros x Hx. apply Hout in Hx. set_solver. }
  cbn [for_fold]. unfold mbind, M_bind. rewrite (release_one_eq _ _ _ _ Hb).
  case_decide as Ha; [|exact Hskip].
  destruct (block_op b H (ORelease a) Hb) as (r & b1 & H1 & Hrun & He & Hb1 & Hc1); [done|].
  rewrite Hrun. destruct r as [y|e|]; inversion He; subst.
  - destruct (IH b1 _ (acc ++ [y]) Hb1) as (acc' & b' & H' & Hrun' & Hb' & Hc & Hk & Hin & Hout).
    exists acc', b', H'. split_and!; try done; [congruence|..].
    + intros x Hx Hna. apply Hk; [|done]. apply elem_of_difference. split; [done|].
      intros Hxy%elem_of_singleton. subst. apply Hna, Hin. set_solver.
    + intros x Hx. apply Hin. set_solver.
    + intros x Hx. apply Hout in Hx. set_solver.
  - destruct (IH b1 H1 acc Hb1) as (acc' & b' & H' & Hrun' & Hb' & Hc & Hk & Hin & Hout). exists acc', b', H'.
    split_and!; try done; [congruence|]. intros x Hx. apply Hout in Hx. set_solver.
Qed.

Lemma release_pools_loop addrs pools s acc : set_ok s ->
  exists acc' s', for_fold (fun acc pool => r ← on_block pool (for_fold release_one addrs acc); mret (default acc r)) pools acc s
      = (Ok acc', s') /\ set_ok s' /\ same_cidrs s s' /\
    (forall x, Held s x -> (x ∉ acc') -> Held s' x) /\
    (forall x, x ∈ acc -> x ∈ acc') /\ (forall x, x ∈ acc' -> x ∈ acc \/ x ∈ addrs).
Proof.
  revert s acc. induction pools as [|p pools IH]; intros s acc Hs.
  { exists acc, s. split_and!; try done. by left. }
  cbn [for_fold]. unfold mbind, M_bind. rewrite on_block_eq. destruct (blocks s !! p) as [b|] eqn:Hp.
  2: { destruct (IH s acc Hs) as (acc' & s' & Hrun & Hrest). by exists acc', s'. }
  destruct (proj1 Hs _ _ Hp) as [H Hb].
  destruct (release_loop addrs b H acc Hb) as (acc1 & b1 & H1 & Hrun1 & Hb1 & Hc1 & Hk1 & Hin1 & Hout1).
  destruct (set_block_ok s p b b1 H H1 Hs Hp Hb Hb1 Hc1) as (Hs1 & Hsc1 & Hheld).
  rewrite Hrun1. cbn [default].
  destruct (IH (set_block p b1 s) acc1 Hs1) as (acc' & s' & Hrun & Hs' & Hsc & Hk & Hin & Hout).
  exists acc', s'. split_and!; try done.
  - by eapply same_cidrs_trans.
  - intros x Hx Hna. apply Hk; [|done]. rewrite Hheld.
    destruct (ipnet_contains (block_cidr b) x) eqn:Hcx; [|done]. apply Hk1; [by apply (Held_in s p b H x)|].
    intros Hx1. by apply Hna, Hin.
  - intros x Hx. by apply Hin, Hin1.
  - intros x Hx. destruct (Hout x Hx) as [Hx1|]; [|by right]. by apply Hout1.
Qed.

Lemma release_addrs_run svc s addrs : set_ok s ->
  exists r s', release_lb_addrs svc addrs s = (r, s') /\ r <> Panic /\ set_ok s' /\ same_cidrs s s' /\
    (forall x, Held s x -> (x ∉ addrs) -> Held s' x) /\
    (forall rel, r = Ok rel -> forall x, Held s x -> (x ∉ rel) -> Held s' x).
Proof.
  intros Hs. unfold release_lb_addrs, lift, mbind at 1, M_bind at 1.
  destruct (get_namespace (svc_meta svc)) as [ns|e|] eqn:Hns.
  2: { exists (Err e), s. by split_and!; try done; apply same_cidrs_refl. }
  2: { unfold get_namespace in Hns. by destruct (m_namespace _). }
  rewrite bind_get. cbv zeta. case_bool_decide.
  { exists (Err NoAllocatableBlock), s. by split_and!; try done; apply same_cidrs_refl. }
  destruct (release_pools_loop addrs (release_pools svc s) s [] Hs) as (acc & s' & Hrun & Hs' & Hsc & Hk & _ & Hout).
  exists (Ok acc), s'. split_and!; try done.
  - intros x Hx Hna. apply Hk; [done|]. intros Hx'. apply Hout in Hx'. set_solver.
  - by intros rel [= <-].
Qed.
End release.

(** *** What a service gets *)

Section satisfied.
Context {I : IpNetApi} {L : IpNetLaws} {T : TextApi} {P : Profile}.

(** The addresses a mark gives. *)
Definition mark_out (m : MarkedAllocation) : list IpAddr :=
  match m with Allocate (Some x) | Allocated x => [x] | _ => [] end.

Lemma fold_out ms b H acc acc' b' : block_ok b H -> (Allocate None ∉ ms) ->
  for_fold update_allocation ms acc b = (Ok acc', b') -> acc'.1 = acc.1 ++ (ms ≫= mark_out).
Proof.
  revert b H acc. induction ms as [|m ms IH]; intros b H acc Hb Hn Hrun.
  { injection Hrun as <- <-. cbn. by rewrite app_nil_r. }
  apply not_elem_of_cons in Hn as [Hm Hn]. cbn [for_fold] in Hrun.
  destruct (update_step b H acc m Hb) as (r & b1 & H1 & Hr & He & Hb1 & _).
  unfold mbind, M_bind in Hrun. rewrite Hr in Hrun. destruct r as [acc1|e|]; [|done|done].
  rewrite (IH b1 H1 acc1 Hb1 Hn Hrun), bind_cons, app_assoc. f_equal.
  inversion He as [o x Ho| | |]; subst; cbn; rewrite ?app_nil_r; try done. by destruct Ho; subst.
Qed.

Lemma updates_out ms b H acc b' : block_ok b H -> update_allocations ms b = (Ok acc, b') ->
  ((Allocate None ∉ ms) -> acc.1 ≡ₚ (ms ≫= mark_out)) /\ (ms = [Allocate None] -> acc.1 <> []).
Proof.
  intros Hb Hrun. unfold update_allocations in Hrun. apply bind_inv_ok in Hrun as (acc0 & b1 & Hrun & [= <- <-]). cbn.
  unfold sort_addrs. split.
  - intros Hn. rewrite merge_sort_Permutation. by rewrite (fold_out _ _ _ _ _ _ Hb Hn Hrun).
  - intros -> Hnil. pose proof (merge_sort_Permutation addr_le acc0.1) as Hp. rewrite Hnil in Hp. apply Permutation_nil in Hp.
    cbn [for_fold] in Hrun. destruct (update_step b H ([], []) (Allocate None) Hb) as (r & b2 & H2 & Hr & He & _).
    unfold mbind, M_bind in Hrun. rewrite Hr in Hrun. destruct r as [acc1|e|]; [|done|done]. injection Hrun as <- <-.
    inversion He; subst. by cbn in Hp.
Qed.

(** Addresses that are held already are kept and nothing changes. *)
Lemma keep_all k b H acc : block_ok b H -> (forall x, x ∈ k -> x ∈ H) ->
  for_fold update_allocation (Allocated <$> k) acc b = (Ok (acc.1 ++ k, acc.2), b).
Proof.
  revert acc. induction k as [|x k IH]; intros acc Hb Hk.
  { cbn. rewrite app_nil_r. by destruct acc. }
  cbn [fmap list_fmap for_fold]. unfold mbind, M_bind, update_allocation. rewrite bind_get. unfold lift, mbind, M_bind.
  rewrite (is_allocated_held _ _ x Hb). cbn [known]. rewrite bool_decide_true by (apply Hk; left).
  unfold mret, M_ret. rewrite IH; [|done|intros y Hy; apply Hk; by right]. cbn. by rewrite <-app_assoc.
Qed.

Lemma set_block_id s n b : blocks s !! n = Some b -> set_block n b s = s.
Proof.
  intros Hn. unfold set_block, AllocatorSetInner.get_mut. destruct s as [bl ai au]. f_equal. cbn in *.
  apply map_eq. intros k. rewrite lookup_alter. case_decide; [subst; by rewrite Hn|done].
Qed.

(** The addresses [a] that the marks of a block give. *)
Definition block_out (s : AllocatorSet) (nm : string * list MarkedAllocation) (a : list IpAddr) : Prop :=
  match blocks s !! nm.1 with
  | Some b => (forall x, x ∈ a -> ipnet_contains (block_cidr b) x = true) /\
      exists H rm b', block_ok b H /\ update_allocations nm.2 b = (Ok (a, rm), b')
  | None => a = []
  end.

Lemma update_blocks_out l s acc acc' s' : NoDup l.*1 -> set_ok s -> Forall marks_ok l.*2 ->
  for_fold update_block l acc s = (Ok acc', s') ->
  exists outs, acc'.1 = acc.1 ++ concat outs /\ Forall2 (block_out s) l outs.
Proof.
  revert s acc. induction l as [|[n ms] l IH]; intros s acc Hnd Hs Hok Hrun.
  { injection Hrun as <- <-. exists []. cbn. by rewrite app_nil_r. }
  cbn in Hnd, Hok. apply NoDup_cons in Hnd as [Hnin Hnd]. apply Forall_cons in Hok as [Hok1 Hok].
  cbn [for_fold] in Hrun. unfold mbind, M_bind in Hrun. rewrite update_block_eq in Hrun.
  destruct (blocks s !! n) as [b|] eqn:Hn.
  2: { destruct (IH s acc Hnd Hs Hok Hrun) as (outs & Hacc & Hf). exists ([] :: outs). split; [done|].
       constructor; [|done]. unfold block_out. cbn. by rewrite Hn. }
  destruct (proj1 Hs _ _ Hn) as [H Hb].
  destruct (update_allocations_run b H ms Hb) as (r & b1 & H1 & Hr & _ & Hb1 & Hc1 & _ & Hd1).
  destruct (set_block_ok s n b b1 H H1 Hs Hn Hb Hb1 Hc1) as (Hs1 & _ & _).
  rewrite Hr in Hrun. destruct r as [[a rm]|e|]; [|done|done].
  destruct (IH _ _ Hnd Hs1 Hok Hrun) as (outs & Hacc & Hf). exists (a :: outs). split; [cbn in *; by rewrite Hacc, app_assoc|].
  constructor.
  - unfold block_out. cbn. rewrite Hn. split; [|eauto]. intros x Hx. by destruct (proj2 (Hd1 _ eq_refl) Hok1 x Hx) as (_ & ? & _).
  - eapply Forall2_weaken; [exact Hf|]. intros [m k] o Hmk Ho. unfold block_out in *. cbn [fst snd] in *.
    rewrite (lookup_set_block _ _ b) in Ho by done. rewrite decide_False in Ho; [done|].
    intros ->. apply Hnin, list_elem_of_fmap. by exists (m, k).
Qed.

(** The addresses a block is left with are those its marks gave. *)
Lemma of_block_outs s l outs n : NoDup l.*1 -> set_ok s -> Forall2 (block_out s) l outs ->
  of_block s (concat outs) n =
    match list_find (fun nm => n = nm.1) l with
    | Some (i, _) => default [] (outs !! i)
    | None => []
    end.
Proof.
  intros Hnd Hs Hf. induction Hf as [|[m ms] a l outs Ha Hf IH].
  { unfold of_block. by destruct (blocks s !! n). }
  apply NoDup_cons in Hnd as [Hnin Hnd]. specialize (IH Hnd). cbn [concat].
  assert (Happ : of_block s (a ++ concat outs) n = of_block s a n ++ of_block s (concat outs) n).
  { unfold of_block. destruct (blocks s !! n); [apply filter_app|done]. }
  rewrite Happ, IH. cbn [list_find]. unfold block_out in Ha. cbn [fst] in Ha.
  destruct (decide (n = (m, ms).1)) as [Heq|Hne]; cbn in *.
  - subst m. replace (list_find _ l) with (@None (nat * (string * list MarkedAllocation))).
    2: { symmetry. apply list_find_None, Forall_forall. intros [k ks] Hk Hnk. cbn in Hnk. subst.
         apply Hnin, list_elem_of_fmap. by exists (k, ks). }
    rewrite app_nil_r. unfold of_block. destruct (blocks s !! n) as [b|] eqn:Hn; [|by subst].
    apply filter_every. apply Forall_forall. by apply Ha.
  - assert (Hnil : of_block s a n = []).
    { unfold of_block. destruct (blocks s !! n) as [b|] eqn:Hn; [|done]. apply filter_nothing, Forall_forall.
      intros x Hx Hcx. destruct (blocks s !! m) as [b'|] eqn:Hm; [|subst; by apply elem_of_nil in Hx].
      apply Hne. eapply (proj2 Hs); [exact Hn|exact Hm|done|by apply Ha]. }
    rewrite Hnil. cbn. destruct (list_find _ l) as [[i y]|]; done.
Qed.

Lemma same_of_block s s' addrs n : same_cidrs s s' -> of_block s' addrs n = of_block s addrs n.
Proof.
  intros [_ H]. specialize (H n). unfold of_block. destruct (blocks s' !! n), (blocks s !! n); try done.
  by injection H as ->.
Qed.

Lemma same_pools svc s s' : same_cidrs s s' -> pools_of svc s' = pools_of svc s.
Proof. intros [H _]. unfold pools_of. by rewrite H. Qed.

(** The addresses are what the service asks for: of each pool it names, the
    addresses it asks for, or at least one if it asks for none there; of no
    other block any. *)
Definition satisfied (svc : Service) (s : AllocatorSet) (addrs : list IpAddr) : Prop :=
  exists pools, pools_of svc s = Some pools /\
  (forall x, x ∈ addrs -> exists n, x ∈ of_block s addrs n) /\
  forall n b, blocks s !! n = Some b ->
    if decide (n ∈ pools) then
      match of_block s (default [] (get_required_lb_addrs svc)) n with
      | [] => of_block s addrs n <> []
      | w => of_block s addrs n ≡ₚ w
      end
    else of_block s addrs n = [].

Lemma satisfied_same svc s s' addrs : same_cidrs s s' -> satisfied svc s addrs -> satisfied svc s' addrs.
Proof.
  intros Hsc (pools & Hp & Hin & Hn). exists pools. rewrite (same_pools _ _ _ Hsc). split; [done|]. split.
  - intros x Hx. destruct (Hin x Hx) as [n Hxn]. exists n. by rewrite (same_of_block _ _ _ _ Hsc).
  - intros n b Hb. rewrite !(same_of_block _ _ _ _ Hsc).
    destruct (same_cidrs_lookup _ _ _ _ Hsc Hb) as (b0 & Hb0 & _). by eapply Hn.
Qed.

Lemma bind_allocate w : (((fun x => Allocate (Some x)) <$> w) ≫= mark_out) = w.
Proof. induction w as [|x w IH]; [done|]. rewrite fmap_cons, bind_cons, IH. done. Qed.

Lemma bind_allocated w : ((Allocated <$> w) ≫= mark_out) = w.
Proof. induction w as [|x w IH]; [done|]. rewrite fmap_cons, bind_cons, IH. done. Qed.

Lemma bind_desired a w : (omap (shared_desired a) ((fun x => NotMarked (Some x)) <$> w) ≫= mark_out) = w.
Proof.
  induction w as [|x w IH]; [done|]. cbn [fmap list_fmap]. cbn. case_decide; cbn; by f_equal.
Qed.

Lemma bind_none {A} (f : A -> option MarkedAllocation) l : (forall x m, f x = Some m -> exists y, m = Release y) ->
  (omap f l ≫= mark_out) = [].
Proof.
  intros Hf. induction l as [|x l IH]; [done|]. cbn. destruct (f x) as [m|] eqn:Hm; [|done].
  destruct (Hf _ _ Hm) as [y ->]. cbn. done.
Qed.

Lemma shared_actual_release d x m : shared_actual d x = Some m -> exists y, m = Release y.
Proof. destruct x as [|x| |]; cbn; try done. case_decide; naive_solver. Qed.

Lemma removed_mark_release x m : removed_mark x = Some m -> exists y, m = Release y.
Proof. destruct x; naive_solver. Qed.

Lemma shared_desired_some a x m : shared_desired a x = Some m -> m <> Allocate None.
Proof. destruct x as [[x|]| | |]; cbn; try done. case_decide; naive_solver. Qed.

(** What the marks of a block give, when the update succeeds. *)
Lemma marks_for_out svc s addrs pools n b a : blocks s !! n = Some b ->
  match marks_for svc s addrs pools n with
  | Some ms => block_out s (n, ms) a
  | None => a = []
  end ->
  if decide (n ∈ pools) then
    match of_block s (default [] (get_required_lb_addrs svc)) n with
    | [] => a <> []
    | w => a ≡ₚ w
    end
  else a = [].
Proof.
  intros Hb Ha. unfold marks_for in Ha. set (own := of_block s addrs n) in *.
  destruct (decide (n ∈ pools)) as [Hp|Hp].
  - destruct (merged_marks _ _) as [ms|] eqn:Hms; [|by destruct own].
    unfold block_out in Ha. cbn [fst snd] in Ha. rewrite Hb in Ha. destruct Ha as (_ & H & rm & b' & Hbk & Hrun).
    destruct (updates_out _ _ _ _ _ Hbk Hrun) as [Hout Hany]. cbn [fst] in Hout, Hany. unfold want in Hms.
    destruct (of_block s (default [] _) n) as [|x w] eqn:Hw.
    + destruct own as [|y own]; cbn [merged_marks] in Hms; apply (inj Some) in Hms as <-; [by apply Hany|].
      rewrite decide_True in Hout by done. rewrite (bind_allocated (y :: own)) in Hout. intros Hnil.
      rewrite Hnil in Hout. specialize (Hout ltac:(rewrite list_elem_of_fmap; naive_solver)).
      by apply Permutation_nil_cons in Hout.
    + destruct own as [|y own]; cbn [merged_marks] in Hms; apply (inj Some) in Hms as <-.
      * rewrite <-list_fmap_compose in Hout. change (added_mark ∘ _) with (fun x => Allocate (Some x)) in Hout.
        rewrite (bind_allocate (x :: w)) in Hout. apply Hout. rewrite list_elem_of_fmap. naive_solver.
      * rewrite decide_False in Hout by done.
        rewrite bind_app, bind_desired, bind_none, app_nil_r in Hout by (intros ? ?; apply shared_actual_release).
        apply Hout. rewrite elem_of_app, !list_elem_of_omap. intros [(z & _ & Hz)|(z & _ & Hz)].
        -- by apply shared_desired_some in Hz.
        -- by apply shared_actual_release in Hz as [? ?].
  - destruct (merged_marks _ _) as [ms|] eqn:Hms; [|done].
    unfold block_out in Ha. cbn [fst snd] in Ha. rewrite Hb in Ha. destruct Ha as (_ & H & rm & b' & Hbk & Hrun).
    destruct (updates_out _ _ _ _ _ Hbk Hrun) as [Hout _]. cbn [fst] in Hout.
    destruct own as [|y own]; cbn [merged_marks] in Hms; [done|]. apply (inj Some) in Hms as <-.
    rewrite bind_none in Hout by (intros ? ?; apply removed_mark_release).
    apply Permutation_nil. symmetry. apply Hout. rewrite list_elem_of_omap. intros (z & _ & Hz).
    by apply removed_mark_release in Hz as [? ?].
Qed.

(** *** A partition by blocks *)

Definition in_named (s : AllocatorSet) (n : string) (x : IpAddr) : Prop :=
  match blocks s !! n with Some b => ipnet_contains (block_cidr b) x = true | None => False end.

#[global] Instance in_named_dec s n x : Decision (in_named s n x).
Proof. unfold in_named. destruct (blocks s !! n); apply _. Defined.

Lemma of_block_filter s addrs n : of_block s addrs n = filter (in_named s n) addrs.
Proof.
  unfold of_block. destruct (blocks s !! n) as [b|] eqn:Hn.
  - apply list_filter_iff. intros x. unfold in_named. by rewrite Hn.
  - symmetry. apply filter_nothing, Forall_forall. intros x _. unfold in_named. rewrite Hn. tauto.
Qed.

Lemma filter_disjoint {A} (Q R : A -> Prop) `{!forall x, Decision (Q x), !forall x, Decision (R x)} l :
  (forall x, Q x -> R x -> False) -> filter (fun x => Q x \/ R x) l ≡ₚ filter Q l ++ filter R l.
Proof.
  intros Hd. induction l as [|x l IH]; [done|]. rewrite !filter_cons.
  destruct (decide (Q x)) as [Hq|Hq], (decide (R x)) as [Hr|Hr]; [by destruct (Hd x)|..];
    [rewrite decide_True by tauto|rewrite decide_True by tauto|rewrite decide_False by tauto];
    [cbn; by rewrite IH|rewrite <-Permutation_middle; by rewrite IH|exact IH].
Qed.

Lemma by_blocks s addrs names : set_ok s -> NoDup names ->
  concat (of_block s addrs <$> names) ≡ₚ filter (fun x => Exists (fun n => in_named s n x) names) addrs.
Proof.
  intros Hs. induction names as [|n names IH]; intros Hnd.
  { cbn. rewrite filter_nothing; [done|]. apply Forall_forall. intros x _ Hx. by inversion Hx. }
  apply NoDup_cons in Hnd as [Hn Hnd]. cbn. rewrite IH, of_block_filter by done.
  rewrite <-(filter_disjoint (in_named s n) (fun x => Exists (fun n => in_named s n x) names)).
  - apply reflexive_eq, list_filter_iff. intros x. by rewrite Exists_cons.
  - intros x Hx (m & Hm & Hmx)%Exists_exists. unfold in_named in *.
    destruct (blocks s !! n) eqn:Hbn; [|done]. destruct (blocks s !! m) eqn:Hbm; [|done].
    assert (n = m) as -> by (by eapply (proj2 Hs)). done.
Qed.

Section iter.
Context (block_iter : gmap string Block.Block -> list (string * Block.Block)).
Context (block_iter_perm : forall m, block_iter m ≡ₚ map_to_list m).
Context (alloc_iter : gmap string (list MarkedAllocation) -> list (string * list MarkedAllocation)).
Context (alloc_iter_perm : forall m, alloc_iter m ≡ₚ map_to_list m).

Lemma reallocate_satisfies svc s addrs rem s' : set_ok s ->
  reallocate block_iter alloc_iter svc addrs s = (Ok rem, s') -> satisfied svc s' rem.
Proof.
  intros Hs Hrun. destruct (reallocate_run _ block_iter_perm _ alloc_iter_perm svc s addrs Hs)
    as (r & s1 & Hrun' & _ & _ & Hsc & _). rewrite Hrun in Hrun'. injection Hrun' as <- <-.
  apply (satisfied_same svc s); [done|]. pose proof (reallocate_eq _ block_iter_perm _ alloc_iter_perm svc s addrs) as Hre.
  unfold satisfied. destruct (pools_of svc s) as [pools|]; [|congruence]. exists pools. split; [done|].
  destruct Hre as (l & Hnd & Hl & Hre). rewrite Hre in Hrun.
  destruct (for_fold update_block l ([], []) s) as [[acc|e|] s2] eqn:Hloop; [|done|done]. injection Hrun as <- <-.
  destruct (update_blocks_out l s ([], []) acc s2 Hnd Hs) as (outs & Hacc & Hf); [|done|].
  { apply Forall_fmap, Forall_forall. intros [n ms] Hn. apply Hl in Hn. by apply (marks_for_ok _ _ _ _ _ _ Hn). }
  cbn in Hacc. rewrite Hacc. split.
  - intros x Hx. assert (Hx' := Hx). rewrite list_elem_of_In in Hx'. apply in_concat in Hx' as (a & Ha & Hxa). 
    apply list_elem_of_In in Ha, Hxa.
    apply list_elem_of_lookup in Ha as [i Hi]. destruct (Forall2_lookup_r _ _ _ _ _ Hf Hi) as ([n ms] & Hn & Ho).
    exists n. apply (elem_of_block s (concat outs) n x). split; [done|]. unfold block_out in Ho. cbn [fst snd] in Ho.
    destruct (blocks s !! n) as [b|]; [|subst; by apply elem_of_nil in Hxa]. exists b. split; [done|]. by apply Ho.
  - intros n b Hb. rewrite (of_block_outs _ _ _ n Hnd Hs Hf). eapply marks_for_out; [done|].
    destruct (list_find _ l) as [[i [m ms]]|] eqn:Hfind.
    + apply list_find_Some in Hfind as (Hi & Hnm & _). cbn in Hnm. subst m.
      destruct (Forall2_lookup_l _ _ _ _ _ Hf Hi) as (a & Ha & Ho). rewrite Ha. cbn.
      assert (Hms : marks_for svc s addrs pools n = Some ms) by (apply Hl; by eapply list_elem_of_lookup_2). by rewrite Hms.
    + destruct (marks_for svc s addrs pools n) as [ms|] eqn:Hms; [|done]. apply Hl in Hms.
      eapply list_find_None, Forall_forall in Hfind; [|done]. done.
Qed.

(** Marks that keep the addresses of [k], all of them held. *)
Lemma keep_block s n b H k acc : blocks s !! n = Some b -> block_ok b H -> (forall x, x ∈ k -> x ∈ H) ->
  update_block acc (n, Allocated <$> k) s = (Ok (acc.1 ++ sort_addrs k, acc.2), s).
Proof.
  intros Hn Hb Hk. rewrite update_block_eq, Hn. unfold update_allocations, mbind, M_bind.
  rewrite (keep_all k b H ([], []) Hb Hk). cbn -[set_block]. rewrite (set_block_id s n b Hn).
  unfold sort_addrs. cbn. by rewrite app_nil_r.
Qed.

(** The marks of a service that has what it asks for. *)
Lemma satisfied_marks svc s addrs pools n ms b :
  (if decide (n ∈ pools) then
     match of_block s (default [] (get_required_lb_addrs svc)) n with
     | [] => of_block s addrs n <> []
     | w => of_block s addrs n ≡ₚ w
     end
   else of_block s addrs n = []) ->
  blocks s !! n = Some b -> marks_for svc s addrs pools n = Some ms ->
  exists k, ms = Allocated <$> k /\ k ≡ₚ of_block s addrs n.
Proof.
  intros Hsat Hb Hms. unfold marks_for in Hms. revert Hsat Hms. generalize (of_block s addrs n). intros own Hsat Hms.
  destruct (decide (n ∈ pools)) as [Hp|Hp]; [|rewrite Hsat in Hms; done]. unfold want in Hms.
  destruct (of_block s (default [] _) n) as [|x w] eqn:Hw.
  { destruct own as [|y own]; [done|]. exists (y :: own). split; [|done].
    cbn [merged_marks] in Hms. rewrite decide_True in Hms by done. by apply (inj Some) in Hms. }
  assert (Hms' : merged_marks (Some (Allocated <$> own)) (Some ((fun a => NotMarked (Some a)) <$> x :: w)) = Some ms).
  { destruct own as [|y own]; [by apply Permutation_nil_cons in Hsat|done]. }
  clear Hms. rename Hms' into Hms. cbn [merged_marks] in Hms. rewrite decide_False in Hms by done. apply (inj Some) in Hms.
  assert (Hin : forall z, z ∈ x :: w -> Allocated z ∈ (Allocated <$> own)).
  { intros z Hz. apply list_elem_of_fmap. exists z. split; [done|]. by rewrite Hsat. }
  exists (x :: w). split; [|done]. rewrite <-Hms. replace (omap (shared_actual _) _) with (@nil MarkedAllocation).
  - rewrite app_nil_r. revert Hin. generalize (x :: w). clear. intros w Hin. induction w as [|x w IH]; [done|].
    cbn [fmap list_fmap omap list_omap shared_desired]. rewrite decide_True by (apply Hin; left).
    cbn. f_equal. apply IH. intros z Hz. apply Hin. by right.
  - symmetry. assert (Hown : forall z, z ∈ own -> NotMarked (Some z) ∈ ((fun a => NotMarked (Some a)) <$> x :: w)).
    { intros z Hz. apply list_elem_of_fmap. exists z. by rewrite <-Hsat. }
    revert Hown. generalize ((fun a => NotMarked (Some a)) <$> x :: w). clear. intros d Hown.
    induction own as [|z own IH]; [done|]. cbn [fmap list_fmap omap list_omap shared_actual].
    rewrite decide_True by (apply Hown; left). apply IH. intros y Hy. apply Hown. by right.
Qed.

Lemma satisfied_stays svc s addrs : set_ok s -> satisfied svc s addrs -> (forall x, x ∈ addrs -> Held s x) ->
  exists rem, reallocate block_iter alloc_iter svc addrs s = (Ok rem, s) /\ rem ≡ₚ addrs.
Proof.
  intros Hs (pools & Hp & Hin & Hsat) Hheld.
  pose proof (reallocate_eq _ block_iter_perm _ alloc_iter_perm svc s addrs) as Hre. rewrite Hp in Hre.
  destruct Hre as (l & Hnd & Hl & ->).
  assert (Hloop : forall k acc, (forall nm, nm ∈ k -> nm ∈ l) -> exists acc', for_fold update_block k acc s = (Ok acc', s) /\
    acc'.1 ≡ₚ acc.1 ++ concat (of_block s addrs <$> k.*1)).
  { induction k as [|[n ms] k IH]; intros acc Hk.
    { exists acc. cbn. by rewrite app_nil_r. }
    assert (Hstep : exists acc1, update_block acc (n, ms) s = (Ok acc1, s) /\ acc1.1 ≡ₚ acc.1 ++ of_block s addrs n).
    { destruct (blocks s !! n) as [b|] eqn:Hn.
      - destruct (proj1 Hs _ _ Hn) as [H Hb].
        destruct (satisfied_marks svc s addrs pools n ms b) as (j & -> & Hj); [by eapply Hsat|done|apply Hl, Hk; left|].
        eexists. split.
        + apply (keep_block s n b H); [done|done|]. intros x Hx. rewrite Hj in Hx. apply elem_of_block in Hx as (Hx & b' & Hb' & Hc).
          rewrite Hn in Hb'. injection Hb' as <-. apply (Held_in s n b H x); auto.
        + cbn. unfold sort_addrs. by rewrite merge_sort_Permutation, Hj.
      - exists acc. rewrite update_block_eq, Hn. split; [done|]. unfold of_block. rewrite Hn. by rewrite app_nil_r. }
    destruct Hstep as (acc1 & Hr1 & Ha1). destruct (IH acc1) as (acc' & Hr & Ha); [intros nm Hnm; apply Hk; by right|].
    exists acc'. cbn [for_fold]. unfold mbind, M_bind. rewrite Hr1. split; [done|]. rewrite Ha, Ha1. cbn. by rewrite app_assoc. }
  destruct (Hloop l ([], [])) as (acc & Hr & Ha); [done|]. rewrite Hr. exists acc.1. split; [done|].
  rewrite Ha. cbn. rewrite by_blocks by done. rewrite filter_every; [done|]. apply Forall_forall. intros x Hx.
  destruct (Hin x Hx) as [n Hxn]. apply Exists_exists. exists n.
  assert (Hnn := Hxn). apply elem_of_block in Hnn as (_ & b & Hb & Hc). split; [|unfold in_named; by rewrite Hb].
  specialize (Hsat n b Hb). unfold marks_for in Hl.
  assert (Hne : of_block s addrs n <> []) by (intros Hnil; rewrite Hnil in Hxn; by apply elem_of_nil in Hxn).
  apply list_elem_of_fmap. destruct (of_block s addrs n) as [|y own] eqn:Hown; [done|].
  case_decide as Hd; [|done]. eexists (n, _). split; [done|]. apply Hl. rewrite Hown, decide_True by done. done.
Qed.
End iter.
End satisfied.
End ServiceFacts.
