(* ===== verification/KubeServiceWorld.v ===== *)
(** * Services and their addresses over time

    The services in the API server and the blocks in the memory of the
    controller, followed through the turns of the service watcher and the
    changes users make. While no turn fails after it has released an address,
    no two services hold the same address; the turns that break this are
    theorems too. *)

From S2P Require Import Prelude.
From S2P Require Import Net.
From S2P Require Import NetText.
From S2P Require Import IpamBitset.
From S2P Require Import IpamAllocator.
From S2P Require Import IpamManager.
From S2P Require Import KubeApi.
From S2P Require Import KubeService.
From S2P Require Import KubeServiceFacts.

Module ServiceWorld.
Import Kube ServiceWatcher ServiceFacts.

#[local] Abbreviation AllocatorSet := AllocatorSetInner.AllocatorSetInner.
#[local] Abbreviation blocks := AllocatorSetInner.blocks.

(** ** The world *)

Section world.
Context {I : IpNetApi} {T : TextApi} {P : Profile}.

(** The answers of the API server and the iteration orders in one turn. *)
Record Env : Type := {
  e_block_iter : gmap string Block.Block -> list (string * Block.Block);
  e_alloc_iter : gmap string (list MarkedAllocation) -> list (string * list MarkedAllocation);
  e_accepts : list Output -> Output -> bool;
  e_list_slices : list Output -> string -> string -> option (list EndpointSlice);
}.

Definition env_ok (e : Env) : Prop :=
  (forall m, e_block_iter e m ≡ₚ map_to_list m) /\ (forall m, e_alloc_iter e m ≡ₚ map_to_list m).

(** Services by namespace and name, and the memory of the controller. *)
Record World : Type := { services : gmap (string * string) Service; memory : AllocatorSet }.

(** An accepted update of the status changes the status of the stored service. *)
Definition apply_out (o : Output) (m : gmap (string * string) Service) : gmap (string * string) Service :=
  match o with
  | ReplaceStatus ns name new => alter (set_status (svc_status new)) (ns, name) m
  | _ => m
  end.

Fixpoint store_after (accepts : list Output -> Output -> bool) (pre outs : list Output)
    (m : gmap (string * string) Service) : gmap (string * string) Service :=
  match outs with
  | [] => m
  | o :: outs' => store_after accepts (pre ++ [o]) outs' (if accepts pre o then apply_out o m else m)
  end.

(** A turn of the watcher for a service of the store. *)
Definition turn (ev : Event) (e : Env) (key : string * string) (w : World) : res Error Action * World :=
  match services w !! key with
  | None => (Ok AwaitChange, w)
  | Some svc =>
      let '(r, p) := reconciler (e_block_iter e) (e_alloc_iter e) (e_accepts e) (e_list_slices e) ev svc
                       (Build_Proc (memory w) []) in
      (r, {| services := store_after (e_accepts e) [] (sent p) (services w); memory := comp p |})
  end.

(** What happens: a turn, a user who creates or changes a service (the API
    server may drop its status), and the removal of a service. *)
Inductive Label : Type :=
| Turn (ev : Event) (e : Env) (key : string * string)
| Edit (key : string * string) (annotations : gmap string string) (spec : option ServiceSpec) (drop : bool)
| Remove (key : string * string).

Definition edited (key : string * string) (annotations : gmap string string) (spec : option ServiceSpec)
    (st : option ServiceStatus) : Service :=
  {| svc_meta := {| m_name := key.2; m_namespace := Some key.1; m_uid := None; m_labels := ∅;
                    m_annotations := annotations; m_owner_references := [] |};
     svc_spec := spec; svc_status := st |}.

Definition step (w : World) (l : Label) : World :=
  match l with
  | Turn ev e key => (turn ev e key w).2
  | Edit key annotations spec drop =>
      {| services := <[key := edited key annotations spec
                                (if drop then None else services w !! key ≫= svc_status)]> (services w);
         memory := memory w |}
  | Remove key => {| services := delete key (services w); memory := memory w |}
  end.

(** ** The invariant *)

Definition holds (svc : Service) (x : IpAddr) : Prop := x ∈ default [] (get_allocated_lb_addrs svc).

Definition in_block (s : AllocatorSet) (x : IpAddr) : Prop :=
  exists n b, blocks s !! n = Some b /\ ipnet_contains (block_cidr b) x = true.

(** The addresses in a status are written as the watcher writes them. *)
Definition canonical (svc : Service) : Prop :=
  forall st lb l i t a, svc_status svc = Some st -> load_balancer st = Some lb -> ingress lb = Some l ->
    i ∈ l -> ip i = Some t -> parse_addr t = Some a -> t = show_addr a.

Record world_ok (w : World) : Prop := {
  wo_set : set_ok (memory w);
  wo_key ns n svc : services w !! (ns, n) = Some svc ->
    m_namespace (svc_meta svc) = Some ns /\ m_name (svc_meta svc) = n;
  wo_canonical k svc : services w !! k = Some svc -> canonical svc;
  wo_held k svc x : services w !! k = Some svc -> holds svc x -> in_block (memory w) x -> Held (memory w) x;
  wo_unique k1 k2 svc1 svc2 x : services w !! k1 = Some svc1 -> services w !! k2 = Some svc2 ->
    holds svc1 x -> holds svc2 x -> k1 = k2;
}.

(** A turn for a load balancer may fail only if the service has no address yet;
    the addresses noted for release on another service are held by nobody. *)
Definition safe (w : World) (l : Label) : Prop :=
  match l with
  | Turn Apply e key => env_ok e /\ forall svc, services w !! key = Some svc ->
      if is_loadbalancer svc then (exists a, (turn Apply e key w).1 = Ok a) \/ (forall x, ~ holds svc x)
      else forall x k svc', x ∈ default [] (get_releasable_addrs svc) -> services w !! k = Some svc' -> ~ holds svc' x
  | Turn Cleanup e key => env_ok e /\ exists a, (turn Cleanup e key w).1 = Ok a
  | _ => True
  end.

Fixpoint safe_run (w : World) (ls : list Label) : Prop :=
  match ls with [] => True | l :: ls' => safe w l /\ safe_run (step w l) ls' end.
End world.

Section facts.
Context {I : IpNetApi} {L : IpNetLaws} {T : TextApi} {TL : TextLaws} {P : Profile}.

Lemma ingress_addrs_show l : ingress_addrs (addr_ingress <$> l) = l.
Proof. induction l as [|a l IH]; [done|]. cbn. by rewrite parse_show_addr; f_equal. Qed.

Lemma updated_addrs svc l : get_allocated_lb_addrs (update_svc_lb_addrs svc l) = Some l.
Proof. unfold get_allocated_lb_addrs, update_svc_lb_addrs. by destruct (svc_status svc); cbn; rewrite ingress_addrs_show. Qed.

Lemma updated_canonical svc l : canonical (update_svc_lb_addrs svc l).
Proof.
  intros st lb k i t a Hst Hlb Hk Hi Ht Ha. unfold update_svc_lb_addrs in Hst.
  assert (k = addr_ingress <$> l) as ->
    by (destruct (svc_status svc); injection Hst as <-; injection Hlb as <-; by injection Hk as <-).
  apply list_elem_of_fmap in Hi as (b & -> & _). injection Ht as <-. rewrite parse_show_addr in Ha. by injection Ha as <-.
Qed.

Lemma holds_cleared svc rel x : canonical svc -> holds (clear_svc_lb_addrs svc rel) x -> holds svc x /\ x ∉ rel.
Proof.
  unfold holds, get_allocated_lb_addrs, clear_svc_lb_addrs. intros Hcan.
  destruct (svc_status svc) as [st|] eqn:Hst; cbn; [|rewrite Hst; cbn; set_solver].
  destruct (load_balancer st) as [lb|] eqn:Hlb; cbn; [|rewrite Hst; cbn; rewrite Hlb; cbn; set_solver].
  destruct (ingress lb) as [l|] eqn:Hl; cbn; [|rewrite Hst; cbn; rewrite Hlb; cbn; rewrite Hl; cbn; set_solver].
  unfold ingress_addrs. rewrite !list_elem_of_omap. intros (i & Hi & Hx).
  apply elem_of_lfilter in Hi as [Hi Hkeep]. split; [eauto|]. destruct (ip i) as [t|] eqn:Ht; [|done]. cbn in Hx.
  unfold keep_ingress in Hkeep. rewrite Ht in Hkeep. apply negb_true_iff, bool_decide_eq_false in Hkeep.
  rewrite (Hcan _ _ _ _ _ _ Hst Hlb Hl Hi Ht Hx) in Hkeep. intros Hin. apply Hkeep, list_elem_of_fmap. eauto.
Qed.

Lemma cleared_canonical svc rel : canonical svc -> canonical (clear_svc_lb_addrs svc rel).
Proof.
  unfold clear_svc_lb_addrs. intros Hcan.
  destruct (svc_status svc) as [st|] eqn:Hst; [|done]. destruct (load_balancer st) as [lb|] eqn:Hlb; [|done].
  destruct (ingress lb) as [l|] eqn:Hl; [|done].
  intros st' lb' l' i t a [= <-] [= <-] [= <-] Hi. apply elem_of_lfilter in Hi as [Hi _]. by eapply Hcan.
Qed.

(** *** What a turn sends *)

Definition quiet (o : Output) : Prop := match o with ReplaceStatus _ _ _ => False | _ => True end.

Lemma store_app accepts pre o1 o2 m :
  store_after accepts pre (o1 ++ o2) m = store_after accepts (pre ++ o1) o2 (store_after accepts pre o1 m).
Proof.
  revert pre m. induction o1 as [|o o1 IH]; intros pre m; cbn; [by rewrite app_nil_r|].
  rewrite IH, <-app_assoc. done.
Qed.

Lemma store_quiet accepts pre outs m : Forall quiet outs -> store_after accepts pre outs m = m.
Proof.
  intros H. revert pre m. induction H as [|o outs Ho _ IH]; intros pre m; [done|]. cbn. rewrite IH.
  by destruct (accepts pre o), o.
Qed.

(** An action that leaves the memory alone and sends no status. *)
Definition harmless {A} (m : M (Proc AllocatorSet Output) Error A) : Prop :=
  forall p, exists r outs, m p = (r, Build_Proc (comp p) (sent p ++ outs)) /\ r <> Panic /\ Forall quiet outs.

Lemma harmless_write accepts o : quiet o -> harmless (write accepts o).
Proof.
  intros Ho p. unfold write. rewrite bind_get, bind_modify.
  destruct (accepts (sent p) o); [exists (Ok tt), [o]|exists (Err KubeErr), [o]]; split_and!; auto using Forall_cons, Forall_nil; done.
Qed.

Lemma harmless_for_each {A} (f : A -> M (Proc AllocatorSet Output) Error unit) l :
  (forall x, harmless (f x)) -> harmless (for_each f l).
Proof.
  intros Hf. induction l as [|x l IH]; intros p; cbn [for_each].
  { exists (Ok tt), []. rewrite app_nil_r. by destruct p. }
  destruct (Hf x p) as (r & o1 & Hr & Hp & Ho1). unfold mbind, M_bind. rewrite Hr.
  destruct r as [[]|e|]; [|by eexists _, o1|done].
  destruct (IH (Build_Proc (comp p) (sent p ++ o1))) as (r2 & o2 & Hr2 & Hp2 & Ho2). cbn in Hr2.
  exists r2, (o1 ++ o2). rewrite Hr2, app_assoc. auto using Forall_app_2.
Qed.

Lemma harmless_sync accepts ns etp addrs eps : harmless (sync_slice accepts ns etp addrs eps).
Proof.
  unfold sync_slice. destruct (sync_annotations _ _ _) as [a []]; [by apply harmless_write|].
  intros p. exists (Ok tt), []. rewrite app_nil_r. by destruct p.
Qed.

Lemma harmless_annotate accepts ns addrs eps : harmless (annotate_slice accepts ns addrs eps).
Proof. by apply harmless_write. Qed.

(** The outcomes of a turn for a load balancer: it stops before the memory is
    changed; the allocation fails; the allocation is what the status says; the
    new status is refused; the new status is written. *)
Inductive lb_outcome (e : Env) (svc : Service) (ns : string) (p : Proc AllocatorSet Output) :
  res Error Action -> Proc AllocatorSet Output -> Prop :=
| lo_early er q : Forall quiet q -> lb_outcome e svc ns p (Err er) (Build_Proc (comp p) (sent p ++ q))
| lo_failed er s' q : Forall quiet q ->
    reallocate (e_block_iter e) (e_alloc_iter e) svc (default [] (get_allocated_lb_addrs svc)) (comp p) = (Err er, s') ->
    lb_outcome e svc ns p (Err er) (Build_Proc s' (sent p ++ q))
| lo_same r s' q : Forall quiet q ->
    reallocate (e_block_iter e) (e_alloc_iter e) svc (default [] (get_allocated_lb_addrs svc)) (comp p)
      = (Ok (default [] (get_allocated_lb_addrs svc)), s') ->
    lb_outcome e svc ns p r (Build_Proc s' (sent p ++ q))
| lo_refused er rem s' q : Forall quiet q ->
    reallocate (e_block_iter e) (e_alloc_iter e) svc (default [] (get_allocated_lb_addrs svc)) (comp p) = (Ok rem, s') ->
    e_accepts e (sent p ++ q) (ReplaceStatus ns (m_name (svc_meta svc)) (update_svc_lb_addrs svc rem)) = false ->
    lb_outcome e svc ns p (Err er) (Build_Proc s' (sent p ++ q ++ [ReplaceStatus ns (m_name (svc_meta svc)) (update_svc_lb_addrs svc rem)]))
| lo_written r rem s' q q2 : Forall quiet q -> Forall quiet q2 ->
    reallocate (e_block_iter e) (e_alloc_iter e) svc (default [] (get_allocated_lb_addrs svc)) (comp p) = (Ok rem, s') ->
    e_accepts e (sent p ++ q) (ReplaceStatus ns (m_name (svc_meta svc)) (update_svc_lb_addrs svc rem)) = true ->
    lb_outcome e svc ns p r (Build_Proc s' (sent p ++ q ++ ReplaceStatus ns (m_name (svc_meta svc)) (update_svc_lb_addrs svc rem) :: q2)).

Lemma proc_eta (p : Proc AllocatorSet Output) : p = Build_Proc (comp p) (sent p ++ []).
Proof. rewrite app_nil_r. by destruct p. Qed.

Lemma reconcile_lb_outcome e svc ns p r p' : env_ok e -> set_ok (comp p) ->
  reconcile_lb (e_block_iter e) (e_alloc_iter e) (e_accepts e) (e_list_slices e) svc ns p = (r, p') ->
  lb_outcome e svc ns p r p'.
Proof.
  intros [Hbi Hai] Hs H. unfold reconcile_lb in H. rewrite bind_get in H. cbv zeta in H.
  set (addrs := default [] (get_allocated_lb_addrs svc)) in *.
  assert (Hearly : forall er, lb_outcome e svc ns p (Err er) p).
  { intros er. rewrite (proc_eta p) at 2. by constructor. }
  case_bool_decide; [injection H as <- <-; apply Hearly|].
  destruct (get_etp svc) as [etp|]; [|injection H as <- <-; apply Hearly].
  unfold lift, mbind at 1, M_bind at 1 in H. unfold read in H. rewrite assoc_bind, bind_get in H.
  destruct (e_list_slices e (sent p) ns (m_name (svc_meta svc))) as [epss|]; [|injection H as <- <-; apply Hearly].
  unfold mbind at 1, M_bind at 1, mret, M_ret in H.
  destruct (harmless_for_each (sync_slice (e_accepts e) ns etp (write_addrs addrs)) epss
    (fun x => harmless_sync (e_accepts e) ns etp (write_addrs addrs) x) p) as (r1 & q & Hr1 & Hp1 & Hq).
  unfold mbind at 1, M_bind at 1 in H. rewrite Hr1 in H.
  destruct r1 as [[]|er|]; [|injection H as <- <-; by constructor|done].
  unfold on_comp, zoom in H. unfold mbind at 1, M_bind at 1 in H. cbn [comp sent set_comp] in H.
  destruct (reallocate_run (e_block_iter e) Hbi (e_alloc_iter e) Hai svc (comp p) addrs Hs)
    as (r2 & s' & Hr2 & Hp2 & _). rewrite Hr2 in H. unfold set_comp in H. cbn [sent comp] in H.
  destruct r2 as [rem|er|]; [|injection H as <- <-; by eapply lo_failed|done].
  case_decide as Hsame; [injection H as <- <-; eapply lo_same; [done|]; fold addrs; by rewrite Hr2, <-Hsame|].
  unfold write in H. rewrite assoc_bind, bind_get, assoc_bind, bind_modify in H. cbn [sent comp] in H.
  destruct (e_accepts e (sent p ++ q) _) eqn:Hacc.
  2: { injection H as <- <-. unfold push. cbn. rewrite <-app_assoc. by eapply lo_refused. }
  unfold mbind at 1, M_bind at 1, mret at 1, M_ret at 1 in H. unfold mbind at 1, M_bind at 1 in H.
  unfold push in H. cbn [comp sent] in H.
  destruct (harmless_for_each (annotate_slice (e_accepts e) ns (write_addrs <$> get_allocated_lb_addrs (update_svc_lb_addrs svc rem)))
    epss (fun x => harmless_annotate (e_accepts e) ns _ x)
    (Build_Proc s' ((sent p ++ q) ++ [ReplaceStatus ns (m_name (svc_meta svc)) (update_svc_lb_addrs svc rem)])))
    as (r3 & q2 & Hr3 & Hp3 & Hq2).
  cbn [comp sent] in Hr3. rewrite Hr3 in H. rewrite <-!app_assoc in H.
  destruct r3 as [[]|er|]; [injection H as <- <-|injection H as <- <-|done]; by eapply lo_written.
Qed.

(** *** The invariant is kept *)

Lemma in_block_same s s' x : same_cidrs s s' -> in_block s' x -> in_block s x.
Proof.
  intros Hsc (n & b & Hn & Hx). destruct (same_cidrs_lookup _ _ _ _ Hsc Hn) as (b0 & Hb0 & Hc).
  exists n, b0. by rewrite Hc.
Qed.

Lemma Held_in_block s x : Held s x -> in_block s x.
Proof. intros (n & b & H & Hn & Hb & Hx). exists n, b. eauto using held_contained. Qed.

Lemma world_replace w key svc svc' s' : world_ok w -> services w !! key = Some svc ->
  set_ok s' -> same_cidrs (memory w) s' -> svc_meta svc' = svc_meta svc -> canonical svc' ->
  (forall x k svc0, k <> key -> services w !! k = Some svc0 -> holds svc0 x -> Held (memory w) x -> Held s' x) ->
  (forall x, holds svc' x -> in_block s' x -> Held s' x) ->
  (forall x, holds svc' x -> holds svc x \/ (in_block (memory w) x /\ ~ Held (memory w) x)) ->
  world_ok {| services := <[key := svc']> (services w); memory := s' |}.
Proof.
  intros [Hset Hkey Hcan Hheld Huniq] Hsvc Hs' Hsc Hmeta Hcan' Hkeep Hnew Hfresh. split; cbn; [done|..].
  - intros ns n svc0 H0. apply lookup_insert_Some in H0 as [[-> <-]|[_ H0]]; [rewrite Hmeta|]; by apply Hkey.
  - intros k svc0 H0. apply lookup_insert_Some in H0 as [[<- <-]|[_ H0]]; [done|]. by eapply Hcan.
  - intros k svc0 x H0 Hx Hin. apply lookup_insert_Some in H0 as [[<- <-]|[Hne H0]]; [by apply Hnew|].
    eapply Hkeep; [|done..|]; [congruence|]. eapply Hheld; [done..|]. by eapply in_block_same.
  - assert (Hself : forall k svc0 x, services w !! k = Some svc0 -> holds svc' x -> holds svc0 x -> key = k).
    { intros k svc0 x H0 Hx Hx0. destruct (Hfresh x Hx) as [Hxs|[Hin Hnh]]; [by eapply Huniq|].
      destruct Hnh. by eapply Hheld. }
    intros k1 k2 svc1 svc2 x H1 H2 Hx1 Hx2.
    apply lookup_insert_Some in H1 as [[<- <-]|[Hn1 H1]], H2 as [[<- <-]|[Hn2 H2]]; [done|by eapply Hself|symmetry; by eapply Hself|by eapply Huniq].
Qed.

Lemma world_memory w key svc s' : world_ok w -> services w !! key = Some svc ->
  set_ok s' -> same_cidrs (memory w) s' ->
  (forall x k svc0, services w !! k = Some svc0 -> holds svc0 x -> Held (memory w) x -> Held s' x) ->
  world_ok {| services := services w; memory := s' |}.
Proof.
  intros Hw Hsvc Hs' Hsc Hkeep. rewrite <-(insert_id (services w) key svc) by done.
  apply (world_replace w key svc svc s'); try done.
  - by eapply wo_canonical.
  - eauto.
  - intros x Hx Hin. eapply Hkeep; [done..|]. eapply wo_held; [done..|]. by eapply in_block_same.
  - by left.
Qed.

Lemma alter_status (m : gmap (string * string) Service) ns n (svc svc' : Service) : m !! (ns, n) = Some svc -> svc_meta svc' = svc_meta svc ->
  svc_spec svc' = svc_spec svc -> alter (set_status (svc_status svc')) (ns, n) m = <[(ns, n) := svc']> m.
Proof.
  intros Hm Hme Hsp. apply map_eq. intros k. rewrite lookup_alter. case_decide as Hk; [subst|by rewrite lookup_insert_ne].
  rewrite Hm, lookup_insert_eq. cbn. unfold set_status. rewrite <-Hme, <-Hsp. by destruct svc'.
Qed.

Lemma updated_meta svc l : svc_meta (update_svc_lb_addrs svc l) = svc_meta svc.
Proof. done. Qed.

Lemma cleared_same svc l :
  svc_meta (clear_svc_lb_addrs svc l) = svc_meta svc /\ svc_spec (clear_svc_lb_addrs svc l) = svc_spec svc.
Proof.
  unfold clear_svc_lb_addrs. destruct (svc_status svc) as [st|]; [|done]. destruct (load_balancer st) as [lb|]; [|done].
  by destruct (ingress lb).
Qed.

Lemma lb_turn_ok w e ns n svc r p' : world_ok w -> env_ok e -> services w !! (ns, n) = Some svc ->
  lb_outcome e svc ns (Build_Proc (memory w) [Reconciliation]) r p' ->
  (exists a, r = Ok a) \/ (forall x, ~ holds svc x) ->
  world_ok {| services := store_after (e_accepts e) [] (sent p') (services w); memory := comp p' |}.
Proof.
  intros Hw [Hbi Hai] Hsvc Ho Hsafe. pose proof (wo_set _ Hw) as Hs.
  destruct (wo_key _ Hw _ _ _ Hsvc) as [Hns Hn].
  set (addrs := default [] (get_allocated_lb_addrs svc)) in *.
  destruct (reallocate_run (e_block_iter e) Hbi (e_alloc_iter e) Hai svc (memory w) addrs Hs)
    as (r2 & s2 & Hr2 & _ & Hs2 & Hsc & Hkeep & Hrem).
  assert (Hothers : forall x k svc0, k <> (ns, n) -> services w !! k = Some svc0 -> holds svc0 x ->
    Held (memory w) x -> Held s2 x).
  { intros x k svc0 Hk H0 Hx Hh. apply Hkeep; [done|]. intros Hin. apply Hk. by eapply (wo_unique _ Hw). }
  assert (Hq1 : forall q, Forall quiet q -> Forall quiet ([Reconciliation] ++ q)) by (intros; by constructor).
  assert (Hfail : (forall x, ~ holds svc x) -> world_ok {| services := services w; memory := s2 |}).
  { intros Hnone. apply (world_memory w (ns, n) svc); try done. intros x k svc0 H0 Hx Hh. apply Hkeep; [done|].
    intros Hin. by apply (Hnone x). }
  destruct Ho as [er q Hq|er s' q Hq Hre|r s' q Hq Hre|er rem s' q Hq Hre Hacc|r rem s' q q2 Hq Hq2 Hre Hacc];
    cbn [comp sent] in *; try (fold addrs in Hre; rewrite Hr2 in Hre; injection Hre as -> ->).
  - rewrite store_quiet by auto. by destruct w.
  - rewrite store_quiet by auto. apply Hfail. naive_solver.
  - rewrite store_quiet by auto. apply (world_memory w (ns, n) svc); try done. intros x k svc0 H0 Hx Hh.
    destruct (decide (k = (ns, n))) as [->|Hk]; [|by eapply Hothers].
    rewrite Hsvc in H0. injection H0 as <-. by destruct (Hrem _ eq_refl x Hx).
  - rewrite app_assoc, store_app, (store_quiet _ [] ([Reconciliation] ++ q)) by auto. cbn. cbn in Hacc. rewrite Hacc. apply Hfail. naive_solver.
  - rewrite app_assoc, store_app, (store_quiet _ [] ([Reconciliation] ++ q)) by auto.
    cbn [store_after app] in *. rewrite Hacc, store_quiet by done. cbn [apply_out].
    rewrite Hn, (alter_status _ ns n svc) by done.
    assert (Hh : forall x, holds (update_svc_lb_addrs svc rem) x <-> x ∈ rem) by (intros x; unfold holds; by rewrite updated_addrs).
    apply (world_replace w (ns, n) svc); try done.
    + apply updated_canonical.
    + intros x Hx _. apply Hh in Hx. by destruct (Hrem _ eq_refl x Hx).
    + intros x Hx. apply Hh in Hx. destruct (Hrem _ eq_refl x Hx) as [Hhx [Ha|Hn']]; [by left|right].
      split; [|done]. by eapply in_block_same, Held_in_block.
Qed.

Lemma turn_eq ev e ns n w svc : services w !! (ns, n) = Some svc -> m_namespace (svc_meta svc) = Some ns ->
  turn ev e (ns, n) w =
    let '(r, p) := match ev with
                   | Apply => reconcile (e_block_iter e) (e_alloc_iter e) (e_accepts e) (e_list_slices e) svc
                   | Cleanup => cleanup (e_accepts e) svc
                   end (Build_Proc (memory w) [Reconciliation]) in
    (res_map_err (match ev with Apply => FinalizerApply | Cleanup => FinalizerCleanup end) r,
     {| services := store_after (e_accepts e) [] (sent p) (services w); memory := comp p |}).
Proof.
  intros Hsvc Hns. unfold turn. rewrite Hsvc. unfold reconciler, get_namespace. rewrite Hns.
  unfold lift, mbind at 1, M_bind at 1. unfold count. rewrite bind_modify. unfold push. cbn [comp sent app].
  destruct ev; unfold map_err.
  - by destruct (reconcile _ _ _ _ svc _) as [[]].
  - by destruct (cleanup _ svc _) as [[]].
Qed.

Lemma on_release svc addrs w ns : world_ok w -> m_namespace (svc_meta svc) = Some ns ->
  exists r s', on_comp (release_lb_addrs svc addrs) (Build_Proc (memory w) [Reconciliation])
      = (r, Build_Proc (C:=AllocatorSet) s' [Reconciliation]) /\ set_ok s' /\ same_cidrs (memory w) s' /\
    (forall x, Held (memory w) x -> (x ∉ addrs) -> Held s' x) /\
    (forall rel, r = Ok rel -> forall x, Held (memory w) x -> (x ∉ rel) -> Held s' x).
Proof.
  intros Hw Hns. destruct (release_addrs_run svc (memory w) addrs (wo_set _ Hw)) as (r & s' & Hr & _ & Hs' & Hsc & Hk & Hrel).
  exists r, s'. split_and!; try done. unfold on_comp, zoom. cbn [comp]. by rewrite Hr.
Qed.

Lemma apply_turn_ok w e ns n svc : world_ok w -> services w !! (ns, n) = Some svc -> safe w (Turn Apply e (ns, n)) ->
  world_ok (turn Apply e (ns, n) w).2.
Proof.
  intros Hw Hsvc [He Hsafe]. specialize (Hsafe _ Hsvc). destruct (wo_key _ Hw _ _ _ Hsvc) as [Hns Hn].
  rewrite (turn_eq _ _ _ _ _ svc) in Hsafe |- * by done. unfold reconcile in *.
  unfold get_namespace in *. rewrite Hns in *. unfold lift, mbind at 1, M_bind at 1 in Hsafe. unfold lift, mbind at 1, M_bind at 1.
  destruct (is_loadbalancer svc).
  - destruct (reconcile_lb _ _ _ _ svc ns _) as [r p'] eqn:Hr. cbn.
    eapply lb_turn_ok; [done..|eapply reconcile_lb_outcome; [done|apply Hw|done]|].
    destruct Hsafe as [[a Ha]|]; [left|by right]. cbn in Ha. destruct r; try done. by eexists.
  - destruct (get_releasable_addrs svc) as [addrs|] eqn:Ha; [|cbn; by destruct (e_accepts e [] Reconciliation), w].
    destruct (on_release svc addrs w ns Hw Hns) as (r & s' & Hr & Hs' & Hsc & Hk & _).
    unfold mbind, M_bind. rewrite Hr.
    assert (Hok : world_ok {| services := services w; memory := s' |}).
    { apply (world_memory w (ns, n) svc); try done. intros x k svc0 H0 Hx Hh. apply Hk; [done|]. intros Hin.
      by apply (Hsafe x k svc0). }
    destruct r as [rel|er|]; cbn; by destruct (e_accepts e [] Reconciliation).
Qed.

Lemma cleanup_turn_ok w e ns n svc : world_ok w -> services w !! (ns, n) = Some svc -> safe w (Turn Cleanup e (ns, n)) ->
  world_ok (turn Cleanup e (ns, n) w).2.
Proof.
  intros Hw Hsvc [He [a Hok]]. destruct (wo_key _ Hw _ _ _ Hsvc) as [Hns Hn].
  rewrite (turn_eq _ _ _ _ _ svc) in Hok |- * by done. unfold cleanup in *.
  unfold get_namespace in *. rewrite Hns in *. unfold lift, mbind at 1, M_bind at 1 in Hok. unfold lift, mbind at 1, M_bind at 1.
  destruct (get_allocated_lb_addrs svc) as [addrs|] eqn:Ha; [|cbn; by destruct (e_accepts e [] Reconciliation), w].
  destruct (on_release svc addrs w ns Hw Hns) as (r & s' & Hr & Hs' & Hsc & Hk & Hrel).
  unfold mbind at 1, M_bind at 1 in Hok. unfold mbind at 1, M_bind at 1. rewrite Hr in Hok |- *.
  destruct r as [rel|er|]; [|done|done]. unfold write in Hok |- *.
  rewrite assoc_bind, bind_get, assoc_bind, bind_modify in Hok |- *. unfold push in *. cbn [sent comp app] in *.
  destruct (e_accepts e [Reconciliation] _) eqn:Hacc; [|done]. unfold mbind, M_bind, mret, M_ret.
  cbn [store_after app sent comp snd]. rewrite Hacc. cbn [apply_out]. destruct (cleared_same svc rel) as [Hme Hsp].
  assert (Hgoal : world_ok {| services := alter (set_status (svc_status (clear_svc_lb_addrs svc rel))) (ns, n) (services w); memory := s' |}).
  { rewrite (alter_status _ ns n svc) by done. pose proof (wo_canonical _ Hw _ _ Hsvc) as Hcan.
    apply (world_replace w (ns, n) svc); try done.
    - by apply cleared_canonical.
    - intros x k svc0 Hne H0 Hx Hh. apply Hk; [done|]. intros Hin. apply Hne. eapply (wo_unique _ Hw); [done..|].
      unfold holds. by rewrite Ha.
    - intros x Hx Hin. apply holds_cleared in Hx as [Hx Hnr]; [|done]. eapply Hrel; [done| |done].
      eapply (wo_held _ Hw); [done..|]. by eapply in_block_same.
    - intros x Hx. left. by destruct (holds_cleared _ _ _ Hcan Hx). }
  rewrite Hn. by destruct (e_accepts e [] Reconciliation).
Qed.

Lemma step_ok w l : world_ok w -> safe w l -> world_ok (step w l).
Proof.
  intros Hw Hl. destruct l as [ev e [ns n]|[ns n] an spec drop|key]; cbn [step].
  - destruct (services w !! (ns, n)) as [svc|] eqn:Hsvc; [|unfold turn; by rewrite Hsvc].
    destruct ev; [by eapply apply_turn_ok|by eapply cleanup_turn_ok].
  - destruct Hw as [Hset Hkey Hcan Hheld Huniq].
    assert (Hold : forall x, holds (edited (ns, n) an spec (if drop then None else services w !! (ns, n) ≫= svc_status)) x ->
      exists svc, services w !! (ns, n) = Some svc /\ holds svc x).
    { intros x Hx. unfold holds, get_allocated_lb_addrs, edited in Hx. cbn in Hx. destruct drop; [by apply elem_of_nil in Hx|].
      destruct (services w !! (ns, n)) as [svc|] eqn:Hsvc; [|by apply elem_of_nil in Hx]. by exists svc. }
    split; cbn; [done|..].
    + intros ns' n' svc. rewrite lookup_insert_Some. intros [[[= <- <-] <-]|[_ H]]; [done|by apply Hkey].
    + intros k svc. rewrite lookup_insert_Some. intros [[<- <-]|[_ H]]; [|by eapply Hcan].
      intros st lb k i t a Hst. cbn in Hst. destruct drop; [done|].
      destruct (services w !! (ns, n)) as [svc|] eqn:Hsvc; [|done]. by eapply (Hcan (ns, n) svc).
    + intros k svc x. rewrite lookup_insert_Some. intros [[<- <-]|[_ H]] Hx; [|by eapply Hheld].
      destruct (Hold x Hx) as (svc & Hsvc & Hx'). by eapply Hheld.
    + intros k1 k2 svc1 svc2 x. rewrite !lookup_insert_Some. intros [[<- <-]|[_ H1]] [[<- <-]|[_ H2]] Hx1 Hx2;
        try destruct (Hold x Hx1) as (? & ? & ?); try destruct (Hold x Hx2) as (? & ? & ?); eauto.
  - destruct Hw as [Hset Hkey Hcan Hheld Huniq]. split; cbn; [done|..]; intros *; rewrite ?lookup_delete_Some;
      intros; destruct_and?; eauto.
Qed.

Lemma run_ok ls w : world_ok w -> safe_run w ls -> world_ok (foldl step w ls).
Proof.
  revert w. induction ls as [|l ls IH]; intros w Hw Hs; [done|]. destruct Hs as [Hl Hs].
  apply IH; [by apply step_ok|done].
Qed.

(** C13: two services never hold the same address, as long as no turn fails half
    way and no note is acted upon too late: in every run of turns of the service
    watcher and changes by users that starts from well-formed blocks and
    services with distinct addresses, written in canonical form, that are in use
    in memory, in which every turn for a service that has addresses, and every
    one that deletes a service, succeeds and a note to release addresses is
    acted upon only when no service holds them ([failed_turn_frees_held_address]
    and [release_note_acted_upon_twice] are what happens otherwise), each
    address is in the status of at most one service, and those of the blocks are
    in use in memory. *)
Theorem no_address_held_twice (w : World) (ls : list Label) (Hw : world_ok w) (Hs : safe_run w ls) :
  let w' := foldl step w ls in
  (forall k1 k2 svc1 svc2 x, services w' !! k1 = Some svc1 -> services w' !! k2 = Some svc2 ->
     holds svc1 x -> holds svc2 x -> k1 = k2) /\
  (forall k svc x, services w' !! k = Some svc -> holds svc x -> in_block (memory w') x -> Held (memory w') x).
Proof. intros w'. destruct (run_ok ls w Hw Hs) as [_ _ _ Hheld Huniq]. eauto. Qed.

(** The addresses the webhook notes on a service that stops being a load
    balancer are the ones the watcher reads from the note. *)
Theorem release_note_roundtrip (new old : Service) (addrs : list IpAddr) (Hold : is_loadbalancer old = true)
  (Hnew : is_loadbalancer new = false) (Ha : get_allocated_lb_addrs old = Some addrs) :
  exists v, handle_mutation new (Some old) = Some (PatchAdd release_path v) /\
    forall svc, annotation RELEASE_ANNOTATION svc = Some v -> get_releasable_addrs svc = nonempty addrs.
Proof.
  exists (write_addrs addrs). unfold handle_mutation. rewrite Hold, Hnew, Ha. split; [done|].
  intros svc Hsvc. unfold get_releasable_addrs. rewrite Hsvc. cbn. by rewrite read_write_addrs.
Qed.

(** *** Services get what they ask for *)

(** A service of the world with what it asks for, all of it in use. *)
Definition settled (w : World) (key : string * string) : Prop :=
  exists svc, services w !! key = Some svc /\ is_loadbalancer svc = true /\
    satisfied svc (memory w) (default [] (get_allocated_lb_addrs svc)) /\
    forall x, holds svc x -> Held (memory w) x.

Lemma lb_turn_outcome w e ns n svc : world_ok w -> env_ok e -> services w !! (ns, n) = Some svc ->
  is_loadbalancer svc = true ->
  exists r p', lb_outcome e svc ns (Build_Proc (memory w) [Reconciliation]) r p' /\
    turn Apply e (ns, n) w = (res_map_err FinalizerApply r,
      {| services := store_after (e_accepts e) [] (sent p') (services w); memory := comp p' |}).
Proof.
  intros Hw He Hsvc Hlb. destruct (wo_key _ Hw _ _ _ Hsvc) as [Hns Hn]. rewrite (turn_eq _ _ _ _ _ svc) by done.
  unfold reconcile, get_namespace. rewrite Hns, Hlb. unfold lift, mbind at 1, M_bind at 1.
  destruct (reconcile_lb _ _ _ _ svc ns _) as [r p'] eqn:Hr. exists r, p'. split; [|done].
  eapply reconcile_lb_outcome; [done|apply Hw|done].
Qed.

(** What the API server has of the service after a turn: what it had, or the
    service with the addresses that were allocated. *)
Lemma lb_store w e ns n svc r p' : services w !! (ns, n) = Some svc -> m_name (svc_meta svc) = n ->
  lb_outcome e svc ns (Build_Proc (memory w) [Reconciliation]) r p' ->
  (store_after (e_accepts e) [] (sent p') (services w) = services w /\ comp p' = memory w /\ (exists er, r = Err er)) \/
  (exists rr s', reallocate (e_block_iter e) (e_alloc_iter e) svc (default [] (get_allocated_lb_addrs svc)) (memory w) = (rr, s') /\
     comp p' = s' /\
     ((store_after (e_accepts e) [] (sent p') (services w) = services w /\
         ((exists er, r = Err er) \/ rr = Ok (default [] (get_allocated_lb_addrs svc)))) \/
      exists rem, rr = Ok rem /\
        store_after (e_accepts e) [] (sent p') (services w) = <[(ns, n) := update_svc_lb_addrs svc rem]> (services w))).
Proof.
  intros Hsvc Hn Ho. assert (Hq1 : forall q, Forall quiet q -> Forall quiet ([Reconciliation] ++ q)) by (intros; by constructor).
  destruct Ho as [er q Hq|er s' q Hq Hre|r s' q Hq Hre|er rem s' q Hq Hre Hacc|r rem s' q q2 Hq Hq2 Hre Hacc]; cbn [comp sent] in *.
  - left. rewrite store_quiet by auto. split_and!; eauto.
  - right. eexists _, s'. split_and!; [done|done|left]. rewrite store_quiet by auto. eauto.
  - right. eexists _, s'. split_and!; [done|done|left]. rewrite store_quiet by auto. eauto.
  - right. eexists _, s'. split_and!; [done|done|left].
    rewrite app_assoc, store_app, (store_quiet _ [] ([Reconciliation] ++ q)) by auto.
    cbn [store_after app] in *. rewrite Hacc. eauto.
  - right. eexists _, s'. split_and!; [done|done|right]. exists rem. split; [done|].
    rewrite app_assoc, store_app, (store_quiet _ [] ([Reconciliation] ++ q)) by auto.
    cbn [store_after app] in *. rewrite Hacc, store_quiet by done. cbn [apply_out]. by rewrite Hn, (alter_status _ ns n svc).
Qed.

Lemma satisfied_updated svc s l rem : satisfied svc s l -> satisfied (update_svc_lb_addrs svc rem) s l.
Proof. done. Qed.

(** A turn that succeeds leaves the service with what it asks for. *)
Lemma turn_satisfies (w : World) (e : Env) (ns n : string) (svc : Service) (a : Action) (Hw : world_ok w) (He : env_ok e)
  (Hsvc : services w !! (ns, n) = Some svc) (Hlb : is_loadbalancer svc = true)
  (Hok : (turn Apply e (ns, n) w).1 = Ok a) :
  settled (turn Apply e (ns, n) w).2 (ns, n).
Proof.
  destruct (wo_key _ Hw _ _ _ Hsvc) as [_ Hn]. pose proof He as [Hbi Hai].
  destruct (lb_turn_outcome w e ns n svc Hw He Hsvc Hlb) as (r & p' & Ho & Ht). rewrite Ht in Hok |- *. cbn [fst snd] in *.
  destruct (reallocate_run _ Hbi _ Hai svc (memory w) (default [] (get_allocated_lb_addrs svc)) (wo_set _ Hw))
    as (r2 & s2 & Hr2 & _ & _ & _ & _ & Hrem).
  destruct (lb_store w e ns n svc r p' Hsvc Hn Ho) as [(_ & _ & er & ->)|(rr & s' & Hre & Hc & Hst)]; [done|].
  rewrite Hr2 in Hre. injection Hre as <- <-.
  destruct Hst as [[Hst [[er ->]|Hrr]]|(rem & Hrr & Hst)]; [done|subst r2..].
  - exists svc. cbn. rewrite Hst, Hc. split_and!; [done|done|by eapply reallocate_satisfies, Hr2; [..|apply Hw]|].
    intros x Hx. by destruct (Hrem _ eq_refl x Hx).
  - exists (update_svc_lb_addrs svc rem). cbn [services memory]. rewrite Hst, Hc, lookup_insert_eq. unfold holds.
    rewrite updated_addrs. split_and!; [done|done|apply satisfied_updated; by eapply reallocate_satisfies, Hr2; [..|apply Hw]|].
    intros x Hx. by destruct (Hrem _ eq_refl x Hx).
Qed.

(** A service that has what it asks for is left alone. *)
Lemma settled_stays (w : World) (e : Env) (ns n : string) (svc : Service) (Hw : world_ok w) (He : env_ok e)
  (Hset : settled w (ns, n)) (Hsvc : services w !! (ns, n) = Some svc) :
  let w' := (turn Apply e (ns, n) w).2 in
  memory w' = memory w /\ settled w' (ns, n) /\
  (forall k, k <> (ns, n) -> services w' !! k = services w !! k) /\
  exists svc', services w' !! (ns, n) = Some svc' /\
    default [] (get_allocated_lb_addrs svc') ≡ₚ default [] (get_allocated_lb_addrs svc).
Proof.
  intros w'. destruct Hset as (svc0 & H0 & Hlb & Hsat & Hheld). rewrite Hsvc in H0. injection H0 as <-.
  destruct (wo_key _ Hw _ _ _ Hsvc) as [_ Hn]. pose proof He as [Hbi Hai].
  destruct (satisfied_stays _ Hbi _ Hai svc (memory w) _ (wo_set _ Hw) Hsat Hheld) as (rem & Hre & Hperm).
  destruct (lb_turn_outcome w e ns n svc Hw He Hsvc Hlb) as (r & p' & Ho & Ht). unfold w'. rewrite Ht. cbn [snd services memory].
  assert (Hkept : forall m, m = memory w -> settled {| services := services w; memory := m |} (ns, n)).
  { intros m ->. by exists svc. }
  destruct (lb_store w e ns n svc r p' Hsvc Hn Ho) as [(-> & Hc & _)|(rr & s' & Hre' & -> & Hst)].
  { split_and!; eauto. }
  rewrite Hre in Hre'. injection Hre' as <- <-.
  destruct Hst as [[-> _]|(rem' & [= <-] & ->)]; [split_and!; eauto|].
  split_and!; [done| |by intros k Hk; rewrite lookup_insert_ne|].
  - exists (update_svc_lb_addrs svc rem). cbn [services memory]. rewrite lookup_insert_eq. unfold holds. rewrite updated_addrs.
    split_and!; [done|done|apply satisfied_updated|].
    + by eapply reallocate_satisfies, Hre; [..|apply Hw].
    + intros x Hx. apply Hheld. unfold holds. by rewrite <-Hperm.
  - exists (update_svc_lb_addrs svc rem). rewrite lookup_insert_eq, updated_addrs. done.
Qed.

(** C33: reconciliation converges in one turn. A turn that succeeds for a load
    balancer leaves the service with what it asks for: of every pool it names
    that exists exactly the addresses it asks for there, or at least one when it
    asks for none, no address of another block and no address outside the
    blocks, all of them in use in memory. Whatever the order of the hash maps
    and the answers of the API server, a further turn changes neither the memory
    nor another service nor the addresses of the service, up to their order. *)
Theorem turn_settles (w : World) (e : Env) (ns n : string) (svc : Service) (a : Action) (Hw : world_ok w) (He : env_ok e)
  (Hsvc : services w !! (ns, n) = Some svc) (Hlb : is_loadbalancer svc = true)
  (Hok : (turn Apply e (ns, n) w).1 = Ok a) :
  let w1 := (turn Apply e (ns, n) w).2 in
  settled w1 (ns, n) /\
  forall e', env_ok e' -> let w2 := (turn Apply e' (ns, n) w1).2 in
    memory w2 = memory w1 /\ settled w2 (ns, n) /\
    (forall k, k <> (ns, n) -> services w2 !! k = services w1 !! k) /\
    forall svc1, services w1 !! (ns, n) = Some svc1 -> exists svc2, services w2 !! (ns, n) = Some svc2 /\
      default [] (get_allocated_lb_addrs svc2) ≡ₚ default [] (get_allocated_lb_addrs svc1).
Proof.
  intros w1. assert (Hset : settled w1 (ns, n)) by (by eapply turn_satisfies).
  split; [done|]. intros e' He' w2.
  assert (Hw1 : world_ok w1).
  { eapply apply_turn_ok; [done..|]. split; [done|]. intros svc' Hsvc'. rewrite Hsvc in Hsvc'. injection Hsvc' as <-.
    rewrite Hlb. left. by exists a. }
  pose proof Hset as (svc1 & Hsvc1 & _).
  destruct (settled_stays w1 e' ns n svc1 Hw1 He' Hset Hsvc1) as (Hm & Hs & Hk & svc2 & Hsvc2 & Hp).
  split_and!; try done. intros svc1' H1. rewrite Hsvc1 in H1. injection H1 as <-. by exists svc2.
Qed.
End facts.

(** Witnesses and runs: the blocks [a], 10.0.0.0/30, assigned from by default,
    and [b], 10.0.1.0/32. *)
Section witnesses.
#[local] Existing Instance simple_ipnet.
#[local] Existing Instance simple_ipnet_laws.
#[local] Existing Instance simple_text.
#[local] Existing Instance simple_text_laws.
#[local] Existing Instance debug_profile.

Definition net32 : IpNet := NV4 (exist _ (167772416, 32) Logic.I : Net 32).
Definition block_a : Block.Block := Block.mkBlock "a" "a" (Allocator.Bit (BitAllocator.new BitAllocator.net30)).
Definition block_b : Block.Block := Block.mkBlock "b" "b" (Allocator.Bit (BitAllocator.new net32)).
Definition fresh : AllocatorSet := AllocatorSetInner.mkSet (<["a" := block_a]> {["b" := block_b]}) ∅ (Some "a"%string).

Definition env : Env := {|
  e_block_iter := map_to_list; e_alloc_iter := map_to_list;
  e_accepts := fun _ _ => true; e_list_slices := fun _ _ _ => Some [];
|}.

Definition lb : option ServiceSpec := Some {| type_ := Some "LoadBalancer"%string; external_traffic_policy := Some "Cluster"%string |}.
Definition cluster_ip : option ServiceSpec := Some {| type_ := Some "ClusterIP"%string; external_traffic_policy := None |}.

Definition key (n : string) : string * string := ("default"%string, n).

Definition w0 : World := {| services := ∅; memory := fresh |}.

(** The addresses of a service. *)
Definition addrs_of (w : World) (n : string) : list IpAddr :=
  default [] (services w !! key n ≫= get_allocated_lb_addrs).

Lemma block_ok_new c name : BitAllocator.cidr_size c <= 2 ^ 32 ->
  block_ok (Block.mkBlock name name (Allocator.Bit (BitAllocator.new c))) ∅.
Proof.
  intros Hc. split; [|by destruct c]. exists 0. split; [apply BitAllocator.repr_new; lia|by rewrite size_empty].
Qed.

Lemma fresh_disjoint x : ipnet_contains (block_cidr block_a) x = true -> ipnet_contains (block_cidr block_b) x = true -> False.
Proof.
  destruct x as [z|z]; [|done]. unfold block_cidr. cbn -[Z.pow Z.modulo]. rewrite !bool_decide_eq_true.
  change (167772160 mod 2 ^ (32 - 30)) with 0. change (167772416 mod 2 ^ (32 - 32)) with 0.
  change (2 ^ (32 - 30)) with 4. change (2 ^ (32 - 32)) with 1. lia.
Qed.

Lemma fresh_ok : set_ok fresh.
Proof.
  split.
  - intros n b. cbn [fresh AllocatorSetInner.blocks]. rewrite lookup_insert_Some, lookup_singleton_Some.
    intros [[_ <-]|[_ [_ <-]]]; exists ∅; by apply block_ok_new.
  - intros n m b b' x. cbn [fresh AllocatorSetInner.blocks]. rewrite !lookup_insert_Some, !lookup_singleton_Some.
    intros [[<- <-]|[_ [<- <-]]] [[<- <-]|[_ [<- <-]]] H1 H2; try done; by destruct (fresh_disjoint x).
Qed.

Lemma w0_ok : world_ok w0.
Proof. split; [apply fresh_ok|..]; intros *; cbn; by rewrite lookup_empty. Qed.

Lemma env_is_ok : env_ok env.
Proof. done. Qed.

(** A run in which services are given addresses. *)
Definition run0 : list Label :=
  [Edit (key "x") ∅ lb false; Turn Apply env (key "x"); Edit (key "y") ∅ lb false; Turn Apply env (key "y")].

Lemma no_address_held_twice_witness :
  (forall k1 k2 svc1 svc2 x, services (foldl step w0 run0) !! k1 = Some svc1 -> services (foldl step w0 run0) !! k2 = Some svc2 ->
     holds svc1 x -> holds svc2 x -> k1 = k2) /\
  addrs_of (foldl step w0 run0) "x" = [AV4 167772160] /\ addrs_of (foldl step w0 run0) "y" = [AV4 167772161].
Proof.
  split; [|split; vm_compute; reflexivity].
  apply (no_address_held_twice w0 run0 w0_ok). cbn [run0 safe_run]. unfold safe at 1 3. split; [done|]. split.
  - split; [apply env_is_ok|]. intros svc Hsvc. vm_compute in Hsvc. injection Hsvc as <-.
    left. eexists. vm_compute. reflexivity.
  - split; [done|]. split; [|done]. split; [apply env_is_ok|]. intros svc Hsvc. vm_compute in Hsvc. injection Hsvc as <-.
    left. eexists. vm_compute. reflexivity.
Defined.

Definition w1 : World := step w0 (Edit (key "x") ∅ lb false).

Lemma turn_settles_witness :
  settled (turn Apply env (key "x") w1).2 (key "x") /\ addrs_of (turn Apply env (key "x") w1).2 "x" = [AV4 167772160].
Proof.
  split; [|vm_compute; reflexivity].
  refine (proj1 (turn_settles w1 env "default" "x" (edited (key "x") ∅ lb None) AwaitChange _ env_is_ok _ _ _)).
  - apply step_ok; [apply w0_ok|done].
  - vm_compute. reflexivity.
  - vm_compute. reflexivity.
  - vm_compute. reflexivity.
Defined.

(** ** Addresses that are given away twice *)

Definition in_pool (p : string) : gmap string string := {[ADDRESS_POOL_ANNOTATION := p]}.

(** [y] takes the only address of the pool [b]; [x] has an address of [a] and is
    moved to [b]; its turn releases the address and fails, and the address stays
    in its status; [z] asks for an address. *)
Definition run_failed : list Label :=
  [Edit (key "y") (in_pool "b") lb false; Turn Apply env (key "y");
   Edit (key "x") ∅ lb false; Turn Apply env (key "x");
   Edit (key "x") (in_pool "b") lb false; Turn Apply env (key "x");
   Edit (key "z") ∅ lb false; Turn Apply env (key "z")].

(** A turn that fails after it has released an address gives the address away
    while the service still has it: the pool the service is moved to is full, its
    turn ends with [Full], and the next service gets the address that is still in
    its status. *)
Theorem failed_turn_frees_held_address :
  (turn Apply env (key "x") (foldl step w0 (take 5 run_failed))).1 = Err (FinalizerApply (Ipam Ipam.Full)) /\
  addrs_of (foldl step w0 run_failed) "x" = [AV4 167772160] /\
  addrs_of (foldl step w0 run_failed) "z" = [AV4 167772160].
Proof. split_and!; vm_compute; reflexivity. Qed.

(** [x] stops being a load balancer and its address is noted for release; the
    note stays on the service after its turn. [y] gets the address; the next
    turn of [x] releases it once more, and [z] gets it too. *)
Definition run_noted : list Label :=
  [Edit (key "x") ∅ lb false; Turn Apply env (key "x");
   Edit (key "x") {[RELEASE_ANNOTATION := show_addr (AV4 167772160)]} cluster_ip true; Turn Apply env (key "x");
   Edit (key "y") ∅ lb false; Turn Apply env (key "y");
   Turn Apply env (key "x");
   Edit (key "z") ∅ lb false; Turn Apply env (key "z")].

Theorem release_note_acted_upon_twice :
  addrs_of (foldl step w0 run_noted) "y" = [AV4 167772160] /\
  addrs_of (foldl step w0 run_noted) "z" = [AV4 167772160].
Proof. split; vm_compute; reflexivity. Qed.

(** The controller is restarted and has its blocks again, all of them free; a
    new service is reconciled before the one that has an address. *)
Definition restarted (w : World) : World := {| services := services w; memory := fresh |}.

Theorem restart_forgets_addresses :
  let w := foldl step (restarted (foldl step w0 (take 2 run0))) (drop 2 run0) in
  addrs_of w "x" = [AV4 167772160] /\ addrs_of w "y" = [AV4 167772160].
Proof. split; vm_compute; reflexivity. Qed.
End witnesses.
End ServiceWorld.
