(* ===== verification/KubePool.v ===== *)
(** * Address pools and blocks

    The controllers of [kubernetes/src/controller/reconciler/address_pool.rs],
    [address_block.rs] and [block_request.rs] and the webhooks of
    [controller/webhook/address_pool.rs] and [address_block.rs]: a pool becomes a
    block for services or is divided into blocks that nodes request; the blocks
    for services are what the service watcher assigns from. *)

From stdpp Require Import pretty.
From S2P Require Import Prelude.
From S2P Require Import Net.
From S2P Require Import NetText.
From S2P Require Import IpamBitset.
From S2P Require Import IpamAllocator.
From S2P Require Import IpamManager.
From S2P Require Import KubeApi.

Module AddressPools.
Import Kube.

#[local] Abbreviation AllocatorSet := AllocatorSetInner.AllocatorSetInner.
#[local] Abbreviation BlockAllocator := BlockAllocatorInner.BlockAllocatorInner.

(** What the controllers send: blocks that are created and whose status is
    patched, and metrics. *)
Inductive Output : Type :=
| CreateBlock (ab : AddressBlock)
| PatchBlockStatus (name : string) (ab : AddressBlock)
| MaxBlocks (pool type : string) (n : Z)
| AllocatedBlocksInc (pool type : string)
| AllocatedBlocksDec (pool type : string)
| Reconciliation.

Section defs.
Context {I : IpNetApi} {T : TextApi} {P : Profile}.

(** [ControllerAddressBlockContext]: the memory the controllers share. *)
Record Ctrl : Type := { allocator_set : AllocatorSet; block_allocator : BlockAllocator }.

Definition set_alloc_set (a : AllocatorSet) (c : Ctrl) : Ctrl :=
  {| allocator_set := a; block_allocator := block_allocator c |}.
Definition set_block_allocator (b : BlockAllocator) (c : Ctrl) : Ctrl :=
  {| allocator_set := allocator_set c; block_allocator := b |}.

#[local] Abbreviation St := (Proc Ctrl Output).

Definition on_set (f : AllocatorSet -> AllocatorSet) : M St Error unit :=
  modify (fun p => set_comp (set_alloc_set (f (allocator_set (comp p))) (comp p)) p).
Definition on_pools (f : BlockAllocator -> BlockAllocator) : M St Error unit :=
  modify (fun p => set_comp (set_block_allocator (f (block_allocator (comp p))) (comp p)) p).

Definition parse_cidr (s : string) : res Error IpNet :=
  match parse_net s with Some c => Ok c | None => Err InvalidCIDR end.

(** The API server: whether a write is accepted, and what it has. *)
Context (accepts : list Output -> Output -> bool).
Context (get_block : list Output -> string -> option (option AddressBlock)).
Context (get_pool : list Output -> string -> option AddressPool).
Context (blocks_of_pool : list Output -> string -> option (list AddressBlock)).

(** ** Pools *)

(** [block_allocator.insert] if there is no pool of the name *)
Definition insert_pool (name : string) (pool : Pool.Pool) : M St Error unit :=
  on_pools (fun b => match BlockAllocatorInner.get b name with
                     | None => BlockAllocatorInner.insert name pool b
                     | Some _ => b
                     end).

Definition service_block (ap : AddressPool) : AddressBlock := {|
  ab_meta := {| m_name := m_name (ap_meta ap); m_namespace := None; m_uid := None; m_labels := ∅; m_annotations := ∅;
                m_owner_references := [create_owner_reference "sart.terassyi.net/v1alpha2" "AddressPool" (ap_meta ap)] |};
  ab_spec := {| ab_cidr := ap_cidr (ap_spec ap); ab_type := ap_type (ap_spec ap);
                pool_ref := m_name (ap_meta ap); node_ref := None;
                ab_auto_assign := default false (ap_auto_assign (ap_spec ap)) |};
  ab_status := None;
|}.

Definition reconcile_service_pool (ap : AddressPool) : M St Error Action :=
  cidr ← lift (parse_cidr (ap_cidr (ap_spec ap)));
  let name := m_name (ap_meta ap) in
  let size := default (ipnet_prefix_len cidr) (block_size (ap_spec ap)) in
  count (MaxBlocks name (show_address_type TService) 1) ;;
  found ← read (fun t => get_block t name);
  match found with
  | Some _ => mret AwaitChange
  | None =>
      write accepts (CreateBlock (service_block ap)) ;;
      pool ← lift (known (Pool.new cidr size));
      insert_pool name pool ;;
      mret AwaitChange
  end.

Definition reconcile_pod_pool (ap : AddressPool) : M St Error Action :=
  cidr ← lift (parse_cidr (ap_cidr (ap_spec ap)));
  let name := m_name (ap_meta ap) in
  let size := default (ipnet_prefix_len cidr) (block_size (ap_spec ap)) in
  max_blocks ← lift (ovf 32 (size - ipnet_prefix_len cidr));
  count (MaxBlocks name (show_address_type TPod) max_blocks) ;;
  p ← get_st;
  match BlockAllocatorInner.get (block_allocator (comp p)) name with
  | Some _ => mret AwaitChange
  | None => pool ← lift (known (Pool.new cidr size)); insert_pool name pool ;; mret AwaitChange
  end.

Definition reconcile_pool (ap : AddressPool) : M St Error Action :=
  match ap_type (ap_spec ap) with
  | TService => reconcile_service_pool ap
  | TPod => reconcile_pod_pool ap
  end.

Definition cleanup_pool (ap : AddressPool) : M St Error Action :=
  l ← read (fun t => blocks_of_pool t (m_name (ap_meta ap)));
  match l with [] => mret AwaitChange | _ => throw AddressPoolNotEmpty end.

(** ** Blocks *)

Definition set_auto_assign (a : option string) (s : AllocatorSet) : AllocatorSet :=
  AllocatorSetInner.mkSet (AllocatorSetInner.blocks s) (AllocatorSetInner.alloc_info s) a.
Definition insert_block (name : string) (b : Block.Block) (s : AllocatorSet) : AllocatorSet :=
  AllocatorSetInner.mkSet (<[name := b]> (AllocatorSetInner.blocks s)) (AllocatorSetInner.alloc_info s)
    (AllocatorSetInner.auto_assign s).

(** A block that is known already: its mark for automatic assignment. *)
Definition mark_block (name : string) (auto : bool) (s : AllocatorSet) : M St Error unit :=
  match auto, AllocatorSetInner.auto_assign s with
  | true, Some n => if decide (name = n) then mret tt else throw AutoAssignMustBeOne
  | true, None => on_set (set_auto_assign (Some name))
  | false, Some n => if decide (name = n) then on_set (set_auto_assign None) else mret tt
  | false, None => mret tt
  end.

(** A new block: it is inserted before the mark is looked at. *)
Definition add_block (ab : AddressBlock) (cidr : IpNet) : M St Error unit :=
  let name := m_name (ab_meta ab) in
  block ← lift (res_map_err Ipam (Block.new name name cidr));
  on_set (insert_block name block) ;;
  count (AllocatedBlocksInc (pool_ref (ab_spec ab)) (show_address_type (ab_type (ab_spec ab)))) ;;
  if ab_auto_assign (ab_spec ab) then
    p ← get_st;
    match AllocatorSetInner.auto_assign (allocator_set (comp p)) with
    | Some _ => throw FailedToEnableAutoAssign
    | None => on_set (set_auto_assign (Some name))
    end
  else mret tt.

Definition reconcile_service_block (ab : AddressBlock) : M St Error Action :=
  if decide (ab_type (ab_spec ab) = TService) then
    p ← get_st;
    let s := allocator_set (comp p) in
    cidr ← lift (parse_cidr (ab_cidr (ab_spec ab)));
    match AllocatorSetInner.blocks s !! m_name (ab_meta ab) with
    | Some _ => mark_block (m_name (ab_meta ab)) (ab_auto_assign (ab_spec ab)) s
    | None => add_block ab cidr
    end ;;
    mret AwaitChange
  else mret AwaitChange.

Definition reconcile_pod_block (ab : AddressBlock) : M St Error Action := mret AwaitChange.

Definition reconcile_block (ab : AddressBlock) : M St Error Action :=
  match ab_type (ab_spec ab) with
  | TPod => reconcile_pod_block ab
  | TService => reconcile_service_block ab
  end.

(** The pool is changed in place. *)
Definition on_pool {A} (name : string) (m : M Pool.Pool Error A) : M St Error (option A) :=
  p ← get_st;
  match BlockAllocatorInner.get (block_allocator (comp p)) name with
  | Some pool => let '(r, pool') := m pool in
      on_pools (BlockAllocatorInner.get_mut name (fun _ => pool')) ;; a ← lift r; mret (Some a)
  | None => mret None
  end.

Definition cleanup_pod_block (ab : AddressBlock) : M St Error Action :=
  match ab_status ab with
  | None => throw AddressBlockIndexNotSet
  | Some st =>
      r ← on_pool (pool_ref (ab_spec ab)) (map_err Ipam (Pool.release (index st)));
      match r with
      | Some _ => count (AllocatedBlocksDec (pool_ref (ab_spec ab)) (show_address_type (ab_type (ab_spec ab))))
      | None => mret tt
      end ;;
      mret AwaitChange
  end.

Definition cleanup_service_block (ab : AddressBlock) : M St Error Action :=
  let name := m_name (ab_meta ab) in
  p ← get_st;
  let s := allocator_set (comp p) in
  if decide (AllocatorSetInner.auto_assign s = Some name) then throw CannotDelete else
  match AllocatorSetInner.get s name with
  | None => mret AwaitChange
  | Some block =>
      empty ← lift (known (Allocator.is_empty (Block.allocator block)));
      if (empty : bool) then
        on_set (fun s => (AllocatorSetInner.remove name s).2) ;;
        count (AllocatedBlocksDec (pool_ref (ab_spec ab)) (show_address_type (ab_type (ab_spec ab)))) ;;
        mret AwaitChange
      else throw NotEmpty
  end.

Definition cleanup_block (ab : AddressBlock) : M St Error Action :=
  match ab_type (ab_spec ab) with
  | TPod => cleanup_pod_block ab
  | TService => cleanup_service_block ab
  end.

(** ** Requests for blocks *)

Definition make_net (w : IpAddr) (len : Z) : res Error IpNet :=
  match w with
  | AV4 a => match net_new a len with Some n => Ok (NV4 n) | None => Err InvalidCIDR end
  | AV6 a => match net_new a len with Some n => Ok (NV6 n) | None => Err InvalidCIDR end
  end.

Definition get_block_cidr (cidr : IpNet) (block_size head : Z) : res Error IpNet :=
  match cidr with
  | NV4 c =>
      n ← ovf 32 (net_network c + wrap 32 head);
      make_net (AV4 (if n <? net_addr c then net_addr c else n)) (wrap 8 block_size)
  | NV6 c =>
      n ← ovf 128 (net_network c + head);
      make_net (AV6 (if n <? net_addr c then net_addr c else n)) (wrap 8 block_size)
  end.

(** [2 ^ (block_prefix_len - prefix_len)]: in Rust [^] is the exclusive or. *)
Definition request_block_size (block_prefix_len prefix_len : Z) : res Error Z :=
  e ← ovf 32 (block_prefix_len - prefix_len);
  mret (Z.lxor 2 e).

(** [block_index * (block_size + 1) as u128] *)
Definition request_head (block_index block_size : Z) : res Error Z :=
  k ← ovf 32 (block_size + 1);
  ovf 128 (block_index * k).

Definition pod_block (ap : AddressPool) (br : BlockRequest) (name : string) (cidr : IpNet) (block_index : Z) : AddressBlock := {|
  ab_meta := {| m_name := name; m_namespace := None; m_uid := None;
                m_labels := {[ADDRESS_POOL_ANNOTATION := m_name (ap_meta ap)]}; m_annotations := ∅; m_owner_references := [] |};
  ab_spec := {| ab_cidr := show_net cidr; ab_type := TPod; pool_ref := m_name (ap_meta ap);
                node_ref := Some (br_node (br_spec br)); ab_auto_assign := default false (ap_auto_assign (ap_spec ap)) |};
  ab_status := Some {| index := wrap 32 block_index |};
|}.

(** The next index of the pool, and the name of its block. *)
Definition take_index (name : string) : M Pool.Pool Error (Z * string) :=
  pool ← get_st;
  let ab_name := name +:+ "-" +:+ pretty (Pool.counter pool) in
  i ← map_err Ipam (Pool.allocate ab_name);
  mret (i, ab_name).

Definition reconcile_request (br : BlockRequest) : M St Error Action :=
  ap ← read (fun t => get_pool t (br_pool (br_spec br)));
  if decide (ap_type (ap_spec ap) = TPod) then
    let name := m_name (ap_meta ap) in
    ap_net ← lift (parse_cidr (ap_cidr (ap_spec ap)));
    let block_prefix_len := default (ipnet_prefix_len ap_net) (block_size (ap_spec ap)) in
    size ← lift (request_block_size block_prefix_len (ipnet_prefix_len ap_net));
    taken ← on_pool name (take_index name);
    match taken with
    | None => throw InvalidPool
    | Some (block_index, ab_name) =>
        head ← lift (request_head block_index size);
        block_net ← lift (get_block_cidr ap_net block_prefix_len head);
        let ab := pod_block ap br ab_name block_net block_index in
        found ← read (fun t => get_block t ab_name);
        match found with
        | Some _ => mret AwaitChange
        | None =>
            write accepts (CreateBlock ab) ;;
            write accepts (PatchBlockStatus ab_name ab) ;;
            count (AllocatedBlocksInc (pool_ref (ab_spec ab)) (show_address_type TPod)) ;;
            mret AwaitChange
        end
    end
  else throw InvalidAddressType.

Definition cleanup_request (br : BlockRequest) : M St Error Action := mret AwaitChange.

(** ** The entry points *)

Definition finalize {A} (ev : Event) (apply cleanup : M St Error A) : M St Error A :=
  count Reconciliation ;;
  match ev with
  | Apply => map_err FinalizerApply apply
  | Cleanup => map_err FinalizerCleanup cleanup
  end.

Definition pool_reconciler (ev : Event) (ap : AddressPool) : M St Error Action :=
  finalize ev (reconcile_pool ap) (cleanup_pool ap).
Definition block_reconciler (ev : Event) (ab : AddressBlock) : M St Error Action :=
  finalize ev (reconcile_block ab) (cleanup_block ab).
Definition request_reconciler (ev : Event) (br : BlockRequest) : M St Error Action :=
  finalize ev (reconcile_request br) (cleanup_request br).

(** ** Webhooks *)

(** Whether [handle_validation] allows the pool: [None] when the pools cannot be
    listed. [existing] is what the API server lists. *)
Definition validate_pool (existing : option (list AddressPool)) (ap : AddressPool) : option bool :=
  match parse_net (ap_cidr (ap_spec ap)) with
  | None => Some false
  | Some cidr =>
      if MAX_BLOCK_SIZE <? default (ipnet_prefix_len cidr) (block_size (ap_spec ap)) then Some false
      else if default false (ap_auto_assign (ap_spec ap)) then
        match existing with
        | Some l => Some (negb (existsb (fun p => default false (ap_auto_assign (ap_spec p)) &&
                      bool_decide (ap_type (ap_spec p) = ap_type (ap_spec ap)) &&
                      negb (bool_decide (m_name (ap_meta p) = m_name (ap_meta ap)))) l))
        | None => None
        end
      else Some true
  end.

(** The patch of [mutate_address_block]: whether the label is replaced or added,
    its path and value. *)
Definition mutate_address_block (ab : AddressBlock) : res Error (bool * string * string) :=
  match node_ref (ab_spec ab) with
  | Some node => Ok (bool_decide (is_Some (m_labels (ab_meta ab) !! ADDRESS_BLOCK_NODE_LABEL)),
                     "/metadata/labels/" +:+ escape_slash ADDRESS_BLOCK_NODE_LABEL, node)
  | None => Err (InvalidParameter "spec.nodeRef is required for AddressBlock")
  end.

Definition handle_block_mutation (ab : AddressBlock) : option (res Error (bool * string * string)) :=
  if decide (ab_type (ab_spec ab) = TPod) then Some (mutate_address_block ab) else None.
End defs.
End AddressPools.
