(* ===== verification/KubePoolFacts.v ===== *)
(** * Properties of address pools and blocks

    For which sizes the blocks that nodes are given divide their pool, what a
    request that fails costs, what is left of a pool that was deleted, and the
    mark for automatic assignment. *)

From stdpp Require Import pretty.
From S2P Require Import Prelude.
From S2P Require Import Net.
From S2P Require Import NetText.
From S2P Require Import IpamBitset.
From S2P Require Import IpamAllocator.
From S2P Require Import IpamManager.
From S2P Require Import KubeApi.
From S2P Require Import KubePool.

Module PoolFacts.
Import Kube AddressPools.

(** ** The division of a pool *)

Section division.
Context {I : IpNetApi} {L : IpNetLaws} {P : Profile}.

(** The network of the block with an index, as a request computes it. *)
Definition requested_net (pool : IpNet) (block_prefix_len i : Z) : res Error IpNet :=
  size ← request_block_size block_prefix_len (ipnet_prefix_len pool);
  head ← request_head i size;
  get_block_cidr pool block_prefix_len head.

(** The distance between the starts of two blocks. *)
Definition stride (pl bp : Z) : Z := Z.lxor 2 (bp - pl) + 1.

(** The blocks divide the pool: the [i]-th is its [i]-th part. *)
Definition divides (c : Net 32) (bp : Z) : Prop :=
  forall i, 0 <= i < 2 ^ (bp - net_prefix_len c) ->
    exists b, requested_net (NV4 c) bp i = Ok (NV4 b) /\ net_prefix_len b = bp /\
      net_network b = net_network c + i * 2 ^ (32 - bp).

(** The sizes of pool and block for which the exclusive or is right. *)
Definition right_sizes : list (Z * Z) := [(24, 29); (15, 28); (29, 30); (28, 31); (30, 32)].

(** An index whose block is not where it should be. *)
Definition wrong_index (pl bp : Z) : Z :=
  let sz := 2 ^ (32 - bp) in
  if stride pl bp <? sz then 1 else (sz - 1) / (stride pl bp - sz) + 1.

Definition size_check (pl bp : Z) : bool :=
  let sz := 2 ^ (32 - bp) in
  let st := stride pl bp in
  let i := wrong_index pl bp in
  bool_decide (0 < st <= 64) &&
  (bool_decide ((pl, bp) ∈ right_sizes) && (st =? sz)
   || (st <? sz) && (i =? 1) || (sz <? st) && (1 <=? i) && (i <? 2 ^ (bp - pl)) && (i <=? 64) && (sz <=? i * (st - sz))).

Lemma size_checked pl bp : 0 <= pl < bp -> bp <= 32 -> size_check pl bp = true.
Proof.
  intros Hp Hb. assert (H : forallb (fun pl => forallb (fun bp => negb (pl <? bp) || size_check pl bp) (seqZ 0 33)) (seqZ 0 33) = true)
    by (vm_compute; reflexivity).
  rewrite forallb_forall in H. specialize (H pl). rewrite <-list_elem_of_In, elem_of_seqZ in H.
  specialize (H ltac:(lia)). rewrite forallb_forall in H. specialize (H bp). rewrite <-list_elem_of_In, elem_of_seqZ in H.
  specialize (H ltac:(lia)). apply orb_true_iff in H as [H|]; [|done].
  apply negb_true_iff, Z.ltb_ge in H. lia.
Qed.

Lemma lxor_small d : 0 <= d <= 32 -> 0 <= Z.lxor 2 d < 64.
Proof.
  intros Hd. split; [apply Z.lxor_nonneg; lia|].
  assert (H : forallb (fun d => Z.lxor 2 d <? 64) (seqZ 0 33) = true) by (vm_compute; reflexivity).
  rewrite forallb_forall in H. specialize (H d). rewrite <-list_elem_of_In, elem_of_seqZ in H.
  by apply Z.ltb_lt, H; lia.
Qed.

Lemma requested_eq (c : Net 32) bp i : net_prefix_len c <= bp <= 32 -> 0 <= i < 2 ^ 32 ->
  requested_net (NV4 c) bp i =
    (n ← ovf 32 (net_network c + wrap 32 (i * stride (net_prefix_len c) bp));
     make_net (AV4 (if n <? net_addr c then net_addr c else n)) bp).
Proof.
  intros Hbp Hi. pose proof (net_prefix_len_range c) as Hpl. unfold requested_net, request_block_size, request_head, stride.
  cbn [ipnet_prefix_len]. set (d := bp - net_prefix_len c). pose proof (lxor_small d ltac:(lia)) as Hx.
  rewrite (ovf_small 32 d) by (split; lia). mred. rewrite (ovf_small 32) by (split; lia).
  rewrite (ovf_small 128) by (split; [nia|]; change (2 ^ 128) with (2 ^ 32 * 2 ^ 96); nia).
  unfold get_block_cidr. rewrite (wrap_small 8) by (split; lia). done.
Qed.

Lemma make_net_ok a len : uint 32 a -> 0 <= len <= 32 ->
  exists b, make_net (AV4 a) len = Ok (NV4 b) /\ net_addr b = a /\ net_prefix_len b = len.
Proof. intros Ha Hl. destruct (net_new_ok a len Ha Hl) as (b & Hb & ? & ?). exists b. cbn. by rewrite Hb. Qed.

(** The start of the pool is a multiple of the size of its blocks. *)
Lemma network_aligned (c : Net 32) bp : net_prefix_len c <= bp <= 32 -> (2 ^ (32 - bp) | net_network c).
Proof.
  intros Hbp. pose proof (net_prefix_len_range c) as Hpl. rewrite net_network_spec.
  pose proof (Z.div_mod (net_addr c) (2 ^ (32 - net_prefix_len c)) ltac:(lia)) as Hd.
  replace (net_addr c - net_addr c mod 2 ^ (32 - net_prefix_len c))
    with (2 ^ (32 - net_prefix_len c) * (net_addr c / 2 ^ (32 - net_prefix_len c))) by lia.
  apply Z.divide_mul_l. exists (2 ^ (bp - net_prefix_len c)). rewrite <-Z.pow_add_r by lia. f_equal. lia.
Qed.

Lemma block_at (c : Net 32) bp i : net_addr c = net_network c -> net_prefix_len c <= bp <= 32 ->
  0 <= i < 2 ^ (bp - net_prefix_len c) -> i * stride (net_prefix_len c) bp = i * 2 ^ (32 - bp) ->
  exists b, requested_net (NV4 c) bp i = Ok (NV4 b) /\ net_prefix_len b = bp /\
    net_network b = net_network c + i * 2 ^ (32 - bp).
Proof.
  intros Ha Hbp Hi Hst. pose proof (net_prefix_len_range c) as Hpl. pose proof (net_network_range c) as [Hn0 Hn1].
  assert (Hpow : 2 ^ (32 - net_prefix_len c) = 2 ^ (bp - net_prefix_len c) * 2 ^ (32 - bp)).
  { rewrite <-Z.pow_add_r by lia. f_equal. lia. }
  assert (Hs : 0 < 2 ^ (32 - bp)) by (apply Z.pow_pos_nonneg; lia).
  assert (2 ^ (bp - net_prefix_len c) <= 2 ^ 32) by (apply Z.pow_le_mono_r; lia).
  rewrite requested_eq, Hst by lia. rewrite (wrap_small 32) by (split; nia). rewrite ovf_small by (split; nia). mred.
  replace (_ <? net_addr c) with false by (symmetry; apply Z.ltb_ge; nia).
  destruct (make_net_ok (net_network c + i * 2 ^ (32 - bp)) bp) as (b & Hb & Hba & Hbl); [split; nia|lia|].
  exists b. split_and!; [done|done|]. rewrite net_network_spec, Hba, Hbl.
  destruct (network_aligned c bp Hbp) as [k Hk]. rewrite Hk, <-Z.mul_add_distr_r, Z.mod_mul by lia. lia.
Qed.

Lemma wrong_block (c : Net 32) bp : net_addr c = net_network c -> net_prefix_len c < bp <= 32 ->
  stride (net_prefix_len c) bp <> 2 ^ (32 - bp) -> ~ divides c bp.
Proof.
  intros Ha Hbp Hne Hdiv. pose proof (net_prefix_len_range c) as Hpl. pose proof (net_network_range c) as [Hn0 Hn1].
  pose proof (size_checked (net_prefix_len c) bp ltac:(lia) ltac:(lia)) as Hck. unfold size_check in Hck.
  set (sz := 2 ^ (32 - bp)) in *. set (st := stride _ bp) in *. set (i := wrong_index _ bp) in *.
  assert (Hs : 0 < sz) by (apply Z.pow_pos_nonneg; lia).
  assert (Hd2 : 2 ^ 1 <= 2 ^ (bp - net_prefix_len c)) by (apply Z.pow_le_mono_r; lia).
  assert (Hd32 : 2 ^ (bp - net_prefix_len c) <= 2 ^ 32) by (apply Z.pow_le_mono_r; lia).
  assert (Hi : 0 < st <= 64 /\ 1 <= i < 2 ^ (bp - net_prefix_len c) /\ i <= 64 /\ (st < sz /\ i = 1 \/ sz <= i * (st - sz))).
  { rewrite !andb_true_iff, !orb_true_iff, !andb_true_iff, bool_decide_eq_true, Z.eqb_eq, !Z.ltb_lt, Z.eqb_eq, !Z.leb_le in Hck.
    destruct Hck as [Hst [[[_ Hck]|[Hck Hck1]]|((((Hck & Hck1) & Hck2) & Hck3) & Hck4)]]; [done|..]; split_and!; try lia. }
  destruct Hi as (Hst & Hi1 & Hi2 & Hcase). destruct (Hdiv i ltac:(lia)) as (b & Hb & Hbl & Hbn).
  assert (Hpow : 2 ^ (32 - net_prefix_len c) <= 2 ^ 32) by (apply Z.pow_le_mono_r; lia).
  rewrite requested_eq in Hb by lia. fold st in Hb. rewrite (wrap_small 32) in Hb by (split; nia).
  set (s := net_network c) in *. assert (Hv : 0 <= i * st <= 4096) by nia.
  destruct (network_aligned c bp ltac:(lia)) as [k Hk]. fold s sz in Hk.
  assert (Hnet : forall a, make_net (AV4 a) bp = Ok (NV4 b) -> uint 32 a -> s + i * sz = a - a mod sz).
  { intros a Hm Hu. destruct (make_net_ok a bp Hu ltac:(lia)) as (b' & Hb' & Hba & _). rewrite Hb' in Hm. injection Hm as <-.
    rewrite net_network_spec, Hba, Hbl in Hbn. fold sz in Hbn. lia. }
  destruct (decide (s + i * st < 2 ^ 32)) as [Hov|Hov].
  - rewrite ovf_small in Hb by (split; lia). mred in Hb.
    replace (_ <? net_addr c) with false in Hb by (symmetry; apply Z.ltb_ge; lia).
    apply Hnet in Hb; [|split; lia].
    assert (Hmod : (s + i * st) mod sz = (i * st) mod sz) by (rewrite Hk, Z.add_comm; apply Z.mod_add; lia).
    rewrite Hmod in Hb.
    pose proof (Z.mod_pos_bound (i * st) sz Hs). destruct Hcase as [[Hlt ->]|Hge].
    + rewrite Z.mod_small in Hb by lia. lia.
    + nia.
  - unfold ovf in Hb. rewrite decide_False in Hb by (unfold uint; lia). destruct overflow_checks; [done|]. mred in Hb.
    assert (Hw : wrap 32 (s + i * st) = s + i * st - 2 ^ 32).
    { unfold wrap. symmetry. apply (Z.mod_unique _ _ 1); lia. }
    rewrite Hw in Hb. replace (_ <? net_addr c) with true in Hb by (symmetry; apply Z.ltb_lt; lia).
    rewrite Ha in Hb. apply Hnet in Hb; [|split; lia]. fold s in Hb. rewrite Hk, Z.mod_mul in Hb by lia. nia.
Qed.

(** C38: the blocks that requests are given divide an IPv4 pool into its parts
    exactly when the pool is a single block or its prefix length and that of the
    blocks are one of five pairs: the size of a block is computed with the
    exclusive or [2 ^ n]. For every other pair some block is not where it
    should be; overlapping blocks give one address to pods of two nodes. *)
Theorem pod_blocks_divide_pool (c : Net 32) (bp : Z) (Ha : net_addr c = net_network c)
  (Hbp : net_prefix_len c <= bp <= 32) :
  divides c bp <-> bp = net_prefix_len c \/ (net_prefix_len c, bp) ∈ right_sizes.
Proof.
  pose proof (net_prefix_len_range c) as Hpl.
  destruct (decide (bp = net_prefix_len c)) as [->|Hne].
  - split; [by left|]. intros _ i Hi. rewrite Z.sub_diag in Hi. apply block_at; [done|lia|rewrite Z.sub_diag; lia|].
    assert (i = 0) as -> by (cbn in Hi; lia). done.
  - destruct (decide (stride (net_prefix_len c) bp = 2 ^ (32 - bp))) as [Hst|Hst].
    + split; [right|].
      * pose proof (size_checked (net_prefix_len c) bp ltac:(lia) ltac:(lia)) as Hck. unfold size_check in Hck.
        rewrite Hst, Z.ltb_irrefl, Z.eqb_refl in Hck.
        rewrite !andb_true_iff, !orb_true_iff, !andb_true_iff, !bool_decide_eq_true in Hck. naive_solver.
      * intros _ i Hi. apply block_at; [done|lia|done|by rewrite Hst].
    + split; [intros Hd; by apply (wrong_block c bp) in Hd; [|done|lia|done]|].
      intros [|Hin]; [done|]. destruct Hst. unfold right_sizes in Hin.
      repeat (apply elem_of_cons in Hin as [[= -> ->]|Hin]; [by vm_compute|]). by apply elem_of_nil in Hin.
Qed.
End division.

(** ** The controllers' memory *)

Section memory.
Context {I : IpNetApi} {T : TextApi} {P : Profile}.

#[local] Abbreviation St := (Proc Ctrl Output).

(** How the API server answers during a turn. *)
Record Env : Type := {
  accepts : list Output -> Output -> bool;
  get_block : list Output -> string -> option (option AddressBlock);
  get_pool : list Output -> string -> option AddressPool;
  blocks_of_pool : list Output -> string -> option (list AddressBlock);
}.

(** A turn of one of the three controllers. *)
Inductive Turn : Type :=
| PoolTurn (ap : AddressPool)
| BlockTurn (ab : AddressBlock)
| RequestTurn (br : BlockRequest).

Definition run_turn (e : Env) (ev : Event) (t : Turn) : M St Error Action :=
  match t with
  | PoolTurn ap => pool_reconciler (accepts e) (get_block e) (blocks_of_pool e) ev ap
  | BlockTurn ab => block_reconciler ev ab
  | RequestTurn br => request_reconciler (accepts e) (get_block e) (get_pool e) ev br
  end.

Definition after (p : St) (x : Env * Event * Turn) : St := (run_turn x.1.1 x.1.2 x.2 p).2.

(** A controller that has just started. *)
Definition started : St :=
  Build_Proc {| allocator_set := AllocatorSetInner.new; block_allocator := BlockAllocatorInner.mkInner ∅ |} [].

(** The block that is marked for automatic assignment is known. *)
Definition mark_ok (p : St) : Prop := AllocatorSetInner.auto_ok (allocator_set (comp p)).

Lemma keep_write acc o : maintains mark_ok (write acc o).
Proof. unfold write. keep; auto. Qed.
Lemma keep_read {A} (a : list Output -> option A) : maintains mark_ok (read a).
Proof. unfold read. keep; auto. Qed.
Lemma keep_count o : maintains mark_ok (count o).
Proof. unfold count. keep; auto. Qed.
Lemma keep_on_pools f : maintains mark_ok (on_pools f).
Proof. unfold on_pools. keep; auto. Qed.
Lemma keep_on_pool {A} n (m : M Pool.Pool Error A) : maintains mark_ok (on_pool n m).
Proof. unfold on_pool. keep; auto using keep_on_pools. Qed.

(** An action that depends on the state it finds. *)
Lemma maintains_at {S E A} (J : S -> Prop) (f : S -> M S E A) :
  (forall s r s', J s -> f s s = (r, s') -> J s') -> maintains J (s ← get_st; f s).
Proof. intros Hf s r s' Hs H. rewrite bind_get in H. by eapply Hf. Qed.

#[local] Hint Resolve keep_write keep_read keep_count keep_on_pools keep_on_pool : core.

Lemma keep_pool_turn e ev ap : maintains mark_ok (pool_reconciler (accepts e) (get_block e) (blocks_of_pool e) ev ap).
Proof.
  unfold pool_reconciler, finalize, reconcile_pool, cleanup_pool, reconcile_service_pool, reconcile_pod_pool, insert_pool.
  keep; auto.
Qed.

Lemma keep_request_turn e ev br : maintains mark_ok (request_reconciler (accepts e) (get_block e) (get_pool e) ev br).
Proof. unfold request_reconciler, finalize, reconcile_request, cleanup_request. keep; auto. Qed.

(** The mark is put on a block that is known, or taken away. *)
Lemma keep_mark_block name auto p r p' : mark_ok p -> is_Some (AllocatorSetInner.blocks (allocator_set (comp p)) !! name) ->
  mark_block name auto (allocator_set (comp p)) p = (r, p') -> mark_ok p'.
Proof.
  intros Hp Hn. unfold mark_block. destruct auto, (AllocatorSetInner.auto_assign _) as [n|] eqn:Ha;
    try case_decide; intros [= <- <-]; try done; intros m; cbn; naive_solver.
Qed.

Lemma keep_add_block ab cidr : maintains mark_ok (add_block ab cidr).
Proof.
  intros p r p' Hp. unfold add_block. set (name := m_name _). destruct (Block.new _ _ _) as [b|x|]; mred; [|by intros [= <- <-]..].
  assert (Hins : forall n, is_Some (AllocatorSetInner.blocks (allocator_set (comp p)) !! n) ->
    is_Some (<[name := b]> (AllocatorSetInner.blocks (allocator_set (comp p))) !! n)).
  { intros n Hn. by apply lookup_insert_is_Some'; right. }
  unfold on_set, count. mred. cbn.
  destruct (ab_auto_assign _); cbn; [destruct (AllocatorSetInner.auto_assign (allocator_set (comp p))) as [n|] eqn:Ha|];
    intros [= <- <-] m; cbn; [rewrite Ha; intros [= <-]; by apply Hins, Hp| |by intros Hm; apply Hins, Hp].
  intros [= <-]. by apply lookup_insert_is_Some'; left.
Qed.

Lemma keep_block_turn ev ab : maintains mark_ok (block_reconciler ev ab).
Proof.
  unfold block_reconciler, finalize, reconcile_block, reconcile_pod_block, cleanup_block, cleanup_pod_block.
  keep; auto.
  - unfold reconcile_service_block. case_decide as Hty; [|keep]. apply maintains_at. intros p r p' Hp.
    destruct (parse_cidr _) as [c|x|]; mred; [|by intros [= <- <-]..]. intros H.
    destruct (AllocatorSetInner.blocks _ !! _) eqn:Hb.
    + destruct (mark_block _ _ _ p) as [[[]|x|] p1] eqn:Hm; injection H as <- <-; by eapply keep_mark_block.
    + destruct (add_block ab c p) as [[[]|x|] p1] eqn:Hm; injection H as <- <-; by eapply keep_add_block.
  - unfold cleanup_service_block. apply maintains_at. intros p r p' Hp. cbv zeta.
    case_decide as Hne; [by intros [= <- <-]|]. destruct (AllocatorSetInner.get _ _); [|by intros [= <- <-]].
    destruct (known _) as [[]|x|]; mred; intros [= <- <-]; try done.
    intros m. cbn. destruct (AllocatorSetInner.auto_assign _) as [mk|] eqn:Ha; [|done]. case_decide; [done|].
    intros [= <-]. rewrite lookup_delete_ne by congruence. by apply Hp.
Qed.

(** C25: whatever the controllers of pools, blocks and requests do, in whatever
    order and however the API server answers, the block that is marked for
    automatic assignment is one that the controller has, so that a service without
    a pool of its own is never assigned from a block that is gone. *)
Theorem marked_block_is_known (l : list (Env * Event * Turn)) :
  AllocatorSetInner.auto_ok (allocator_set (comp (foldl after started l))).
Proof.
  change (mark_ok (foldl after started l)). assert (H : mark_ok started) by done.
  revert H. generalize started. induction l as [|[[e ev] t] l IH]; intros p Hp; [done|].
  cbn [foldl]. apply IH. unfold after. cbn [fst snd]. destruct (run_turn e ev t p) as [r p'] eqn:Hr.
  destruct t; cbn [run_turn] in Hr; [eapply keep_pool_turn|eapply keep_block_turn|eapply keep_request_turn]; done.
Qed.

(** Two actions that leave the same memory. *)
Definition alike {A} (m m' : M St Error A) : Prop := forall p, comp (m p).2 = comp (m' p).2.

Lemma alike_bind {A B} (m : M St Error A) (f g : A -> M St Error B) :
  (forall a, alike (f a) (g a)) -> alike (m ≫= f) (m ≫= g).
Proof. intros H p. unfold mbind, M_bind. destruct (m p) as [[a|e|] p']; [apply H|done..]. Qed.

Lemma alike_map_err {A} (f : Error -> Error) (m m' : M St Error A) : alike m m' -> alike (map_err f m) (map_err f m').
Proof. intros H p. specialize (H p). unfold map_err. by destruct (m p) as [[] ?], (m' p) as [[] ?]. Qed.

(** Actions that change nothing in memory are alike. *)
Lemma alike_still {A} (m m' : M St Error A) : (forall c, maintains (fun p => comp p = c) m) ->
  (forall c, maintains (fun p => comp p = c) m') -> alike m m'.
Proof.
  intros H H' p. destruct (m p) as [r q] eqn:E1, (m' p) as [r' q'] eqn:E2. cbn.
  by rewrite (H (comp p) p r q eq_refl E1), (H' (comp p) p r' q' eq_refl E2).
Qed.

(** A request whose block the API server refuses leaves the same memory as
    one whose block is created: its index stays taken and no block has it. *)
Theorem refused_request_keeps_index (e : Env) (acc : list Output -> Output -> bool) (br : BlockRequest) (p : St) :
  comp (run_turn e Apply (RequestTurn br) p).2 =
  comp (run_turn {| accepts := acc; get_block := get_block e; get_pool := get_pool e;
                    blocks_of_pool := blocks_of_pool e |} Apply (RequestTurn br) p).2.
Proof.
  cbn [run_turn accepts get_block get_pool]. unfold request_reconciler, finalize. revert p.
  apply alike_bind. intros _. apply alike_map_err. unfold reconcile_request. apply alike_bind. intros ap.
  case_decide; [|done]. do 3 (apply alike_bind; intros ?). destruct a1 as [[]|]; [|done].
  do 3 (apply alike_bind; intros ?). destruct a3 as [|]; [done|].
  apply alike_still; intros c; unfold write, count; keep; auto.
Qed.
End memory.

Section witnesses.
#[local] Existing Instance simple_ipnet.
#[local] Existing Instance simple_ipnet_laws.
#[local] Existing Instance debug_profile.

Definition net24 : Net 32 := exist _ (167772160, 24) Logic.I.
Definition net16 : Net 32 := exist _ (167772160, 16) Logic.I.

(** A pool of the size [/24] is divided into blocks of the size [/29]; one of the
    size [/16] is not divided into blocks of the size [/24]: the first two blocks
    are one network. *)
Lemma pod_blocks_divide_pool_witness :
  divides net24 29 /\ ~ divides net16 24 /\
  match requested_net (NV4 net16) 24 0, requested_net (NV4 net16) 24 1 with
  | Ok (NV4 a), Ok (NV4 b) => net_network a = net_network b
  | _, _ => False
  end.
Proof.
  assert (H24 : net_prefix_len net24 <= 29 <= 32) by (split; vm_compute; discriminate).
  assert (H16 : net_prefix_len net16 <= 24 <= 32) by (split; vm_compute; discriminate).
  assert (A24 : net_addr net24 = net_network net24) by (vm_compute; reflexivity).
  assert (A16 : net_addr net16 = net_network net16) by (vm_compute; reflexivity).
  pose proof (pod_blocks_divide_pool net24 29 A24 H24) as D24.
  pose proof (pod_blocks_divide_pool net16 24 A16 H16) as D16.
  split_and!.
  - apply D24. right. apply (bool_decide_unpack _). vm_compute. exact Logic.I.
  - intros H. apply D16 in H as [E|E]; [discriminate E|]. revert E. apply (bool_decide_eq_false _). vm_compute. reflexivity.
  - vm_compute. reflexivity.
Defined.
End witnesses.
End PoolFacts.
