(* ===== verification/KubeRecover.v ===== *)
(** * The restart of the controller

    [recover_or_create] of [kubernetes/src/controller/server.rs]: when the
    controller starts, it reads the pools and blocks of the API server and puts
    the blocks back into its memory. The theorems say what it recovers, and that
    the first request for a block of a pool that has blocks is lost after a restart. *)

From Stdlib Require Import Ascii.
From stdpp Require Import pretty.
From S2P Require Import Prelude.
From S2P Require Import Net.
From S2P Require Import NetText.
From S2P Require Import IpamBitset.
From S2P Require Import IpamAllocator.
From S2P Require Import IpamManager.
From S2P Require Import BgpAttribute.
From S2P Require Import KubeApi.
From S2P Require Import KubePool.

Module Recovery.
Import Kube AddressPools.

#[local] Abbreviation BlockAllocator := BlockAllocatorInner.BlockAllocatorInner.

Fixpoint res_fold {E A B} (f : B -> A -> res E B) (l : list A) (b : B) : res E B :=
  match l with [] => Ok b | x :: l' => b' ← f b x; res_fold f l' b' end.

Lemma res_fold_app {E A B} (f : B -> A -> res E B) l1 l2 b :
  res_fold f (l1 ++ l2) b = (b' ← res_fold f l1 b; res_fold f l2 b').
Proof. induction l1 as [|x l1 IH] in b |- *; [done|]. cbn [app res_fold]. destruct (f b x); [apply IH|done|done]. Qed.

Section defs.
Context {I : IpNetApi} {T : TextApi} {P : Profile}.

(** A pool of the API server; a network that is none panics. *)
Definition add_pool (m : gmap string Pool.Pool) (ap : AddressPool) : res Error (gmap string Pool.Pool) :=
  match parse_net (ap_cidr (ap_spec ap)) with
  | None => Panic
  | Some cidr =>
      pool ← known (Pool.new cidr (default (ipnet_prefix_len cidr) (block_size (ap_spec ap))));
      Ok (<[m_name (ap_meta ap) := pool]> m)
  end.

(** The number at the end of the name of a block *)
Definition block_number (name : string) : option Z := last (split_on "-" name) ≫= Attribute.parse_uint 32.

(** The pools, and the highest number of the blocks of each *)
Record Recovered : Type := { pool_map : gmap string Pool.Pool; pool_counter : gmap string Z }.

Definition count_block (n : string) (c : Z) (m : gmap string Z) : gmap string Z :=
  match m !! n with
  | Some c_max => if c_max <? c then <[n := c]> m else m
  | None => <[n := c]> m
  end.

(** One block of the API server; a block without a number is passed over. *)
Definition recover_block (acc : Recovered) (ab : AddressBlock) : res Error Recovered :=
  match block_number (m_name (ab_meta ab)) with
  | None => Ok acc
  | Some c_num =>
      let pool_name := pool_ref (ab_spec ab) in
      let counter := count_block pool_name c_num (pool_counter acc) in
      match pool_map acc !! pool_name with
      | None => Ok {| pool_map := pool_map acc; pool_counter := counter |}
      | Some pool =>
          match ab_status ab with
          | None => Err AddressBlockIndexNotSet
          | Some status =>
              match Pool.allocate_with (index status) (m_name (ab_meta ab)) pool with
              | (Ok _, pool') => Ok {| pool_map := <[pool_name := pool']> (pool_map acc); pool_counter := counter |}
              | (Err e, _) => Err (Ipam e)
              | (Panic, _) => Panic
              end
          end
      end
  end.

Definition set_counter (c : Z) (p : Pool.Pool) : Pool.Pool :=
  Pool.mkPool (Pool.cidr p) (Pool.size p) (Pool.block_size p) (Pool.allocator p) (Pool.blocks p) c.

(** [recover_or_create] on what the API server lists *)
Definition recover_or_create (aps : option (list AddressPool)) (abs : option (list AddressBlock)) : res Error BlockAllocator :=
  ap_list ← match aps with Some l => Ok l | None => Err KubeErr end;
  ab_list ← match abs with Some l => Ok l | None => Err KubeErr end;
  pools ← res_fold add_pool ap_list ∅;
  acc ← res_fold recover_block ab_list {| pool_map := pools; pool_counter := ∅ |};
  Ok (BlockAllocatorInner.mkInner
        (map_imap (fun n p => Some (match pool_counter acc !! n with Some c => set_counter c p | None => p end)) (pool_map acc))).
End defs.

(** ** What is recovered *)

Section facts.
Context {I : IpNetApi} {T : TextApi} {P : Profile}.

(** The block is one of the pool, with a number at the end of its name. *)
Definition of_pool (n : string) (ab : AddressBlock) : Prop :=
  pool_ref (ab_spec ab) = n /\ is_Some (block_number (m_name (ab_meta ab))).

Definition index_of (ab : AddressBlock) : option Z := index <$> ab_status ab.

(** The numbers of the blocks of a pool, and the highest *)
Definition numbers (n : string) (l : list AddressBlock) : list Z :=
  omap (fun ab => if decide (pool_ref (ab_spec ab) = n) then block_number (m_name (ab_meta ab)) else None) l.
Definition max_of (l : list Z) : option Z :=
  foldl (fun m c => Some (match m with Some k => Z.max k c | None => c end)) None l.

(** What the memory says of a pool when the blocks [l] have been read *)
Record pool_spec (n : string) (p0 : Pool.Pool) (l : list AddressBlock) (p : Pool.Pool) : Prop := {
  sp_wf : BitSet.wf (Pool.allocator p);
  sp_size : BitSet.size (Pool.allocator p) = BitSet.size (Pool.allocator p0);
  sp_taken i : 0 <= i -> BitSet.mem (Pool.allocator p) i = true <-> exists ab, ab ∈ l /\ of_pool n ab /\ index_of ab = Some i;
  sp_blocks name i : Pool.blocks p !! name = Some i <->
    exists ab, ab ∈ l /\ of_pool n ab /\ m_name (ab_meta ab) = name /\ index_of ab = Some i;
  sp_counter : Pool.counter p = Pool.counter p0;
  sp_net : Pool.cidr p = Pool.cidr p0 /\ Pool.size p = Pool.size p0 /\ Pool.block_size p = Pool.block_size p0;
}.

Record recovered (pools : gmap string Pool.Pool) (l : list AddressBlock) (acc : Recovered) : Prop := {
  rc_pools n : match pools !! n with
               | Some p0 => exists p, pool_map acc !! n = Some p /\ pool_spec n p0 l p
               | None => pool_map acc !! n = None
               end;
  rc_counter n : pool_counter acc !! n = max_of (numbers n l);
}.

(** The blocks are those that the controller has made: each has an index of its
    pool, and no two have the same name. *)
Record legit (pools : gmap string Pool.Pool) (l : list AddressBlock) : Prop := {
  lg_names : NoDup (map (fun ab => m_name (ab_meta ab)) l);
  lg_index ab p : ab ∈ l -> is_Some (block_number (m_name (ab_meta ab))) -> pools !! pool_ref (ab_spec ab) = Some p ->
    exists i, index_of ab = Some i /\ 0 <= i < BitSet.size (Pool.allocator p);
  lg_small n p : pools !! n = Some p -> BitSet.size (Pool.allocator p) <= 2 ^ 32;
}.

Lemma max_of_snoc l c : max_of (l ++ [c]) = Some (match max_of l with Some k => Z.max k c | None => c end).
Proof. unfold max_of. by rewrite foldl_app. Qed.

Lemma numbers_snoc n l ab : numbers n (l ++ [ab]) =
  numbers n l ++ match (if decide (pool_ref (ab_spec ab) = n) then block_number (m_name (ab_meta ab)) else None) with
                 | Some c => [c] | None => [] end.
Proof. unfold numbers. rewrite omap_app. cbn. by destruct (if decide _ then _ else _). Qed.

Lemma count_block_spec n n' c m : count_block n c m !! n' =
  if decide (n = n') then Some (match m !! n' with Some k => Z.max k c | None => c end) else m !! n'.
Proof.
  unfold count_block. case_decide as Hn.
  - subst n'. destruct (m !! n) as [k|] eqn:Hm; [|by simplify_map_eq].
    destruct (Z.ltb_spec k c); simplify_map_eq; f_equal; lia.
  - destruct (m !! n) as [k|]; [destruct (_ <? _)|]; by rewrite ?lookup_insert_ne.
Qed.

(** The blocks of a pool after one more block *)
Lemma of_pool_snoc n l ab (Q : AddressBlock -> Prop) :
  (exists x, x ∈ l ++ [ab] /\ of_pool n x /\ Q x) <->
  (exists x, x ∈ l /\ of_pool n x /\ Q x) \/ (of_pool n ab /\ Q ab).
Proof.
  split.
  - intros (x & [Hx| ->%list_elem_of_singleton]%elem_of_app & Hn & HQ); [left; eauto|by right].
  - intros [(x & Hx & Hn & HQ)|[Hn HQ]]; [exists x|exists ab]; rewrite elem_of_app, list_elem_of_singleton; auto.
Qed.

(** A block that does not count changes nothing. *)
Lemma pool_spec_skip n p0 l p ab : ~ of_pool n ab -> pool_spec n p0 l p -> pool_spec n p0 (l ++ [ab]) p.
Proof.
  intros Hn [H1 H2 H3 H4 H5 H6]. split; [done|done|..|done|done].
  - intros i Hi. rewrite (H3 i Hi), of_pool_snoc. tauto.
  - intros name i. rewrite H4, of_pool_snoc. tauto.
Qed.

(** The index of a block of the pool is taken. *)
Lemma pool_spec_take n p0 l p ab i : of_pool n ab -> index_of ab = Some i -> 0 <= i < BitSet.size (Pool.allocator p0) ->
  BitSet.size (Pool.allocator p0) <= 2 ^ 32 -> (forall x, x ∈ l -> m_name (ab_meta x) <> m_name (ab_meta ab)) -> pool_spec n p0 l p ->
  exists p', Pool.allocate_with i (m_name (ab_meta ab)) p = (Ok i, p') /\ pool_spec n p0 (l ++ [ab]) p'.
Proof.
  intros Hn Hi Hr Hsz Hnew [H1 H2 H3 H4 H5 H6].
  destruct (BitSet.set_spec (Pool.allocator p) i true H1 ltac:(lia)) as (b' & Hset & Hwf & Hsize & Hmem).
  unfold Pool.allocate_with, zoom, map_err, mbind, M_bind, modify. rewrite Hset. cbn. eexists. split; [done|].
  split; cbn; [done|lia|..|done|done].
  - intros j Hj. rewrite Hmem, of_pool_snoc by done. destruct (Z.eqb_spec j i) as [->|Hne].
    + split; [intros _; by right|done].
    + rewrite (H3 j Hj). split; [by left|]. intros [H|[_ H]]; [done|congruence].
  - intros name j. rewrite of_pool_snoc, wrap_small by (split; lia).
    destruct (decide (name = m_name (ab_meta ab))) as [->|Hne].
    + rewrite lookup_insert_eq. split.
      * intros [= <-]. right. done.
      * intros [(x & Hx & _ & Hname & _)|(_ & _ & Hj)]; [by destruct (Hnew x Hx)|congruence].
    + rewrite lookup_insert_ne by done. rewrite H4. split; [by left|]. intros [H|(_ & Hname & _)]; [done|congruence].
Qed.

(** One more block *)
Lemma recover_step pools l ab rest acc : legit pools (l ++ ab :: rest) -> recovered pools l acc ->
  exists acc', recover_block acc ab = Ok acc' /\ recovered pools (l ++ [ab]) acc'.
Proof.
  intros Hleg [Hp Hc]. unfold recover_block. destruct (block_number (m_name (ab_meta ab))) as [c|] eqn:Hnum.
  2:{ assert (Hno : forall n, ~ of_pool n ab) by (intros n [_ H]; rewrite Hnum in H; by destruct H).
      exists acc. split; [done|]. split; intros n.
      - specialize (Hp n). destruct (pools !! n) as [p0|]; [|done]. destruct Hp as (p & Hn & Hs). exists p. split; [done|].
        by apply pool_spec_skip.
      - rewrite Hc, numbers_snoc, Hnum. case_decide; by rewrite app_nil_r. }
  assert (Hcount : forall n, count_block (pool_ref (ab_spec ab)) c (pool_counter acc) !! n = max_of (numbers n (l ++ [ab]))).
  { intros n. rewrite count_block_spec, numbers_snoc, Hnum, Hc. case_decide; [by rewrite max_of_snoc|by rewrite app_nil_r]. }
  assert (Hpool : of_pool (pool_ref (ab_spec ab)) ab) by (split; [done|by rewrite Hnum]).
  assert (Hothers : forall n (m : gmap string Pool.Pool), n <> pool_ref (ab_spec ab) ->
    match pools !! n with Some p0 => exists p, m !! n = Some p /\ pool_spec n p0 l p | None => m !! n = None end ->
    match pools !! n with Some p0 => exists p, m !! n = Some p /\ pool_spec n p0 (l ++ [ab]) p | None => m !! n = None end).
  { intros n m Hn H. destruct (pools !! n) as [p0|]; [|done]. destruct H as (p & Hm & Hs). exists p. split; [done|].
    apply pool_spec_skip; [|done]. intros [? _]. congruence. }
  pose proof (Hp (pool_ref (ab_spec ab))) as Hpn. destruct (pools !! pool_ref (ab_spec ab)) as [p0|] eqn:Hp0.
  - destruct Hpn as (p & Hpm & Hs). rewrite Hpm.
    destruct (lg_index _ _ Hleg ab p0) as (i & Hi & Hr); [rewrite elem_of_app; right; by left|by rewrite Hnum|done|].
    unfold index_of in Hi. destruct (ab_status ab) as [st|] eqn:Hst; [|done]. injection Hi as Hi.
    assert (Hnew : forall x, x ∈ l -> m_name (ab_meta x) <> m_name (ab_meta ab)).
    { intros x Hx Heq. pose proof (lg_names _ _ Hleg) as Hnd. rewrite map_app, NoDup_app in Hnd. destruct Hnd as (_ & Hnd & _).
      apply (Hnd (m_name (ab_meta x))); [|cbn; rewrite Heq; by left]. apply list_elem_of_fmap. by exists x. }
    destruct (pool_spec_take (pool_ref (ab_spec ab)) p0 l p ab (index st)) as (p' & Ha & Hs');
      [done|unfold index_of; by rewrite Hst|lia|by eapply lg_small|done|done|].
    rewrite Ha. eexists. split; [done|]. split; [|done]. intros n. cbn [pool_map].
    destruct (decide (n = pool_ref (ab_spec ab))) as [->|Hn].
    + rewrite Hp0, lookup_insert_eq. by exists p'.
    + apply Hothers; [done|]. rewrite lookup_insert_ne by done. apply Hp.
  - rewrite Hpn. eexists. split; [done|]. split; [|done]. intros n. cbn [pool_map].
    destruct (decide (n = pool_ref (ab_spec ab))) as [->|Hn]; [by rewrite Hp0|]. apply Hothers; [done|apply Hp].
Qed.

Lemma recover_blocks pools l2 : forall l1 acc, legit pools (l1 ++ l2) -> recovered pools l1 acc ->
  exists acc', res_fold recover_block l2 acc = Ok acc' /\ recovered pools (l1 ++ l2) acc'.
Proof.
  induction l2 as [|ab l2 IH]; intros l1 acc Hleg Hr; [exists acc; by rewrite app_nil_r|].
  destruct (recover_step pools l1 ab l2 acc Hleg Hr) as (acc1 & H1 & Hr1). cbn [res_fold]. unfold mbind, res_bind. rewrite H1.
  destruct (IH (l1 ++ [ab]) acc1) as (acc2 & H2 & Hr2); [by rewrite <- app_assoc|done|]. exists acc2.
  split; [exact H2|]. by rewrite <- app_assoc in Hr2.
Qed.

(** A pool as it is made *)
Definition fresh (p : Pool.Pool) : Prop :=
  BitSet.wf (Pool.allocator p) /\ Pool.counter p = 0 /\ Pool.blocks p = ∅ /\ forall i, BitSet.mem (Pool.allocator p) i = false.

Lemma fresh_recovered pools : (forall n p, pools !! n = Some p -> fresh p) ->
  recovered pools [] {| pool_map := pools; pool_counter := ∅ |}.
Proof.
  intros Hf. split; intros n; cbn; [|done]. destruct (pools !! n) as [p|] eqn:Hp; [|done].
  destruct (Hf n p Hp) as (H1 & H2 & H3 & H4). exists p. split; [done|]. split; [done|done|..|done|done].
  - intros i Hi. rewrite H4. split; [done|]. intros (ab & H & _). by apply elem_of_nil in H.
  - intros name i. rewrite H3, lookup_empty. split; [done|]. intros (ab & H & _). by apply elem_of_nil in H.
Qed.

(** A pool that the webhook and the CRD allow: its network is one, and its blocks
    are no larger than it and at most [2 ^ 32]. *)
Definition sound_pool (ap : AddressPool) : Prop :=
  exists c, parse_net (ap_cidr (ap_spec ap)) = Some c /\
    0 <= default (ipnet_prefix_len c) (block_size (ap_spec ap)) - ipnet_prefix_len c <= 32.

Definition fresh_small (p : Pool.Pool) : Prop := fresh p /\ BitSet.size (Pool.allocator p) <= 2 ^ 32.

Lemma pool_new_fresh c bs : 0 <= bs - ipnet_prefix_len c <= 32 -> exists p, Pool.new c bs = Ok p /\ fresh_small p.
Proof.
  intros Hbs. assert (0 < 2 ^ (bs - ipnet_prefix_len c) <= 2 ^ 32).
  { split; [apply Z.pow_pos_nonneg; lia|apply Z.pow_le_mono_r; lia]. }
  unfold Pool.new. rewrite ovf_small by (split; lia). cbn [mbind res_bind]. rewrite ovf_small by (split; lia).
  eexists. split; [reflexivity|]. unfold fresh_small, fresh. cbn [Pool.allocator Pool.counter Pool.blocks].
  split_and!; [apply BitSet.wf_new; lia|done|done|intros i; apply BitSet.mem_new|]. cbn [BitSet.size BitSet.new]. lia.
Qed.

Lemma add_pools_fresh aps : forall m pools, Forall sound_pool aps -> (forall n p, m !! n = Some p -> fresh_small p) ->
  res_fold add_pool aps m = Ok pools -> forall n p, pools !! n = Some p -> fresh_small p.
Proof.
  induction aps as [|ap aps IH]; intros m pools Hs Hm Hf; cbn [res_fold] in Hf; [by injection Hf as <-|].
  apply Forall_cons in Hs as [(c & Hc & Hbs) Hs]. destruct (pool_new_fresh c _ Hbs) as (p & Hnew & Hp).
  assert (Ha : add_pool m ap = Ok (<[m_name (ap_meta ap) := p]> m)) by (unfold add_pool; by rewrite Hc, Hnew).
  rewrite Ha in Hf. revert Hf. apply IH; [done|].
  intros n q. destruct (decide (m_name (ap_meta ap) = n)) as [<-|Hn]; [|rewrite lookup_insert_ne by done; apply Hm].
  rewrite lookup_insert_eq. by intros [= <-].
Qed.

(** The memory after a restart *)
Lemma restarted aps abs pools : Forall sound_pool aps -> res_fold add_pool aps ∅ = Ok pools -> legit pools abs ->
  exists inner, recover_or_create (Some aps) (Some abs) = Ok inner /\
    forall n, match pools !! n with
              | None => BlockAllocatorInner.get inner n = None
              | Some p0 => exists p, BlockAllocatorInner.get inner n = Some (set_counter (default 0 (max_of (numbers n abs))) p) /\
                             pool_spec n p0 abs p
              end.
Proof.
  intros Hs Hpools Hleg.
  assert (Hf : forall n p, pools !! n = Some p -> fresh_small p) by (eapply add_pools_fresh; [done| |done]; done).
  destruct (recover_blocks pools abs [] {| pool_map := pools; pool_counter := ∅ |}) as (acc & Hacc & [Hp Hc]);
    [done|apply fresh_recovered; intros n p Hn; by destruct (Hf n p Hn)|].
  unfold recover_or_create. cbn [mbind res_bind]. rewrite Hpools. cbn [mbind res_bind]. rewrite Hacc. eexists. split; [reflexivity|].
  rewrite app_nil_l in *. intros n. specialize (Hp n). unfold BlockAllocatorInner.get. cbn [BlockAllocatorInner.pools].
  rewrite map_lookup_imap, Hc.
  destruct (pools !! n) as [p0|] eqn:H0; [|by rewrite Hp]. destruct Hp as (p & Hn & Hspec). rewrite Hn. cbn [mbind option_bind].
  exists p. split; [|exact Hspec]. destruct (max_of (numbers n abs)); [reflexivity|]. cbn. f_equal.
  destruct (Hf n p0 H0) as [(_ & H2 & _) _]. pose proof (sp_counter _ _ _ _ Hspec) as Hcnt. rewrite H2 in Hcnt.
  destruct p; cbn in *. by subst.
Qed.

(** The pools and blocks are those that the webhook lets in and the controllers
    make: pools and blocks have distinct names, every pool is sound, and each
    numbered block of a listed pool has an index within it. *)
Record listed (aps : list AddressPool) (abs : list AddressBlock) : Prop := {
  ls_names : NoDup (map (fun ap => m_name (ap_meta ap)) aps);
  ls_sound : Forall sound_pool aps;
  ls_blocks : NoDup (map (fun ab => m_name (ab_meta ab)) abs);
  ls_index ab ap c : ab ∈ abs -> is_Some (block_number (m_name (ab_meta ab))) ->
    ap ∈ aps -> m_name (ap_meta ap) = pool_ref (ab_spec ab) -> parse_net (ap_cidr (ap_spec ap)) = Some c ->
    exists i, index_of ab = Some i /\ 0 <= i < 2 ^ (default (ipnet_prefix_len c) (block_size (ap_spec ap)) - ipnet_prefix_len c);
}.

(** The pool in memory is the one listed: its network, the size of its blocks and
    an index for each block that fits. *)
Definition is_pool (ap : AddressPool) (p : Pool.Pool) : Prop :=
  parse_net (ap_cidr (ap_spec ap)) = Some (Pool.cidr p) /\ Pool.size p = ipnet_prefix_len (Pool.cidr p) /\
  Pool.block_size p = default (ipnet_prefix_len (Pool.cidr p)) (block_size (ap_spec ap)) /\
  BitSet.size (Pool.allocator p) = 2 ^ (Pool.block_size p - Pool.size p).

Lemma add_pool_made m ap : sound_pool ap -> exists p, add_pool m ap = Ok (<[m_name (ap_meta ap) := p]> m) /\ is_pool ap p.
Proof.
  intros (c & Hc & Hbs). unfold add_pool, Pool.new. rewrite Hc.
  assert (0 < 2 ^ (default (ipnet_prefix_len c) (block_size (ap_spec ap)) - ipnet_prefix_len c) <= 2 ^ 32).
  { split; [apply Z.pow_pos_nonneg; lia|apply Z.pow_le_mono_r; lia]. }
  rewrite ovf_small by (split; lia). cbn [mbind res_bind]. rewrite ovf_small by (split; lia). eexists. split; [reflexivity|].
  by split_and!.
Qed.

Lemma add_pools_made aps : forall m, NoDup (map (fun ap => m_name (ap_meta ap)) aps) -> Forall sound_pool aps ->
  exists pools, res_fold add_pool aps m = Ok pools /\
    (forall ap, ap ∈ aps -> exists p, pools !! m_name (ap_meta ap) = Some p /\ is_pool ap p) /\
    (forall n, (forall ap, ap ∈ aps -> m_name (ap_meta ap) <> n) -> pools !! n = m !! n).
Proof.
  induction aps as [|ap aps IH]; intros m Hnd Hs; [exists m; split_and!; [done|by intros ? ?%elem_of_nil|done]|].
  apply Forall_cons in Hs as [Hap Hs]. cbn in Hnd. apply NoDup_cons in Hnd as [Hn Hnd].
  destruct (add_pool_made m ap Hap) as (p & Ha & Hp). destruct (IH (<[m_name (ap_meta ap) := p]> m) Hnd Hs) as (pools & Hf & Hin & Hout).
  exists pools. cbn [res_fold]. rewrite Ha. cbn [mbind res_bind]. split_and!; [done|..].
  - intros ap' [->|Hap']%elem_of_cons; [|by apply Hin]. exists p. split; [|done]. rewrite Hout; [apply lookup_insert_eq|].
    intros x Hx Heq. apply Hn. apply list_elem_of_fmap. by exists x.
  - intros n Hno. rewrite Hout by (intros x Hx; apply Hno; by right). apply lookup_insert_ne, Hno. left.
Qed.

(** The pools that are listed, as the first loop puts them in memory *)
Lemma listed_pools aps abs : listed aps abs -> exists pools, res_fold add_pool aps ∅ = Ok pools /\ legit pools abs /\
  (forall ap, ap ∈ aps -> exists p, pools !! m_name (ap_meta ap) = Some p /\ is_pool ap p) /\
  (forall n p, pools !! n = Some p -> exists ap, ap ∈ aps /\ m_name (ap_meta ap) = n).
Proof.
  intros [Hn Hs Hb Hi]. destruct (add_pools_made aps ∅ Hn Hs) as (pools & Hf & Hin & Hout). exists pools. split; [done|].
  assert (Hname : forall n p, pools !! n = Some p -> exists ap, ap ∈ aps /\ m_name (ap_meta ap) = n).
  { intros n p Hp. destruct (decide (n ∈ map (fun ap => m_name (ap_meta ap)) aps)) as [(ap & -> & Hap)%list_elem_of_fmap|Hno]; [by exists ap|].
    rewrite Hout in Hp; [by rewrite lookup_empty in Hp|]. intros ap Hap <-. apply Hno. apply list_elem_of_fmap. by exists ap. }
  split; [|done]. split; [done|..].
  - intros ab p Hab Hnum Hp. destruct (Hname _ _ Hp) as (ap & Hap & Heq). destruct (Hin ap Hap) as (q & Hq & Hc & Hsz & Hbs & Hsize).
    rewrite Heq, Hp in Hq. injection Hq as <-. rewrite Hsize, Hbs, Hsz. by apply (Hi ab ap (Pool.cidr p)).
  - intros n p Hp. destruct (add_pools_fresh aps ∅ pools Hs ltac:(done) Hf n p Hp) as [_ H]. exact H.
Qed.

(** C9: after a restart the memory of the controller has exactly the pools that
    the API server lists, each with its network, the size of its blocks and as
    many indices as blocks fit; of each pool exactly the indices of its numbered
    blocks are taken and exactly those blocks are recorded, each under its index;
    the counter is the highest number of them (0 without any). This holds when
    the pools have distinct names and sound sizes, the blocks have distinct names
    and every block of a listed pool whose name ends in a number has an index
    within the pool ([missing_status_fails_restart] is what happens otherwise);
    blocks without a number, as those of most service pools, are not recorded. If
    no two numbered blocks of a pool share an index, the invariant of the pool
    holds. *)
Theorem recovery_restores_blocks (aps : list AddressPool) (abs : list AddressBlock) (Hlisted : listed aps abs) :
  exists inner, recover_or_create (Some aps) (Some abs) = Ok inner /\
    (forall n, is_Some (BlockAllocatorInner.get inner n) <-> exists ap, ap ∈ aps /\ m_name (ap_meta ap) = n) /\
    forall ap p, ap ∈ aps -> BlockAllocatorInner.get inner (m_name (ap_meta ap)) = Some p ->
      is_pool ap p /\
      (forall i, 0 <= i -> BitSet.mem (Pool.allocator p) i = true <->
                           exists ab, ab ∈ abs /\ of_pool (m_name (ap_meta ap)) ab /\ index_of ab = Some i) /\
      (forall name i, Pool.blocks p !! name = Some i <->
                      exists ab, ab ∈ abs /\ of_pool (m_name (ap_meta ap)) ab /\ m_name (ab_meta ab) = name /\ index_of ab = Some i) /\
      Pool.counter p = default 0 (max_of (numbers (m_name (ap_meta ap)) abs)) /\
      ((forall ab ab' i, ab ∈ abs -> ab' ∈ abs -> of_pool (m_name (ap_meta ap)) ab -> of_pool (m_name (ap_meta ap)) ab' ->
          index_of ab = Some i -> index_of ab' = Some i -> ab = ab') -> Pool.ok p).
Proof.
  destruct (listed_pools aps abs Hlisted) as (pools & Hpools & Hleg & Hin & Hname).
  destruct (restarted aps abs pools (ls_sound _ _ Hlisted) Hpools Hleg) as (inner & Hrun & Hget). exists inner. split; [done|]. split.
  { intros n. specialize (Hget n). destruct (pools !! n) as [p0|] eqn:Hp0.
    - destruct Hget as (? & -> & _). split; [intros _; by eapply Hname|by eexists].
    - rewrite Hget. split; [by intros []|]. intros (ap & Hap & <-). destruct (Hin ap Hap) as (? & ? & _). congruence. }
  intros ap p Hap Hp. specialize (Hget (m_name (ap_meta ap))). destruct (Hin ap Hap) as (p0 & Hp0 & Hpool). rewrite Hp0 in Hget.
  destruct Hget as (q & Hq & [H1 H2 H3 H4 H5 (N1 & N2 & N3)]). rewrite Hp in Hq. injection Hq as ->.
  unfold is_pool. cbn [set_counter Pool.allocator Pool.blocks Pool.counter Pool.cidr Pool.size Pool.block_size].
  split; [by rewrite H2, N1, N2, N3|]. split_and!; [done|done|done|]. intros Hinj. split; cbn.
  - done.
  - rewrite H2. by eapply lg_small.
  - intros name i (ab & Hab & Hof & _ & Hi)%H4. destruct Hof as [Hr Hn].
    destruct (lg_index _ _ Hleg ab p0) as (j & Hj & Hjr); [done|done|by rewrite Hr|]. rewrite Hi in Hj. injection Hj as <-.
    rewrite H2. split; [done|]. apply H3; [lia|]. exists ab. by split_and!.
  - intros n1 n2 i (ab & Hab & Hof & <- & Hi)%H4 (ab' & Hab' & Hof' & <- & Hi')%H4. by rewrite (Hinj ab ab' i).
Qed.

(** A numbered block of a pool that has no status, as the block that is made for a
    service pool whose name ends in a number, or one whose status could not be
    written, is an error: it is the last thing the controller does. *)
Lemma missing_status_fails_restart aps l1 ab l2 pools : Forall sound_pool aps -> res_fold add_pool aps ∅ = Ok pools ->
  legit pools l1 -> is_Some (block_number (m_name (ab_meta ab))) -> is_Some (pools !! pool_ref (ab_spec ab)) ->
  ab_status ab = None -> recover_or_create (Some aps) (Some (l1 ++ ab :: l2)) = Err AddressBlockIndexNotSet.
Proof.
  intros Hs Hpools Hleg [k Hk] [p0 Hp0] Hst.
  assert (Hf : forall n p, pools !! n = Some p -> fresh_small p) by (eapply add_pools_fresh; [done| |done]; done).
  destruct (recover_blocks pools l1 [] {| pool_map := pools; pool_counter := ∅ |}) as (acc & Hacc & [Hp _]);
    [done|apply fresh_recovered; intros n p Hn; by destruct (Hf n p Hn)|].
  specialize (Hp (pool_ref (ab_spec ab))). rewrite Hp0 in Hp. destruct Hp as (p & Hp & _).
  assert (Hstop : recover_block acc ab = Err AddressBlockIndexNotSet) by (unfold recover_block; by rewrite Hk, Hp, Hst).
  unfold recover_or_create. cbn [mbind res_bind]. rewrite Hpools. cbn [mbind res_bind].
  rewrite res_fold_app, Hacc. cbn [mbind res_bind res_fold]. by rewrite Hstop.
Qed.

(** ** The first request after a restart *)

Lemma max_of_in l c : max_of l = Some c -> c ∈ l.
Proof.
  induction l as [|x l IH] using rev_ind in c |- *; [done|]. rewrite max_of_snoc, elem_of_app, list_elem_of_singleton.
  intros [= <-]. destruct (max_of l) as [k|]; [|by right]. destruct (Z.max_spec k x) as [[_ ->]|[_ ->]]; [by right|left; by apply IH].
Qed.

Lemma max_of_some l x : x ∈ l -> is_Some (max_of l).
Proof. destruct l as [|y l] using rev_ind; [by intros ?%elem_of_nil|]. rewrite max_of_snoc. done. Qed.

Lemma elem_of_numbers n l c : c ∈ numbers n l <->
  exists ab, ab ∈ l /\ pool_ref (ab_spec ab) = n /\ block_number (m_name (ab_meta ab)) = Some c.
Proof.
  unfold numbers. rewrite list_elem_of_omap. split.
  - intros (ab & Hab & H). case_decide; [|done]. by exists ab.
  - intros (ab & Hab & Hn & Hc). exists ab. by rewrite decide_True.
Qed.

(** The index that a request takes is taken whatever comes of the request, and the
    name of its block is made with the counter as it was. *)
Lemma take_index_taken name p : BitSet.wf (Pool.allocator p) ->
  (exists i, 0 <= i < BitSet.size (Pool.allocator p) /\ BitSet.mem (Pool.allocator p) i = false) ->
  exists r p' i, take_index name p = (r, p') /\ 0 <= i < BitSet.size (Pool.allocator p) /\
    BitSet.mem (Pool.allocator p) i = false /\ BitSet.mem (Pool.allocator p') i = true /\
    (forall j s, r = Ok (j, s) -> s = name +:+ "-" +:+ pretty (Pool.counter p)).
Proof.
  intros Hwf (f & Hfr & Hf). destruct (BitSet.set_next_run _ Hwf) as [(i & b' & Hn & Hi & Hm & _ & _ & _ & Hmem)|[_ Hall]];
    [|by rewrite Hall in Hf].
  unfold take_index. rewrite bind_get. cbn beta iota zeta. unfold map_err, mbind, M_bind.
  rewrite (Pool.pool_allocate_run _ _ _ _ Hn). unfold mbind, M_bind, get_st, lift, put_st, mret, M_ret. cbn [Pool.counter].
  assert (Hi' : BitSet.mem b' i = true) by (rewrite Hmem, Z.eqb_refl by lia; done).
  destruct (ovf 32 (Pool.counter p + 1)) as [c|e|]; cbn; eexists _, _, i; split_and!; try done; try lia; by intros ? ? [= <- <-].
Qed.

Section request.
Context (accepts : list Output -> Output -> bool).
Context (get_block : list Output -> string -> option (option AddressBlock)).
Context (get_pool : list Output -> string -> option AddressPool).

(** A request of which the block exists already sends nothing. *)
Lemma request_existing br ap c n pool st : get_pool (sent st) (br_pool (br_spec br)) = Some ap -> ap_type (ap_spec ap) = TPod ->
  parse_net (ap_cidr (ap_spec ap)) = Some c ->
  0 <= default (ipnet_prefix_len c) (block_size (ap_spec ap)) - ipnet_prefix_len c <= 32 -> m_name (ap_meta ap) = n ->
  BlockAllocatorInner.get (block_allocator (comp st)) n = Some pool -> BitSet.wf (Pool.allocator pool) ->
  (exists i, 0 <= i < BitSet.size (Pool.allocator pool) /\ BitSet.mem (Pool.allocator pool) i = false) ->
  (exists ab, get_block (sent st) (n +:+ "-" +:+ pretty (Pool.counter pool)) = Some (Some ab)) ->
  exists i pool' st', (reconcile_request accepts get_block get_pool br st).2 = st' /\ sent st' = sent st /\
    BlockAllocatorInner.get (block_allocator (comp st')) n = Some pool' /\ 0 <= i < BitSet.size (Pool.allocator pool) /\
    BitSet.mem (Pool.allocator pool) i = false /\ BitSet.mem (Pool.allocator pool') i = true.
Proof.
  intros Hap Hty Hc Hbs Hn Hpool Hwf Hfree [ab Hab].
  destruct (take_index_taken n pool Hwf Hfree) as (r & pool' & i & Htake & Hi & Hm & Hm' & Hname).
  exists i, pool'. unfold reconcile_request, read, on_pool, on_pools, mbind, M_bind, get_st, lift, modify.
  rewrite Hap. cbn [mret M_ret]. rewrite decide_True by done. unfold parse_cidr. rewrite Hc. unfold request_block_size.
  rewrite ovf_small by (split; lia). cbn [mbind res_bind mret res_ret]. rewrite Hn, Hpool, Htake.
  set (st' := set_comp _ st).
  assert (Hst : sent st' = sent st /\ BlockAllocatorInner.get (block_allocator (comp st')) n = Some pool').
  { split; [done|]. unfold st', BlockAllocatorInner.get, BlockAllocatorInner.get_mut in *. cbn in *. by rewrite lookup_alter_eq, Hpool. }
  exists st'. split_and!; try apply Hst; try done; try lia.
  destruct r as [[j s]|e|]; [|done|done]. rewrite (Hname j s eq_refl). cbn [mret M_ret].
  destruct (request_head _ _) as [h|e|]; [|done|done]. destruct (get_block_cidr _ _ _) as [net|e|]; [|done|done].
  destruct Hst as [-> _]. by rewrite Hab.
Qed.

(** C40: the name of a block of a pool is made with a counter that is increased after
    it, so that the counter that a restart finds is the number of a block that
    exists. For a pool for pods that has a numbered block at the restart, named
    after the pool and its number, and a free index, when the API server answers
    with what it listed: the first request for a block of the
    pool after the restart takes an index that no block has, finds a block of its
    name and sends nothing to the API server, though every write would be
    accepted: the node gets no block and the index stays taken. *)
Theorem request_after_restart_is_lost (aps : list AddressPool) (abs : list AddressBlock)
  (br : BlockRequest) (ap : AddressPool) (c : IpNet) (Hlisted : listed aps abs)
  (Hap : ap ∈ aps) (Hty : ap_type (ap_spec ap) = TPod) (Hbr : br_pool (br_spec br) = m_name (ap_meta ap))
  (Hc : parse_net (ap_cidr (ap_spec ap)) = Some c)
  (Hfree : exists i, 0 <= i < 2 ^ (default (ipnet_prefix_len c) (block_size (ap_spec ap)) - ipnet_prefix_len c) /\
     forall ab, ab ∈ abs -> of_pool (m_name (ap_meta ap)) ab -> index_of ab <> Some i)
  (Hone : exists ab, ab ∈ abs /\ of_pool (m_name (ap_meta ap)) ab)
  (Hnames : forall ab k, ab ∈ abs -> block_number (m_name (ab_meta ab)) = Some k ->
     m_name (ab_meta ab) = pool_ref (ab_spec ab) +:+ "-" +:+ pretty k)
  (Hget_pool : forall t, get_pool t (m_name (ap_meta ap)) = Some ap)
  (Hget_block : forall t ab, ab ∈ abs -> get_block t (m_name (ab_meta ab)) = Some (Some ab)) :
  exists inner, recover_or_create (Some aps) (Some abs) = Ok inner /\
    forall st, block_allocator (comp st) = inner ->
      exists i pool' st', (request_reconciler accepts get_block get_pool Apply br st).2 = st' /\
        sent st' = sent st ++ [Reconciliation] /\
        (forall ab, ab ∈ abs -> of_pool (m_name (ap_meta ap)) ab -> index_of ab <> Some i) /\
        BlockAllocatorInner.get (block_allocator (comp st')) (m_name (ap_meta ap)) = Some pool' /\
        BitSet.mem (Pool.allocator pool') i = true.
Proof.
  destruct (listed_pools aps abs Hlisted) as (pools & Hpools & Hleg & Hin & _). pose proof (ls_sound _ _ Hlisted) as Hsound.
  destruct (Hin ap Hap) as (pool & Hpool & Hc' & Hsz & Hbsz & Hsize). rewrite Hc in Hc'. injection Hc' as Hc'.
  rewrite Hbsz, Hsz, <-Hc' in Hsize.
  destruct (restarted aps abs pools Hsound Hpools Hleg) as (inner & Hrun & Hget). exists inner. split; [done|].
  intros st Hst. specialize (Hget (m_name (ap_meta ap))). rewrite Hpool in Hget. destruct Hget as (p & Hp & [H1 H2 H3 H4 H5 _]).
  destruct (proj1 (Forall_forall _ _) Hsound ap Hap) as (c0 & Hc0 & Hbs). rewrite Hc in Hc0. injection Hc0 as <-.
  destruct Hone as (ab & Hab & Hr & k & Hk).
  destruct (max_of_some (numbers (m_name (ap_meta ap)) abs) k) as [m Hm]; [apply elem_of_numbers; by exists ab|].
  destruct (proj1 (elem_of_numbers _ _ _) (max_of_in _ _ Hm)) as (ab' & Hab' & Hr' & Hk').
  destruct (request_existing br ap c (m_name (ap_meta ap)) (set_counter m p) (push Reconciliation st)) as (i & pool' & st' & Hq);
    cbn [push comp sent set_counter Pool.allocator Pool.counter]; try done.
  - by rewrite Hbr.
  - rewrite Hst, Hp, Hm. done.
  - destruct Hfree as (i & Hi & Hno). exists i. rewrite H2, Hsize. split; [done|]. apply not_true_is_false. rewrite H3 by lia. naive_solver.
  - exists ab'. rewrite <- Hr'. rewrite <- (Hnames ab' m) by done. by apply Hget_block.
  - destruct Hq as (Hq & Hsent & Hget & Hi & Hfr & Hm'). exists i, pool', st'. split.
    { unfold request_reconciler, finalize, count. rewrite bind_modify. unfold map_err.
      destruct (reconcile_request accepts get_block get_pool br (push Reconciliation st)) as [[] q]; exact Hq. }
    split_and!; [done|..|done|done]. intros x Hx Hof Hxi. cbn in Hfr. enough (BitSet.mem (Pool.allocator p) i = true) by congruence.
    apply H3; [lia|]. by exists x.
Qed.
End request.
End facts.

(** ** Witnesses *)

Section witnesses.
#[local] Existing Instances simple_ipnet simple_ipnet_laws simple_text simple_text_laws debug_profile.

Definition w_meta (name : string) : ObjectMeta :=
  {| m_name := name; m_namespace := None; m_uid := None; m_labels := ∅; m_annotations := ∅; m_owner_references := [] |}.
Definition w_net : IpNet := NV4 (exist _ (167772160, 24) Logic.I : Net 32).
Definition w_pool : AddressPool := {|
  ap_meta := w_meta "p";
  ap_spec := {| ap_cidr := show_net w_net; ap_type := TPod; alloc_type := None; block_size := Some 26; ap_auto_assign := None |} |}.
Definition w_block (name : string) (i : Z) : AddressBlock := {|
  ab_meta := w_meta name;
  ab_spec := {| ab_cidr := ""; ab_type := TPod; pool_ref := "p"; node_ref := None; ab_auto_assign := false |};
  ab_status := Some {| index := i |} |}.
Definition w_blocks : list AddressBlock := [w_block "p-0" 0; w_block "p-1" 2].
Definition w_new : Pool.Pool := Pool.mkPool w_net 24 26 (BitSet.new 4) ∅ 0.

Lemma w_sound : Forall sound_pool [w_pool].
Proof.
  constructor; [|constructor]. exists w_net. split; [apply parse_show_net|].
  change (0 <= 26 - 24 <= 32). lia.
Qed.

Lemma w_pools : res_fold add_pool [w_pool] ∅ = Ok {["p"%string := w_new]}.
Proof. cbn [res_fold]. unfold add_pool, w_pool. cbn [ap_spec ap_cidr]. rewrite parse_show_net. reflexivity. Qed.

Lemma w_number ab k : ab ∈ w_blocks -> block_number (m_name (ab_meta ab)) = Some k ->
  m_name (ab_meta ab) = pool_ref (ab_spec ab) +:+ "-" +:+ pretty k.
Proof.
  unfold w_blocks. rewrite !elem_of_cons, elem_of_nil. intros [->|[->|[]]] H; vm_compute in H; injection H as <-; vm_compute; reflexivity.
Qed.

Lemma w_legit : legit {["p"%string := w_new]} w_blocks.
Proof.
  split.
  - cbn. apply (bool_decide_unpack _). vm_compute. exact Logic.I.
  - unfold w_blocks. intros ab p. rewrite !elem_of_cons, elem_of_nil. cbn.
    intros [->|[->|[]]] _ [_ <-]%lookup_singleton_Some; eexists; (split; [reflexivity|cbn; lia]).
  - intros n p [_ <-]%lookup_singleton_Some. cbn. lia.
Qed.

Lemma w_listed : listed [w_pool] w_blocks.
Proof.
  split; [by apply (bool_decide_unpack _)|exact w_sound|exact (lg_names _ _ w_legit)|].
  unfold w_blocks. intros ab ap c. rewrite !elem_of_cons, !elem_of_nil. intros Hab _ [->|[]] _ Hc.
  unfold w_pool in Hc. cbn [ap_spec ap_cidr] in Hc. rewrite parse_show_net in Hc. injection Hc as <-.
  destruct Hab as [->|[->|[]]]; eexists; (split; [reflexivity|]); (change (0 <= 0 < 2 ^ (26 - 24)) || change (0 <= 2 < 2 ^ (26 - 24))); lia.
Qed.

Lemma recovery_restores_blocks_witness :
  exists inner p, recover_or_create (Some [w_pool]) (Some w_blocks) = Ok inner /\
    BlockAllocatorInner.get inner "p" = Some p /\ Pool.counter p = 1 /\ Pool.ok p /\ BitSet.mem (Pool.allocator p) 2 = true.
Proof.
  destruct (recovery_restores_blocks [w_pool] w_blocks w_listed) as (inner & Hrun & Hknown & Hpool).
  destruct (proj2 (Hknown "p"%string)) as [p Hp]; [exists w_pool; by split; [left|]|].
  destruct (Hpool w_pool p ltac:(left) Hp) as (_ & Htaken & _ & Hcount & Hok). exists inner, p. split; [done|]. split; [done|].
  split; [rewrite Hcount; vm_compute; reflexivity|]. split.
  - apply Hok. unfold w_blocks. intros ab ab' i. rewrite !elem_of_cons, !elem_of_nil.
    intros [->|[->|[]]] [->|[->|[]]] _ _ Hi1 Hi2; try reflexivity; cbn in Hi1, Hi2; congruence.
  - apply Htaken; [lia|]. exists (w_block "p-1" 2). split; [by right; left|]. split; [split; [done|]|done]. by eexists; vm_compute.
Defined.

Definition w_request : BlockRequest := {| br_meta := w_meta "r"; br_spec := {| br_pool := "p"; br_node := "n" |} |}.
Definition w_get (t : list Output) (name : string) : option (option AddressBlock) :=
  Some (List.find (fun ab => bool_decide (m_name (ab_meta ab) = name)) w_blocks).

Lemma request_after_restart_is_lost_witness :
  exists inner, recover_or_create (Some [w_pool]) (Some w_blocks) = Ok inner /\
    let st := Build_Proc {| allocator_set := AllocatorSetInner.new; block_allocator := inner |} [] in
    sent (request_reconciler (fun _ _ => true) w_get (fun _ _ => Some w_pool) Apply w_request st).2 = [Reconciliation].
Proof.
  destruct (request_after_restart_is_lost (fun _ _ => true) w_get (fun _ _ => Some w_pool) [w_pool] w_blocks w_request w_pool w_net
    w_listed) as (inner & Hrun & H); try done.
  - by left.
  - exists 1. split; [change (0 <= 1 < 2 ^ (26 - 24)); lia|]. unfold w_blocks. intros ab. rewrite !elem_of_cons, elem_of_nil. by intros [->|[->|[]]] _.
  - exists (w_block "p-0" 0). split; [by left|]. split; [done|]. by eexists; vm_compute.
  - apply w_number.
  - intros t ab. unfold w_blocks. rewrite !elem_of_cons, elem_of_nil. by intros [->|[->|[]]].
  - exists inner. split; [done|]. cbn zeta. destruct (H (Build_Proc {| allocator_set := AllocatorSetInner.new; block_allocator := inner |} []) eq_refl)
      as (i & pool' & st' & -> & -> & _). done.
Defined.
End witnesses.
End Recovery.
