(* ===== verification/KubeBgpApi.v ===== *)
(** * The custom resources of BGP

    [kubernetes/src/crd]: clusters, nodes, peers, peer templates and
    advertisements, with their methods; [agent/error.rs]; and the controllers and
    webhooks of [kubernetes/src/controller] that give a peer to the nodes of a
    cluster: [reconciler/cluster_bgp.rs], [reconciler/node_watcher.rs],
    [webhook/bgp_peer.rs] and [webhook/bgp_advertisement.rs]. *)

From stdpp Require Import pretty.
From S2P Require Import Prelude.
From S2P Require Import Net.
From S2P Require Import NetText.
From S2P Require Import IpamBitset.
From S2P Require Import IpamAllocator.
From S2P Require Import KubeApi.

Module BgpCrd.
Import Kube.

Definition BGP_ADVERTISEMENT_FINALIZER : string := "bgpadvertisement.sart.terassyi.net/finalizer".
Definition BGP_PEER_FINALIZER : string := "bgppeer.sart.terassyi.net/finalizer".
Definition BGP_PEER_NODE_LABEL : string := "bgppeer.sart.terassyi.net/node".
Definition PEER_GROUP_ANNOTATION : string := "bgppeer.sart.terassyi.net/group".
Definition NODE_BGP_FINALIZER : string := "nodebgp.sart.terassyi.net/finalizer".
Definition CLUSTER_BGP_FINALIZER : string := "clusterbgp.sart.terassyi.net/finalizer".
Definition ASN_LABEL : string := "sart.terassyi.net/asn".
Definition ROUTER_ID_LABEL : string := "sart.terassyi.net/router-id".

(** ** Advertisements *)

Inductive AdvertiseStatus : Type := NotAdvertised | Advertised | Withdraw.
#[global] Instance AdvertiseStatus_eq_dec : EqDecision AdvertiseStatus.
Proof. solve_decision. Defined.

Definition show_advertise_status (s : AdvertiseStatus) : string :=
  match s with Advertised => "advertised" | NotAdvertised => "notadvertised" | Withdraw => "withdraw" end.

Inductive Protocol : Type := IPv4 | IPv6.

Definition protocol_of {I : IpNetApi} (n : IpNet) : Protocol := match n with NV4 _ => IPv4 | NV6 _ => IPv6 end.

Record BGPAdvertisementSpec : Type := {
  ba_cidr : string; ba_type : AddressType; ba_protocol : Protocol; attrs : option (list string) }.
Record BGPAdvertisementStatus : Type := { ba_peers : option (gmap string AdvertiseStatus) }.
Record BGPAdvertisement : Type := {
  ba_meta : ObjectMeta; ba_spec : BGPAdvertisementSpec; ba_status : option BGPAdvertisementStatus }.

(** [status.peers] *)
Definition peers_of (ba : BGPAdvertisement) : option (gmap string AdvertiseStatus) := ba_status ba ≫= ba_peers.
Definition with_peers (m : gmap string AdvertiseStatus) (ba : BGPAdvertisement) : BGPAdvertisement :=
  {| ba_meta := ba_meta ba; ba_spec := ba_spec ba; ba_status := Some {| ba_peers := Some m |} |}.

(** ** Peers *)

Record SpeakerConfig : Type := { path : string; timeout : option Z; multipath : option bool }.

Record BGPPeerSpec : Type := {
  bp_asn : Z; bp_addr : string; hold_time : option Z; keepalive_time : option Z; capabilities : option (list string);
  node_bgp_ref : string; cluster_bgp_ref : option string; bp_speaker : SpeakerConfig; groups : option (list string) }.

Inductive BGPPeerConditionStatus : Type :=
| Unknown | Idle | Active | Connect | OpenSent | OpenConfirm | Established.
#[global] Instance BGPPeerConditionStatus_eq_dec : EqDecision BGPPeerConditionStatus.
Proof. solve_decision. Defined.

(** [status as i32] *)
Definition status_as_i32 (s : BGPPeerConditionStatus) : Z :=
  match s with
  | Unknown => 0 | Idle => 1 | Active => 2 | Connect => 3 | OpenSent => 4 | OpenConfirm => 5 | Established => 6
  end.

Definition show_peer_status (s : BGPPeerConditionStatus) : string :=
  match s with
  | Unknown => "unknown" | Idle => "idle" | Active => "active" | Connect => "connect" | OpenSent => "opensent"
  | OpenConfirm => "openconfirm" | Established => "established"
  end.

Record BGPPeerCondition : Type := { bc_status : BGPPeerConditionStatus; bc_reason : string }.
Record BGPPeerStatus : Type := { bp_backoff : Z; bp_conditions : option (list BGPPeerCondition) }.
Record BGPPeer : Type := { bp_meta : ObjectMeta; bp_spec : BGPPeerSpec; bp_status : option BGPPeerStatus }.
Record BGPPeerSlim : Type := { slim_name : string; slim_spec : BGPPeerSpec }.

(** [crd::error::Error] *)
Inductive CrdError : Type := CrdStdIo | CrdKube | Validation (s : string) | InvalidPeerState (n : Z).

Definition status_try_from (value : Z) : res CrdError BGPPeerConditionStatus :=
  match value with
  | 1 => Ok Idle | 2 => Ok Connect | 3 => Ok Active | 4 => Ok OpenSent | 5 => Ok OpenConfirm | 6 => Ok Established
  | _ => Err (InvalidPeerState value)
  end.

Definition validate (s : BGPPeerSpec) : res CrdError unit :=
  if bp_asn s =? 0 then Err (Validation "Invalid ASN")
  else if decide (bp_addr s = EmptyString) then Err (Validation "Invalid remote peer address")
  else Ok tt.

(** ** Nodes and clusters *)

Inductive NodeBGPConditionStatus : Type := Available | Unavailable.
#[global] Instance NodeBGPConditionStatus_eq_dec : EqDecision NodeBGPConditionStatus.
Proof. solve_decision. Defined.
Definition show_node_status (s : NodeBGPConditionStatus) : string :=
  match s with Available => "available" | Unavailable => "unavailable" end.

Inductive NodeBGPConditionReason : Type := NotConfigured | Configured | InvalidConfiguration.
#[global] Instance NodeBGPConditionReason_eq_dec : EqDecision NodeBGPConditionReason.
Proof. solve_decision. Defined.

Record NodeBGPCondition : Type := { nc_status : NodeBGPConditionStatus; nc_reason : NodeBGPConditionReason }.
#[global] Instance NodeBGPCondition_eq_dec : EqDecision NodeBGPCondition.
Proof. solve_decision. Defined.

Record NodeBGPSpec : Type := { nb_asn : Z; nb_router_id : string; nb_speaker : SpeakerConfig; nb_peers : option (list BGPPeerSlim) }.
Record NodeBGPStatus : Type := {
  nb_backoff : Z; cluster_bgp_refs : option (list string); nb_conditions : option (list NodeBGPCondition) }.
Record NodeBGP : Type := { nb_meta : ObjectMeta; nb_spec : NodeBGPSpec; nb_status : option NodeBGPStatus }.

Definition with_nb_peers (l : option (list BGPPeerSlim)) (nb : NodeBGP) : NodeBGP := {|
  nb_meta := nb_meta nb;
  nb_spec := {| nb_asn := nb_asn (nb_spec nb); nb_router_id := nb_router_id (nb_spec nb);
                nb_speaker := nb_speaker (nb_spec nb); nb_peers := l |};
  nb_status := nb_status nb |}.
Definition with_nb_status (s : option NodeBGPStatus) (nb : NodeBGP) : NodeBGP :=
  {| nb_meta := nb_meta nb; nb_spec := nb_spec nb; nb_status := s |}.

Record BGPPeerTemplateSpec : Type := {
  t_asn : option Z; t_addr : option string; t_capabilities : option (list string); t_hold_time : option Z;
  t_keepalive_time : option Z; t_groups : option (list string) }.

Record PeerConfig : Type := {
  peer_template_ref : option string; peer_config : option BGPPeerTemplateSpec; node_bgp_selector : option (gmap string string) }.

Inductive AsnSelectionType : Type := FromAsn | AsnFromLabel.
Record AsnSelector : Type := { asn_from : AsnSelectionType; sel_asn : option Z }.
Inductive RouterIdSelectionType : Type := InternalAddress | IdFromLabel | FromRouterId.
Record RouterIdSelector : Type := { id_from : RouterIdSelectionType; sel_router_id : option string }.

Record ClusterBGPSpec : Type := {
  node_selector : option (gmap string string); asn_selector : AsnSelector; router_id_selector : RouterIdSelector;
  cb_speaker : SpeakerConfig; cb_peers : option (list PeerConfig) }.
Record ClusterBGPStatus : Type := { desired_nodes : option (list string); cb_nodes : option (list string) }.
Record ClusterBGP : Type := { cb_meta : ObjectMeta; cb_spec : ClusterBGPSpec; cb_status : option ClusterBGPStatus }.

(** ** The methods of the slim form of a peer *)

Definition bare_meta (name : string) (labels : gmap string string) : ObjectMeta := {|
  m_name := name; m_namespace := None; m_uid := None; m_labels := labels; m_annotations := ∅; m_owner_references := [] |}.

Definition slim_from (p : BGPPeerSlim) (nb : NodeBGP) : BGPPeer := {|
  bp_meta := bare_meta (slim_name p) {[BGP_PEER_NODE_LABEL := m_name (nb_meta nb)]};
  bp_spec := {| bp_asn := bp_asn (slim_spec p); bp_addr := bp_addr (slim_spec p); hold_time := hold_time (slim_spec p);
                keepalive_time := keepalive_time (slim_spec p); capabilities := capabilities (slim_spec p);
                node_bgp_ref := m_name (nb_meta nb); cluster_bgp_ref := cluster_bgp_ref (slim_spec p);
                bp_speaker := nb_speaker (nb_spec nb); groups := groups (slim_spec p) |};
  bp_status := None |}.

Definition default_speaker : SpeakerConfig := {| path := ""; timeout := None; multipath := None |}.
Definition default_peer_spec : BGPPeerSpec := {|
  bp_asn := 0; bp_addr := ""; hold_time := None; keepalive_time := None; capabilities := None; node_bgp_ref := "";
  cluster_bgp_ref := None; bp_speaker := default_speaker; groups := None |}.

Definition slim_into (bp : BGPPeer) : BGPPeerSlim := {|
  slim_name := m_name (bp_meta bp);
  slim_spec := {| bp_asn := bp_asn (bp_spec bp); bp_addr := bp_addr (bp_spec bp); hold_time := hold_time (bp_spec bp);
                  keepalive_time := keepalive_time (bp_spec bp); capabilities := capabilities (bp_spec bp);
                  node_bgp_ref := ""; cluster_bgp_ref := None; bp_speaker := default_speaker;
                  groups := groups (bp_spec bp) |} |}.

Definition match_groups (p : BGPPeerSlim) (targets : list string) : bool :=
  match groups (slim_spec p) with
  | Some gs => match targets with [] => true | _ => existsb (fun g => bool_decide (g ∈ targets)) gs end
  | None => true
  end.

(** [to_peer]: what [get_template] answers for a template, [None] for an error *)
Definition set_asn (a : option Z) (s : BGPPeerSpec) : BGPPeerSpec :=
  match a with
  | Some a => {| bp_asn := a; bp_addr := bp_addr s; hold_time := hold_time s; keepalive_time := keepalive_time s;
                 capabilities := capabilities s; node_bgp_ref := node_bgp_ref s; cluster_bgp_ref := cluster_bgp_ref s;
                 bp_speaker := bp_speaker s; groups := groups s |}
  | None => s
  end.
Definition set_addr (a : option string) (s : BGPPeerSpec) : BGPPeerSpec :=
  match a with
  | Some a => {| bp_asn := bp_asn s; bp_addr := a; hold_time := hold_time s; keepalive_time := keepalive_time s;
                 capabilities := capabilities s; node_bgp_ref := node_bgp_ref s; cluster_bgp_ref := cluster_bgp_ref s;
                 bp_speaker := bp_speaker s; groups := groups s |}
  | None => s
  end.
Definition set_rest (t : BGPPeerTemplateSpec) (s : BGPPeerSpec) : BGPPeerSpec :=
  {| bp_asn := bp_asn s; bp_addr := bp_addr s; hold_time := t_hold_time t; keepalive_time := t_keepalive_time t;
     capabilities := t_capabilities t; node_bgp_ref := node_bgp_ref s; cluster_bgp_ref := cluster_bgp_ref s;
     bp_speaker := bp_speaker s; groups := t_groups t |}.
Definition set_cluster_ref (c : string) (p : BGPPeerSlim) : BGPPeerSlim :=
  let s := slim_spec p in
  {| slim_name := slim_name p;
     slim_spec := {| bp_asn := bp_asn s; bp_addr := bp_addr s; hold_time := hold_time s; keepalive_time := keepalive_time s;
                     capabilities := capabilities s; node_bgp_ref := node_bgp_ref s; cluster_bgp_ref := Some c;
                     bp_speaker := bp_speaker s; groups := groups s |} |}.

Definition to_peer (c : PeerConfig) (node_name : string) (get_template : string -> option BGPPeerTemplateSpec) :
    res CrdError BGPPeerSlim :=
  spec ← match peer_template_ref c with
         | Some t => match get_template t with
                     | Some pt => Ok (set_rest pt (set_addr (t_addr pt) (set_asn (t_asn pt) default_peer_spec)))
                     | None => Err CrdKube
                     end
         | None => Ok default_peer_spec
         end;
  let spec := match peer_config c with Some o => set_addr (t_addr o) (set_asn (t_asn o) spec) | None => spec end in
  let base := node_name +:+ "-" +:+ pretty (bp_asn spec) +:+ "-" +:+ bp_addr spec in
  mret {| slim_name := match peer_template_ref c with Some n => n +:+ "-" +:+ base | None => base end; slim_spec := spec |}.

(** ** Errors of the agent *)

Inductive AgentError : Type :=
| AgStdIo
| AgFailedToGetLock
| Var
| AgKube
| AgConfig (e : ConfigError)
| FailedToCommunicateWithNetlink
| FailedToCommunicateWithgRPC
| Timeout
| GotgPRC
| LocalSpeakerIsNotConfigured
| AgFinalizerApply (e : AgentError)
| AgFinalizerCleanup (e : AgentError)
| AgFailedToGetData (s : string)
| AgSerialization
| AgCRD (e : CrdError)
| AgKubeLibrary
| AgIpam (e : Ipam.Error)
| PeerExists
| AgInvalidCIDR
| AutoAssignAlreadyExists
| AgCannotDelete
| AgNotEmpty
| FailedToNotify
| MissingFields (s : string).
End BgpCrd.

Module ClusterBgp.
Import Kube BgpCrd.

(** What the code looks at of a node *)
Record NodeAddress : Type := { na_type : string; na_address : string }.
Record NodeStatus : Type := { addresses : option (list NodeAddress) }.
Record Node : Type := { n_meta : ObjectMeta; n_status : option NodeStatus }.

Inductive Output : Type :=
| CreateNodeBGP (nb : NodeBGP)
| ReplaceNodeBGP (name : string) (nb : NodeBGP)
| ReplaceNodeBGPStatus (name : string) (nb : NodeBGP)
| ReplaceClusterBGPStatus (name : string) (cb : ClusterBGP)
| DeleteNode (name : string)
| Reconciliation.

Section defs.
Context {I : IpNetApi} {T : TextApi}.
#[local] Abbreviation H := (M (Proc unit Output) Error).

(** The API server, and [parse] of an [u32] *)
Record Env : Type := {
  accepts : list Output -> Output -> bool;
  list_nodes : list Output -> option string -> option (list Node);
  get_node_bgp : list Output -> string -> option (option NodeBGP);
  get_template : list Output -> string -> option BGPPeerTemplateSpec;
  list_clusters : list Output -> option (list ClusterBGP);
  parse_u32 : string -> option Z;
}.
Context (E : Env).
#[local] Abbreviation send := (write (accepts E)).

Definition pair_le (a b : string * string) : Prop := String.leb a.1 b.1 = true.
#[global] Instance pair_le_dec a b : Decision (pair_le a b).
Proof. unfold pair_le. apply _. Defined.

(** A [BTreeMap] is visited in the order of its keys. *)
Definition btree (m : gmap string string) : list (string * string) := merge_sort pair_le (map_to_list m).

Definition get_label_selector (m : gmap string string) : string :=
  join_comma ((fun kv => kv.1 +:+ "=" +:+ kv.2) <$> btree m).

Definition from_option {A} (e : Error) (o : option A) : res Error A := match o with Some a => Ok a | None => Err e end.

Definition get_asn (node : Node) (s : AsnSelector) : res Error Z :=
  match asn_from s with
  | AsnFromLabel => l ← from_option AsnNotFound (m_labels (n_meta node) !! ASN_LABEL); from_option InvalidAsnValue (parse_u32 E l)
  | FromAsn => from_option InvalidAsnValue (sel_asn s)
  end.

(** [s.parse::<Ipv4Addr>()] *)
Definition parse_v4 (s : string) : res Error IpAddr :=
  match parse_addr s with Some (AV4 a) => Ok (AV4 a) | _ => Err InvalidAddress end.

Definition get_router_id (node : Node) (s : RouterIdSelector) : res Error IpAddr :=
  match id_from s with
  | FromRouterId => r ← from_option AddressNotFound (sel_router_id s); parse_v4 r
  | InternalAddress =>
      st ← from_option (FailedToGetData "node.status") (n_status node);
      l ← from_option (FailedToGetData "node.status.addresses") (addresses st);
      a ← from_option AddressNotFound (List.find (fun na => bool_decide (na_type na = "InternalIP"%string)) l);
      parse_v4 (na_address a)
  | IdFromLabel => l ← from_option AddressNotFound (m_labels (n_meta node) !! ROUTER_ID_LABEL); parse_v4 l
  end.

Definition match_selector (labels selector : gmap string string) : bool :=
  forallb (fun kv => bool_decide (labels !! kv.1 = Some kv.2)) (btree selector).

Definition selected (nb : NodeBGP) (c : PeerConfig) : bool :=
  match node_bgp_selector c with Some s => match_selector (m_labels (nb_meta nb)) s | None => true end.

Definition peer_for (cb : ClusterBGP) (nb : NodeBGP) (c : PeerConfig) : H BGPPeerSlim :=
  p ← get_st;
  peer ← lift (res_map_err (fun _ => CRD) (to_peer c (m_name (nb_meta nb)) (get_template E (sent p))));
  mret (set_cluster_ref (m_name (cb_meta cb)) peer).

Definition get_peers (cb : ClusterBGP) (nb : NodeBGP) : H (list BGPPeerSlim) :=
  for_collect (peer_for cb nb) (List.filter (selected nb) (default [] (cb_peers (cb_spec cb)))).

(** The cluster among those the node belongs to: the new status, and whether it changed *)
Definition join_cluster (name : string) (st : option NodeBGPStatus) : NodeBGPStatus * bool :=
  match st with
  | Some s =>
      match cluster_bgp_refs s with
      | Some refs =>
          if decide (name ∈ refs) then (s, false)
          else ({| nb_backoff := nb_backoff s; cluster_bgp_refs := Some (sort_names (refs ++ [name])); nb_conditions := nb_conditions s |}, true)
      | None => ({| nb_backoff := nb_backoff s; cluster_bgp_refs := Some [name]; nb_conditions := nb_conditions s |}, true)
      end
  | None => ({| nb_backoff := 0; cluster_bgp_refs := Some [name]; nb_conditions := None |}, true)
  end.

Definition has_peer (name : string) (l : list BGPPeerSlim) : bool := existsb (fun p => bool_decide (slim_name p = name)) l.

(** The peers the node has and those it lacks *)
Definition add_peers (peers : list BGPPeerSlim) (have : option (list BGPPeerSlim)) : list BGPPeerSlim * bool :=
  match have with
  | Some l => foldl (fun acc p => if has_peer (slim_name p) acc.1 then acc else (acc.1 ++ [p], true)) (l, false) peers
  | None => (peers, true)
  end.

Definition new_node_bgp (node : Node) (asn : Z) (router_id : IpAddr) (speaker : SpeakerConfig) : NodeBGP := {|
  nb_meta := {| m_name := m_name (n_meta node); m_namespace := None; m_uid := None; m_labels := m_labels (n_meta node);
                m_annotations := ∅; m_owner_references := [create_owner_reference "v1" "Node" (n_meta node)] |};
  nb_spec := {| nb_asn := asn; nb_router_id := show_addr router_id; nb_speaker := speaker; nb_peers := None |};
  nb_status := Some {| nb_backoff := 0; cluster_bgp_refs := None; nb_conditions := None |} |}.

(** A node that is new to the cluster; whether to look again *)
Definition add_node (cb : ClusterBGP) (matched : list Node) (again : bool) (node_name : string) : H bool :=
  node ← lift (from_option NodeNotFound (List.find (fun n => bool_decide (m_name (n_meta n) = node_name)) matched));
  asn ← lift (get_asn node (asn_selector (cb_spec cb)));
  router_id ← lift (get_router_id node (router_id_selector (cb_spec cb)));
  found ← read (fun t => get_node_bgp E t (m_name (n_meta node)));
  match found with
  | Some nb =>
      let '(st, need_status) := join_cluster (m_name (cb_meta cb)) (nb_status nb) in
      let new_nb := with_nb_status (Some st) nb in
      peers ← get_peers cb new_nb;
      let '(l, need_spec) := add_peers peers (nb_peers (nb_spec new_nb)) in
      let new_nb := with_nb_peers (Some l) new_nb in
      (if (need_spec : bool) then send (ReplaceNodeBGP (m_name (nb_meta nb)) new_nb) else mret tt) ;;
      (if (need_status : bool) then send (ReplaceNodeBGPStatus (m_name (nb_meta nb)) new_nb) else mret tt) ;;
      mret again
  | None =>
      let nb := new_node_bgp node asn router_id (cb_speaker (cb_spec cb)) in
      peers ← get_peers cb nb;
      send (CreateNodeBGP (with_nb_peers (Some peers) nb)) ;;
      mret true
  end.

(** The cluster is taken from the node's references only if it is not among them. *)
Definition leave_cluster (name : string) (st : option NodeBGPStatus) : option NodeBGPStatus * bool :=
  match st with
  | Some s =>
      match cluster_bgp_refs s with
      | Some refs =>
          if decide (name ∈ refs) then (Some s, false)
          else (Some {| nb_backoff := nb_backoff s; cluster_bgp_refs := Some (filter (fun c => c <> name) refs);
                        nb_conditions := nb_conditions s |}, true)
      | None => (Some s, false)
      end
  | None => (None, false)
  end.

Definition drop_peers (peers : list BGPPeerSlim) (have : option (list BGPPeerSlim)) : option (list BGPPeerSlim) * bool :=
  match have with
  | Some l =>
      let '(l, u) := foldl (fun acc p => if has_peer (slim_name p) acc.1
                                         then (filter (fun q => slim_name q <> slim_name p) acc.1, true) else acc) (l, false) peers in
      (Some l, u)
  | None => (None, false)
  end.

Definition remove_node (cb : ClusterBGP) (node_name : string) : H unit :=
  found ← read (fun t => get_node_bgp E t node_name);
  match found with
  | Some nb =>
      let '(st, need_status) := leave_cluster (m_name (cb_meta cb)) (nb_status nb) in
      peers ← get_peers cb nb;
      let '(l, need_spec) := drop_peers peers (nb_peers (nb_spec nb)) in
      let new_nb := with_nb_peers l (with_nb_status st nb) in
      (if (need_spec : bool) then send (ReplaceNodeBGP (m_name (nb_meta nb)) new_nb) else mret tt) ;;
      (if (need_status : bool) then send (ReplaceNodeBGPStatus (m_name (nb_meta nb)) new_nb) else mret tt)
  | None => mret tt
  end.

Definition with_nodes (l : list string) (cb : ClusterBGP) : ClusterBGP := {|
  cb_meta := cb_meta cb; cb_spec := cb_spec cb;
  cb_status := Some (match cb_status cb with
                     | Some s => {| desired_nodes := desired_nodes s; cb_nodes := Some l |}
                     | None => {| desired_nodes := Some l; cb_nodes := Some l |}
                     end) |}.

Definition nodes_of (cb : ClusterBGP) : list string :=
  match cb_status cb with Some s => default [] (cb_nodes s) | None => [] end.

Definition reconcile (cb : ClusterBGP) : H Action :=
  matched ← read (fun t => list_nodes E t (get_label_selector <$> node_selector (cb_spec cb)));
  let '(added, remain, removed) := diff (nodes_of cb) ((fun n => m_name (n_meta n)) <$> matched) in
  again ← for_fold (add_node cb matched) added false;
  for_each (remove_node cb) removed ;;
  (match added, removed with
   | [], [] => mret tt
   | _, _ => send (ReplaceClusterBGPStatus (m_name (cb_meta cb)) (with_nodes (sort_names (added ++ remain)) cb))
   end) ;;
  mret (if (again : bool) then Requeue 1 else AwaitChange).

Definition cleanup (cb : ClusterBGP) : H Action := mret AwaitChange.

(** ** The watcher of nodes *)

(** One label that the selector has is enough. *)
Definition is_member (cb : ClusterBGP) (node : Node) : bool :=
  match node_selector (cb_spec cb) with
  | Some s => existsb (fun kv => bool_decide (s !! kv.1 = Some kv.2)) (btree (m_labels (n_meta node)))
  | None => true
  end.

Definition with_desired (l : list string) (nodes : option (list string)) (cb : ClusterBGP) : ClusterBGP :=
  {| cb_meta := cb_meta cb; cb_spec := cb_spec cb; cb_status := Some {| desired_nodes := Some l; cb_nodes := nodes |} |}.

Definition add_member_of_cluster_bgp (cb : ClusterBGP) (name : string) : option ClusterBGP :=
  match cb_status cb with
  | Some s =>
      match desired_nodes s with
      | Some nodes => if decide (name ∈ nodes) then None else Some (with_desired (sort_names (nodes ++ [name])) (cb_nodes s) cb)
      | None => Some (with_desired [name] (cb_nodes s) cb)
      end
  | None => Some (with_desired [name] None cb)
  end.

Definition remove_member_of_cluster_bgp (cb : ClusterBGP) (name : string) : option ClusterBGP :=
  s ← cb_status cb;
  nodes ← desired_nodes s;
  if decide (name ∈ nodes) then Some (with_desired (filter (fun n => name <> n) nodes) (cb_nodes s) cb) else None.

Definition update_cluster_bgp_member (cb : ClusterBGP) (name : string) (member : bool) : option ClusterBGP :=
  if member then add_member_of_cluster_bgp cb name else remove_member_of_cluster_bgp cb name.

Definition with_labels (l : gmap string string) (nb : NodeBGP) : NodeBGP :=
  let m := nb_meta nb in
  {| nb_meta := {| m_name := m_name m; m_namespace := m_namespace m; m_uid := m_uid m; m_labels := l;
                   m_annotations := m_annotations m; m_owner_references := m_owner_references m |};
     nb_spec := nb_spec nb; nb_status := nb_status nb |}.

Definition watch_cluster (node : Node) (cb : ClusterBGP) : H unit :=
  match update_cluster_bgp_member cb (m_name (n_meta node)) (is_member cb node) with
  | Some new_cb => send (ReplaceClusterBGPStatus (m_name (cb_meta cb)) new_cb)
  | None => mret tt
  end.

Definition reconcile_node (node : Node) : H Action :=
  found ← read (fun t => get_node_bgp E t (m_name (n_meta node)));
  (match found with
   | Some nb => send (ReplaceNodeBGP (m_name (nb_meta nb)) (with_labels (m_labels (n_meta node)) nb))
   | None => mret tt
   end) ;;
  l ← read (list_clusters E);
  for_each (watch_cluster node) l ;;
  mret AwaitChange.

(** The object that is deleted is the node: the API is that of nodes. *)
Definition cleanup_node (node : Node) : H Action :=
  send (DeleteNode (m_name (n_meta node))) ;; mret AwaitChange.

Definition reconciler {A} (ev : Event) (apply cleanup : H A) : H A :=
  count Reconciliation ;;
  match ev with Apply => map_err FinalizerApply apply | Cleanup => map_err FinalizerCleanup cleanup end.
End defs.

(** ** Webhooks *)

(** [validate_same_peer]: the peers the API server has, [None] for an error *)
Definition same_session (a b : BGPPeer) : bool :=
  (bp_asn (bp_spec a) =? bp_asn (bp_spec b)) && bool_decide (bp_addr (bp_spec a) = bp_addr (bp_spec b)) &&
  bool_decide (node_bgp_ref (bp_spec a) = node_bgp_ref (bp_spec b)).

Definition validate_same_peer (existing : option (list BGPPeer)) (bp : BGPPeer) : res Error unit :=
  match existing with
  | None => Err KubeErr
  | Some l => if existsb (same_session bp) l then Err PeerAlreadyExists else Ok tt
  end.

(** Whether [handle_validation] allows the change from [old] to [new] *)
Definition validate_peer (existing : option (list BGPPeer)) (old new : option BGPPeer) : bool :=
  match old with
  | None => match new with
            | Some bp => match validate_same_peer existing bp with Ok _ => true | _ => false end
            | None => true
            end
  | Some o => match new with Some n => same_session n o | None => true end
  end.

(** The patches of [mutate_bgp_peer]: each a path and what is added there;
    [has_labels] is whether the object has a map of labels at all *)
Definition mutate_bgp_peer (has_labels : bool) (bp : BGPPeer) : res Error (list (string * option string)) :=
  match m_labels (bp_meta bp) !! BGP_PEER_NODE_LABEL with
  | Some n => if decide (node_bgp_ref (bp_spec bp) = n) then Ok []
              else Err (LabelMatching (BGP_PEER_NODE_LABEL +:+ " must be equal to spec.nodeBGPRef field"))
  | None => Ok ((if has_labels then [] else [("/metadata/labels", None)]) ++
                [("/metadata/labels/" +:+ escape_slash BGP_PEER_NODE_LABEL, Some (node_bgp_ref (bp_spec bp)))])
  end.

(** The webhook for advertisements allows everything. *)
Definition validate_advertisement (old new : option BGPAdvertisement) : bool := true.
End ClusterBgp.
