(* ===== verification/KubeAdvertise.v ===== *)
(** * Advertisements

    How the addresses of services and the blocks of nodes reach the BGP speakers:
    [EndpointWatcher] is [kubernetes/src/controller/reconciler/endpointslice_watcher.rs],
    [AdvertController] is [controller/reconciler/bgp_advertisement.rs], and
    [AdvertAgent] is [agent/reconciler/bgp_advertisement.rs], which runs on every
    node. *)

From stdpp Require Import pretty.
From S2P Require Import Prelude.
From S2P Require Import Net.
From S2P Require Import NetText.
From S2P Require Import IpamBitset.
From S2P Require Import IpamAllocator.
From S2P Require Import KubeApi.
From S2P Require Import KubeService.
From S2P Require Import KubeBgpApi.

(** What is sent: objects of the API server, each with its namespace and name,
    requests to the speaker of the node, and metrics. *)
Module AdvertOut.
Import Kube BgpCrd.
Inductive Output : Type :=
| CreateAdv (ns : string) (ba : BGPAdvertisement)
| ReplaceAdvStatus (ns name : string) (ba : BGPAdvertisement)
| DeleteAdv (ns name : string)
| AddPath (afi : Protocol) (prefix : string)
| DeletePath (afi : Protocol) (prefix : string)
| StatusSet (name status : string) (n : Z)
| AdvertisementsSet (type : string) (n : Z)
| AdvertisementsDec (type : string)
| Reconciliation.
End AdvertOut.

Module EndpointWatcher.
Import Kube ServiceWatcher BgpCrd AdvertOut.

Definition ENDPOINTSLICE_FINALIZER : string := "endpointslice.sart.terassyi.net/finalizer".
Definition ENDPOINTSLICE_TRIGGER : string := "endpointslice.sart.terassyi.net/triggered-by".

Section defs.
Context {I : IpNetApi} {T : TextApi}.
#[local] Abbreviation H := (M (Proc unit Output) Error).

Record Env : Type := {
  accepts : list Output -> Output -> bool;
  get_service : list Output -> string -> string -> option (option Service);
  list_node_bgps : list Output -> option (list NodeBGP);
  get_node_bgp : list Output -> string -> option (option NodeBGP);
  list_advs : list Output -> string -> string -> option (list BGPAdvertisement);
}.
Context (E : Env).
#[local] Abbreviation send := (write (accepts E)).

Definition get_svc_name_from_eps (eps : EndpointSlice) : option string := m_labels (eps_meta eps) !! SERVICE_NAME_LABEL.

Definition get_svc_peer_groups (svc : Service) : list string :=
  match m_annotations (svc_meta svc) !! PEER_GROUP_ANNOTATION with Some v => split_comma v | None => [] end.

(** The names of the peers of a node that are in one of the groups *)
Definition matching_peers (groups : list string) (nb : NodeBGP) : list string :=
  slim_name <$> List.filter (fun p => match_groups p groups) (default [] (nb_peers (nb_spec nb))).

(** The peers of the node of an endpoint that serves *)
Definition endpoint_peers (svc : Service) (acc : list string) (ep : Endpoint) : H (list string) :=
  match ep_conditions ep with
  | None => mret acc
  | Some c =>
      if default false (serving c) then
        match node_name ep with
        | Some n =>
            found ← read (fun t => get_node_bgp E t n);
            mret (match found with Some nb => acc ++ matching_peers (get_svc_peer_groups svc) nb | None => acc end)
        | None => mret acc
        end
      else mret acc
  end.

(** [dedup()] of a list in order *)
Fixpoint dedup (l : list string) : list string :=
  match l with
  | a :: (b :: _) as l' => if decide (a = b) then dedup l' else a :: dedup l'
  | _ => l
  end.

Definition etp_peers (eps : EndpointSlice) (svc : Service) (etp : string) : H (list string) :=
  if decide (etp = "Cluster"%string) then
    l ← read (list_node_bgps E);
    mret (l ≫= matching_peers (get_svc_peer_groups svc))
  else if decide (etp = "Local"%string) then for_fold (endpoint_peers svc) (endpoints eps) []
  else throw InvalidExternalTrafficPolicy.

Definition get_target_peers (eps : EndpointSlice) (svc : Service) : H (list string) :=
  match m_namespace (eps_meta eps) with
  | None => throw (FailedToGetData "Namespace is required")
  | Some _ =>
      l ← match svc_spec svc ≫= external_traffic_policy with Some etp => etp_peers eps svc etp | None => mret [] end;
      mret (dedup (sort_names l))
  end.

(** *** The peers of an advertisement *)

Definition sync_target (acc : gmap string AdvertiseStatus * bool) (target : string) : gmap string AdvertiseStatus * bool :=
  match acc.1 !! target with
  | Some s => if decide (s = Withdraw) then (<[target := NotAdvertised]> acc.1, true) else acc
  | None => (<[target := NotAdvertised]> acc.1, true)
  end.

(** [targets] has the key *)
Definition to_withdraw (targets : list string) (k : string) (v : AdvertiseStatus) : bool :=
  negb (bool_decide (k ∈ targets)) && negb (bool_decide (v = Withdraw)).

Definition sync_target_peers (peers : gmap string AdvertiseStatus) (targets : list string) :
    gmap string AdvertiseStatus * bool :=
  let '(m, updated) := foldl sync_target (peers, false) targets in
  (map_imap (fun k v => Some (if to_withdraw targets k v then Withdraw else v)) m,
   updated || existsb (fun kv => to_withdraw targets kv.1 kv.2) (map_to_list m)).

Definition all_targets (targets : list string) : gmap string AdvertiseStatus :=
  foldl (fun m t => <[t := NotAdvertised]> m) ∅ targets.

Definition adv_name_from_eps_and_addr (eps : EndpointSlice) (a : IpAddr) : string :=
  m_name (eps_meta eps) +:+ "-" +:+ show_addr a.

(** [IpNet::new(addr, 32)], whatever the family *)
Definition adv_cidr (a : IpAddr) : res Error IpNet :=
  match (match a with AV4 x => NV4 <$> net_new x 32 | AV6 x => NV6 <$> net_new x 32 end) with
  | Some n => Ok n
  | None => Err InvalidAddress
  end.

Definition new_adv (eps : EndpointSlice) (svc_name : string) (a : IpAddr) (cidr : IpNet) (targets : list string) :
    BGPAdvertisement := {|
  ba_meta := {| m_name := adv_name_from_eps_and_addr eps a; m_namespace := m_namespace (eps_meta eps); m_uid := None;
                m_labels := {[SERVICE_NAME_LABEL := svc_name]}; m_annotations := ∅;
                m_owner_references := [create_owner_reference "discovery.k8s.io/v1" "EndpointSlice" (eps_meta eps)] |};
  ba_spec := {| ba_cidr := show_net cidr; ba_type := TService; ba_protocol := protocol_of cidr; attrs := None |};
  ba_status := Some {| ba_peers := Some (all_targets targets) |} |}.

(** An advertisement that is there: its peers are those that are wanted. *)
Definition sync_adv (ns : string) (targets : list string) (adv : BGPAdvertisement) : H unit :=
  let '(m, need_update) := match peers_of adv with
                           | Some peers => sync_target_peers peers targets
                           | None => (all_targets targets, true)
                           end in
  if (need_update : bool) then send (ReplaceAdvStatus ns (m_name (ba_meta adv)) (with_peers m adv)) else mret tt.

(** The address has changed: all peers are to be told. The advertisement was
    found under its CIDR, so this does not happen. *)
Definition renew (cidr : string) (adv : BGPAdvertisement) : BGPAdvertisement := {|
  ba_meta := ba_meta adv;
  ba_spec := {| ba_cidr := cidr; ba_type := ba_type (ba_spec adv); ba_protocol := ba_protocol (ba_spec adv); attrs := attrs (ba_spec adv) |};
  ba_status := Some {| ba_peers := Some ((fun _ => NotAdvertised) <$> default ∅ (peers_of adv)) |} |}.

Definition sync_addr (eps : EndpointSlice) (ns svc_name : string) (targets : list string)
    (acc : gmap string BGPAdvertisement * bool) (a : IpAddr) : H (gmap string BGPAdvertisement * bool) :=
  cidr ← lift (adv_cidr a);
  match acc.1 !! show_net cidr with
  | Some adv =>
      adv ← (if decide (ba_cidr (ba_spec adv) = show_net cidr) then mret adv
             else send (ReplaceAdvStatus ns (m_name (ba_meta adv)) (renew (show_net cidr) adv)) ;; mret (renew (show_net cidr) adv));
      sync_adv ns targets adv ;;
      mret (delete (show_net cidr) acc.1, acc.2)
  | None => send (CreateAdv ns (new_adv eps svc_name a cidr targets)) ;; mret (acc.1, true)
  end.

(** [iter] is the order in which the advertisements that are left are visited. *)
Definition reconcile (iter : gmap string BGPAdvertisement -> list (string * BGPAdvertisement)) (eps : EndpointSlice) : H Action :=
  ns ← lift (get_namespace (eps_meta eps));
  match get_svc_name_from_eps eps with
  | None => mret AwaitChange
  | Some svc_name =>
      found ← read (fun t => get_service E t ns svc_name);
      match found with
      | None => mret AwaitChange
      | Some svc =>
          if is_loadbalancer svc then
            match get_allocated_lb_addrs svc with
            | None => mret (Requeue 10)
            | Some lb_addrs =>
                targets ← get_target_peers eps svc;
                advs ← read (fun t => list_advs E t ns svc_name);
                let existing := foldl (fun m a => <[ba_cidr (ba_spec a) := a]> m) ∅ advs in
                '(rest, need_requeue) ← for_fold (sync_addr eps ns svc_name targets) lb_addrs
                                          (existing, bool_decide (targets = []));
                for_each (fun kv => send (DeleteAdv ns (m_name (ba_meta kv.2)))) (iter rest) ;;
                mret (if (need_requeue : bool) then Requeue 10 else AwaitChange)
            end
          else mret AwaitChange
      end
  end.

Definition cleanup (eps : EndpointSlice) : H Action := mret AwaitChange.

Definition reconciler (iter : gmap string BGPAdvertisement -> list (string * BGPAdvertisement)) (ev : Event)
    (eps : EndpointSlice) : H Action :=
  count Reconciliation ;;
  lift (get_namespace (eps_meta eps)) ;;
  match ev with
  | Apply => map_err FinalizerApply (reconcile iter eps)
  | Cleanup => map_err FinalizerCleanup (cleanup eps)
  end.
End defs.
End EndpointWatcher.

Module AdvertController.
Import Kube BgpCrd AdvertOut.

Section defs.
#[local] Abbreviation H := (M (Proc unit Output) Error).
Context (accepts : list Output -> Output -> bool).
Context (list_in : list Output -> string -> option (list BGPAdvertisement)).
#[local] Abbreviation send := (write accepts).

(** How many peers have the status *)
Definition count_status (s : AdvertiseStatus) (ba : BGPAdvertisement) : Z :=
  Z.of_nat (length (List.filter (fun kv => bool_decide (kv.2 = s)) (map_to_list (default ∅ (peers_of ba))))).

Definition reconcile (ns : string) (ba : BGPAdvertisement) : H Action :=
  let name := m_name (ba_meta ba) in
  count (StatusSet name (show_advertise_status Advertised) (count_status Advertised ba)) ;;
  count (StatusSet name (show_advertise_status NotAdvertised) (count_status NotAdvertised ba)) ;;
  count (StatusSet name (show_advertise_status Withdraw) (count_status Withdraw ba)) ;;
  l ← read (fun t => list_in t ns);
  count (AdvertisementsSet (show_address_type (ba_type (ba_spec ba)))
           (Z.of_nat (length (List.filter (fun b => bool_decide (ba_type (ba_spec b) = ba_type (ba_spec ba))) l)))) ;;
  mret AwaitChange.

(** Deletion waits until no peer is left: those that are left are to be withdrawn. *)
Definition cleanup (ba : BGPAdvertisement) : H Action :=
  ns ← lift (get_namespace (ba_meta ba));
  let gone := count (AdvertisementsDec (show_address_type (ba_type (ba_spec ba)))) ;; mret AwaitChange in
  match peers_of ba with
  | None => gone
  | Some peers =>
      if decide (peers = ∅) then gone
      else
        (if existsb (fun kv => negb (bool_decide (kv.2 = Withdraw))) (map_to_list peers)
         then send (ReplaceAdvStatus ns (m_name (ba_meta ba)) (with_peers ((fun _ => Withdraw) <$> peers) ba))
         else mret tt) ;;
        throw Withdrawing
  end.

Definition reconciler (ev : Event) (ba : BGPAdvertisement) : H Action :=
  ns ← lift (get_namespace (ba_meta ba));
  count Reconciliation ;;
  match ev with
  | Apply => map_err FinalizerApply (reconcile ns ba)
  | Cleanup => map_err FinalizerCleanup (cleanup ba)
  end.
End defs.
End AdvertController.

Module AdvertAgent.
Import Kube BgpCrd AdvertOut.

Definition DEFAULT_SPEAKER_TIMEOUT : Z := 10.

Section defs.
#[local] Abbreviation H := (M (Proc unit Output) AgentError).

(** The environment: the variable [HOSTNAME], whether the speaker at a path is
    reached before the timeout, the objects, and which writes and calls succeed *)
Record Env : Type := {
  hostname_var : option string;
  reaches : list Output -> string -> Z -> bool;
  get_node_bgp : list Output -> string -> option NodeBGP;
  get_peer : list Output -> string -> option BGPPeer;
  accepts : list Output -> Output -> bool;
}.
Context (E : Env).

Definition ask {A} (answer : list Output -> option A) : H A :=
  p ← get_st; match answer (sent p) with Some a => mret a | None => throw AgKube end.
Definition send (e : AgentError) (o : Output) : H unit :=
  p ← get_st; modify (push o) ;; if accepts E (sent p) o then mret tt else throw e.

(** [connect_bgp_with_retry] *)
Definition connect_bgp_with_retry (path : string) (timeout : Z) : H unit :=
  p ← get_st; if reaches E (sent p) path timeout then mret tt else throw Timeout.

Definition is_established (bp : BGPPeer) : bool :=
  match st ← bp_status bp; conds ← bp_conditions st; last conds with
  | Some c => bool_decide (bc_status c = Established)
  | None => false
  end.

(** The advertisement as far as it is changed, whether it is to be updated, and
    whether to look again *)
Record Progress : Type := { new_ba : BGPAdvertisement; need_update : bool; need_requeue : bool }.

Definition advertise (ba : BGPAdvertisement) (name : string) (s : Progress) : H Progress :=
  let prefix := ba_cidr (ba_spec ba) in
  let afi := ba_protocol (ba_spec ba) in
  match peers_of (new_ba s) with
  | Some peers =>
      match peers !! name with
      | Some NotAdvertised =>
          send GotgPRC (AddPath afi prefix) ;;
          mret {| new_ba := with_peers (<[name := Advertised]> peers) (new_ba s); need_update := true; need_requeue := need_requeue s |}
      | Some Advertised => send GotgPRC (AddPath afi prefix) ;; mret s
      | Some Withdraw =>
          send GotgPRC (DeletePath afi prefix) ;;
          mret {| new_ba := with_peers (delete name peers) (new_ba s); need_update := true; need_requeue := need_requeue s |}
      | None => mret s
      end
  | None => mret s
  end.

Definition advertise_peer (ba : BGPAdvertisement) (s : Progress) (p : BGPPeerSlim) : H Progress :=
  bp ← ask (fun t => get_peer E t (slim_name p));
  if is_established bp then advertise ba (slim_name p) s
  else mret {| new_ba := new_ba s; need_update := need_update s; need_requeue := true |}.

Definition finish (s : Progress) : H Action := mret (if need_requeue s then Requeue 10 else AwaitChange).

Definition reconcile (ns : string) (ba : BGPAdvertisement) : H Action :=
  node_name ← lift (match hostname_var E with Some n => Ok n | None => Err Var end);
  nb ← ask (fun t => get_node_bgp E t node_name);
  connect_bgp_with_retry (path (nb_speaker (nb_spec nb))) (default DEFAULT_SPEAKER_TIMEOUT (timeout (nb_speaker (nb_spec nb)))) ;;
  let s0 := {| new_ba := ba; need_update := false; need_requeue := false |} in
  match nb_peers (nb_spec nb) with
  | None => finish s0
  | Some peers =>
      s ← for_fold (advertise_peer ba) peers s0;
      if need_update s then
        send AgKube (ReplaceAdvStatus ns (m_name (ba_meta (new_ba s))) (new_ba s)) ;; mret (Requeue 60)
      else finish s
  end.

Definition reconciler (ba : BGPAdvertisement) : H Action :=
  ns ← lift (match m_namespace (ba_meta ba) with Some n => Ok n | None => Err AgKubeLibrary end);
  modify (push Reconciliation) ;;
  reconcile ns ba.
End defs.
End AdvertAgent.
