(* ===== verification/AgentBlock.v ===== *)
(** * The blocks of a node

    [kubernetes/src/agent/reconciler/address_block.rs]: the agent keeps the blocks
    of its node in memory, announces a new one to the CNI server, and has it
    advertised. *)

From S2P Require Import Prelude.
From S2P Require Import Net.
From S2P Require Import NetText.
From S2P Require Import IpamBitset.
From S2P Require Import IpamAllocator.
From S2P Require Import IpamManager.
From S2P Require Import KubeApi.
From S2P Require Import KubeBgpApi.
From S2P Require Import KubeAdvertise.

Module AgentBlock.
Import Kube BgpCrd AdvertOut.

#[local] Abbreviation AllocatorSet := AllocatorSetInner.AllocatorSetInner.

Section defs.
Context {I : IpNetApi} {T : TextApi} {P : Profile}.

(** The blocks, and the channel to the CNI server. *)
Record PodAllocator : Type := { pa_allocator : AllocatorSet; notifier : list AddressBlock }.

#[local] Abbreviation St := (Proc PodAllocator Output).
#[local] Abbreviation H := (M St AgentError).

Record Env : Type := {
  accepts : list Output -> Output -> bool;
  get_adv : list Output -> string -> string -> option (option BGPAdvertisement);
  get_node_bgp : list Output -> string -> option NodeBGP;
  receives : bool;
}.
Context (E : Env).

Definition ask {A} (answer : list Output -> option A) : H A :=
  p ← get_st; match answer (sent p) with Some a => mret a | None => throw AgKube end.
Definition send (o : Output) : H unit :=
  p ← get_st; modify (push o) ;; if accepts E (sent p) o then mret tt else throw AgKube.

Definition namespace : string := "kube-system".

(** Whether an advertisement that is there has no peers yet *)
Definition lacks_peers (adv : BGPAdvertisement) : bool :=
  match peers_of adv with Some peers => bool_decide (peers = ∅) | None => true end.

Definition on_set (f : AllocatorSet -> AllocatorSet) : H unit :=
  modify (fun p => set_comp {| pa_allocator := f (pa_allocator (comp p)); notifier := notifier (comp p) |} p).

Definition set_auto_assign (a : option string) (s : AllocatorSet) : AllocatorSet :=
  AllocatorSetInner.mkSet (AllocatorSetInner.blocks s) (AllocatorSetInner.alloc_info s) a.
Definition insert_block (name : string) (b : Block.Block) (s : AllocatorSet) : AllocatorSet :=
  AllocatorSetInner.mkSet (<[name := b]> (AllocatorSetInner.blocks s)) (AllocatorSetInner.alloc_info s)
    (AllocatorSetInner.auto_assign s).

(** The mark for automatic assignment names a pool. *)
Definition enable_auto (pool : string) (s : AllocatorSet) : H unit :=
  match AllocatorSetInner.auto_assign s with
  | Some n => if decide (n = pool) then mret tt else throw AutoAssignAlreadyExists
  | None => on_set (set_auto_assign (Some pool))
  end.

Definition disable_auto (pool : string) (s : AllocatorSet) : H unit :=
  if decide (AllocatorSetInner.auto_assign s = Some pool) then on_set (set_auto_assign None) else mret tt.

Definition notify (ab : AddressBlock) : H unit :=
  if receives E
  then modify (fun p => set_comp {| pa_allocator := pa_allocator (comp p); notifier := notifier (comp p) ++ [ab] |} p)
  else throw FailedToNotify.

(** Whether the block is new *)
Definition keep_block (ab : AddressBlock) (cidr : IpNet) : H bool :=
  p ← get_st;
  let s := pa_allocator (comp p) in
  let name := m_name (ab_meta ab) in
  let pool := pool_ref (ab_spec ab) in
  match AllocatorSetInner.blocks s !! name with
  | Some _ => (if ab_auto_assign (ab_spec ab) then enable_auto pool s else disable_auto pool s) ;; mret false
  | None =>
      block ← lift (res_map_err AgIpam (Block.new name pool cidr));
      (if ab_auto_assign (ab_spec ab) then enable_auto pool s else mret tt) ;;
      on_set (insert_block name block) ;;
      notify ab ;;
      mret true
  end.

Definition block_adv (ab : AddressBlock) (cidr : IpNet) : BGPAdvertisement := {|
  ba_meta := {| m_name := m_name (ab_meta ab); m_namespace := Some namespace; m_uid := None;
                m_labels := {[ADDRESS_POOL_ANNOTATION := pool_ref (ab_spec ab)]}; m_annotations := ∅;
                m_owner_references := [create_owner_reference "sart.terassyi.net/v1alpha2" "AddressBlock" (ab_meta ab)] |};
  ba_spec := {| ba_cidr := show_net cidr; ba_type := TPod; ba_protocol := protocol_of cidr; attrs := None |};
  ba_status := None |}.

Definition get_target_peer (node : string) : H (list string) :=
  nb ← ask (fun t => get_node_bgp E t node);
  mret (slim_name <$> default [] (nb_peers (nb_spec nb))).

(** The peers the advertisement has, and those of the node it lacks *)
Definition fill_peers (peers : list string) (adv : BGPAdvertisement) : BGPAdvertisement :=
  let all := foldl (fun m p => <[p := NotAdvertised]> m) ∅ peers in
  with_peers (match peers_of adv with Some m => m ∪ all | None => all end) adv.

Definition update_adv (node name : string) : H unit :=
  found ← ask (fun t => get_adv E t namespace name);
  match found with
  | None => throw AgKube
  | Some adv =>
      peers ← get_target_peer node;
      send (ReplaceAdvStatus namespace (m_name (ba_meta adv)) (fill_peers peers adv))
  end.

Definition reconcile (ab : AddressBlock) : H Action :=
  cidr ← lift (match parse_net (ab_cidr (ab_spec ab)) with Some c => Ok c | None => Err AgInvalidCIDR end);
  node ← lift (match node_ref (ab_spec ab) with Some n => Ok n | None => Err (MissingFields "spec.node_ref") end);
  adv ← ask (fun t => get_adv E t namespace (m_name (ab_meta ab)));
  created ← keep_block ab cidr;
  if (created : bool) || bool_decide (adv = None)
  then send (CreateAdv namespace (block_adv ab cidr)) ;; mret (Requeue 1)
  else
    (if match adv with Some a => lacks_peers a | None => false end then update_adv node (m_name (ab_meta ab)) else mret tt) ;;
    mret AwaitChange.

Definition cleanup (ab : AddressBlock) : H Action :=
  p ← get_st;
  let s := pa_allocator (comp p) in
  let name := m_name (ab_meta ab) in
  match AllocatorSetInner.get s name with
  | None => mret AwaitChange
  | Some block =>
      empty ← lift (known (Allocator.is_empty (Block.allocator block)));
      if (empty : bool) then
        on_set (fun s => (AllocatorSetInner.remove name s).2) ;;
        send (DeleteAdv namespace name) ;;
        mret AwaitChange
      else throw AgNotEmpty
  end.

Definition reconciler (ev : Event) (ab : AddressBlock) : H Action :=
  modify (push Reconciliation) ;;
  if decide (ab_type (ab_spec ab) = TPod) then
    match ev with
    | Apply => map_err AgFinalizerApply (reconcile ab)
    | Cleanup => map_err AgFinalizerCleanup (cleanup ab)
    end
  else mret AwaitChange.
End defs.
End AgentBlock.
