(* ===== verification/AgentBgp.v ===== *)
(** * The BGP speaker of a node

    The controllers of the agent that configure the speaker of a node
    ([agent/reconciler/node_bgp.rs]) and its peers
    ([agent/reconciler/bgp_peer.rs]), and the service that the speaker tells about
    the states of its sessions ([agent/reconciler/bgp_peer_watcher.rs]). The
    speaker and the API server are parameters: what they answer after what was
    sent, and which requests succeed. *)

From S2P Require Import Prelude.
From S2P Require Import Net.
From S2P Require Import NetText.
From S2P Require Import KubeApi.
From S2P Require Import KubeService.
From S2P Require Import KubeBgpApi.
From S2P Require Import KubeAdvertise.

Module AgentBgp.
Import Kube BgpCrd.

(** What is sent: objects of the API server, requests to the speaker and metrics. *)
Inductive Output : Type :=
| ReplaceNodeStatus (nb : NodeBGP)
| ReplaceNode (nb : NodeBGP)
| CreatePeer (bp : BGPPeer)
| ReplacePeerStatus (bp : BGPPeer)
| PatchPeerStatus (bp : BGPPeer)
| ReplaceAdv (ns : string) (ba : BGPAdvertisement)
| PatchAdv (ns : string) (ba : BGPAdvertisement)
| ReplaceSlice (ns : string) (eps : EndpointSlice)
| PatchSlice (ns : string) (eps : EndpointSlice)
| SetAs (asn : Z)
| SetRouterId (id : string)
| ConfigureMultiPath (enable : bool)
| ClearBgpInfo
| AddPeer (name : string) (asn : Z) (addr : string) (hold_time keepalive_time : Z)
| DeletePeer (addr : string)
| NodeUp (name status : string)
| NodeDown (name status : string)
| NodeBackoff (name : string)
| PeerUp (name status : string)
| PeerDown (name status : string)
| Reconciliation.

(** [sart::BgpInfo], the fields the code looks at *)
Record BgpInfo : Type := { info_asn : Z; info_router_id : string }.

(** The answer of the speaker: a value, the code [NotFound], or another error *)
Inductive Answer (A : Type) : Type := Found (a : A) | NotFound | Failed.
Arguments Found {A} a.
Arguments NotFound {A}.
Arguments Failed {A}.

Record Env : Type := {
  reaches : list Output -> string -> Z -> bool;
  get_bgp_info : list Output -> option (option BgpInfo);
  list_neighbor : list Output -> Answer bool;  (** whether there is one *)
  get_neighbor : list Output -> string -> Answer (option Z);  (** its state *)
  get_peer_opt : list Output -> string -> option (option BGPPeer);
  get_node_bgp : list Output -> string -> option NodeBGP;
  list_advs : list Output -> option (list BGPAdvertisement);
  list_slices : list Output -> option (list EndpointSlice);
  accepts : list Output -> Output -> bool;
  client : list Output -> bool;  (** whether a client of the API server can be made *)
}.

Section defs.
Context {P : Profile} (E : Env).
#[local] Abbreviation H := (M (Proc unit Output) AgentError).

Definition ask {A} (answer : list Output -> option A) : H A :=
  p ← get_st; match answer (sent p) with Some a => mret a | None => throw AgKube end.
Definition send (e : AgentError) (o : Output) : H unit :=
  p ← get_st; modify (push o) ;; if accepts E (sent p) o then mret tt else throw e.
Definition note (o : Output) : H unit := modify (push o).

Definition namespace_of (m : ObjectMeta) : H string :=
  lift (match m_namespace m with Some ns => Ok ns | None => Err AgKubeLibrary end).

Definition connect_bgp_with_retry (s : SpeakerConfig) : H bool :=
  p ← get_st; mret (reaches E (sent p) (path s) (default AdvertAgent.DEFAULT_SPEAKER_TIMEOUT (timeout s))).

(** ** The node *)

Definition available_cond : NodeBGPCondition := {| nc_status := Available; nc_reason := Configured |}.
Definition invalid_cond : NodeBGPCondition := {| nc_status := Unavailable; nc_reason := InvalidConfiguration |}.

(** Whether the speaker was available *)
Definition was_available (nb : NodeBGP) : bool :=
  match st ← nb_status nb; conds ← nb_conditions st; last conds with
  | Some c => bool_decide (nc_status c = Available)
  | None => false
  end.

Definition with_conditions (f : option (list NodeBGPCondition) -> list NodeBGPCondition) (backoff : Z) (st : option NodeBGPStatus) :
    NodeBGPStatus :=
  match st with
  | Some st => {| nb_backoff := backoff; cluster_bgp_refs := cluster_bgp_refs st; nb_conditions := Some (f (nb_conditions st)) |}
  | None => {| nb_backoff := backoff; cluster_bgp_refs := None; nb_conditions := Some (f None) |}
  end.

Definition backoff_of (st : option NodeBGPStatus) : Z := match st with Some st => nb_backoff st | None => 0 end.

Definition backoff_node_bgp (nb : NodeBGP) : res AgentError NodeBGP :=
  b ← ovf 32 (backoff_of (nb_status nb) + 1);
  mret (with_nb_status (Some (with_conditions (fun c => default [] c ++ [invalid_cond]) b (nb_status nb))) nb).

(** The advertisement, with the peers of the node not advertised *)
Definition forget_peer (acc : gmap string AdvertiseStatus * bool) (p : string) : gmap string AdvertiseStatus * bool :=
  match acc.1 !! p with
  | Some s => if decide (s = NotAdvertised) then acc else (<[p := NotAdvertised]> acc.1, true)
  | None => acc
  end.

Definition backoff_adv (names : list string) (ba : BGPAdvertisement) : H unit :=
  match peers_of ba with
  | None => mret tt
  | Some peers =>
      let '(m, need_update) := foldl forget_peer (peers, false) names in
      if (need_update : bool) then ns ← namespace_of (ba_meta ba); send AgKube (ReplaceAdv ns (with_peers m ba)) else mret tt
  end.

Definition backoff_advertisements (nb : NodeBGP) : H unit :=
  match nb_peers (nb_spec nb) with
  | None => mret tt
  | Some peers => l ← ask (list_advs E); for_each (backoff_adv (slim_name <$> peers)) l
  end.

(** The node is backed off, if it was available. *)
Definition backoff_status (nb : NodeBGP) : H unit :=
  new_nb ← lift (backoff_node_bgp nb);
  send AgKube (ReplaceNodeStatus new_nb) ;;
  note (NodeUp (m_name (nb_meta nb)) (show_node_status Unavailable)) ;;
  note (NodeDown (m_name (nb_meta nb)) (show_node_status Available)) ;;
  note (NodeBackoff (m_name (nb_meta nb))).

(** The condition, unless it is the last one: whether it is new *)
Definition push_cond (cond : NodeBGPCondition) (c : option (list NodeBGPCondition)) : list NodeBGPCondition * bool :=
  match c with
  | Some l => if decide (last l = Some cond) then (l, false) else (l ++ [cond], true)
  | None => ([cond], true)
  end.

(** The backoff of a peer, after its speaker was started anew *)
Definition restart_status (st : BGPPeerStatus) : res AgentError BGPPeerStatus :=
  b ← ovf 32 (bp_backoff st + 1);
  mret {| bp_backoff := b;
          bp_conditions := Some (default [] (bp_conditions st) ++ [{| bc_status := Idle; bc_reason := "Changed by NodeBGP reconciler" |}]) |}.

Definition with_bp_status (st : option BGPPeerStatus) (bp : BGPPeer) : BGPPeer :=
  {| bp_meta := bp_meta bp; bp_spec := bp_spec bp; bp_status := st |}.

Definition restart_peer (p : BGPPeerSlim) : H unit :=
  found ← ask (fun t => get_peer_opt E t (slim_name p));
  match found with
  | Some bp =>
      match bp_status bp with
      | Some st => st' ← lift (restart_status st); send AgKube (ReplacePeerStatus (with_bp_status (Some st') bp))
      | None => mret tt
      end
  | None => mret tt
  end.

(** A speaker that has no AS number is configured. *)
Definition configure (nb : NodeBGP) (backoff : bool) : H Action :=
  let name := m_name (nb_meta nb) in
  send GotgPRC (SetAs (nb_asn (nb_spec nb))) ;;
  send GotgPRC (SetRouterId (nb_router_id (nb_spec nb))) ;;
  match multipath (nb_speaker (nb_spec nb)) with Some b => send GotgPRC (ConfigureMultiPath b) | None => mret tt end ;;
  (if backoff then backoff_advertisements nb else mret tt) ;;
  count ← lift (if backoff then ovf 32 (backoff_of (nb_status nb) + 1) else Ok (backoff_of (nb_status nb)));
  let new_nb := with_nb_status (Some (with_conditions (fun c => (push_cond available_cond c).1) count (nb_status nb))) nb in
  send AgKube (ReplaceNodeStatus new_nb) ;;
  note (NodeDown name (show_node_status Unavailable)) ;;
  note (NodeUp name (show_node_status Available)) ;;
  match nb_peers (nb_spec nb) with Some peers => for_each restart_peer peers | None => mret tt end ;;
  mret (Requeue 1).

(** A peer of the node that is not there is created: whether this failed *)
Definition ensure_peer (nb : NodeBGP) (failed : bool) (p : BGPPeerSlim) : H bool :=
  let bp := slim_from p nb in
  s ← get_st;
  match get_peer_opt E (sent s) (m_name (bp_meta bp)) with
  | None => mret true
  | Some (Some _) => mret failed
  | Some None => note (CreatePeer bp) ;; mret (if accepts E (sent s) (CreatePeer bp) then failed else true)
  end.

(** A speaker that is configured: its settings are compared. *)
Definition compare (nb : NodeBGP) (info : BgpInfo) : H Action :=
  let name := m_name (nb_meta nb) in
  let available := (info_asn info =? nb_asn (nb_spec nb)) && bool_decide (info_router_id info = nb_router_id (nb_spec nb)) in
  let cond := if available then available_cond else invalid_cond in
  note (NodeUp name (show_node_status (nc_status cond))) ;;
  note (NodeDown name (show_node_status (if available then Unavailable else Available))) ;;
  let new := push_cond cond (nb_status nb ≫= nb_conditions) in
  if new.2 then
    send AgKube (ReplaceNodeStatus (with_nb_status
      (Some (with_conditions (fun c => (push_cond cond c).1) (backoff_of (nb_status nb)) (nb_status nb))) nb)) ;;
    mret (Requeue 1)
  else if available then
    match nb_peers (nb_spec nb) with
    | Some peers =>
        failed ← for_fold (ensure_peer nb) peers false;
        mret (if (failed : bool) then Requeue 10 else Requeue 60)
    | None => mret (Requeue 60)
    end
  else mret (Requeue 60).

Definition reconcile (nb : NodeBGP) : H Action :=
  let backoff := was_available nb in
  connected ← connect_bgp_with_retry (nb_speaker (nb_spec nb));
  if (connected : bool) then
    p ← get_st;
    match get_bgp_info E (sent p) with
    | None =>
        (if backoff then backoff_status nb ;; backoff_advertisements nb else mret tt) ;;
        throw GotgPRC
    | Some None => throw (AgFailedToGetData "BGP information is not set")
    | Some (Some info) => if info_asn info =? 0 then configure nb backoff else compare nb info
    end
  else
    (if backoff then backoff_status nb else mret tt) ;;
    backoff_advertisements nb ;;
    throw Timeout.

Definition cleanup (nb : NodeBGP) : H Action :=
  connected ← connect_bgp_with_retry (nb_speaker (nb_spec nb));
  if (connected : bool) then
    p ← get_st;
    match list_neighbor E (sent p) with
    | Found true => throw PeerExists
    | Failed => throw GotgPRC
    | _ => send GotgPRC ClearBgpInfo ;; mret AwaitChange
    end
  else throw Timeout.

Definition node_reconciler (ev : Event) (nb : NodeBGP) : H Action :=
  note Reconciliation ;;
  match ev with
  | Apply => map_err AgFinalizerApply (reconcile nb)
  | Cleanup => map_err AgFinalizerCleanup (cleanup nb)
  end.

(** ** The peers *)

Definition RECONCILER_REASON : string := "Synchronized by BGPPeer reconciler".

(** The status of a peer after its state was compared, whether it is to be written,
    and whether the session is newly established or lost *)
Record Sync : Type := { new_status : option BGPPeerStatus; need_update : bool; established : bool; reset : bool }.

Definition first_state (backoff : Z) (name : string) (state : Z) : H Sync :=
  s ← lift (res_map_err AgCRD (status_try_from state));
  note (PeerUp name (show_peer_status s)) ;;
  mret {| new_status := Some {| bp_backoff := backoff; bp_conditions := Some [{| bc_status := s; bc_reason := RECONCILER_REASON |}] |};
          need_update := true; established := false; reset := false |}.

(** The condition that is added has the old status. *)
Definition sync_state (bp : BGPPeer) (state : Z) : H Sync :=
  let name := m_name (bp_meta bp) in
  let same := {| new_status := bp_status bp; need_update := false; established := false; reset := false |} in
  match bp_status bp with
  | None => first_state 0 name state
  | Some st =>
      match bp_conditions st with
      | None => first_state (bp_backoff st) name state
      | Some conds =>
          match last conds with
          | None => mret same
          | Some cond =>
              if status_as_i32 (bc_status cond) =? state then mret same
              else
                new_state ← lift (res_map_err AgCRD (status_try_from state));
                note (PeerDown name (show_peer_status (bc_status cond))) ;;
                note (PeerUp name (show_peer_status new_state)) ;;
                pushed ← lift (res_map_err AgCRD (status_try_from (status_as_i32 (bc_status cond))));
                mret {| new_status := Some {| bp_backoff := bp_backoff st;
                          bp_conditions := Some (conds ++ [{| bc_status := pushed; bc_reason := RECONCILER_REASON |}]) |};
                        need_update := true;
                        established := state =? 6;
                        reset := bool_decide (bc_status cond = Established) && negb (state =? 6) |}
          end
      end
  end.

Definition label_slice (name : string) (eps : EndpointSlice) : EndpointSlice := {|
  eps_meta := let m := eps_meta eps in
    {| m_name := m_name m; m_namespace := m_namespace m; m_uid := m_uid m;
       m_labels := <[EndpointWatcher.ENDPOINTSLICE_TRIGGER := name]> (m_labels m);
       m_annotations := m_annotations m; m_owner_references := m_owner_references m |};
  endpoints := endpoints eps |}.

Definition trigger_slice (name : string) (eps : EndpointSlice) : H unit :=
  ns ← namespace_of (eps_meta eps); send AgKube (ReplaceSlice ns (label_slice name eps)).

(** An advertisement to a session that is lost is to be made again. *)
Definition reset_adv (name : string) (ba : BGPAdvertisement) : H unit :=
  match peers_of ba with
  | Some peers =>
      if decide (peers !! name = Some Advertised)
      then ns ← namespace_of (ba_meta ba); send AgKube (PatchAdv ns (with_peers (<[name := NotAdvertised]> peers) ba))
      else mret tt
  | None => mret tt
  end.

(** What follows the comparison *)
Definition follow (name : string) (s : Sync) : H Action :=
  (if established s then l ← ask (list_slices E); for_each (trigger_slice name) l else mret tt) ;;
  (if reset s then l ← ask (list_advs E); for_each (reset_adv name) l else mret tt) ;;
  mret AwaitChange.

Definition sync_peer (bp : BGPPeer) (state : Z) : H Action :=
  s ← sync_state bp state;
  let new_bp := with_bp_status (new_status s) bp in
  p ← get_st;
  if need_update s then
    note (PatchPeerStatus new_bp) ;;
    if accepts E (sent p) (PatchPeerStatus new_bp) then follow (m_name (bp_meta bp)) s else mret (Requeue 10)
  else follow (m_name (bp_meta bp)) s.

Definition has_slim (name : string) (l : list BGPPeerSlim) : bool := existsb (fun p => bool_decide (slim_name p = name)) l.

Definition join_node (bp : BGPPeer) (nb : NodeBGP) : NodeBGP :=
  with_nb_peers (Some (match nb_peers (nb_spec nb) with
                       | Some peers => if has_slim (m_name (bp_meta bp)) peers then peers else peers ++ [slim_into bp]
                       | None => [slim_into bp]
                       end)) nb.

Definition create_peer (bp : BGPPeer) : H Action :=
  let sp := bp_spec bp in
  send GotgPRC (AddPeer (m_name (bp_meta bp)) (bp_asn sp) (bp_addr sp) (default 0 (hold_time sp)) (default 0 (keepalive_time sp))) ;;
  nb ← ask (fun t => get_node_bgp E t (node_bgp_ref sp));
  send AgKube (ReplaceNode (join_node bp nb)) ;;
  mret (Requeue 5).

Definition reconcile_peer (bp : BGPPeer) : H Action :=
  connected ← connect_bgp_with_retry (bp_speaker (bp_spec bp));
  if (connected : bool) then
    p ← get_st;
    match get_bgp_info E (sent p) with
    | None => throw GotgPRC
    | Some None => throw (AgFailedToGetData "BGP information is not set")
    | Some (Some info) =>
        if info_asn info =? 0 then mret (Requeue 1)
        else
          match get_neighbor E (sent p) (bp_addr (bp_spec bp)) with
          | Found (Some state) => sync_peer bp state
          | Found None => throw (AgFailedToGetData "failed to get peer information from speaker")
          | NotFound => create_peer bp
          | Failed => throw GotgPRC
          end
    end
  else throw Timeout.

(** An advertisement, without the peer *)
Definition drop_from_adv (name : string) (ba : BGPAdvertisement) : H unit :=
  match peers_of ba with
  | Some peers =>
      match peers !! name with
      | Some _ => ns ← namespace_of (ba_meta ba); send AgKube (ReplaceAdv ns (with_peers (delete name peers) ba))
      | None => mret tt
      end
  | None => mret tt
  end.

Definition leave_node (name : string) (nb : NodeBGP) : H unit :=
  match nb_peers (nb_spec nb) with
  | Some peers =>
      send AgKube (ReplaceNode (with_nb_peers (Some (List.filter (fun p => negb (bool_decide (slim_name p = name))) peers)) nb))
  | None => mret tt
  end.

Definition cleanup_peer (bp : BGPPeer) : H Action :=
  let name := m_name (bp_meta bp) in
  connected ← connect_bgp_with_retry (bp_speaker (bp_spec bp));
  if (connected : bool) then
    p ← get_st;
    match get_neighbor E (sent p) (bp_addr (bp_spec bp)) with
    | Found _ => send GotgPRC (DeletePeer (bp_addr (bp_spec bp)))
    | NotFound => mret tt
    | Failed => throw GotgPRC
    end ;;
    nb ← ask (fun t => get_node_bgp E t (node_bgp_ref (bp_spec bp)));
    leave_node name nb ;;
    l ← ask (list_advs E);
    for_each (drop_from_adv name) l ;;
    mret AwaitChange
  else throw Timeout.

Definition peer_reconciler (ev : Event) (bp : BGPPeer) : H Action :=
  note Reconciliation ;;
  match ev with
  | Apply => map_err AgFinalizerApply (reconcile_peer bp)
  | Cleanup => map_err AgFinalizerCleanup (cleanup_peer bp)
  end.
End defs.

(** ** The states of sessions *)

Section watcher.
Inductive Status : Type := Aborted | Internal.
Context (E : Env).
#[local] Abbreviation W := (M (Proc unit Output) Status).

Definition WATCHER_REASON : string := "Synchronized by watcher".

(** [sart::ExportPeerStateRequest] *)
Record PeerState : Type := { ps_name : string; ps_state : Z }.

Definition tell (o : Output) : W unit :=
  p ← get_st; modify (push o) ;; if accepts E (sent p) o then mret tt else throw Internal.
Definition look {A} (answer : list Output -> option A) : W A :=
  p ← get_st; match answer (sent p) with Some a => mret a | None => throw Internal end.

Definition watched (state : BGPPeerConditionStatus) : BGPPeerCondition := {| bc_status := state; bc_reason := WATCHER_REASON |}.

(** The status with the state, and what has changed *)
Definition record_state (bp : BGPPeer) (state : BGPPeerConditionStatus) : W Sync :=
  let name := m_name (bp_meta bp) in
  let conds := bp_status bp ≫= bp_conditions in
  let backoff := match bp_status bp with Some st => bp_backoff st | None => 0 end in
  let update old := {|
    new_status := Some {| bp_backoff := backoff; bp_conditions := Some (default [] conds ++ [watched state]) |};
    need_update := true;
    established := bool_decide (state = Established);
    reset := bool_decide (old = Some Established) && negb (bool_decide (state = Established)) |} in
  match conds ≫= last with
  | Some cond =>
      if decide (state = bc_status cond)
      then mret {| new_status := bp_status bp; need_update := false; established := false; reset := false |}
      else modify (push (PeerDown name (show_peer_status (bc_status cond)))) ;;
           modify (push (PeerUp name (show_peer_status state))) ;;
           mret (update (Some (bc_status cond)))
  | None => modify (push (PeerUp name (show_peer_status state))) ;; mret (update None)
  end.

Definition watch_slice (name : string) (eps : EndpointSlice) : W unit :=
  match m_namespace (eps_meta eps) with
  | Some ns => tell (PatchSlice ns (label_slice name eps))
  | None => throw Internal
  end.

Definition watch_adv (name : string) (ba : BGPAdvertisement) : W unit :=
  match peers_of ba with
  | Some peers =>
      if decide (peers !! name = Some Advertised)
      then match m_namespace (ba_meta ba) with
           | Some ns => tell (ReplaceAdv ns (with_peers (<[name := NotAdvertised]> peers) ba))
           | None => throw Internal
           end
      else mret tt
  | None => mret tt
  end.

Definition export_peer_state (get_status : list Output -> string -> option BGPPeer) (info : PeerState) : W unit :=
  match status_try_from (ps_state info) with
  | Ok state =>
      p ← get_st;
      match get_status (sent p) (ps_name info) with
      | Some bp =>
          let name := m_name (bp_meta bp) in
          s ← record_state bp state;
          (if need_update s then tell (ReplacePeerStatus (with_bp_status (new_status s) bp)) else mret tt) ;;
          look (fun t => if client E t then Some tt else None) ;;
          (if established s then l ← look (list_slices E); for_each (watch_slice name) l else mret tt) ;;
          (if reset s then l ← look (list_advs E); for_each (watch_adv name) l else mret tt)
      | None => throw Aborted
      end
  | _ => throw Aborted
  end.
End watcher.
End AgentBgp.
