(* ===== verification/AgentBgpFacts.v ===== *)
(** * What is recorded of speakers and sessions

    When a node is marked available, which states of sessions are recorded and by
    whom, and what a backoff does to advertisements. *)

From S2P Require Import Prelude.
From S2P Require Import KubeApi.
From S2P Require Import KubeBgpApi.
From S2P Require Import KubeAdvertise.
From S2P Require Import AgentBgp.

Module AgentBgpFacts.
Import Kube BgpCrd AgentBgp.

#[local] Abbreviation St := (Proc unit Output).

(** ** Sessions *)

(** The last status that was recorded *)
Definition last_cond (st : option BGPPeerStatus) : option BGPPeerCondition :=
  st ← st; conds ← bp_conditions st; last conds.
Definition recorded (st : option BGPPeerStatus) : option BGPPeerConditionStatus := bc_status <$> last_cond st.

(** The status a number of [BGPPeerConditionStatus] is read as: the enumeration
    and the conversion number [Active] and [Connect] the other way round. *)
Definition misread (s : BGPPeerConditionStatus) : BGPPeerConditionStatus :=
  match s with Active => Connect | Connect => Active | s => s end.

Lemma try_from_number s : s <> Unknown -> status_try_from (status_as_i32 s) = Ok (misread s).
Proof. by destruct s. Qed.

(** The status of a peer after the reconciler has seen the state of its session *)
Definition after_sync (bp : BGPPeer) (state : Z) : BGPPeer :=
  match (sync_state bp state (Build_Proc tt [])).1 with
  | Ok s => with_bp_status (new_status s) bp
  | _ => bp
  end.

Lemma after_sync_recorded bp state s : recorded (bp_status bp) = Some s ->
  recorded (bp_status (after_sync bp state)) = Some s \/ recorded (bp_status (after_sync bp state)) = Some (misread s).
Proof.
  intros Hr. unfold after_sync, sync_state. destruct (bp_status bp) as [st|] eqn:Hst; [|done]. cbn in Hr.
  destruct (bp_conditions st) as [conds|] eqn:Hc; [|done]. cbn in Hr. destruct (last conds) as [cond|] eqn:Hl; [|done].
  cbn in Hr. injection Hr as Hs. assert (Hrec : recorded (Some st) = Some s) by (unfold recorded; cbn; rewrite Hc; cbn; by rewrite Hl, <-Hs).
  destruct (status_as_i32 (bc_status cond) =? state); [left; exact Hrec|].
  unfold mbind, M_bind, lift, note, modify. cbn.
  destruct (status_try_from state) as [new|e|]; cbn; [|left; by rewrite Hst..].
  destruct (decide (bc_status cond = Unknown)) as [Hu|Hu]; [rewrite Hu; cbn; left; by rewrite Hst|].
  rewrite (try_from_number _ Hu). cbn. right. unfold recorded. cbn. by rewrite last_snoc, <-Hs.
Qed.

(** A peer whose session is established without the speaker's notice reaching
    the agent is not established for the agent, however often the reconciler sees
    the state: it records the old status again. *)
Theorem missed_state_never_recorded (bp : BGPPeer) (s : BGPPeerConditionStatus) (states : list Z)
  (Hr : recorded (bp_status bp) = Some s) (Hs : s <> Established) :
  AdvertAgent.is_established (foldl after_sync bp states) = false.
Proof.
  assert (Hall : forall bp, (exists s, recorded (bp_status bp) = Some s /\ s <> Established) ->
    exists s, recorded (bp_status (foldl after_sync bp states)) = Some s /\ s <> Established).
  { induction states as [|state states IH]; intros b Hb; [done|]. cbn. apply IH. destruct Hb as (s0 & Hr0 & Hs0).
    destruct (after_sync_recorded b state s0 Hr0) as [H|H]; [by exists s0|]. exists (misread s0). split; [done|]. by destruct s0. }
  destruct (Hall bp) as (s' & Hr' & Hs'); [by exists s|]. unfold AdvertAgent.is_established.
  unfold recorded in Hr'. fold (last_cond (bp_status (foldl after_sync bp states))).
  destruct (last_cond _) as [c|]; [|done]. injection Hr' as Hc. apply bool_decide_eq_false_2. congruence.
Qed.

(** What the watcher records *)
Lemma record_state_spec bp state (p : St) : exists s p', record_state bp state p = (Ok s, p') /\
  recorded (new_status s) = Some state /\ (need_update s = true <-> recorded (bp_status bp) <> Some state) /\
  (established s = true <-> state = Established /\ recorded (bp_status bp) <> Some Established) /\
  (reset s = true <-> recorded (bp_status bp) = Some Established /\ state <> Established).
Proof.
  assert (HR : recorded (bp_status bp) = bc_status <$> ((bp_status bp ≫= bp_conditions) ≫= last)) by (by destruct (bp_status bp)).
  rewrite HR. clear HR. unfold record_state. destruct (bp_status bp ≫= bp_conditions) as [conds|] eqn:Hc; cbn [default].
  2: { mred. eexists _, _. split; [reflexivity|]. unfold recorded. cbn. rewrite bool_decide_eq_true. naive_solver. }
  change (Some conds ≫= last) with (last conds). destruct (last conds) as [cond|] eqn:Hl; cbn [fmap option_fmap option_map].
  - case_decide as Hd.
    + mred. eexists _, _. split; [reflexivity|]. cbn. subst state.
      split; [|split; [naive_solver|split; split; [done|intros [? ?]; congruence|done|intros [[= ?] ?]; congruence]]].
      unfold recorded, last_cond. destruct (bp_status bp) as [st|]; [|done]. cbn in *. rewrite Hc. cbn. by rewrite Hl.
    + mred. eexists _, _. split; [reflexivity|]. unfold recorded. cbn. rewrite last_snoc. cbn.
      rewrite andb_true_iff, negb_true_iff, bool_decide_eq_false, !bool_decide_eq_true. naive_solver.
  - mred. eexists _, _. split; [reflexivity|]. unfold recorded. cbn. rewrite last_snoc. cbn. rewrite bool_decide_eq_true. naive_solver.
Qed.

(** *** What the watcher sends *)

(** The request is among those that were sent. *)
Definition asked (o : Output) (p : St) : Prop := o ∈ sent p.

Lemma asked_tell E o o' : maintains (asked o) (tell E o').
Proof. unfold tell, asked. keep. intros p Hp. cbn. set_solver. Qed.

Lemma tell_asked E o p p' : tell E o p = (Ok tt, p') -> asked o p'.
Proof.
  unfold tell, asked, mbind, M_bind, get_st, modify. destruct (accepts E (sent p) o); intros [= <-]. cbn. set_solver.
Qed.

Lemma asked_slices E o name l : maintains (asked o) (for_each (watch_slice E name) l).
Proof. keep. unfold watch_slice. keep. apply asked_tell. Qed.

Lemma asked_advs E o name l : maintains (asked o) (for_each (watch_adv E name) l).
Proof. keep. unfold watch_adv. keep. apply asked_tell. Qed.

Lemma watch_advs_run E name l p p' ba m : for_each (watch_adv E name) l p = (Ok tt, p') -> ba ∈ l ->
  peers_of ba = Some m -> m !! name = Some Advertised ->
  exists ns, asked (ReplaceAdv ns (with_peers (<[name := NotAdvertised]> m) ba)) p'.
Proof.
  intros H Hin Hm Hn. revert p H. induction l as [|b l IH]; [set_solver|]. intros p H. cbn in H.
  apply bind_inv_ok in H as ([] & p1 & H1 & H). apply elem_of_cons in Hin as [<-|Hin]; [|eauto].
  unfold watch_adv in H1. rewrite Hm, decide_True in H1 by done. destruct (m_namespace (ba_meta ba)) as [ns|]; [|done].
  exists ns. apply tell_asked in H1. by eapply asked_advs.
Qed.

Lemma asked_then {A} o (answer : list Output -> option A) (f : A -> M St Status unit) :
  (forall a, maintains (asked o) (f a)) -> maintains (asked o) (a ← look answer; f a).
Proof. intros Hf. apply maintains_bind; [unfold look; keep|exact Hf]. Qed.

(** C29: when the speaker reports a state that is not the recorded one, and the
    report is answered with success, the state is recorded as the last one; and if
    the session is lost, every advertisement that was made to the peer is to be
    made again. *)
Theorem reported_states_recorded (E : Env) (get_status : list Output -> string -> option BGPPeer) (info : PeerState)
  (state : BGPPeerConditionStatus) (bp : BGPPeer) (advs : list BGPAdvertisement) (p p' : St)
  (Hstate : status_try_from (ps_state info) = Ok state) (Hbp : get_status (sent p) (ps_name info) = Some bp)
  (Hadvs : forall t, list_advs E t = Some advs) (Hchanged : recorded (bp_status bp) <> Some state)
  (Hrun : export_peer_state E get_status info p = (Ok tt, p')) :
  (exists bp', asked (ReplacePeerStatus bp') p' /\ bp_meta bp' = bp_meta bp /\ recorded (bp_status bp') = Some state) /\
  (recorded (bp_status bp) = Some Established -> forall ba m, ba ∈ advs -> peers_of ba = Some m ->
     m !! m_name (bp_meta bp) = Some Advertised ->
     exists ns, asked (ReplaceAdv ns (with_peers (<[m_name (bp_meta bp) := NotAdvertised]> m) ba)) p').
Proof.
  unfold export_peer_state in Hrun. rewrite Hstate, bind_get, Hbp in Hrun. cbv zeta in Hrun.
  destruct (record_state_spec bp state p) as (s & p1 & H1 & Hrec & Hneed & _ & Hreset).
  rewrite (bind_ok _ _ _ _ _ H1) in Hrun. rewrite (proj2 Hneed Hchanged) in Hrun.
  apply bind_inv_ok in Hrun as ([] & p2 & H2 & Hrun). apply bind_inv_ok in Hrun as ([] & q2 & Hc & Hrun).
  assert (q2 = p2) as ->.
  { unfold look in Hc. rewrite bind_get in Hc. destruct (client E (sent p2)); [by injection Hc as <-|done]. }
  apply bind_inv_ok in Hrun as ([] & p3 & H3 & Hrun). split.
  - exists (with_bp_status (new_status s) bp). split; [|done]. apply tell_asked in H2.
    assert (Hslices : asked (ReplacePeerStatus (with_bp_status (new_status s) bp)) p3).
    { destruct (established s); [|inversion H3; subst p3; exact H2]. eapply asked_then; [|exact H2|exact H3]. intros l. apply asked_slices. }
    destruct (reset s); [|inversion Hrun; subst p'; exact Hslices]. eapply asked_then; [|exact Hslices|exact Hrun]. intros l. apply asked_advs.
  - intros He ba m Hin Hm Hn. rewrite (proj2 Hreset) in Hrun by (split; [done|congruence]).
    unfold look in Hrun. unfold mbind at 1, M_bind at 1 in Hrun. rewrite bind_get, Hadvs in Hrun.
    eapply watch_advs_run; [exact Hrun|done..].
Qed.

(** ** Backoff *)

(** A backoff of the speaker makes every peer of the node one that is to be
    announced to, also one that was to be withdrawn from. *)
Theorem backoff_forgets_withdrawals (m : gmap string AdvertiseStatus) (names : list string) (k : string) :
  (foldl forget_peer (m, false) names).1 !! k = if decide (k ∈ names) then (fun _ => NotAdvertised) <$> m !! k else m !! k.
Proof.
  generalize false. revert m. induction names as [|p names IH]; intros m u; [done|]. cbn [foldl].
  assert (Hp : (forget_peer (m, u) p).1 !! k = if decide (k = p) then (fun _ => NotAdvertised) <$> m !! k else m !! k).
  { unfold forget_peer. cbn. destruct (decide (k = p)) as [->|Hne].
    - destruct (m !! p) as [s|] eqn:Hm; [|done]. destruct (decide (s = NotAdvertised)) as [->|]; cbn; [exact Hm|apply lookup_insert_eq].
    - destruct (m !! p) as [s|]; [destruct (decide (s = NotAdvertised))|]; cbn; [done|by rewrite lookup_insert_ne|done]. }
  destruct (forget_peer (m, u) p) as [m' u']. rewrite IH. cbn in Hp. rewrite Hp.
  destruct (decide (k = p)) as [->|Hne].
  - rewrite (decide_True (P := p ∈ p :: names)) by set_solver. destruct (decide (p ∈ names)); by destruct (m !! p).
  - destruct (decide (k ∈ names)); [rewrite (decide_True (P := k ∈ p :: names)) by set_solver|
      rewrite (decide_False (P := k ∈ p :: names)) by set_solver]; done.
Qed.

(** ** Peers that are removed *)

(** When the only peer of an advertisement is removed, the advertisement loses it
    without a path being deleted from the speaker, and can be deleted: the speaker
    keeps the path and announces it to the peers it is given later. *)
Lemma removed_peer_strands_path E acc name s ns ba (p : St) (q : Proc unit AdvertOut.Output) :
  peers_of ba = Some {[name := s]} -> m_namespace (ba_meta ba) = Some ns ->
  sent (drop_from_adv E name ba p).2 = sent p ++ [ReplaceAdv ns (with_peers ∅ ba)] /\
  (AdvertController.cleanup acc (with_peers ∅ ba) q).1 = Ok AwaitChange.
Proof.
  intros Hp Hns. split.
  - unfold drop_from_adv, namespace_of. rewrite Hp, lookup_singleton_eq, Hns, delete_singleton_eq.
    unfold send, mbind, M_bind, lift, get_st, modify. cbn. by destruct (accepts E _ _).
  - unfold AdvertController.cleanup, get_namespace. cbn. rewrite Hns. mred. cbn. by rewrite decide_True.
Qed.

(** ** Nodes *)

Section nodes.
Context {P : Profile} (E : Env).

(** No node was marked available. *)
Definition unmarked (p : St) : Prop := forall nb, asked (ReplaceNodeStatus nb) p -> was_available nb = false.

(** A request that does not mark a node available *)
Definition modest (o : Output) : Prop := forall nb, o = ReplaceNodeStatus nb -> was_available nb = false.

Lemma unmarked_push o p : modest o -> unmarked p -> unmarked (push o p).
Proof.
  intros Ho Hp nb Hnb. unfold asked in Hnb. cbn in Hnb. apply elem_of_app in Hnb as [Hnb|Hnb]; [by apply Hp|].
  apply list_elem_of_singleton in Hnb. by apply Ho.
Qed.

Lemma unmarked_note o : modest o -> maintains unmarked (note o).
Proof. intros Ho. unfold note. keep. intros p. by apply unmarked_push. Qed.
Lemma unmarked_send e o : modest o -> maintains unmarked (send E e o).
Proof. intros Ho. unfold send. keep. intros p. by apply unmarked_push. Qed.
Lemma unmarked_ask {A} (f : list Output -> option A) : maintains unmarked (ask f).
Proof. unfold ask. keep. Qed.

(** The request was sent and taken. *)
Definition given (o : Output) (t : list Output) : Prop := exists t1 t2, t = t1 ++ o :: t2 /\ accepts E t1 o = true.

Lemma given_app o t t' : given o t -> given o (t ++ t').
Proof. intros (t1 & t2 & -> & Ha). exists t1, (t2 ++ t'). by rewrite <-app_assoc. Qed.

Lemma send_given e o p p' : send E e o p = (Ok tt, p') -> sent p' = sent p ++ [o] /\ given o (sent p').
Proof.
  unfold send, mbind, M_bind, get_st, modify. destruct (accepts E (sent p) o) eqn:Ha; intros [= <-]. split; [done|].
  by exists (sent p), [].
Qed.

(** Nothing that was sent is taken back. *)
Definition grown (t : list Output) (p : St) : Prop := t `prefix_of` sent p.

Lemma grown_send t e o : maintains (grown t) (send E e o).
Proof. unfold send, grown. keep. intros p Hp. by apply prefix_app_r. Qed.
Lemma grown_note t o : maintains (grown t) (note o).
Proof. unfold note, grown. keep. intros p Hp. by apply prefix_app_r. Qed.
Lemma grown_ask {A} t (f : list Output -> option A) : maintains (grown t) (ask f).
Proof. unfold ask. keep. Qed.

Lemma unmarked_backoff_advs nb : maintains unmarked (backoff_advertisements E nb).
Proof.
  unfold backoff_advertisements, backoff_adv, namespace_of. keep; first [apply unmarked_ask|by apply unmarked_send].
Qed.

Lemma backoff_unavailable nb nb' : backoff_node_bgp nb = Ok nb' -> was_available nb' = false.
Proof.
  unfold backoff_node_bgp, was_available, with_conditions. destruct (ovf 32 _) as [b|e|]; intros [= <-]. cbn.
  destruct (nb_status nb) as [st|]; cbn; by rewrite ?last_snoc.
Qed.

Lemma unmarked_backoff nb : maintains unmarked (backoff_status E nb).
Proof.
  intros p r p' Hp H. unfold backoff_status in H. unfold mbind at 1, M_bind at 1, lift at 1 in H.
  destruct (backoff_node_bgp nb) as [nb'|e|] eqn:Hb; [|by injection H as <- <-..]. revert p r p' Hp H.
  change (maintains unmarked (send E AgKube (ReplaceNodeStatus nb') ;;
    note (NodeUp (m_name (nb_meta nb)) (show_node_status Unavailable)) ;;
    note (NodeDown (m_name (nb_meta nb)) (show_node_status Available)) ;; note (NodeBackoff (m_name (nb_meta nb))))).
  keep; first [by apply unmarked_note|apply unmarked_send]. intros nb0 [= <-]. by eapply backoff_unavailable.
Qed.

Lemma configure_gives nb backoff p r p' : unmarked p -> configure E nb backoff p = (r, p') ->
  unmarked p' \/ exists q, unmarked q /\ grown (sent q) p' /\
    given (SetAs (nb_asn (nb_spec nb))) (sent q) /\ given (SetRouterId (nb_router_id (nb_spec nb))) (sent q).
Proof.
  intros Hp H. unfold configure in H. cbv zeta in H. unfold mbind at 1, M_bind at 1 in H.
  destruct (send E GotgPRC (SetAs _) p) as [r1 p1] eqn:H1. assert (U1 : unmarked p1) by (by eapply (unmarked_send GotgPRC (SetAs _)); [done|exact Hp|exact H1]).
  destruct r1 as [[]|e|]; [|by injection H as <- <-; left..]. unfold mbind at 1, M_bind at 1 in H.
  destruct (send E GotgPRC (SetRouterId _) p1) as [r2 p2] eqn:H2. assert (U2 : unmarked p2) by (by eapply (unmarked_send GotgPRC (SetRouterId _)); [done|exact U1|exact H2]).
  destruct r2 as [[]|e|]; [|by injection H as <- <-; left..]. right. exists p2. split; [done|].
  apply send_given in H1 as [_ G1], H2 as [Hs G2]. split_and!; [|rewrite Hs; by apply given_app|done].
  match type of H with ?m p2 = _ => assert (Hm : maintains (grown (sent p2)) m) end.
  { unfold backoff_advertisements, backoff_adv, namespace_of, restart_peer.
    keep; first [apply grown_send|apply grown_note|apply grown_ask]. }
  eapply Hm; [|exact H]. unfold grown. done.
Qed.

(** What was sent before a mark comes before it. *)
Lemma before_mark {A} (x : A) l l1 l2 : l `prefix_of` l1 ++ x :: l2 -> x ∉ l -> exists k, l1 = l ++ k.
Proof.
  intros [l3 H] Hx. apply app_eq_app in H as (k & [[H1 H2]|[H1 H2]]); [by exists k|].
  destruct k as [|y k]; [exists []; by rewrite app_nil_r in *|]. injection H2 as <- _. destruct Hx. rewrite H1, elem_of_app. right. left.
Qed.

Lemma push_cond_last cond c : last (push_cond cond c).1 = Some cond.
Proof. unfold push_cond. destruct c as [l|]; [case_decide; [done|apply last_snoc]|done]. Qed.

Lemma compare_marks nb info : info_asn info <> nb_asn (nb_spec nb) \/ info_router_id info <> nb_router_id (nb_spec nb) ->
  maintains unmarked (compare E nb info).
Proof.
  intros Hne. unfold compare. cbv zeta.
  assert (Hf : (info_asn info =? nb_asn (nb_spec nb)) && bool_decide (info_router_id info = nb_router_id (nb_spec nb)) = false).
  { apply andb_false_iff. destruct Hne as [?|?]; [left; by apply Z.eqb_neq|right; by apply bool_decide_eq_false_2]. }
  rewrite Hf. keep; first [by apply unmarked_note|apply unmarked_send]. intros nb0 [= <-]. unfold was_available, with_conditions. cbn.
  destruct (nb_status nb) as [st|]; cbn; [|done]. by rewrite push_cond_last.
Qed.

(** C26: whenever a turn of the node's controller marks the node available, the
    speaker has said in that turn that it has the AS number and the router
    identifier of the node, or both were sent to it and accepted before the mark. *)
Theorem available_nodes_are_configured (nb nb' : NodeBGP) (p p' : St) (r : res AgentError Action) (before after : list Output)
  (Hp : sent p = []) (Hrun : reconcile E nb p = (r, p'))
  (Hmark : sent p' = before ++ ReplaceNodeStatus nb' :: after) (Havail : was_available nb' = true) :
  (exists info, get_bgp_info E (sent p) = Some (Some info) /\ info_asn info = nb_asn (nb_spec nb) /\
     info_router_id info = nb_router_id (nb_spec nb)) \/
  (given (SetAs (nb_asn (nb_spec nb))) before /\ given (SetRouterId (nb_router_id (nb_spec nb))) before).
Proof.
  assert (Hun : unmarked p) by (intros x Hx; unfold asked in Hx; rewrite Hp in Hx; set_solver).
  assert (Hno : unmarked p' -> False).
  { intros Hq. enough (was_available nb' = false) by congruence. apply Hq. unfold asked. rewrite Hmark, elem_of_app. right. left. }
  unfold reconcile in Hrun. unfold connect_bgp_with_retry in Hrun. unfold mbind at 1, M_bind at 1 in Hrun. rewrite bind_get in Hrun.
  unfold mret at 1, M_ret at 1 in Hrun. destruct (reaches E _ _ _).
  2: { destruct Hno. match type of Hrun with ?m p = _ => assert (Hm : maintains unmarked m) end; [|by eapply Hm].
       keep; [apply unmarked_backoff|apply unmarked_backoff_advs]. }
  rewrite bind_get in Hrun. destruct (get_bgp_info E (sent p)) as [[info|]|] eqn:Hinfo.
  - destruct (info_asn info =? 0).
    { destruct (configure_gives nb (was_available nb) p r p' Hun Hrun) as [?|(q & Uq & Hq & G1 & G2)]; [by destruct Hno|right].
      unfold grown in Hq. rewrite Hmark in Hq. apply before_mark in Hq as [k ->]; [by split; apply given_app|].
      intros Hin. specialize (Uq _ Hin). congruence. }
    left. exists info. split; [done|].
    destruct (decide (info_asn info = nb_asn (nb_spec nb))) as [?|Hne], (decide (info_router_id info = nb_router_id (nb_spec nb))) as [?|Hne'];
      [done|destruct Hno; eapply compare_marks; eauto..].
  - injection Hrun as <- <-. by destruct Hno.
  - destruct Hno. match type of Hrun with ?m p = _ => assert (Hm : maintains unmarked m) end; [|by eapply Hm].
    keep; [apply unmarked_backoff|apply unmarked_backoff_advs].
Qed.
End nodes.

(** ** Applied *)

Section witnesses.
#[local] Existing Instance debug_profile.

Definition w_meta (name : string) : ObjectMeta :=
  {| m_name := name; m_namespace := Some "default"%string; m_uid := None; m_labels := ∅; m_annotations := ∅; m_owner_references := [] |}.
Definition w_speaker : SpeakerConfig := {| path := "localhost:5000"; timeout := None; multipath := None |}.
Definition w_node : NodeBGP := {|
  nb_meta := w_meta "n"; nb_status := None;
  nb_spec := {| nb_asn := 65000; nb_router_id := "10.0.0.2"; nb_speaker := w_speaker; nb_peers := None |} |}.
Definition w_peer (s : BGPPeerConditionStatus) : BGPPeer := {|
  bp_meta := w_meta "p";
  bp_spec := {| bp_asn := 65001; bp_addr := "10.0.0.1"; hold_time := None; keepalive_time := None; capabilities := None;
                node_bgp_ref := "n"; cluster_bgp_ref := None; bp_speaker := w_speaker; groups := None |};
  bp_status := Some {| bp_backoff := 0; bp_conditions := Some [{| bc_status := s; bc_reason := "" |}] |} |}.
Definition w_adv : BGPAdvertisement := {|
  ba_meta := w_meta "a"; ba_status := Some {| ba_peers := Some {["p"%string := Advertised]} |};
  ba_spec := {| ba_cidr := "10.1.0.0/24"; ba_type := TService; ba_protocol := IPv4; attrs := None |} |}.

(** A speaker that is not configured yet *)
Definition w_env : Env := {|
  reaches _ _ _ := true;
  get_bgp_info _ := Some (Some {| info_asn := 0; info_router_id := "" |});
  list_neighbor _ := NotFound;
  get_neighbor _ _ := NotFound;
  get_peer_opt _ _ := Some None;
  get_node_bgp _ _ := Some w_node;
  list_advs _ := Some [w_adv];
  list_slices _ := Some [];
  accepts _ _ := true;
  client _ := true;
|}.

Definition w_start : St := Build_Proc tt [].

Lemma available_nodes_are_configured_witness :
  given w_env (SetAs 65000) [SetAs 65000; SetRouterId "10.0.0.2"] /\
  given w_env (SetRouterId "10.0.0.2") [SetAs 65000; SetRouterId "10.0.0.2"].
Proof.
  destruct (available_nodes_are_configured w_env w_node
    (with_nb_status (Some {| nb_backoff := 0; cluster_bgp_refs := None; nb_conditions := Some [available_cond] |}) w_node)
    w_start (reconcile w_env w_node w_start).2 (reconcile w_env w_node w_start).1
    [SetAs 65000; SetRouterId "10.0.0.2"] [NodeDown "n" (show_node_status Unavailable); NodeUp "n" (show_node_status Available)])
    as [(info & Hi & Ha & _)|H].
  - reflexivity.
  - apply surjective_pairing.
  - reflexivity.
  - reflexivity.
  - injection Hi as <-. discriminate Ha.
  - exact H.
Defined.

Lemma missed_state_never_recorded_witness :
  AdvertAgent.is_established (foldl after_sync (w_peer Idle) [2; 4; 5; 6; 6; 6]) = false.
Proof. apply (missed_state_never_recorded (w_peer Idle) Idle); [reflexivity|discriminate]. Defined.

Lemma reported_states_recorded_witness :
  let p' := (export_peer_state w_env (fun _ _ => Some (w_peer Established)) {| ps_name := "p"; ps_state := 1 |} w_start).2 in
  (exists bp', asked (ReplacePeerStatus bp') p' /\ recorded (bp_status bp') = Some Idle) /\
  exists ns ba, asked (ReplaceAdv ns ba) p' /\ (peers_of ba ≫= lookup "p"%string) = Some NotAdvertised.
Proof.
  intros p'. destruct (reported_states_recorded w_env (fun _ _ => Some (w_peer Established)) {| ps_name := "p"; ps_state := 1 |} Idle
    (w_peer Established) [w_adv] w_start p') as [(bp' & Hb & _ & Hr) Hadv].
  - reflexivity.
  - reflexivity.
  - reflexivity.
  - discriminate.
  - vm_compute. reflexivity.
  - split; [by exists bp'|]. destruct (Hadv eq_refl w_adv {["p"%string := Advertised]}) as [ns Hns]; [by left|reflexivity|reflexivity|].
    eexists ns, _. split; [exact Hns|]. vm_compute. reflexivity.
Defined.
End witnesses.
End AgentBgpFacts.
