(* ===== verification/AgentApi.v ===== *)
(** * From the agent to the speaker

    The requests of the agent's controllers as the gRPC interface of the speaker
    serves them, and what the server makes of them: an advertisement reaches the
    RIB manager; a peer with an IPv6 address is never added, and the timers of a
    peer never arrive. *)

From S2P Require Import Prelude.
From S2P Require Import Net.
From S2P Require Import NetText.
From S2P Require Import BgpFsm.
From S2P Require Import BgpFamily.
From S2P Require Import BgpAttribute.
From S2P Require Import BgpRib.
From S2P Require Import BgpLocRib.
From S2P Require Import BgpRibManager.
From S2P Require Import BgpEvent.
From S2P Require Import BgpPeer.
From S2P Require Import BgpServer.
From S2P Require Import BgpApi.
From S2P Require Import BgpApiFacts.
From S2P Require Import KubeApi.
From S2P Require Import KubeBgpApi.
From S2P Require Import KubeAdvertise.
From S2P Require Import AgentBgp.

Module AgentApi.
Import Proto ApiServer.
#[local] Abbreviation sending := ApiFacts.sending.

Section defs.
Context {I : IpNetApi} {NI : NetIter} {T : TextApi} {R : ProtoApi} {P : Profile}.
Variable E : ApiServer.Env.

(** [address_family::Afi] and [Safi::Unicast] as the agent sends them *)
Definition wire_family (p : BgpCrd.Protocol) : Z * Z := (match p with BgpCrd.IPv4 => 1 | BgpCrd.IPv6 => 2 end, 1).

(** The requests of the controller of advertisements *)
Definition advert_request (o : AdvertOut.Output) : option (M Channels Status unit) :=
  match o with
  | AdvertOut.AddPath _ prefix => Some (add_path E [prefix] [])
  | AdvertOut.DeletePath p prefix => Some (delete_path E (Some (wire_family p)) [prefix])
  | _ => None
  end.

(** The peer as the controller of peers describes it: its router identifier is
    its address. *)
Definition peer_message (name : string) (asn : Z) (addr : string) : PeerMessage :=
  {| pr_name := name; pr_asn := asn; pr_address := addr; pr_router_id := addr; pr_passive_open := false |}.

(** The requests of the controllers of nodes and peers *)
Definition speaker_request (o : AgentBgp.Output) : option (M Channels Status unit) :=
  match o with
  | AgentBgp.SetAs asn => Some (set_as E asn)
  | AgentBgp.SetRouterId id => Some (set_router_id E id)
  | AgentBgp.ConfigureMultiPath enable => Some (configure_multi_path E enable)
  | AgentBgp.ClearBgpInfo => Some (clear_bgp_info E)
  | AgentBgp.AddPeer name asn addr _ _ => Some (add_peer E (Some (peer_message name asn addr)))
  | AgentBgp.DeletePeer addr => Some (delete_peer E addr)
  | _ => None
  end.

(** A speaker: the channels of its interface, and its server *)
Record Speaker : Type := { channels : Channels; server : Server.Bgp }.

Variable accepts : list Server.Output -> Server.Output -> bool.
Variable manager_iter : gmap IpAddr Peer.PeerInfo -> list (IpAddr * Peer.PeerInfo).
Variable seen : nat -> Fsm.State.

(** The server handles the events that a request has sent. *)
Definition handle (e : Event.ControlEvent) (b : Server.Bgp) : Server.Bgp :=
  (Server.turn accepts manager_iter (Server.Ctrl seen e) b).2.

Definition rpc (req : M Channels Status unit) (s : Speaker) : res Status unit * Speaker :=
  let '(r, c) := req (channels s) in
  (r, {| channels := c; server := foldl (fun b e => handle e b) (server s) (drop (length (events (channels s))) (events c)) |}).
End defs.

(** ** What becomes of requests *)

Section facts.
Context {I : IpNetApi} {NI : NetIter} {T : TextApi} {TL : TextLaws} {R : ProtoApi} {P : Profile}.
Variable E : ApiServer.Env.
Hypothesis Htakes : forall t e, takes E t e = true.

(** The family of a network *)
Definition net_family (n : IpNet) : Family.AddressFamily :=
  match n with NV4 _ => Family.ipv4_unicast | NV6 _ => Family.ipv6_unicast end.

(** A request that sends one event has it handled. *)
Lemma rpc_sent accepts manager_iter seen req e s : req (channels s) = (Ok tt, sending e (channels s)) ->
  rpc accepts manager_iter seen req s = (Ok tt, {| channels := sending e (channels s); server := handle accepts manager_iter seen e (server s) |}).
Proof. intros H. unfold rpc. rewrite H. cbn [ApiFacts.sending events]. by rewrite drop_app_length. Qed.

Lemma handle_rib accepts manager_iter seen e o b : (forall t o, accepts t o = true) ->
  ((exists l, e = Event.CAddPath o.1 l /\ o.2 = RibManager.AddPath o.1 l) \/
   exists f, e = Event.CDeletePath f o.1 /\ o.2 = RibManager.DeletePath f o.1) ->
  Server.trace (handle accepts manager_iter seen e b) = Server.trace b ++ [Server.ToRib o.2; Server.Notified].
Proof.
  intros Ha [(l & -> & ->)|(f & -> & ->)]; unfold handle, Server.turn, Server.handle_event, Server.add_path, Server.delete_path, Server.emit,
    Server.output, mbind, M_bind, get_st, modify; rewrite Ha; cbn; by rewrite <- app_assoc.
Qed.

(** C30: when the agent of a node announces or withdraws an advertisement of a network,
    the speaker accepts the request, and its server asks the RIB manager to add
    the network, or to delete it from the tables of its family, and nothing else. *)
Theorem announcements_reach_rib (n : IpNet) (s : Speaker)
  (accepts : list Server.Output -> Server.Output -> bool)
  (manager_iter : gmap IpAddr Peer.PeerInfo -> list (IpAddr * Peer.PeerInfo)) (seen : nat -> Fsm.State)
  (Haccepts : forall t o, accepts t o = true) :
  (exists req s', advert_request E (AdvertOut.AddPath (BgpCrd.protocol_of n) (show_net n)) = Some req /\
     rpc accepts manager_iter seen req s = (Ok tt, s') /\
     Server.trace (server s') = Server.trace (server s) ++ [Server.ToRib (RibManager.AddPath [n] []); Server.Notified]) /\
  (exists req s', advert_request E (AdvertOut.DeletePath (BgpCrd.protocol_of n) (show_net n)) = Some req /\
     rpc accepts manager_iter seen req s = (Ok tt, s') /\
     Server.trace (server s') = Server.trace (server s) ++ [Server.ToRib (RibManager.DeletePath (net_family n) [n]); Server.Notified]).
Proof.
  split; eexists _, _; (split; [reflexivity|]); (split; [apply rpc_sent|]).
  - apply (ApiFacts.add_path_sent E Htakes [n] [] []). constructor.
  - cbn [server]. apply (handle_rib _ _ _ _ ([n], RibManager.AddPath [n] [])); [done|left; by eexists].
  - apply (ApiFacts.delete_path_sent E Htakes (wire_family (BgpCrd.protocol_of n)) (net_family n) [n]). by destruct n.
  - cbn [server]. apply (handle_rib _ _ _ _ ([n], RibManager.DeletePath (net_family n) [n])); [done|right; by eexists].
Qed.

(** A peer with an IPv4 address is added with that address as its router
    identifier, whatever its timers are; one with an IPv6 address is refused. *)
Lemma add_peer_outcome name asn a hold keepalive c : exists req,
  speaker_request E (AgentBgp.AddPeer name asn (show_addr a) hold keepalive) = Some req /\
  req c = match a with
          | AV4 x => (Ok tt, sending (Event.CAddPeer {| Event.nc_name := name; Event.nc_asn := asn; Event.nc_address := AV4 x;
                                                       Event.nc_router_id := x; Event.nc_passive := Some false |}) c)
          | AV6 _ => (Err (aborted "config error"), c)
          end.
Proof.
  eexists. split; [reflexivity|]. unfold add_peer, neighbor_try_from, peer_message. cbn [pr_address pr_router_id].
  rewrite parse_show_addr. destruct a as [x|x].
  - rewrite (ApiFacts.parse_v4_show x). by apply ApiFacts.tell_sent.
  - by rewrite (ApiFacts.parse_v4_show6 x).
Qed.
End facts.

Section ipv6.
Context {I : IpNetApi} {T : TextApi} {TL : TextLaws} {R : ProtoApi} {P : Profile}.

(** The agent is told that a peer was added only if the interface of its speaker
    has served the request. *)
Definition served (E : ApiServer.Env) (EA : AgentBgp.Env) : Prop :=
  forall t name asn addr hold keepalive, AgentBgp.accepts EA t (AgentBgp.AddPeer name asn addr hold keepalive) = true ->
    exists req c c', speaker_request E (AgentBgp.AddPeer name asn addr hold keepalive) = Some req /\ req c = (Ok tt, c').

Lemma ipv6_not_accepted E EA t name asn x hold keepalive : served E EA ->
  AgentBgp.accepts EA t (AgentBgp.AddPeer name asn (show_addr (AV6 x)) hold keepalive) = false.
Proof.
  intros Hs. destruct (AgentBgp.accepts EA t _) eqn:Ha; [|done]. destruct (Hs _ _ _ _ _ _ Ha) as (req & c & c' & Hreq & Hrun).
  cbn [speaker_request] in Hreq. injection Hreq as <-.
  unfold add_peer, neighbor_try_from, peer_message in Hrun. cbn [pr_address pr_router_id] in Hrun.
  by rewrite parse_show_addr, (ApiFacts.parse_v4_show6 x) in Hrun.
Qed.

(** A peer with an IPv6 address is never added to a speaker: as long as the speaker
    does not know it, no turn of the controller of peers succeeds, except one that
    waits for the speaker to be configured, and the peer does not become one of
    its node. *)
Theorem ipv6_peer_never_added (E : ApiServer.Env) (EA : AgentBgp.Env) (bp : BgpCrd.BGPPeer) (x : Z)
  (p p' : Kube.Proc unit AgentBgp.Output) (r : res BgpCrd.AgentError Kube.Action) (Hserved : served E EA)
  (Haddr : BgpCrd.bp_addr (BgpCrd.bp_spec bp) = show_addr (AV6 x))
  (Hunknown : forall t, AgentBgp.get_neighbor EA t (show_addr (AV6 x)) = AgentBgp.NotFound)
  (Hrun : AgentBgp.reconcile_peer EA bp p = (r, p')) :
  (forall a, r = Ok a -> a = Kube.Requeue 1) /\
  (forall nb, AgentBgp.ReplaceNode nb ∈ Kube.sent p' -> AgentBgp.ReplaceNode nb ∈ Kube.sent p).
Proof.
  unfold AgentBgp.reconcile_peer, AgentBgp.connect_bgp_with_retry, mbind, M_bind, get_st, mret, M_ret in Hrun.
  destruct (AgentBgp.reaches EA _ _ _); [|by injection Hrun as <- <-].
  destruct (AgentBgp.get_bgp_info EA _) as [[info|]|]; [|by injection Hrun as <- <-..].
  destruct (_ =? 0); [injection Hrun as <- <-; by split; [intros a [= <-]|]|].
  rewrite Haddr, Hunknown in Hrun. unfold AgentBgp.create_peer, AgentBgp.send, mbind, M_bind, get_st, modify in Hrun.
  rewrite Haddr, (ipv6_not_accepted E) in Hrun by done. injection Hrun as <- <-. split; [done|]. cbn. set_solver.
Qed.
End ipv6.

(** ** Examples *)

Section witnesses.
#[local] Existing Instances simple_ipnet simple_iter simple_text simple_text_laws ApiFacts.simple_proto debug_profile.

Definition open_env : ApiServer.Env := {|
  takes _ _ := true; arrives _ := []; closed _ := false; notified _ := true; net_error _ := ""; debug_net_error _ := "";
  debug_error _ := "" |}.
Definition idle_speaker : Speaker :=
  {| channels := {| events := []; responses := [] |}; server := Server.new Config.default |}.
Definition w_net : IpNet := NV4 (exist _ (167772160, 24) Logic.I : Net 32).

Lemma announcements_reach_rib_witness : exists req s',
  advert_request open_env (AdvertOut.AddPath BgpCrd.IPv4 (show_net w_net)) = Some req /\
  rpc (fun _ _ => true) map_to_list (fun _ => Fsm.Idle) req idle_speaker = (Ok tt, s') /\
  Server.trace (server s') = [Server.ToRib (RibManager.AddPath [w_net] []); Server.Notified].
Proof.
  exact (proj1 (announcements_reach_rib open_env (fun _ _ => eq_refl) w_net idle_speaker (fun _ _ => true) map_to_list
    (fun _ => Fsm.Idle) (fun _ _ => eq_refl))).
Defined.

(** An agent and a peer over IPv6 *)
Definition agent_env : AgentBgp.Env := {|
  AgentBgp.reaches _ _ _ := true;
  AgentBgp.get_bgp_info _ := Some (Some {| AgentBgp.info_asn := 65000; AgentBgp.info_router_id := "" |});
  AgentBgp.list_neighbor _ := AgentBgp.NotFound;
  AgentBgp.get_neighbor _ _ := AgentBgp.NotFound;
  AgentBgp.get_peer_opt _ _ := Some None;
  AgentBgp.get_node_bgp _ _ := None;
  AgentBgp.list_advs _ := Some [];
  AgentBgp.list_slices _ := Some [];
  AgentBgp.accepts _ o := match o with AgentBgp.AddPeer _ _ addr _ _ => match parse_v4 addr with Some _ => true | None => false end | _ => true end;
  AgentBgp.client _ := true;
|}.
Definition peer6 : BgpCrd.BGPPeer := {|
  BgpCrd.bp_meta := {| Kube.m_name := "p"; Kube.m_namespace := None; Kube.m_uid := None; Kube.m_labels := ∅;
                       Kube.m_annotations := ∅; Kube.m_owner_references := [] |};
  BgpCrd.bp_spec := {| BgpCrd.bp_asn := 65001; BgpCrd.bp_addr := show_addr (AV6 1); BgpCrd.hold_time := Some 90;
                       BgpCrd.keepalive_time := None; BgpCrd.capabilities := None; BgpCrd.node_bgp_ref := "n";
                       BgpCrd.cluster_bgp_ref := None;
                       BgpCrd.bp_speaker := {| BgpCrd.path := "localhost:5000"; BgpCrd.timeout := None; BgpCrd.multipath := None |};
                       BgpCrd.groups := None |};
  BgpCrd.bp_status := None |}.

Lemma agent_env_served : served open_env agent_env.
Proof.
  intros t name asn addr hold keepalive Ha. cbn [AgentBgp.accepts agent_env] in Ha.
  destruct (parse_v4 addr) as [x|] eqn:Hx; [|done].
  assert (Hp : parse_addr addr = Some (AV4 x))
    by (unfold parse_v4 in Hx; by destruct (parse_addr addr) as [[y|y]|]; [injection Hx as ->|..]).
  eexists _, {| events := []; responses := [] |}, _. split; [reflexivity|].
  unfold add_peer, neighbor_try_from, peer_message. cbn [pr_address pr_router_id]. rewrite Hp, Hx.
  reflexivity.
Qed.

Lemma ipv6_peer_never_added_witness : exists p',
  AgentBgp.reconcile_peer agent_env peer6 (Kube.Build_Proc tt []) = (Err BgpCrd.GotgPRC, p') /\
  forall nb, AgentBgp.ReplaceNode nb ∈ Kube.sent p' -> AgentBgp.ReplaceNode nb ∈ [].
Proof.
  eexists. split; [reflexivity|].
  exact (proj2 (ipv6_peer_never_added open_env agent_env peer6 1 (Kube.Build_Proc tt []) _ _ agent_env_served eq_refl (fun _ => eq_refl) eq_refl)).
Defined.
End witnesses.
End AgentApi.
