(* ===== verification/SartCli.v ===== *)
(** * The command line tool

    [Cli] is [sart/src]: the data that is shown as JSON ([data/bgp.rs]), the
    commands for the BGP speaker ([bgp/global.rs], [rib.rs], [neighbor.rs]) and for
    the FIB server ([fib/channel.rs], [route.rs]). What a command prints are the
    lines it leaves in its state; the servers and the libraries that format tables
    and JSON are parameters. The attributes of a route are read from the command
    line; with [BgpApi] and [BgpServer] they reach the RIB manager of the speaker. *)

From Stdlib Require Import Ascii.
From stdpp Require Import pretty.
From S2P Require Import Prelude.
From S2P Require Import Net.
From S2P Require Import NetText.
From S2P Require Import BgpFsm.
From S2P Require Import BgpFamily.
From S2P Require Import BgpAttribute.
From S2P Require Import BgpEvent.
From S2P Require Import BgpRib.
From S2P Require Import BgpLocRib.
From S2P Require Import BgpRibManager.
From S2P Require Import BgpPeer.
From S2P Require Import BgpServer.
From S2P Require Import BgpApi.
From S2P Require Import BgpApiFacts.
From S2P Require Import AgentApi.

Module Cli.
Import Proto.

(** [Error] of [sart/src/error.rs]; [Serialize] carries an error of [serde_json]. *)
Inductive CliError : Type :=
| MissingArgument (msg : string)
| InvalidRPCResponse
| FailedToGetResponse (s : ApiServer.Status)
| UnacceptableAttribute
| InvalidOriginValue
| InvalidChannelType
| Serialize
| InvalidBGPState (v : Z).

Inductive Output : Type := Plain | Json.

(** ** Data that is shown *)

Record MessageCounter : Type := {
  mc_open : Z; mc_update : Z; mc_keepalive : Z; mc_notification : Z; mc_route_refresh : Z }.

(** [sart.v1.Peer]; a timestamp is its text. *)
Record PeerData : Type := {
  pd_name : string; pd_address : string; pd_asn : Z; pd_router_id : string; pd_state : Z; pd_uptime : option string;
  pd_hold_time : Z; pd_keepalive_time : Z; pd_families : list (Z * Z); pd_send_counter : option MessageCounter;
  pd_recv_counter : option MessageCounter; pd_passive_open : bool }.

Record FamilyView : Type := { fv_afi : string; fv_safi : string }.

(** [data::bgp::Peer]; its capabilities are always empty. *)
Record PeerView : Type := {
  pv_name : string; pv_address : string; pv_asn : Z; pv_router_id : string; pv_state : string; pv_uptime : option string;
  pv_hold_time : Z; pv_keep_alive_time : Z; pv_families : list FamilyView; pv_send_counter : option MessageCounter;
  pv_receive_counter : option MessageCounter }.

(** [From<&AddressFamily> for Family] *)
Definition family_view (f : Z * Z) : FamilyView :=
  {| fv_afi := match f.1 with 1 => "ipv4" | 2 => "ipv6" | _ => "unknown" end;
     fv_safi := match f.2 with 1 => "unicast" | 2 => "multicast" | _ => "unknown" end |}.

(** The name of a state in JSON *)
Definition json_state (n : Z) : res CliError string :=
  match n with
  | 1 => Ok "Idle"%string
  | 2 => Ok "Active"%string
  | 3 => Ok "Connect"%string
  | 4 => Ok "OpenSent"%string
  | 5 => Ok "OpenConfirm"%string
  | 6 => Ok "Established"%string
  | _ => Err (InvalidBGPState (wrap 32 n))
  end.

(** [TryFrom<&sart::Peer> for Peer] *)
Definition peer_view (p : PeerData) : res CliError PeerView :=
  state ← json_state (pd_state p);
  Ok {| pv_name := pd_name p; pv_address := pd_address p; pv_asn := pd_asn p; pv_router_id := pd_router_id p; pv_state := state;
        pv_uptime := pd_uptime p; pv_hold_time := pd_hold_time p; pv_keep_alive_time := pd_keepalive_time p;
        pv_families := map family_view (pd_families p); pv_send_counter := pd_send_counter p;
        pv_receive_counter := pd_recv_counter p |}.

(** [From<&sart::AsSegment> for AsSegment]: the type and the elements *)
Definition segment_view (s : AsSegment) : string * list Z :=
  (match as_type s with 1 => "set" | 2 => "sequence" | _ => "unknown" end%string, elm s).

Record PathView : Type := {
  vw_nlri : string; vw_family : option FamilyView; vw_origin : Z; vw_next_hops : list string;
  vw_segments : list (string * list Z); vw_local_pref : Z; vw_med : Z; vw_peer_asn : Z; vw_peer_addr : string;
  vw_best : bool; vw_timestamp : option string }.

(** [sart.v1.BgpInfo] is shown as it is. *)
Record DisplayedPath : Type := { dp_best : bool; dp_prefix : string; dp_next_hop : string; dp_as_path : string }.

(** [sart.v1.Route], the fields that are shown *)
Record RouteData : Type := {
  rt_destination : string; rt_gateways : list string; rt_protocol : Z; rt_scope : Z; rt_type : Z; rt_ad : Z; rt_priority : Z }.
Record DisplayedRoute : Type := {
  dr_destination : string; dr_next_hops : string; dr_protocol : string; dr_scope : string; dr_kind : string;
  dr_ad : Z; dr_priority : Z }.

Record ChProtocol : Type := { cp_type : string; cp_endpoint : string; cp_tables : list Z }.
Record ChannelData : Type := { ch_name : string; ch_subscribers : list ChProtocol; ch_publishers : list ChProtocol }.

(** What the servers answer to queries, and what the libraries make of data:
    the texts of timestamps and families, the [Debug] of a text, tables and JSON *)
Record Env : Type := {
  reachable : bool;
  q_info : res ApiServer.Status (option ApiServer.BgpInfo);
  q_neighbor : string -> res ApiServer.Status (option PeerData);
  q_neighbors : res ApiServer.Status (list PeerData);
  q_path : Z * Z -> res ApiServer.Status (list PathMessage);
  q_neighbor_path : Z -> string -> Z * Z -> res ApiServer.Status (list PathMessage);
  q_routes : string -> res ApiServer.Status (list RouteData);
  q_channel : string -> res ApiServer.Status (option ChannelData);
  q_channels : res ApiServer.Status (list ChannelData);
  show_time : Z -> string;
  debug_family : Z * Z -> string;
  debug_str : string -> string;
  path_table : list DisplayedPath -> string;
  route_table : list DisplayedRoute -> string;
  json_info : ApiServer.BgpInfo -> option string;
  json_peer : PeerView -> option string;
  json_peers : list PeerView -> option string;
  json_paths : list PathView -> option string;
}.

(** ** Texts *)

(** [{:?}] of a vector: [[a, b]] *)
Fixpoint commas (l : list string) : string :=
  match l with [] => "" | [x] => x | x :: l' => x +:+ ", " +:+ commas l' end.
Definition debug_list (l : list string) : string := "[" +:+ commas l +:+ "]".

Fixpoint spaces (n : nat) : string := match n with O => "" | S k => String " " (spaces k) end.
(** [{: >w}] and [{: <w}] *)
Definition pad_left (w : nat) (s : string) : string := spaces (w - String.length s) +:+ s.
Definition pad_right (w : nat) (s : string) : string := s +:+ spaces (w - String.length s).

(** [to_lowercase]: no character outside of ASCII has a lower case that is one of
    the letters of the names it is compared with. *)
Definition lower_ascii (c : ascii) : ascii :=
  let n := nat_of_ascii c in if (65 <=? n)%nat && (n <=? 90)%nat then ascii_of_nat (n + 32) else c.
Fixpoint lowercase (s : string) : string :=
  match s with EmptyString => EmptyString | String c s' => String (lower_ascii c) (lowercase s') end.

(** ** Attributes of the command line *)

Inductive CliAttribute : Type := AOrigin | ALocalPref | AMed.

(** [TryFrom<&str> for Attribute] *)
Definition attr_try_from (v : string) : res CliError CliAttribute :=
  let v := lowercase v in
  if String.eqb v "origin" then Ok AOrigin
  else if String.eqb v "local_pref" then Ok ALocalPref
  else if String.eqb v "med" || String.eqb v "multi_exit_disc" then Ok AMed
  else Err UnacceptableAttribute.

(** The number of an origin that is not written as one *)
Definition origin_name (v : string) : res CliError Z :=
  if String.eqb v "igp" || String.eqb v "i" then Ok 0
  else if String.eqb v "egp" || String.eqb v "e" then Ok 1
  else if String.eqb v "incomplete" || String.eqb v "?" then Ok 2
  else Err InvalidOriginValue.

(** ** The commands, as they are parsed: an address family is the numbers of its
    [Afi] and [Safi], a table the number of its [Kind]. *)

Inductive RibAction : Type := RibGet | RibAdd (prefixes attributes : list string) | RibDel (prefixes : list string).
Inductive GlobalAction : Type :=
| GlobalGet
| GlobalSet (asn : option Z) (router_id : option string) (multi_path : option bool)
| GlobalRib (family : Z * Z) (action : RibAction)
| GlobalPolicy
| GlobalHealth.
Inductive NeighborAction : Type :=
| NeighborGet (addr : string)
| NeighborList
| NeighborAdd (name : option string) (addr : string) (asn : Z) (passive : bool)
| NeighborDel (addr : string)
| NeighborRib (addr : string) (kind : Z) (family : Z * Z)
| NeighborPolicy.
Inductive ChannelAction : Type := ChannelGet (name : string) | ChannelList | ChannelRoute (name : string).
Inductive Command : Type := Global (a : GlobalAction) | Neighbor (a : NeighborAction) | Channel (a : ChannelAction).

Section defs.
Context {I : IpNetApi} {T : TextApi} {R : ProtoApi}.

(** [str_to_attr_any]; [key_value[1]] panics without a [=], and so does a number
    that is none for all but the origin. *)
Definition str_to_attr_any (s : string) : res CliError Any :=
  let key_value := split_on "=" s in
  key ← match key_value with k :: _ => attr_try_from k | [] => Panic end;
  match key_value with
  | _ :: v :: _ =>
      match key with
      | AOrigin =>
          value ← match Attribute.parse_uint 32 v with Some n => Ok n | None => origin_name (lowercase v) end;
          if 2 <? value then Err InvalidOriginValue else Ok (to_any OriginAttribute value)
      | ALocalPref => match Attribute.parse_uint 32 v with Some n => Ok (to_any LocalPrefAttribute n) | None => Panic end
      | AMed => match Attribute.parse_uint 32 v with Some n => Ok (to_any MultiExitDiscAttribute n) | None => Panic end
      end
  | _ => Panic
  end.

(** ** Commands *)

(** What a command has printed, and the channels of the speaker it talks to *)
Record Session : Type := { printed : list string; speaker : ApiServer.Channels }.

Variable E : Env.
Variable A : ApiServer.Env (I := I).
#[local] Abbreviation C := (M Session CliError).

Definition println (s : string) : C unit :=
  modify (fun x => {| printed := printed x ++ [s]; speaker := speaker x |}).

(** [connect_bgp], [connect_fib] *)
Definition connect : C unit := if reachable E then mret tt else panic.

(** A request, with [.map_err(Error::FailedToGetResponse)?] *)
Definition request {B} (m : M ApiServer.Channels ApiServer.Status B) : C B := fun x =>
  match m (speaker x) with
  | (Ok b, c) => (Ok b, {| printed := printed x; speaker := c |})
  | (Err e, c) => (Err (FailedToGetResponse e), {| printed := printed x; speaker := c |})
  | (Panic, c) => (Panic, {| printed := printed x; speaker := c |})
  end.

Definition query {B} (r : res ApiServer.Status B) : C B := lift (res_map_err FailedToGetResponse r).

Definition expect {B} (o : option B) : C B := match o with Some b => mret b | None => throw InvalidRPCResponse end.

Definition print_json (o : option string) : C unit :=
  match o with Some s => println s | None => throw Serialize end.

(** *** [sart bgp global] *)

Definition global_get (format : Output) : C unit :=
  connect ;;
  r ← query (q_info E);
  info ← expect r;
  match format with
  | Json => print_json (json_info E info)
  | Plain =>
      println ("Sartd BGP server is running at " +:+ pretty (ApiServer.bi_port info) +:+ ".") ;;
      println ("  ASN: " +:+ pretty (ApiServer.bi_asn info) +:+ ", Router Id: " +:+ ApiServer.bi_router_id info) ;;
      println ("  Multi Path enabled: " +:+ (if ApiServer.bi_multi_path info then "true" else "false"))
  end.

Definition optionally {B} (o : option B) (f : B -> C unit) : C unit := match o with Some b => f b | None => mret tt end.

Definition global_set (asn : option Z) (router_id : option string) (multi_path : option bool) : C unit :=
  connect ;;
  match asn, router_id, multi_path with
  | None, None, None => throw (MissingArgument "--asn or --router-id or --multi-path")
  | _, _, _ =>
      optionally asn (fun n => request (ApiServer.set_as A n)) ;;
      optionally router_id (fun i => request (ApiServer.set_router_id A i)) ;;
      optionally multi_path (fun b => request (ApiServer.configure_multi_path A b))
  end.

(** [main] reads the router identifier before. *)
Definition main_set (asn : option Z) (router_id : option string) (multi_path : option bool) : C unit :=
  match router_id with
  | Some i => match parse_v4 i with Some _ => global_set asn router_id multi_path | None => panic end
  | None => global_set asn router_id multi_path
  end.

Definition health : C (option unit) := connect ;; request (ApiServer.health A).

(** *** [sart bgp global rib] *)

(** [From<&sart::Path> for Path] *)
Definition path_view (p : PathMessage) : PathView :=
  {| vw_nlri := nlri p; vw_family := family_view <$> pm_family p; vw_origin := pm_origin p; vw_next_hops := pm_next_hops p;
     vw_segments := map segment_view (pm_segments p); vw_local_pref := pm_local_pref p; vw_med := pm_med p;
     vw_peer_asn := pm_peer_asn p; vw_peer_addr := pm_peer_addr p; vw_best := pm_best p;
     vw_timestamp := show_time E <$> pm_timestamp p |}.

Definition segment_text (a : AsSegment) : string :=
  if as_type a =? 2 then debug_list (map pretty (elm a))
  else if as_type a =? 1 then "[" +:+ debug_list (map pretty (elm a)) +:+ "]"
  else "".

(** [From<&sart::Path> for DisplayedPath] *)
Definition displayed_path (p : PathMessage) : DisplayedPath :=
  {| dp_best := pm_best p; dp_prefix := nlri p; dp_next_hop := debug_list (map (debug_str E) (pm_next_hops p));
     dp_as_path := foldl (fun s a => s +:+ segment_text a) "" (pm_segments p) |}.

Definition print_paths (format : Output) (l : list PathMessage) : C unit :=
  match format with
  | Json => print_json (json_paths E (map path_view l))
  | Plain => println (path_table E (map displayed_path l))
  end.

(** [Afi] and [Safi] are numbered as in the messages. *)
Definition rib_get (format : Output) (f : Z * Z) : C unit :=
  connect ;; l ← query (q_path E f); print_paths format l.

(** [str_to_attr_any(a).unwrap()] *)
Definition attr_unwrap (s : string) : C Any := match str_to_attr_any s with Ok a => mret a | _ => panic end.

Definition rib_add (prefixes attributes : list string) : C unit :=
  connect ;;
  l ← for_collect attr_unwrap attributes;
  request (ApiServer.add_path A prefixes l).

Definition rib_del (f : Z * Z) (prefixes : list string) : C unit :=
  connect ;; request (ApiServer.delete_path A (Some f) prefixes).

(** *** [sart bgp neighbor] *)

(** [let _: IpAddr = addr.parse().unwrap()] *)
Definition address (addr : string) : C IpAddr := match parse_addr addr with Some a => mret a | None => panic end.

(** [state(n: u8)] *)
Definition state_name (n : Z) : string :=
  match n with
  | 1 => "IDLE" | 2 => "CONNECT" | 3 => "ACTIVE" | 4 => "OPEN_SENT" | 5 => "OPEN_CONFIRM" | 6 => "ESTABLISHED"
  | _ => "UNKNOWN"
  end.

(** The lines that [get] and [list] share, with their indentation *)
Definition print_peer (indent : string) (uptime : option string) (p : PeerData) : C unit :=
  println (indent +:+ "BGP Neighbor " +:+ pd_address p +:+ ", ") ;;
  println (indent +:+ "  Name " +:+ pd_name p) ;;
  println (indent +:+ "  Remote AS " +:+ pretty (pd_asn p)) ;;
  println (indent +:+ "  Version: 4") ;;
  println (indent +:+ "  Router Id: " +:+ pd_router_id p) ;;
  println (indent +:+ "  State: " +:+ state_name (wrap 8 (pd_state p))) ;;
  optionally uptime (fun u => println (indent +:+ "  Uptime: " +:+ u)) ;;
  println (indent +:+ "  Hold Time: " +:+ pretty (pd_hold_time p) +:+ " seconds") ;;
  println (indent +:+ "  Keep Alive Time: " +:+ pretty (pd_keepalive_time p) +:+ " seconds") ;;
  println "".

Definition counter_line (name : string) (sent received : Z) : C unit :=
  println ("    " +:+ pad_right 12 name +:+ " " +:+ pad_left 8 (pretty sent) +:+ " " +:+ pad_left 8 (pretty received)).

Definition print_counters (s r : MessageCounter) : C unit :=
  println "  Message Statistics:" ;;
  println ("                 " +:+ pad_left 8 "Send" +:+ " " +:+ pad_left 8 "Recv") ;;
  counter_line "Open" (mc_open s) (mc_open r) ;;
  counter_line "Update" (mc_update s) (mc_update r) ;;
  counter_line "Keepalive" (mc_keepalive s) (mc_keepalive r) ;;
  counter_line "Notification" (mc_notification s) (mc_notification r) ;;
  counter_line "RouteRefresh" (mc_route_refresh s) (mc_route_refresh r).

Definition neighbor_get (format : Output) (addr : string) : C unit :=
  connect ;;
  address addr ;;
  r ← query (q_neighbor E addr);
  peer ← expect r;
  match format with
  | Json => v ← lift (peer_view peer); print_json (json_peer E v)
  | Plain =>
      uptime ← expect (pd_uptime peer);
      print_peer "" (Some uptime) peer ;;
      println "  Capabilities" ;;
      println "    Acceptable Address Family:" ;;
      for_each (fun f => println ("      " +:+ debug_family E f)) (pd_families peer) ;;
      match pd_send_counter peer with
      | Some s =>
          match pd_recv_counter peer with
          | Some r => print_counters s r
          | None => throw (MissingArgument "receive counter")
          end
      | None => mret tt
      end
  end.

Definition neighbor_list (format : Output) : C unit :=
  connect ;;
  l ← query (q_neighbors E);
  match format with
  | Json => vs ← for_collect (fun p => lift (peer_view p)) l; print_json (json_peers E vs)
  | Plain => println ("BGP Neighbor List" +:+ String (ascii_of_nat 10) "") ;; for_each (print_peer "  " None) l
  end.

Definition neighbor_add (name : option string) (addr : string) (asn : Z) (passive : bool) : C unit :=
  connect ;;
  a ← address addr;
  request (ApiServer.add_peer A (Some {|
    pr_name := default (pretty asn +:+ "/" +:+ addr) name; pr_asn := asn; pr_address := show_addr a;
    pr_router_id := "0.0.0.0"; pr_passive_open := passive |})).

Definition neighbor_delete (addr : string) : C unit :=
  connect ;; address addr ;; request (ApiServer.delete_peer A addr).

(** [Kind] is [In = 1] or [Out = 2]. *)
Definition neighbor_rib (format : Output) (addr : string) (kind : Z) (f : Z * Z) : C unit :=
  connect ;; address addr ;; l ← query (q_neighbor_path E kind addr f); print_paths format l.

(** *** [sart fib] *)

Definition unknown (n : Z) : string := "Unknown(" +:+ pretty n +:+ ")".

Definition protocol_name (n : Z) : string :=
  match n with
  | 0 => "Unspec" | 1 => "Redirect" | 2 => "Kernel" | 3 => "Boot" | 4 => "Static"
  | 186 => "Bgp" | 187 => "IsIs" | 188 => "Ospf" | 189 => "Rib" | _ => unknown n
  end.

Definition scope_name (n : Z) : string :=
  match n with 0 => "Universe" | 200 => "Site" | 253 => "Link" | 254 => "Host" | 255 => "Nowhere" | _ => unknown n end.

Definition kind_name (n : Z) : string :=
  match n with
  | 0 => "UnspecType" | 1 => "Unicast" | 2 => "Local" | 3 => "Broadcast" | 4 => "Anycast" | 5 => "Multicast"
  | 6 => "Blackhole" | 7 => "Unreachable" | 8 => "Prohibit" | 9 => "Throw" | 10 => "Nat" | _ => unknown n
  end.

(** [From<&Route> for DisplayedRoute] *)
Definition displayed_route (r : RouteData) : DisplayedRoute :=
  {| dr_destination := rt_destination r; dr_next_hops := foldl (fun s g => s +:+ g +:+ " ") "" (rt_gateways r);
     dr_protocol := protocol_name (rt_protocol r); dr_scope := scope_name (rt_scope r); dr_kind := kind_name (rt_type r);
     dr_ad := rt_ad r; dr_priority := rt_priority r |}.

(** JSON is not printed. *)
Definition route_get (format : Output) (name : string) : C unit :=
  connect ;;
  l ← query (q_routes E name);
  match format with Json => mret tt | Plain => println (route_table E (map displayed_route l)) end.

(** One end of a channel; [e] is the error of a type that is not known. *)
Definition print_protocol (e : CliError) (p : ChProtocol) : C unit :=
  println ("    Type: " +:+ cp_type p) ;;
  if String.eqb (cp_type p) "bgp" then println ("    Endpoint: " +:+ cp_endpoint p)
  else if String.eqb (cp_type p) "kernel" then println ("    Tables: " +:+ debug_list (map pretty (cp_tables p)))
  else throw e.

Definition print_ends (ch : ChannelData) : C unit :=
  println "  Subscribers" ;;
  for_each (print_protocol InvalidOriginValue) (ch_subscribers ch) ;;
  println "  Publishers" ;;
  for_each (print_protocol InvalidChannelType) (ch_publishers ch).

Definition channel_get (format : Output) (name : string) : C unit :=
  connect ;;
  r ← query (q_channel E name);
  match format with
  | Json => mret tt
  | Plain =>
      println "Fib manager handling channel" ;;
      optionally r (fun ch => println ("  Name: " +:+ ch_name ch) ;; print_ends ch)
  end.

Definition channel_list (format : Output) : C unit :=
  connect ;;
  l ← query (q_channels E);
  match format with
  | Json => mret tt
  | Plain =>
      println "FIB manager handling channels" ;;
      for_each (fun ch => println ("Name: " +:+ ch_name ch) ;; print_ends ch ;; println "---") l
  end.

(** *** [main] *)

(** [unwrap]: an error ends the program. *)
Definition unwrap {B} (m : C B) : C unit := fun x =>
  match m x with (Ok _, x') => (Ok tt, x') | (_, x') => (Panic, x') end.

Definition run (output : Output) (c : Command) : C unit :=
  match c with
  | Global GlobalGet => unwrap (global_get output)
  | Global (GlobalSet asn router_id multi_path) => unwrap (main_set asn router_id multi_path)
  | Global (GlobalRib _ (RibAdd prefixes attributes)) => unwrap (rib_add prefixes attributes)
  | Global (GlobalRib f RibGet) => unwrap (rib_get output f)
  | Global (GlobalRib f (RibDel prefixes)) => unwrap (rib_del f prefixes)
  | Global GlobalHealth => unwrap health
  | Global GlobalPolicy => panic
  | Neighbor (NeighborAdd name addr asn passive) => unwrap (neighbor_add name addr asn passive)
  | Neighbor (NeighborGet addr) => unwrap (neighbor_get output addr)
  | Neighbor NeighborList => unwrap (neighbor_list output)
  | Neighbor (NeighborDel addr) => unwrap (neighbor_delete addr)
  | Neighbor (NeighborRib addr kind f) => unwrap (neighbor_rib output addr kind f)
  | Neighbor NeighborPolicy => panic
  | Channel (ChannelGet name) => unwrap (channel_get output name)
  | Channel ChannelList => unwrap (channel_list output)
  | Channel (ChannelRoute name) => unwrap (route_get output name)
  end.
End defs.

(** ** What reaches the speaker *)

Section facts.
Context {I : IpNetApi} {T : TextApi} {TL : TextLaws} {R : ProtoApi} {RL : ProtoLaws}.

Lemma parse_digits_range w acc s n : uint w acc -> Attribute.parse_digits w acc s = Some n -> uint w n.
Proof.
  revert acc. induction s as [|c s IH]; intros acc Ha; cbn [Attribute.parse_digits]; [by intros [= <-]|].
  destruct (_ && _) eqn:Hd; [|done]. apply IH. apply andb_prop in Hd as [[H1 H2]%andb_prop H3]. unfold uint in *. lia.
Qed.

Lemma parse_uint_range w s n : 0 <= w -> Attribute.parse_uint w s = Some n -> uint w n.
Proof.
  intros Hw. assert (H0 : uint w 0) by (split; [lia|by apply Z.pow_pos_nonneg]).
  unfold Attribute.parse_uint. destruct s as [|c s]; [done|].
  destruct c as [[] [] [] [] [] [] [] []]; try by apply parse_digits_range. destruct s; [done|]. by apply parse_digits_range.
Qed.

(** What the text of an attribute stands for *)
Inductive means (s : string) : Attribute.Attribute -> Prop :=
| means_origin k v n a : s = k +:+ String "=" v -> free_of "=" k -> free_of "=" v -> lowercase k = "origin"%string ->
    (Attribute.parse_uint 32 v = Some n \/ Attribute.parse_uint 32 v = None /\ origin_name (lowercase v) = Ok n) ->
    Attribute.new_origin n = Ok a -> means s a
| means_local_pref k v n a : s = k +:+ String "=" v -> free_of "=" k -> free_of "=" v -> lowercase k = "local_pref"%string ->
    Attribute.parse_uint 32 v = Some n -> Attribute.new_local_pref n = Ok a -> means s a
| means_med k v n a : s = k +:+ String "=" v -> free_of "=" k -> free_of "=" v ->
    lowercase k = "med"%string \/ lowercase k = "multi_exit_disc"%string ->
    Attribute.parse_uint 32 v = Some n -> Attribute.new_med n = Ok a -> means s a.

Lemma split_pair k v : free_of "=" k -> free_of "=" v -> split_on "=" (k +:+ String "=" v) = [k; v].
Proof. intros Hk Hv. by rewrite split_on_app, split_on_free. Qed.

Lemma origin_range n a : Attribute.new_origin n = Ok a -> 0 <= n <= 2.
Proof.
  unfold Attribute.new_origin. case_bool_decide as H; [|done]. intros _.
  unfold Attribute.ORIGIN_IGP, Attribute.ORIGIN_EGP, Attribute.ORIGIN_INCOMPLETE in H. set_solver by lia.
Qed.

Lemma means_any s a : means s a -> exists x, str_to_attr_any s = Ok x /\ attribute_try_from x = Ok a.
Proof.
  intros [k v n a' -> Hk Hv Hl Hn Ha|k v n a' -> Hk Hv Hl Hn Ha|k v n a' -> Hk Hv Hl Hn Ha];
    unfold str_to_attr_any; rewrite (split_pair k v Hk Hv); unfold mbind, res_bind.
  - assert (attr_try_from k = Ok AOrigin) as -> by (unfold attr_try_from; by rewrite Hl). pose proof (origin_range n a' Ha) as Hr.
    assert ((match Attribute.parse_uint 32 v with Some n => Ok n | None => origin_name (lowercase v) end) = Ok n) as ->
      by (by destruct Hn as [->|[-> ->]]).
    rewrite (proj2 (Z.ltb_ge _ _)) by lia. eexists. split; [done|]. rewrite <- Ha.
    apply (ApiFacts.carried_origin (Attribute.base_new 0 0) n). unfold uint. lia.
  - assert (attr_try_from k = Ok ALocalPref) as -> by (unfold attr_try_from; by rewrite Hl).
    rewrite Hn. eexists. split; [done|]. rewrite <- Ha.
    apply (ApiFacts.carried_local_pref (Attribute.base_new 0 0) n). by eapply parse_uint_range.
  - assert (attr_try_from k = Ok AMed) as -> by (unfold attr_try_from; by destruct Hl as [->| ->]).
    rewrite Hn. eexists. split; [done|]. rewrite <- Ha.
    apply (ApiFacts.carried_med (Attribute.base_new 0 0) n). by eapply parse_uint_range.
Qed.

(** The server of the speaker, after it has handled the events that a command
    has sent *)
Section served.
Context {NI : NetIter} {P : Profile}.
Variable accepts : list Server.Output -> Server.Output -> bool.
Variable manager_iter : gmap IpAddr Peer.PeerInfo -> list (IpAddr * Peer.PeerInfo).
Variable seen : nat -> Fsm.State.

Definition served (x x' : Session) (b : Server.Bgp) : Server.Bgp :=
  foldl (fun b e => AgentApi.handle accepts manager_iter seen e b) b
    (drop (length (ApiServer.events (speaker x))) (ApiServer.events (speaker x'))).

Lemma served_one x x' e b : speaker x' = ApiFacts.sending e (speaker x) ->
  served x x' b = AgentApi.handle accepts manager_iter seen e b.
Proof. intros H. unfold served. rewrite H. cbn [ApiFacts.sending ApiServer.events]. by rewrite drop_app_length. Qed.

(** C31: when the speaker is reachable and its channels are open,
    [sart bgp global rib add] with networks and texts of attributes makes its
    server ask the RIB manager, once, to add the networks with the attributes
    that the texts after [--attr] stand for, whatever family it is given; and
    [sart bgp global rib del] makes it ask the RIB manager, once, to delete the
    networks from the tables of the family the command is given, which need not
    be that of the networks. Both print nothing. *)
Theorem cli_routes_reach_rib (E : Env) (A : ApiServer.Env) (output : Output) (ns : list IpNet) (texts : list string)
  (l : list Attribute.Attribute) (f : Z * Z) (fam : Family.AddressFamily) (x : Session) (b : Server.Bgp) (Hup : reachable E = true)
  (Htakes : forall t e, ApiServer.takes A t e = true) (Haccepts : forall t o, accepts t o = true)
  (Htexts : Forall2 means texts l) (Hfam : ApiServer.family_new f = Ok fam) :
  (exists x', run E A output (Global (GlobalRib f (RibAdd (map show_net ns) texts))) x = (Ok tt, x') /\ printed x' = printed x /\
     Server.trace (served x x' b) = Server.trace b ++ [Server.ToRib (RibManager.AddPath ns l); Server.Notified]) /\
  (exists x', run E A output (Global (GlobalRib f (RibDel (map show_net ns)))) x = (Ok tt, x') /\ printed x' = printed x /\
     Server.trace (served x x' b) = Server.trace b ++ [Server.ToRib (RibManager.DeletePath fam ns); Server.Notified]).
Proof.
  assert (exists anys, for_collect attr_unwrap texts x = (Ok anys, x) /\ Forall2 (fun y a => attribute_try_from y = Ok a) anys l)
    as (anys & Hc & Ha).
  { clear Hup. induction Htexts as [|s a texts l Hs _ (anys & IH & Hl)]; [by exists []|].
    destruct (means_any s a Hs) as (y & Hy & Hya). exists (y :: anys). split; [|by constructor].
    cbn [for_collect]. unfold mbind, M_bind in *. unfold attr_unwrap at 1. rewrite Hy. cbn. by rewrite IH. }
  cbn [run]. unfold unwrap, rib_add, rib_del, connect, mbind, M_bind. rewrite Hup. unfold mret, M_ret, request. split.
  - rewrite Hc, (ApiFacts.add_path_sent A Htakes ns anys l) by done. eexists. split_and!; [reflexivity|done|].
    rewrite (served_one _ _ (Event.CAddPath ns l)) by done. apply (AgentApi.handle_rib _ _ _ _ (ns, RibManager.AddPath ns l)); [done|left; by eexists].
  - rewrite (ApiFacts.delete_path_sent A Htakes f fam ns) by done. eexists. split_and!; [reflexivity|done|].
    rewrite (served_one _ _ (Event.CDeletePath fam ns)) by done. apply (AgentApi.handle_rib _ _ _ _ (ns, RibManager.DeletePath fam ns)); [done|right; by eexists].
Qed.
End served.

(** The names of the states *)
Definition state_text (s : Fsm.State) : string :=
  match s with
  | Fsm.Idle => "Idle" | Fsm.Connect => "Connect" | Fsm.Active => "Active" | Fsm.OpenSent => "OpenSent"
  | Fsm.OpenConfirm => "OpenConfirm" | Fsm.Established => "Established"
  end.

(** JSON has the states Connect and Active the wrong way round. *)
Lemma json_state_swapped (s : Fsm.State) :
  json_state (Fsm.state_code s) = Ok (state_text s) <-> s <> Fsm.Connect /\ s <> Fsm.Active.
Proof. destruct s; cbn; split; try done; naive_solver. Qed.
End facts.

(** ** An example *)

Section witnesses.
#[local] Existing Instances simple_ipnet simple_iter simple_text simple_text_laws ApiFacts.simple_proto ApiFacts.simple_proto_laws debug_profile.

Definition some_env : Env := {|
  reachable := true; q_info := Ok None; q_neighbor _ := Ok None; q_neighbors := Ok []; q_path _ := Ok []; q_neighbor_path _ _ _ := Ok [];
  q_routes _ := Ok []; q_channel _ := Ok None; q_channels := Ok []; show_time _ := ""; debug_family _ := ""; debug_str s := s;
  path_table _ := ""; route_table _ := ""; json_info _ := None; json_peer _ := None; json_peers _ := None; json_paths _ := None |}.
Definition open_api : ApiServer.Env := {|
  ApiServer.takes _ _ := true; ApiServer.arrives _ := []; ApiServer.closed _ := false; ApiServer.notified _ := true;
  ApiServer.net_error _ := ""; ApiServer.debug_net_error _ := ""; ApiServer.debug_error _ := "" |}.
Definition no_session : Session := {| printed := []; speaker := {| ApiServer.events := []; ApiServer.responses := [] |} |}.
Definition a_net : IpNet := NV4 (exist _ (167772160, 24) Logic.I : Net 32).

Lemma cli_routes_reach_rib_witness : exists x',
  run some_env open_api Plain (Global (GlobalRib (1, 1) (RibAdd (map show_net [a_net]) ["ORIGIN=egp"; "med=20"]%string))) no_session = (Ok tt, x') /\
  printed x' = [] /\
  Server.trace (served (fun _ _ => true) map_to_list (fun _ => Fsm.Idle) no_session x' (AgentApi.server AgentApi.idle_speaker)) =
    [Server.ToRib (RibManager.AddPath [a_net]
       [Attribute.Origin (Attribute.base_new Attribute.FLAG_TRANSITIVE Attribute.ORIGIN) 1;
        Attribute.MultiExitDisc (Attribute.base_new Attribute.FLAG_OPTIONAL Attribute.MULTI_EXIT_DISC) 20]); Server.Notified].
Proof.
  refine (proj1 (cli_routes_reach_rib (fun _ _ => true) map_to_list (fun _ => Fsm.Idle) some_env open_api Plain [a_net] ["ORIGIN=egp"; "med=20"]%string
    [Attribute.Origin (Attribute.base_new Attribute.FLAG_TRANSITIVE Attribute.ORIGIN) 1;
     Attribute.MultiExitDisc (Attribute.base_new Attribute.FLAG_OPTIONAL Attribute.MULTI_EXIT_DISC) 20]
    (1, 1) Family.ipv4_unicast no_session (AgentApi.server AgentApi.idle_speaker) eq_refl (fun _ _ => eq_refl) (fun _ _ => eq_refl) _ eq_refl)).
  constructor; [|constructor; [|constructor]].
  - apply (means_origin _ "ORIGIN" "egp" 1); [reflexivity|by repeat split..|reflexivity|right; by split|reflexivity].
  - apply (means_med _ "med" "20" 20); [reflexivity|by repeat split..|by left|reflexivity|reflexivity].
Defined.
End witnesses.
End Cli.
