(* ===== verification/FibApi.v ===== *)
(** * The FIB server as a whole

    The start of [fib/src/server.rs] and [Channel::register] of
    [fib/src/channel.rs], which tie the channels to the poller of the kernel and
    to the interfaces that BGP speakers call; the messages of the kernel as the
    channels receive them; the requests of the manager interface of [server.rs];
    and the requests that a channel publishes, as a speaker serves them. *)

From S2P Require Import Prelude.
From S2P Require Import Net.
From S2P Require Import NetText.
From S2P Require Import BgpFsm.
From S2P Require Import BgpFamily.
From S2P Require Import BgpRib.
From S2P Require Import BgpLocRib.
From S2P Require Import BgpRibManager.
From S2P Require Import BgpEvent.
From S2P Require Import BgpPeer.
From S2P Require Import BgpServer.
From S2P Require Import BgpApi.
From S2P Require Import BgpApiFacts.
From S2P Require Import FibRoute.
From S2P Require Import FibRib.
From S2P Require Import FibKernel.
From S2P Require Import AgentApi.

Module FibApi.
Import FibRoute FibRib.

Lemma bind_no_panic {E A B} (r : res E A) (f : A -> res E B) : r <> Panic -> (forall a, f a <> Panic) -> (a ← r; f a) <> Panic.
Proof. intros Hr Hf. destruct r; [apply Hf|done|done]. Qed.
Lemma bind_inv_res {E A B} (r : res E A) (f : A -> res E B) b : (a ← r; f a) = Ok b -> exists a, r = Ok a /\ f a = Ok b.
Proof. destruct r as [a|e|]; [by exists a|done|done]. Qed.

Section defs.
Context {I : IpNetApi} {NI : NetIter} {T : TextApi} {R : Proto.ProtoApi} {P : Profile}.

(** ** The manager interface *)

(** [sart.v1.ChProtocol] and [sart.v1.Channel] *)
Record ChProtocol : Type := { cp_type : string; cp_endpoint : string; cp_tables : list Z }.
Record ChannelMessage : Type := { cm_name : string; cm_subscribers : list ChProtocol; cm_publishers : list ChProtocol }.

(** [i as i32] of a [u32] *)
Definition as_i32 (i : Z) : Z := if i <? 2 ^ 31 then i else i - 2 ^ 32.

Definition ch_protocol_from (p : Publisher) : ChProtocol :=
  match p with
  | PBgp e => {| cp_type := "bgp"; cp_endpoint := e; cp_tables := [] |}
  | PKernel tables _ => {| cp_type := "kernel"; cp_endpoint := ""; cp_tables := map as_i32 tables |}
  end.

Definition channel_from (c : Channel) : ChannelMessage :=
  {| cm_name := name c; cm_subscribers := map ch_protocol_from (subscribers c);
     cm_publishers := map ch_protocol_from (publishers c) |}.

(** [Config] of [fib/src/config.rs] and [Fib] of [server.rs]: a channel of the
    server and the one its task works on share one table. *)
Record Config : Type := { cf_endpoint : string; cf_channels : list Channel }.
Record Fib : Type := { endpoint : string; channels : list Channel }.

Definition fib_new (c : Config) : Fib := {| endpoint := cf_endpoint c; channels := cf_channels c |}.

Definition find_channel (n : string) (f : Fib) : option Channel :=
  List.find (fun c => bool_decide (name c = n)) (channels f).

Definition get_channel (n : string) (f : Fib) : res ApiServer.Status ChannelMessage :=
  match find_channel n f with
  | Some c => Ok (channel_from c)
  | None => Err (ApiServer.not_found (n +:+ " is not found"))
  end.

Definition list_channel (f : Fib) : list ChannelMessage := map channel_from (channels f).

Definition get_routes (n : string) (f : Fib) : res ApiServer.Status (list PRoute) :=
  match find_channel n f with
  | Some c =>
      match list_routes (rib c) with
      | Some routes => Ok (map route_into routes)
      | None => Ok []
      end
  | None => Err (ApiServer.not_found (n +:+ " channel is not found"))
  end.

(** ** The start *)

(** The poller, the number of the next receiver, and the receivers of the
    interfaces that listen *)
Record Boot : Type := { poller : FibKernel.Poller; next_rx : Z; listeners : list (string * Z) }.

Definition set_poller (p : FibKernel.Poller) (b : Boot) : Boot :=
  {| poller := p; next_rx := next_rx b; listeners := listeners b |}.
Definition listen (e : string) (rx : Z) (b : Boot) : Boot :=
  {| poller := poller b; next_rx := next_rx b; listeners := listeners b ++ [(e, rx)] |}.

Definition new_receiver : M Boot Error Z :=
  b ← get_st;
  put_st {| poller := poller b; next_rx := next_rx b + 1; listeners := listeners b |} ;;
  mret (next_rx b).

Definition subscribe (s : Publisher) : M Boot Error Z :=
  rx ← new_receiver;
  match s with
  | PBgp e => modify (listen e rx)
  | PKernel tables _ => zoom poller set_poller (FibKernel.register_subscriber tables rx)
  end ;;
  mret rx.

Definition set_publishers (l : list Publisher) (c : Channel) : Channel :=
  {| name := name c; ch_version := ch_version c; publishers := l; subscribers := subscribers c; rib := rib c |}.

Definition register (c : Channel) : M Boot Error (Channel * list Z) :=
  receivers ← for_collect subscribe (subscribers c);
  mret (set_publishers (map register_publisher (publishers c)) c, receivers).

(** [KernelRtPoller::new] and the loop of [run] over the channels *)
Definition new_poller : FibKernel.Poller := {| FibKernel.tx_map := ∅; FibKernel.done_ := [] |}.

Definition start_channels (f : Fib) : M Boot Error (list (Channel * list Z)) := for_collect register (channels f).

(** The tasks of the channels with their receivers, and the poller *)
Record World : Type := { w_poller : FibKernel.Poller; tasks : list (Task * list Z); w_listeners : list (string * Z) }.

Definition start (f : Fib) : res Error World :=
  let '(r, b) := start_channels f {| poller := new_poller; next_rx := 0; listeners := [] |} in
  cs ← r;
  Ok {| w_poller := poller b; tasks := map (fun x => ({| ch := x.1; sent := [] |}, x.2)) cs; w_listeners := listeners b |}.

(** ** Turns *)

Variable accepts : Output -> bool.
Variable does : list FibKernel.KOutput -> FibKernel.KOutput -> bool.

(** A task handles a request; a panic ends it, and its receivers are gone. *)
Definition serve (req : RequestType) (route : Route) (x : Task * list Z) : Task * list Z :=
  match handle_request accepts req route x.1 with
  | (Panic, t) => (t, [])
  | (_, t) => (t, x.2)
  end.

(** The task that has the receiver handles the request. *)
Definition deliver (rx : Z) (req : RequestType) (route : Route) (l : list (Task * list Z)) : list (Task * list Z) :=
  map (fun x => if bool_decide (rx ∈ x.2) then serve req route x else x) l.

Definition deliver_output (l : list (Task * list Z)) (o : FibKernel.KOutput) : list (Task * list Z) :=
  match o with FibKernel.ToChannel rx req route => deliver rx req route l | _ => l end.

(** A message of the kernel: [NewRoute] is an addition and [DelRoute] a deletion. *)
Definition kernel_turn (req : RequestType) (m : FibKernel.RouteMessage) (w : World) : World :=
  let p := (FibKernel.kernel_event does req m (w_poller w)).2 in
  {| w_poller := p;
     tasks := foldl deliver_output (tasks w) (drop (length (FibKernel.done_ (w_poller w))) (FibKernel.done_ p));
     w_listeners := w_listeners w |}.

(** What the manager interface sees: the tables are shared with the tasks. *)
Definition view (f : Fib) (w : World) : Fib :=
  {| endpoint := endpoint f; channels := zip_with (fun c t => set_rib (rib (ch t.1)) c) (channels f) (tasks w) |}.

(** ** What is published to a speaker *)

Variable E : ApiServer.Env.

(** The requests of [publish] of [fib/src/bgp.rs], as the interface of the speaker
    serves them *)
Definition speaker_call (o : Output) : option (M ApiServer.Channels ApiServer.Status unit) :=
  match o with
  | ToKernel _ _ => None
  | AddPath _ _ _ prefix => Some (ApiServer.add_path E [show_net prefix] [])
  | DeletePath _ afi safi prefix => Some (ApiServer.delete_path E (Some (afi, safi)) [show_net prefix])
  end.
End defs.

(** ** Who gets the routes of a table *)

Section wiring.
Context {I : IpNetApi} {NI : NetIter} {P : Profile}.

(** The channel subscribes to a table of the kernel. *)
Definition kernel_sub (id : Z) (s : Publisher) : bool :=
  match s with PKernel tables _ => bool_decide (id ∈ tables) | PBgp _ => false end.
Definition subscribes (id : Z) (c : Channel) : Prop := existsb (kernel_sub id) (subscribers c) = true.

(** The receiver of the last of the subscribers that has the table, when they are
    numbered from [n] *)
Fixpoint last_sub (id n : Z) (l : list Publisher) : option Z :=
  match l with
  | [] => None
  | s :: l' => match last_sub id (n + 1) l' with Some k => Some k | None => if kernel_sub id s then Some n else None end
  end.

(** The receivers of the channel at a place *)
Definition offset (cs : list Channel) (j : nat) : Z := Z.of_nat (length (flat_map subscribers (take j cs))).
Definition receivers (cs : list Channel) (j : nat) : list Z :=
  seqZ (offset cs j) (match cs !! j with Some c => Z.of_nat (length (subscribers c)) | None => 0 end).

Definition boot_one (b : Boot) (s : Publisher) : Boot :=
  match s with
  | PBgp e => {| poller := poller b; next_rx := next_rx b + 1; listeners := listeners b ++ [(e, next_rx b)] |}
  | PKernel tables _ =>
      {| poller := {| FibKernel.tx_map := foldl (fun m id => <[id := next_rx b]> m) (FibKernel.tx_map (poller b)) tables;
                      FibKernel.done_ := FibKernel.done_ (poller b) |};
         next_rx := next_rx b + 1; listeners := listeners b |}
  end.

Lemma register_subscriber_run tables rx p : FibKernel.register_subscriber tables rx p =
  (Ok tt, {| FibKernel.tx_map := foldl (fun m id => <[id := rx]> m) (FibKernel.tx_map p) tables; FibKernel.done_ := FibKernel.done_ p |}).
Proof.
  unfold FibKernel.register_subscriber. revert p. induction tables as [|t l IH]; intros p; [by destruct p|].
  cbn [for_each]. rewrite bind_modify. by rewrite IH.
Qed.

Lemma subscribe_run s b : subscribe s b = (Ok (next_rx b), boot_one b s).
Proof.
  unfold subscribe, new_receiver, mbind, M_bind, get_st, put_st, mret, M_ret. cbn. destruct s as [tables tx|e]; [|done].
  unfold zoom. by rewrite register_subscriber_run.
Qed.

Lemma seqZ_S n k : 0 <= k -> seqZ n (1 + k) = n :: seqZ (n + 1) k.
Proof. intros Hk. rewrite seqZ_cons by lia. f_equal; f_equal; lia. Qed.

Lemma next_boot b l : next_rx (foldl boot_one b l) = next_rx b + Z.of_nat (length l).
Proof. revert b. induction l as [|s l IH]; intros b; cbn [foldl length]; [lia|]. rewrite IH. destruct s; cbn; lia. Qed.

Lemma subscribe_all l b : for_collect subscribe l b = (Ok (seqZ (next_rx b) (Z.of_nat (length l))), foldl boot_one b l).
Proof.
  revert b. induction l as [|s l IH]; intros b; [done|]. cbn [for_collect foldl].
  rewrite (bind_ok _ _ _ _ _ (subscribe_run s b)), (bind_ok _ _ _ _ _ (IH (boot_one b s))). unfold mret, M_ret. f_equal. f_equal.
  cbn [length]. rewrite Nat2Z.inj_succ, <- Z.add_1_l, seqZ_S by lia. f_equal. f_equal. by destruct s.
Qed.

(** A channel as it is registered *)
Definition registered (c : Channel) : Channel := set_publishers (map register_publisher (publishers c)) c.

Lemma register_channels cs b : exists l, for_collect register cs b = (Ok l, foldl boot_one b (flat_map subscribers cs)) /\
  length l = length cs /\
  forall j c, cs !! j = Some c -> l !! j = Some (registered c, seqZ (next_rx b + offset cs j) (Z.of_nat (length (subscribers c)))).
Proof.
  revert b. induction cs as [|c cs IH]; intros b; [by exists []|]. cbn [for_collect].
  assert (Hr : register c b = (Ok (registered c, seqZ (next_rx b) (Z.of_nat (length (subscribers c)))), foldl boot_one b (subscribers c))).
  { unfold register. by rewrite (bind_ok _ _ _ _ _ (subscribe_all _ _)). }
  rewrite (bind_ok _ _ _ _ _ Hr). destruct (IH (foldl boot_one b (subscribers c))) as (l & Hl & Hlen & Hat).
  rewrite (bind_ok _ _ _ _ _ Hl). eexists. cbn [flat_map]. rewrite foldl_app. split; [reflexivity|]. split; [cbn; lia|].
  intros [|j] c' Hj; cbn in Hj |- *.
  - injection Hj as <-. by rewrite Z.add_0_r.
  - etrans; [exact (Hat j c' Hj)|]. rewrite next_boot. unfold offset. cbn [take flat_map]. rewrite length_app. do 3 f_equal. lia.
Qed.

Lemma insert_all_lookup (m : gmap Z Z) rx l id :
  foldl (fun m id => <[id := rx]> m) m l !! id = if bool_decide (id ∈ l) then Some rx else m !! id.
Proof.
  revert m. induction l as [|x l IH]; intros m; [by rewrite bool_decide_false by apply not_elem_of_nil|]. cbn [foldl]. rewrite IH.
  destruct (decide (id ∈ l)) as [H|H]; [rewrite !bool_decide_true by (done || by right); done|rewrite bool_decide_false by done].
  destruct (decide (id = x)) as [->|Hx]; [rewrite lookup_insert_eq, bool_decide_true by left; done|].
  rewrite lookup_insert_ne, bool_decide_false by (try rewrite elem_of_cons; naive_solver). done.
Qed.

Lemma tx_map_boot id l b : FibKernel.tx_map (poller (foldl boot_one b l)) !! id =
  match last_sub id (next_rx b) l with Some k => Some k | None => FibKernel.tx_map (poller b) !! id end.
Proof.
  revert b. induction l as [|s l IH]; intros b; [done|]. cbn [foldl last_sub]. rewrite IH.
  replace (next_rx (boot_one b s)) with (next_rx b + 1) by (by destruct s). destruct (last_sub id (next_rx b + 1) l); [done|].
  destruct s as [tables tx|e]; [|done]. cbn [boot_one poller FibKernel.tx_map kernel_sub]. rewrite insert_all_lookup. by destruct (bool_decide _).
Qed.

Lemma last_sub_app id n l1 l2 : last_sub id n (l1 ++ l2) =
  match last_sub id (n + Z.of_nat (length l1)) l2 with Some k => Some k | None => last_sub id n l1 end.
Proof.
  revert n. induction l1 as [|s l1 IH]; intros n; cbn [app last_sub length].
  - rewrite Z.add_0_r. by destruct (last_sub id n l2).
  - rewrite IH. replace (n + Z.of_nat (S (length l1))) with (n + 1 + Z.of_nat (length l1)) by lia. by destruct (last_sub _ _ l2).
Qed.

Lemma last_sub_none id n l : existsb (kernel_sub id) l = false -> last_sub id n l = None.
Proof.
  revert n. induction l as [|s l IH]; intros n; [done|]. cbn [existsb last_sub]. intros [H1 H2]%orb_false_iff. by rewrite (IH _ H2), H1.
Qed.

Lemma last_sub_range id n l : existsb (kernel_sub id) l = true ->
  exists k, last_sub id n l = Some k /\ n <= k < n + Z.of_nat (length l).
Proof.
  revert n. induction l as [|s l IH]; intros n; [done|]. cbn [existsb last_sub length]. intros H.
  destruct (existsb (kernel_sub id) l) eqn:Hl.
  - destruct (IH (n + 1) eq_refl) as (k & -> & Hk). exists k. split; [done|lia].
  - rewrite last_sub_none by done. rewrite orb_false_r in H. rewrite H. exists n. split; [done|lia].
Qed.

Lemma existsb_forallb_none {A} (f : A -> bool) l : (forall x, In x l -> f x = false) -> existsb f l = false.
Proof. induction l as [|x l IH]; [done|]. cbn. intros H. rewrite (H x), IH by auto. done. Qed.

(** The receivers of a channel are its own. *)
Lemma offset_step cs j c : cs !! j = Some c -> offset cs (S j) = offset cs j + Z.of_nat (length (subscribers c)).
Proof.
  intros Hj. unfold offset. rewrite (take_S_r _ _ _ Hj), flat_map_app, length_app. cbn [flat_map]. rewrite app_nil_r. lia.
Qed.

Lemma offset_mono cs i j : (i <= j)%nat -> offset cs i <= offset cs j.
Proof.
  intros Hij. unfold offset. replace j with (i + (j - i))%nat by lia.
  rewrite <- take_take_drop, flat_map_app, length_app. lia.
Qed.

Lemma elem_of_receivers cs j k : k ∈ receivers cs j <-> offset cs j <= k < offset cs (S j) /\ (j < length cs)%nat.
Proof.
  unfold receivers. rewrite elem_of_seqZ. destruct (cs !! j) as [c|] eqn:Hj.
  - rewrite (offset_step _ _ _ Hj). apply lookup_lt_Some in Hj. lia.
  - apply lookup_ge_None in Hj. lia.
Qed.

(** The receiver that gets the messages of a table belongs to the last channel
    that subscribes to the table. *)
Lemma last_channel cs id i c : cs !! i = Some c -> subscribes id c ->
  (forall j c', (i < j)%nat -> cs !! j = Some c' -> ~ subscribes id c') ->
  exists k, last_sub id 0 (flat_map subscribers cs) = Some k /\ k ∈ receivers cs i /\ forall j, k ∈ receivers cs j -> j = i.
Proof.
  intros Hi Hs Hlast. pose proof (take_drop_middle _ _ _ Hi) as Hcs.
  destruct (last_sub_range id (offset cs i) (subscribers c) Hs) as (k & Hk & Hr). exists k.
  assert (Hin : k ∈ receivers cs i).
  { apply elem_of_receivers. rewrite (offset_step _ _ _ Hi). apply lookup_lt_Some in Hi. lia. }
  split_and!; [|done|].
  - rewrite <- Hcs at 1. rewrite flat_map_app, last_sub_app. cbn [flat_map]. rewrite last_sub_app, last_sub_none.
    + change (0 + Z.of_nat (length (flat_map subscribers (take i cs)))) with (offset cs i). by rewrite Hk.
    + apply existsb_forallb_none. intros s (c' & Hc' & Hs')%in_flat_map. apply list_elem_of_In, list_elem_of_lookup in Hc' as [j Hj].
      rewrite lookup_drop in Hj. specialize (Hlast (S i + j)%nat c' ltac:(lia) Hj).
      destruct (kernel_sub id s) eqn:Hks; [|done]. destruct Hlast. apply existsb_exists. by exists s.
  - intros j [Hj _]%elem_of_receivers. apply elem_of_receivers in Hin as [Hin _]. destruct (lt_eq_lt_dec i j) as [[H|H]|H]; [|done|].
    + pose proof (offset_mono cs (S i) j). lia.
    + pose proof (offset_mono cs (S j) i). lia.
Qed.
End wiring.

Section turns.
Context {I : IpNetApi} {NI : NetIter} {P : Profile}.
Variable accepts : Output -> bool.
Variable does : list FibKernel.KOutput -> FibKernel.KOutput -> bool.
Hypothesis does_all : forall t o, does t o = true.

(** A message of the kernel is read or refused. *)
Lemma parse_ipaddr_no_panic l : parse_ipaddr l <> Panic.
Proof. unfold parse_ipaddr. by repeat destruct (_ =? _)%nat. Qed.

Lemma flags_no_panic x : flags_try_from x <> Panic.
Proof. unfold flags_try_from. by repeat case_match. Qed.

Lemma hop_nlas_no_panic l : forall nh, FibKernel.hop_nlas l nh <> Panic.
Proof.
  induction l as [|[] l IH]; intros nh; cbn [FibKernel.hop_nlas]; try apply IH; [done|]. apply bind_no_panic; [apply parse_ipaddr_no_panic|]. intros a. apply IH.
Qed.

Lemma read_hops_no_panic l : FibKernel.read_hops l <> Panic.
Proof.
  induction l as [|h l IH]; [done|]. cbn [FibKernel.read_hops]. apply bind_no_panic; [apply flags_no_panic|]. intros f.
  apply bind_no_panic; [apply hop_nlas_no_panic|]. intros nh. apply bind_no_panic; [done|]. done.
Qed.

Lemma multipath_no_panic l : forall r, FibKernel.multipath_nlas l r <> Panic.
Proof.
  induction l as [|[] l IH]; intros r; cbn [FibKernel.multipath_nlas]; try apply IH; [done|].
  apply bind_no_panic; [apply read_hops_no_panic|]. intros nhs. apply IH.
Qed.

Lemma single_no_panic l : forall r nh, FibKernel.single_nlas l r nh <> Panic.
Proof.
  induction l as [|[] l IH]; intros r nh; cbn [FibKernel.single_nlas]; try apply IH; [done|..];
    (apply bind_no_panic; [apply parse_ipaddr_no_panic|]; intros a; apply IH).
Qed.

Lemma message_no_panic m : FibKernel.message_try_from m <> Panic.
Proof.
  unfold FibKernel.message_try_from. destruct (FibKernel.m_destination m) as [[a len]|]; [|done]. destruct (FibKernel.ipnet_new a len); [|done].
  apply bind_no_panic; [by repeat case_match|]. intros v. cbn zeta. apply bind_no_panic; [unfold scope_try_from; by repeat case_match|].
  intros sc. apply bind_no_panic; [unfold kind_try_from; by repeat case_match|]. intros k.
  destruct (existsb _ _); [apply multipath_no_panic|]. apply bind_no_panic; [apply single_no_panic|]. by intros [].
Qed.

(** What a message of the kernel does *)
Lemma kernel_turn_run req m w : kernel_turn accepts does req m w =
  match FibKernel.tx_map (w_poller w) !! FibKernel.m_table m, FibKernel.message_try_from m with
  | Some rx, Ok route =>
      {| w_poller := FibKernel.extend [FibKernel.ToChannel rx req route] (w_poller w);
         tasks := deliver accepts rx req route (tasks w); w_listeners := w_listeners w |}
  | _, _ => w
  end.
Proof.
  unfold kernel_turn, FibKernel.kernel_event. rewrite bind_get.
  destruct (FibKernel.tx_map (w_poller w) !! FibKernel.m_table m) as [rx|]; [|cbn; rewrite drop_all; by destruct w].
  pose proof (message_no_panic m) as Hp. destruct (FibKernel.message_try_from m) as [route|e|]; [|cbn; rewrite drop_all; by destruct w|done].
  unfold FibKernel.logged. rewrite FibKernel.kemit_ok by done. cbn [snd FibKernel.extend FibKernel.done_]. by rewrite drop_app_length.
Qed.

(** The channels are tied as the start has tied them. *)
Definition wired (cs : list Channel) (w : World) : Prop :=
  (forall id, FibKernel.tx_map (w_poller w) !! id = last_sub id 0 (flat_map subscribers cs)) /\
  forall j x, tasks w !! j = Some x -> (x.2 = [] \/ x.2 = receivers cs j) /\ (j < length cs)%nat.

(** The server after messages of the kernel *)
Definition after (w : World) (l : list (RequestType * FibKernel.RouteMessage)) : World :=
  foldl (fun w x => kernel_turn accepts does x.1 x.2 w) w l.

Lemma deliver_lookup rx req route l j : deliver accepts rx req route l !! j =
  (fun x => if bool_decide (rx ∈ x.2) then serve accepts req route x else x) <$> l !! j.
Proof. unfold deliver. apply list_lookup_fmap. Qed.

Lemma serve_receivers req route x : (serve accepts req route x).2 = [] \/ (serve accepts req route x).2 = x.2.
Proof. unfold serve. destruct (handle_request accepts req route x.1) as [[] t]; auto. Qed.

Lemma wired_turn cs req m w : wired cs w -> wired cs (kernel_turn accepts does req m w).
Proof.
  intros [Htx Hr]. rewrite kernel_turn_run. destruct (FibKernel.tx_map (w_poller w) !! FibKernel.m_table m) as [rx|]; [|by split].
  destruct (FibKernel.message_try_from m) as [route|e|]; [|by split..]. split; [done|]. cbn [tasks]. intros j x.
  rewrite deliver_lookup. destruct (tasks w !! j) as [y|] eqn:Hy; [|done]. intros [= <-]. destruct (Hr j y Hy) as [Hrx Hj]. split; [|done].
  case_bool_decide; [|done]. destruct (serve_receivers req route y) as [->| ->]; auto.
Qed.

Lemma wired_after cs l w : wired cs w -> wired cs (after w l).
Proof. revert w. induction l as [|x l IH]; intros w H; [done|]. apply IH, wired_turn, H. Qed.

Lemma start_wired f : exists w, start f = Ok w /\ wired (channels f) w /\
  forall j c, channels f !! j = Some c -> tasks w !! j = Some ({| ch := registered c; sent := [] |}, receivers (channels f) j).
Proof.
  destruct (register_channels (channels f) {| poller := new_poller; next_rx := 0; listeners := [] |}) as (l & Hl & Hlen & Hat).
  unfold start, start_channels. rewrite Hl. cbn [mbind res_bind]. eexists. split; [reflexivity|].
  assert (Htask : forall j c, channels f !! j = Some c ->
    map (fun x : Channel * list Z => ({| ch := x.1; sent := [] |}, x.2)) l !! j = Some ({| ch := registered c; sent := [] |}, receivers (channels f) j)).
  { intros j c Hj. rewrite list_lookup_fmap, (Hat j c Hj). cbn. unfold receivers. by rewrite Hj. }
  split; [|done]. split.
  - intros id. cbn [w_poller]. rewrite tx_map_boot. cbn [next_rx poller]. destruct (last_sub _ _ _); [done|apply lookup_empty].
  - intros j x Hx. cbn [tasks] in Hx. assert (Hj : (j < length (channels f))%nat).
    { apply lookup_lt_Some in Hx. rewrite length_map in Hx. lia. }
    destruct (lookup_lt_is_Some_2 _ _ Hj) as [c Hc]. rewrite (Htask j c Hc) in Hx. injection Hx as <-. auto.
Qed.

(** A message about a table, for the task of the channel that gets the table *)
Lemma turn_at f id i c w w1 before req m : channels f !! i = Some c -> subscribes id c ->
  (forall j c', (i < j)%nat -> channels f !! j = Some c' -> ~ subscribes id c') ->
  start f = Ok w -> w1 = after w before -> FibKernel.m_table m = id ->
  (forall j, j <> i -> tasks (kernel_turn accepts does req m w1) !! j = tasks w1 !! j) /\
  (forall x route, tasks w1 !! i = Some x -> x.2 <> [] -> FibKernel.message_try_from m = Ok route ->
     tasks (kernel_turn accepts does req m w1) !! i = Some (serve accepts req route x)).
Proof.
  intros Hi Hsub Hlast Hw -> Hm. destruct (start_wired f) as (w' & Hw' & Hwired & _). rewrite Hw in Hw'. injection Hw' as <-.
  destruct (wired_after _ before _ Hwired) as [Htx Hr]. set (w1 := after w before) in *.
  destruct (last_channel _ _ _ _ Hi Hsub Hlast) as (k & Hk & Hin & Honly). rewrite kernel_turn_run, Hm, Htx, Hk. split.
  - intros j Hj. destruct (FibKernel.message_try_from m) as [route|e|]; [|done..]. cbn [tasks]. rewrite deliver_lookup.
    destruct (tasks w1 !! j) as [x|] eqn:Hx; [|done]. cbn. rewrite bool_decide_false; [done|]. intros Hkx.
    destruct (Hr j x Hx) as [[Hn|Hn] _]; rewrite Hn in Hkx; [by apply elem_of_nil in Hkx|]. by apply Hj, Honly.
  - intros x route Hx Hne Hmsg. rewrite Hmsg. cbn [tasks]. rewrite deliver_lookup, Hx. cbn. rewrite bool_decide_true; [done|].
    destruct (Hr i x Hx) as [[Hn|Hn] _]; [done|by rewrite Hn].
Qed.

(** C17: the messages of the kernel about a table go to one channel, the last of the
    configuration that subscribes to it: whatever the kernel has reported before,
    a message about the table leaves the task of every other channel as it was,
    the ones that subscribe to the table included, and the task of that channel
    handles the route it is read as. *)
Theorem last_channel_gets_table (f : Fib) (id : Z) (i : nat) (c : Channel)
  (Hi : channels f !! i = Some c) (Hsub : subscribes id c)
  (Hlast : forall j c', (i < j)%nat -> channels f !! j = Some c' -> ~ subscribes id c') :
  exists w, start f = Ok w /\
    forall before req m, FibKernel.m_table m = id ->
      let w1 := after w before in
      (forall j, j <> i -> tasks (kernel_turn accepts does req m w1) !! j = tasks w1 !! j) /\
      (forall x route, tasks w1 !! i = Some x -> x.2 <> [] -> FibKernel.message_try_from m = Ok route ->
         tasks (kernel_turn accepts does req m w1) !! i = Some (serve accepts req route x)).
Proof.
  destruct (start_wired f) as (w & Hw & _). exists w. split; [done|]. intros before req m Hm w1. by eapply turn_at.
Qed.

(** ** From the kernel to the speaker *)

(** The first route of a destination is published to the speaker, and so is its
    deletion. *)
Lemma publish_first route h e x : (forall o, accepts o = true) -> publishers (ch x.1) = [PBgp e] ->
  version route = ip_version (rib (ch x.1)) -> inner (rib (ch x.1)) !! destination route = None -> next_hops route = [h] ->
  let afi := ip_version_to_afi (version route) in
  let safi := to_safi (kind route) in
  exists t1 t2, serve accepts Add route x = (t1, x.2) /\ sent t1 = sent x.1 ++ [AddPath e afi safi (destination route)] /\
    serve accepts Delete route (t1, x.2) = (t2, x.2) /\ sent t2 = sent t1 ++ [DeletePath e afi safi (destination route)].
Proof.
  intros Hacc Hpub Hv Hnew Hh afi safi.
  assert (Hadd : handle_request accepts Add route x.1 = (Ok tt,
    {| ch := set_rib (set_routes (destination route) [route] (rib (ch x.1))) (ch x.1);
       sent := sent x.1 ++ [AddPath e afi safi (destination route)] |})).
  { unfold handle_request. cbn [apply_request]. unfold register_route, insert. rewrite bool_decide_false by naive_solver.
    rewrite Hnew. cbn [publish_all publishers set_rib]. rewrite Hpub. cbn. rewrite Hacc. done. }
  unfold serve. rewrite Hadd. eexists _, _. split; [reflexivity|]. split; [reflexivity|]. cbn [fst snd].
  match goal with |- context [handle_request _ Delete route ?t] => assert (Hdel : handle_request accepts Delete route t = (Ok tt,
    {| ch := set_rib (set_routes (destination route) [] (rib (ch t))) (ch t);
       sent := sent t ++ [DeletePath e afi safi (destination route)] |})) end.
  { unfold handle_request. cbn [apply_request ch]. unfold remove_route, get, remove. cbn [rib set_rib inner set_routes ip_version].
    rewrite lookup_insert_eq. rewrite bool_decide_false by naive_solver. cbn [position]. unfold same_gateways. rewrite Hh. cbn.
    rewrite bool_decide_true by done. cbn. rewrite Hpub. cbn. rewrite Hacc. done. }
  rewrite Hdel. split; reflexivity.
Qed.
End turns.

Section speaker.
Context {I : IpNetApi} {NI : NetIter} {T : TextApi} {TL : TextLaws} {R : Proto.ProtoApi} {P : Profile}.
Variable E : ApiServer.Env.
Hypothesis Htakes : forall t e, ApiServer.takes E t e = true.
Variable accepts : Output -> bool.
Variable does : list FibKernel.KOutput -> FibKernel.KOutput -> bool.
Hypothesis accepts_all : forall o, accepts o = true.
Hypothesis does_all : forall t o, does t o = true.

(** A request that a channel publishes, at the speaker *)
Lemma published_call (n : IpNet) e (v : IpVersion) s saccepts manager_iter seen : (forall t o, saccepts t o = true) ->
  v = (match n with NV4 _ => V4 | NV6 _ => V6 end) ->
  (exists req s', speaker_call E (AddPath e (ip_version_to_afi v) 1 n) = Some req /\
     AgentApi.rpc saccepts manager_iter seen req s = (Ok tt, s') /\
     Server.trace (AgentApi.server s') = Server.trace (AgentApi.server s) ++ [Server.ToRib (RibManager.AddPath [n] []); Server.Notified]) /\
  (exists req s', speaker_call E (DeletePath e (ip_version_to_afi v) 1 n) = Some req /\
     AgentApi.rpc saccepts manager_iter seen req s = (Ok tt, s') /\
     Server.trace (AgentApi.server s') = Server.trace (AgentApi.server s) ++
       [Server.ToRib (RibManager.DeletePath (AgentApi.net_family n) [n]); Server.Notified]).
Proof.
  intros Ha ->. split; eexists _, _; (split; [reflexivity|]); (split; [apply AgentApi.rpc_sent|]).
  - apply (ApiFacts.add_path_sent E Htakes [n] [] []). constructor.
  - cbn [AgentApi.server]. apply (AgentApi.handle_rib _ _ _ _ ([n], RibManager.AddPath [n] [])); [done|left; by eexists].
  - apply (ApiFacts.delete_path_sent E Htakes _ (AgentApi.net_family n) [n]). by destruct n.
  - cbn [AgentApi.server]. apply (AgentApi.handle_rib _ _ _ _ ([n], RibManager.DeletePath (AgentApi.net_family n) [n])); [done|right; by eexists].
Qed.

(** C32: a route that appears in a table of the kernel reaches the RIB of the
    speaker, and so does its removal, for the last channel that subscribes to
    the table, when the speaker is its only publisher, its task is alive and
    every request is accepted. A new unicast route with one next hop, of the
    version of the channel's table (which is IPv4, [ipv6_route_ignored]) and of
    its destination, to a destination that the table of the channel does not
    have, makes it ask the speaker for the path and, when the kernel reports its
    deletion next, for the deletion of the path; the speaker accepts both, and
    its server asks the RIB manager to add the destination and to delete it from
    the tables of its family. *)
Theorem kernel_routes_reach_speaker (f : Fib) (id : Z) (i : nat) (c : Channel) (w : World) (x : Task * list Z) (e : string)
  (before : list (RequestType * FibKernel.RouteMessage)) (m m' : FibKernel.RouteMessage) (route : Route) (h : NextHop)
  (saccepts : list Server.Output -> Server.Output -> bool)
  (manager_iter : gmap IpAddr Peer.PeerInfo -> list (IpAddr * Peer.PeerInfo)) (seen : nat -> Fsm.State) (s : AgentApi.Speaker)
  (Hsaccepts : forall t o, saccepts t o = true)
  (Hi : channels f !! i = Some c) (Hsub : subscribes id c)
  (Hlast : forall j c', (i < j)%nat -> channels f !! j = Some c' -> ~ subscribes id c')
  (Hstart : start f = Ok w) (Hx : tasks (after accepts does w before) !! i = Some x) (Hlive : x.2 <> [])
  (Hpub : publishers (ch x.1) = [PBgp e]) (Hnew : inner (rib (ch x.1)) !! destination route = None)
  (Hm : FibKernel.m_table m = id) (Hread : FibKernel.message_try_from m = Ok route)
  (Hm' : FibKernel.m_table m' = id) (Hread' : FibKernel.message_try_from m' = Ok route)
  (Hv : version route = ip_version (rib (ch x.1)))
  (Hdest : version route = match destination route with NV4 _ => V4 | NV6 _ => V6 end)
  (Hkind : kind route = Unicast) (Hhop : next_hops route = [h]) :
  exists t add del req_add req_del s1 s2,
    tasks (kernel_turn accepts does Delete m' (kernel_turn accepts does Add m (after accepts does w before))) !! i = Some (t, x.2) /\
    sent t = sent x.1 ++ [add; del] /\
    speaker_call E add = Some req_add /\ AgentApi.rpc saccepts manager_iter seen req_add s = (Ok tt, s1) /\
    speaker_call E del = Some req_del /\ AgentApi.rpc saccepts manager_iter seen req_del s1 = (Ok tt, s2) /\
    Server.trace (AgentApi.server s2) = Server.trace (AgentApi.server s) ++
      [Server.ToRib (RibManager.AddPath [destination route] []); Server.Notified;
       Server.ToRib (RibManager.DeletePath (AgentApi.net_family (destination route)) [destination route]); Server.Notified].
Proof.
  destruct (publish_first accepts route h e x accepts_all Hpub Hv Hnew Hhop) as (t1 & t2 & Hs1 & Hsent1 & Hs2 & Hsent2).
  destruct (turn_at accepts does does_all f id i c w _ before Add m Hi Hsub Hlast Hstart eq_refl Hm) as [_ Hturn].
  specialize (Hturn x route Hx Hlive Hread). rewrite Hs1 in Hturn.
  destruct (turn_at accepts does does_all f id i c w _ (before ++ [(Add, m)]) Delete m' Hi Hsub Hlast Hstart eq_refl Hm') as [_ Hturn'].
  unfold after in Hturn'. rewrite foldl_app in Hturn'. specialize (Hturn' _ route Hturn Hlive Hread'). rewrite Hs2 in Hturn'.
  rewrite Hkind in Hsent1, Hsent2. cbn [to_safi] in Hsent1, Hsent2.
  destruct (proj1 (published_call (destination route) e (version route) s saccepts manager_iter seen Hsaccepts Hdest)) as (ra & s1 & Hra & Hrpc1 & Htr1).
  destruct (proj2 (published_call (destination route) e (version route) s1 saccepts manager_iter seen Hsaccepts Hdest)) as (rd & s2 & Hrd & Hrpc2 & Htr2).
  exists t2. eexists _, _, ra, rd, s1, s2. split; [exact Hturn'|]. split; [by rewrite Hsent2, Hsent1, <- app_assoc|].
  split_and!; try done. by rewrite Htr2, Htr1, <- app_assoc.
Qed.
End speaker.

(** ** What the manager interface reports *)

Section typing.
Context {I : IpNetApi} {NI : NetIter} {NL : NetIterLaws} {T : TextApi} {TL : TextLaws} {P : Profile}.
Variable accepts : Output -> bool.

(** The header of a message of the kernel has bytes. *)
Definition bytes_message (m : FibKernel.RouteMessage) : Prop := uint 8 (FibKernel.m_protocol m) /\ uint 8 (FibKernel.m_table m).

(** The requests that reach a channel: from a speaker, or from the kernel *)
Inductive arrives : RequestType -> Route -> Prop :=
| from_add p req route : sub_add_route p = Ok (req, route) -> arrives req route
| from_delete v d req route : sub_delete_route v d = Ok (req, route) -> arrives req route
| from_add_multi p req route : sub_add_multi_path_route p = Ok (req, route) -> arrives req route
| from_delete_multi v d gws req route : sub_delete_multi_path_route v d gws = Ok (req, route) -> arrives req route
| from_kernel req m route : bytes_message m -> FibKernel.message_try_from m = Ok route -> arrives req route.

(** The task of a channel that starts with an empty table *)
Inductive task_runs (c : Channel) : Task -> Prop :=
| task_new v : rib c = new v -> task_runs c {| ch := c; sent := [] |}
| task_request req route tk r tk' : task_runs c tk -> arrives req route ->
    handle_request accepts req route tk = (r, tk') -> task_runs c tk'.

Lemma protocol_from_code v : uint 8 v -> protocol_code (protocol_from v) = v.
Proof. intros _. unfold protocol_from. by repeat case_match; subst. Qed.

Lemma protocol_from_ok v : uint 8 v -> protocol_ok (protocol_from v).
Proof. intros Hv. split; by rewrite protocol_from_code. Qed.

Lemma route_try_from_ok p route : route_try_from p = Ok route -> route_ok route.
Proof.
  unfold route_try_from. destruct (parse_net _); [|done]. intros H.
  apply bind_inv_res in H as (v & _ & H). apply bind_inv_res in H as (hs & _ & H). apply bind_inv_res in H as (sc & _ & H).
  apply bind_inv_res in H as (k & _ & H). apply bind_inv_res in H as (a & _ & H). injection H as <-.
  split; cbn; [apply protocol_from_ok|]; apply wrap_uint; lia.
Qed.

Lemma multipath_nlas_fields l : forall r r', FibKernel.multipath_nlas l r = Ok r' -> protocol r' = protocol r /\ table r' = table r.
Proof.
  induction l as [|[] l IH]; intros r r' H; cbn [FibKernel.multipath_nlas] in H; try (by apply IH in H); [by injection H as <-|].
  apply bind_inv_res in H as (nhs & _ & H). by apply IH in H.
Qed.

Lemma single_nlas_fields l : forall r nh r' nh', FibKernel.single_nlas l r nh = Ok (r', nh') -> protocol r' = protocol r /\ table r' = table r.
Proof.
  induction l as [|[] l IH]; intros r nh r' nh' H; cbn [FibKernel.single_nlas] in H; try (by apply IH in H); [by injection H as <- <-|..];
    (apply bind_inv_res in H as (a & _ & H); by apply IH in H).
Qed.

Lemma message_ok m route : bytes_message m -> FibKernel.message_try_from m = Ok route -> route_ok route.
Proof.
  intros [Hp Ht] H. unfold FibKernel.message_try_from in H. destruct (FibKernel.m_destination m) as [[a len]|]; [|done].
  destruct (FibKernel.ipnet_new a len); [|done]. apply bind_inv_res in H as (v & _ & H). cbn zeta in H.
  apply bind_inv_res in H as (sc & _ & H). apply bind_inv_res in H as (k & _ & H).
  assert (Hok : forall r', protocol r' = protocol_from (FibKernel.m_protocol m) -> table r' = FibKernel.m_table m -> route_ok r').
  { intros r' Hr Ht'. split; [rewrite Hr; by apply protocol_from_ok|by rewrite Ht']. }
  destruct (existsb _ _); [apply multipath_nlas_fields in H as [H1 H2]; by apply Hok|].
  apply bind_inv_res in H as ([r' nh] & H & Hr). apply single_nlas_fields in H as [H1 H2]. injection Hr as <-. by apply Hok.
Qed.

Lemma arrives_ok req route : arrives req route -> route_ok route.
Proof.
  assert (Hd : forall d v, route_ok (default_route d v)) by (intros d v; repeat split; done || lia).
  intros [p req' r H|v d req' r H|p req' r H|v d gws req' r H|req' m r Hm H].
  - unfold sub_add_route in H. destruct p as [p|]; [|done]. destruct (route_try_from p) eqn:Hp; [|done..]. injection H as _ <-. by eapply route_try_from_ok.
  - unfold sub_delete_route in H. destruct (ip_version_from v); [|done..]. destruct (parse_net d); [|done]. by injection H as _ <-.
  - unfold sub_add_multi_path_route in H. destruct p as [p|]; [|done]. destruct (route_try_from p) eqn:Hp; [|done..]. injection H as _ <-. by eapply route_try_from_ok.
  - unfold sub_delete_multi_path_route in H. destruct (ip_version_from v); [|done..]. destruct (parse_net d); [|done].
    destruct (parse_gateways gws); [|done]. injection H as _ <-. apply Hd.
  - by eapply message_ok.
Qed.

(** Every route of a table is well typed. *)
Definition table_ok (r : Rib) : Prop := forall d l, inner r !! d = Some l -> Forall route_ok l.

Lemma table_ok_set d l r : table_ok r -> Forall route_ok l -> table_ok (set_routes d l r).
Proof.
  intros Hr Hl d' l'. cbn. destruct (decide (d = d')) as [<-|Hd]; [rewrite lookup_insert_eq; by intros [= <-]|].
  rewrite lookup_insert_ne by done. apply Hr.
Qed.

Lemma put_route_ok route l : route_ok route -> Forall route_ok l -> Forall route_ok (put_route route l).
Proof.
  intros Hr Hl. induction Hl as [|x l Hx Hl IH]; cbn; [by constructor|]. case_bool_decide; by constructor.
Qed.

Lemma register_ok route c : route_ok route -> table_ok (rib c) -> table_ok (rib (register_route route c).2).
Proof.
  intros Hr Ht. unfold register_route, insert. case_bool_decide; [done|].
  assert (H1 : Forall route_ok [route]) by (by constructor).
  destruct (inner (rib c) !! destination route) as [[|old l]|] eqn:Hl; [by apply table_ok_set| |by apply table_ok_set].
  cbn [snd rib set_rib]. apply table_ok_set; [done|]. rewrite sort_perm. apply put_route_ok; [done|]. by apply (Ht _ _ Hl).
Qed.

Lemma remove_route_ok route c : table_ok (rib c) -> table_ok (rib (remove_route route c).2).
Proof.
  intros Ht. unfold remove_route, get. destruct (inner (rib c) !! destination route) as [[|r l]|] eqn:Hl; [done| |done].
  unfold remove. case_bool_decide; [done|]. rewrite Hl. destruct (position _ _ _) as [[i|]|e|]; [|done..].
  destruct ((r :: l) !! i); [|done]. cbn [snd rib set_rib]. apply table_ok_set; [done|]. apply Forall_delete. by apply (Ht _ _ Hl).
Qed.

Lemma merged_ok (op : Route -> Route -> res Error Route) c d p route old m : (forall r other r', op r other = Ok r' -> protocol r' = protocol r /\ table r' = table r) ->
  table_ok (rib c) -> get_route d p c = Some old -> op old route = Ok m -> route_ok m.
Proof.
  intros Hop Ht Hg Hm. unfold get_route, get in Hg. destruct (inner (rib c) !! d) as [l|] eqn:Hl; [|done].
  apply find_some in Hg as [Hin _]. apply list_elem_of_In in Hin. apply (proj1 (Forall_forall _ _) (Ht _ _ Hl)) in Hin as [H1 H2].
  destruct (Hop _ _ _ Hm) as [Hp Htb]. split; [by rewrite Hp|by rewrite Htb].
Qed.

Lemma request_ok req route c : route_ok route -> table_ok (rib c) -> table_ok (rib (apply_request req route c).2).
Proof.
  intros Hr Ht. pose proof (remove_route_ok route c Ht) as Hrem.
  assert (Hmerge : forall r other r', merge_multipath r other = Ok r' -> protocol r' = protocol r /\ table r' = table r).
  { unfold merge_multipath. intros r other r'. destruct (negb _); [done|]. by intros [= <-]. }
  assert (Hpop : forall r other r', pop_multipath r other = Ok r' -> protocol r' = protocol r /\ table r' = table r).
  { unfold pop_multipath. intros r other r'. destruct (negb _); [done|]. by intros [= <-]. }
  assert (Hreg' : forall m, route_ok m -> table_ok (rib (let '(x, c') := register_route m c in (Ok (Some x) : res Error _, c')).2)).
  { intros m Hm. pose proof (register_ok m c Hm Ht) as H. by destruct (register_route m c). }
  assert (Hrem' : table_ok (rib (let '(x, c') := remove_route route c in (x ← x; Ok (Some x), c')).2)) by (by destruct (remove_route route c)).
  destruct req; cbn [apply_request]; [by apply Hreg'|exact Hrem'|by apply Hreg'|..];
    (destruct (get_route _ _ c) as [old|] eqn:Hg; [|done || by apply Hreg']).
  - destruct (merge_multipath old route) as [m|e|] eqn:Hm; [|done|done]. apply Hreg'.
    exact (merged_ok merge_multipath _ _ _ _ _ _ Hmerge Ht Hg Hm).
  - destruct (pop_multipath old route) as [m|e|] eqn:Hm; [|done|done]. apply Hreg'.
    exact (merged_ok pop_multipath _ _ _ _ _ _ Hpop Ht Hg Hm).
Qed.

Lemma task_runs_ok c tk : task_runs c tk -> table_ok (rib (ch tk)).
Proof.
  induction 1 as [v Hv|req route tk r tk' _ IH Harr H]; [cbn; rewrite Hv; by intros d l|].
  pose proof (request_ok req route (ch tk) (arrives_ok _ _ Harr) IH) as Hok. unfold handle_request in H.
  destruct (apply_request req route (ch tk)) as [[[x|]|e|] c']; by injection H as <- <-.
Qed.

Lemma list_routes_elem r x : x ∈ default [] (list_routes r) <-> exists d l, inner r !! d = Some l /\ x ∈ l.
Proof.
  assert (Hflat : x ∈ default [] (list_routes r) <-> x ∈ flat_map snd (net_iter (inner r))).
  { unfold list_routes. by destruct (net_iter (inner r)). }
  rewrite Hflat, list_elem_of_In, in_flat_map. split.
  - intros ([d l] & Hdl & Hx). exists d, l. apply list_elem_of_In in Hdl. split; [|by apply list_elem_of_In].
    apply elem_of_map_to_list. by rewrite <- net_iter_perm.
  - intros (d & l & Hdl & Hx). exists (d, l). split; [|by apply list_elem_of_In].
    apply list_elem_of_In. by rewrite net_iter_perm, elem_of_map_to_list.
Qed.

(** C37: what the manager interface reports of a channel is its table, and the reader of
    the answer reads it back: whatever requests speakers and the kernel have sent,
    the answer for the first channel of a name has exactly the routes of its table,
    every one of which is well typed (its protocol and its table are bytes, and a
    protocol that has a name is not a number), and each message of the answer is
    read as its route. *)
Theorem reported_routes_read_back (f : Fib) (w : World) (i : nat) (c c0 : Channel) (x : Task * list Z)
  (Hi : channels f !! i = Some c) (Hx : tasks w !! i = Some x) (Hrun : task_runs c0 x.1)
  (Hfirst : forall j c', (j < i)%nat -> channels f !! j = Some c' -> name c' <> name c) :
  exists answer routes, get_routes (name c) (view f w) = Ok answer /\
    map route_try_from answer = map Ok routes /\ Forall route_ok routes /\
    forall r, r ∈ routes <-> exists d l, inner (rib (ch x.1)) !! d = Some l /\ r ∈ l.
Proof.
  assert (Hfind : find_channel (name c) (view f w) = Some (set_rib (rib (ch x.1)) c)).
  { unfold find_channel, view. cbn [channels]. generalize (tasks w) Hx. clear Hx. revert i Hi Hfirst.
    induction (channels f) as [|c1 cs IH]; intros i Hi Hfirst l Hx; [done|]. destruct l as [|t l]; [by destruct i|]. cbn [zip_with List.find].
    destruct i as [|i]; cbn in Hi, Hx.
    - injection Hi as ->. injection Hx as ->. cbn. by rewrite bool_decide_true.
    - cbn. rewrite bool_decide_false by (by apply (Hfirst 0%nat); [lia|]). apply (IH i); [done| |done].
      intros j c' Hj Hc'. apply (Hfirst (S j)); [lia|done]. }
  assert (Hok : Forall route_ok (default [] (list_routes (rib (ch x.1))))).
  { apply Forall_forall. intros r (d & l & Hl & Hr)%list_routes_elem. by apply (proj1 (Forall_forall _ _) (task_runs_ok _ _ Hrun _ _ Hl)). }
  exists (map route_into (default [] (list_routes (rib (ch x.1))))), (default [] (list_routes (rib (ch x.1)))). split_and!.
  - unfold get_routes. rewrite Hfind. cbn [rib set_rib]. by destruct (list_routes _).
  - rewrite map_map. apply map_ext_in. intros r Hr. apply route_message_roundtrip, (proj1 (Forall_forall _ _) Hok). by apply list_elem_of_In.
  - exact Hok.
  - apply list_routes_elem.
Qed.
End typing.

(** ** Examples *)

Section witnesses.
#[local] Existing Instances simple_ipnet simple_ipnet_laws simple_iter simple_text simple_text_laws ApiFacts.simple_proto debug_profile.

(** Two channels that subscribe to the main table and publish to two speakers *)
Definition w_channel (n e : string) : Channel :=
  {| name := n; ch_version := "ipv4"; publishers := [PBgp e]; subscribers := [PKernel [254] false]; rib := default_rib |}.
Definition w_fib : Fib := fib_new {| cf_endpoint := "127.0.0.1:5001"; cf_channels := [w_channel "a" "10.0.0.1:5000"; w_channel "b" "10.0.0.2:5000"] |}.
Definition w_route : Route := match FibKernel.message_try_from FibKernel.message_ex with Ok r => r | _ => bgp_route EBGP 2 end.

Lemma w_read : FibKernel.message_try_from FibKernel.message_ex = Ok w_route.
Proof. reflexivity. Qed.

Lemma w_last j c : (1 < j)%nat -> channels w_fib !! j = Some c -> ~ subscribes 254 c.
Proof. intros Hj Hc. apply lookup_lt_Some in Hc. cbn in Hc. lia. Qed.

(** The first channel keeps its task when the kernel reports a route of the table
    it subscribes to; the second one publishes it. *)
Lemma last_channel_gets_table_witness : exists w, start w_fib = Ok w /\
  tasks (kernel_turn (fun _ => true) (fun _ _ => true) Add FibKernel.message_ex w) !! 0%nat = tasks w !! 0%nat /\
  subscribes 254 (w_channel "a" "10.0.0.1:5000").
Proof.
  destruct (last_channel_gets_table (fun _ => true) (fun _ _ => true) (fun _ _ => eq_refl) w_fib 254 1 (w_channel "b" "10.0.0.2:5000")
    eq_refl eq_refl w_last) as (w & Hw & H).
  exists w. split; [exact Hw|]. split; [|reflexivity].
  exact (proj1 (H [] Add FibKernel.message_ex eq_refl) 0%nat ltac:(lia)).
Defined.

Lemma kernel_routes_reach_speaker_witness : exists w t add del req_add req_del s1 s2,
  start w_fib = Ok w /\
  tasks (kernel_turn (fun _ => true) (fun _ _ => true) Delete FibKernel.message_ex
    (kernel_turn (fun _ => true) (fun _ _ => true) Add FibKernel.message_ex w)) !! 1%nat = Some (t, receivers (channels w_fib) 1) /\
  sent t = [add; del] /\
  speaker_call AgentApi.open_env add = Some req_add /\
  AgentApi.rpc (fun _ _ => true) map_to_list (fun _ => Fsm.Idle) req_add AgentApi.idle_speaker = (Ok tt, s1) /\
  speaker_call AgentApi.open_env del = Some req_del /\
  AgentApi.rpc (fun _ _ => true) map_to_list (fun _ => Fsm.Idle) req_del s1 = (Ok tt, s2) /\
  Server.trace (AgentApi.server s2) =
    [Server.ToRib (RibManager.AddPath [destination w_route] []); Server.Notified;
     Server.ToRib (RibManager.DeletePath (AgentApi.net_family (destination w_route)) [destination w_route]); Server.Notified].
Proof.
  destruct (start_wired w_fib) as (w & Hw & _ & Htask). exists w.
  destruct (kernel_routes_reach_speaker AgentApi.open_env (fun _ _ => eq_refl) (fun _ => true) (fun _ _ => true) (fun _ => eq_refl)
    (fun _ _ => eq_refl) w_fib 254 1 (w_channel "b" "10.0.0.2:5000") w _ "10.0.0.2:5000" [] FibKernel.message_ex FibKernel.message_ex
    w_route {| gateway := AV4 2; weight := 0; flags := Empty; interface := 0 |}
    (fun _ _ => true) map_to_list (fun _ => Fsm.Idle) AgentApi.idle_speaker (fun _ _ => eq_refl) eq_refl eq_refl w_last Hw
    (Htask 1%nat (w_channel "b" "10.0.0.2:5000") eq_refl)) as (t & add & del & ra & rd & s1 & s2 & H).
  - discriminate.
  - reflexivity.
  - apply lookup_empty.
  - reflexivity.
  - exact w_read.
  - reflexivity.
  - exact w_read.
  - reflexivity.
  - reflexivity.
  - reflexivity.
  - reflexivity.
  - exists t, add, del, ra, rd, s1, s2. split; [exact Hw|exact H].
Defined.

(** The second channel after the route of the kernel *)
Definition w_task : Task := (handle_request (fun _ => true) Add w_route {| ch := w_channel "b" "10.0.0.2:5000"; sent := [] |}).2.
Definition w_world : World := {| w_poller := new_poller; tasks := [({| ch := w_channel "a" "10.0.0.1:5000"; sent := [] |}, [0]); (w_task, [1])]; w_listeners := [] |}.

Lemma w_task_runs : task_runs (fun _ => true) (w_channel "b" "10.0.0.2:5000") w_task.
Proof.
  apply (task_request _ _ Add w_route {| ch := w_channel "b" "10.0.0.2:5000"; sent := [] |} (Ok tt)).
  - by apply (task_new _ _ V4).
  - apply (from_kernel _ FibKernel.message_ex); [split; split; cbn; lia|exact w_read].
  - reflexivity.
Qed.

Lemma w_routes : inner (rib (ch w_task)) !! destination w_route = Some [w_route].
Proof. reflexivity. Qed.

Lemma reported_routes_read_back_witness : exists answer routes, get_routes "b" (view w_fib w_world) = Ok answer /\
  map route_try_from answer = map Ok routes /\ w_route ∈ routes.
Proof.
  pose proof simple_iter_laws as HL.
  destruct (reported_routes_read_back (fun _ => true) w_fib w_world 1 (w_channel "b" "10.0.0.2:5000") (w_channel "b" "10.0.0.2:5000") (w_task, [1])
    eq_refl eq_refl w_task_runs) as (answer & routes & H1 & H2 & _ & H3).
  - intros [|j] c' Hj Hc'; [|lia]. cbn in Hc'. by injection Hc' as <-.
  - exists answer, routes. split; [exact H1|]. split; [exact H2|]. apply H3. eexists _, _. split; [exact w_routes|]. by left.
Defined.
End witnesses.
End FibApi.
