(* ===== verification/AdvertWorld.v ===== *)
(** * An advertisement

    What becomes of an advertisement while the watcher of endpoint slices, the
    controllers of blocks, nodes and peers, the watcher of the sessions, the agents
    of the nodes and the controller that deletes it work on it: it is deleted only
    when no speaker announces its prefix, unless a peer was taken from it while its
    node announced it, and the deletion comes to an end. *)

From S2P Require Import Prelude.
From S2P Require Import Net.
From S2P Require Import NetText.
From S2P Require Import KubeApi.
From S2P Require Import KubeService.
From S2P Require Import KubeBgpApi.
From S2P Require Import KubeAdvertise.
From S2P Require Import AgentBlock.
From S2P Require Import AgentBgp.
From S2P Require Import AgentBgpFacts.

Module AdvertWorld.
Import Kube BgpCrd AdvertOut.

#[local] Abbreviation Peers := (gmap string AdvertiseStatus).

(** ** The peers of an advertisement *)

Definition peer_map (ba : BGPAdvertisement) : Peers := default ∅ (peers_of ba).

Lemma peer_map_with m ba : peer_map (with_peers m ba) = m.
Proof. reflexivity. Qed.

(** What the status of a peer is to be: the targets are told unless they have been,
    the others are withdrawn from. *)
Definition desired (peers : Peers) (targets : list string) (k : string) : option AdvertiseStatus :=
  if decide (k ∈ targets) then Some (if decide (peers !! k = Some Advertised) then Advertised else NotAdvertised)
  else (fun _ => Withdraw) <$> peers !! k.

Lemma sync_targets_spec targets acc k :
  (foldl EndpointWatcher.sync_target acc targets).1 !! k =
    if decide (k ∈ targets) then Some (if decide (acc.1 !! k = Some Advertised) then Advertised else NotAdvertised) else acc.1 !! k.
Proof.
  revert acc. induction targets as [|t targets IH]; intros [m u]; [done|]. cbn [foldl]. rewrite IH. clear IH.
  assert (Hm : (EndpointWatcher.sync_target (m, u) t).1 !! k =
    if decide (k = t) then Some (if decide (m !! k = Some Advertised) then Advertised else NotAdvertised) else m !! k).
  { unfold EndpointWatcher.sync_target. cbn. destruct (decide (k = t)) as [->|Hne].
    - destruct (m !! t) as [s|] eqn:Ht; [destruct s; cbn; simplify_map_eq; done|]. cbn. simplify_map_eq. done.
    - destruct (m !! t) as [s|]; [case_decide|]; cbn; by simplify_map_eq. }
  rewrite Hm. cbn [fst]. destruct (decide (k = t)) as [->|Hne].
  - rewrite (decide_True (P := t ∈ t :: targets)) by set_solver. destruct (decide (t ∈ targets)); [|done].
    by destruct (decide (m !! t = Some Advertised)).
  - destruct (decide (k ∈ targets)); [rewrite (decide_True (P := k ∈ t :: targets)) by set_solver|rewrite (decide_False (P := k ∈ t :: targets)) by set_solver]; done.
Qed.

(** A target that is not there, or is to be withdrawn from *)
Definition untold (m : Peers) (k : string) : Prop := m !! k = None \/ m !! k = Some Withdraw.

Lemma sync_targets_flag targets acc :
  (foldl EndpointWatcher.sync_target acc targets).2 = true <-> acc.2 = true \/ exists t, t ∈ targets /\ untold acc.1 t.
Proof.
  revert acc. induction targets as [|t targets IH]; intros [m u]; [set_solver|]. cbn [foldl]. rewrite IH. clear IH.
  unfold EndpointWatcher.sync_target. cbn [fst]. destruct (m !! t) as [s|] eqn:Ht.
  - destruct (decide (s = Withdraw)) as [->|Hs]; cbn [fst snd].
    + split; [intros _; right; exists t; split; [by left|by right]|by left].
    + setoid_rewrite elem_of_cons. split; [naive_solver|]. intros [?|(t' & [->|Hin] & Hu)]; [by left| |by right; eauto].
      destruct Hu; congruence.
  - cbn. split; [intros _; right; exists t; split; [by left|by left]|by left].
Qed.

(** The peers after [sync_target_peers] *)
Lemma sync_spec (peers : Peers) (targets : list string) :
  (forall k, (EndpointWatcher.sync_target_peers peers targets).1 !! k = desired peers targets k) /\
  ((EndpointWatcher.sync_target_peers peers targets).2 = true <-> (EndpointWatcher.sync_target_peers peers targets).1 <> peers).
Proof.
  unfold EndpointWatcher.sync_target_peers.
  pose proof (sync_targets_spec targets (peers, false)) as Hm. pose proof (sync_targets_flag targets (peers, false)) as Hf.
  destruct (foldl _ _ _) as [m u]. cbn [fst snd] in *.
  assert (Hd : forall k, map_imap (fun k v => Some (if EndpointWatcher.to_withdraw targets k v then Withdraw else v)) m !! k =
    desired peers targets k).
  { intros k. rewrite map_lookup_imap, Hm. unfold desired, EndpointWatcher.to_withdraw.
    destruct (decide (k ∈ targets)) as [Hk|Hk].
    - rewrite (bool_decide_eq_true_2 _ Hk). done.
    - rewrite (bool_decide_eq_false_2 _ Hk). destruct (peers !! k) as [[]|]; done. }
  split; [done|]. split.
  - rewrite orb_true_iff, Hf, existsb_exists. intros [[?|(t & Ht & Hu)]|((k, v) & Hin & Hw)] Heq; [done|..].
    + pose proof (Hd t) as Hdt. rewrite Heq in Hdt. unfold desired in Hdt. rewrite decide_True in Hdt by done.
      destruct Hu as [Hu|Hu]; rewrite Hu in Hdt; [done|]. by rewrite decide_False in Hdt.
    + apply list_elem_of_In, elem_of_map_to_list in Hin. unfold EndpointWatcher.to_withdraw in Hw. cbn in Hw.
      apply andb_true_iff in Hw as [H1 H2]. apply negb_true_iff, bool_decide_eq_false in H1, H2.
      pose proof (Hd k) as Hdk. rewrite Heq in Hdk. unfold desired in Hdk. rewrite decide_False in Hdk by done.
      rewrite Hm, decide_False in Hin by done. rewrite Hin in Hdk. injection Hdk as Hdk. congruence.
  - intros Hne. apply dec_stable. rewrite orb_true_iff, Hf, existsb_exists. intros Hno. apply Hne, map_eq. intros k. rewrite Hd. unfold desired. case_decide as Hk.
    + case_decide as Ha; [by rewrite Ha|]. destruct (peers !! k) as [[]|] eqn:Hpk; try done;
        destruct Hno; left; right; exists k; (split; [done|]); unfold untold; rewrite Hpk; auto.
    + destruct (peers !! k) as [v|] eqn:Hpk; [|done]. cbn. destruct (decide (v = Withdraw)) as [->|Hv]; [done|].
      destruct Hno. right. exists (k, v). split.
      * apply list_elem_of_In, elem_of_map_to_list. by rewrite Hm, decide_False.
      * unfold EndpointWatcher.to_withdraw. cbn. by rewrite !bool_decide_eq_false_2.
Qed.

(** ** Runs *)

(** The advertisement in the API server, unless it is deleted, and the nodes whose
    speaker may announce its prefix *)
Record World : Type := { object : option BGPAdvertisement; announced : gset string }.

Definition announce (n : string) (w : World) : World := {| object := object w; announced := {[n]} ∪ announced w |}.
Definition unannounce (n : string) (w : World) : World := {| object := object w; announced := announced w ∖ {[n]} |}.
Definition store_status (ba : BGPAdvertisement) (w : World) : World :=
  {| object := (fun a => {| ba_meta := ba_meta a; ba_spec := ba_spec a; ba_status := ba_status ba |}) <$> object w;
     announced := announced w |}.

(** What a request of the node [n] does after the requests [t]: one to add a path
    may be carried out even if an error is reported. *)
Definition land (acc : list Output -> Output -> bool) (n : string) (t : list Output) (o : Output) (w : World) : World :=
  match o with
  | AddPath _ _ => announce n w
  | DeletePath _ _ => if acc t o then unannounce n w else w
  | ReplaceAdvStatus _ _ ba => if acc t o then store_status ba w else w
  | _ => w
  end.

Fixpoint effects (acc : list Output -> Output -> bool) (n : string) (t l : list Output) (w : World) : World :=
  match l with
  | [] => w
  | o :: l' => effects acc n (t ++ [o]) l' (land acc n t o w)
  end.

Lemma effects_snoc acc n t l o w : effects acc n t (l ++ [o]) w = land acc n (t ++ l) o (effects acc n t l w).
Proof.
  revert t w. induction l as [|x l IH]; intros t w; cbn; [by rewrite app_nil_r|]. rewrite IH. by rewrite <-app_assoc.
Qed.

(** *** A turn of an agent *)

Section agent.
Import AdvertAgent.
Context (local : string -> string -> Prop) (E : Env) (n : string) (w : World) (ba : BGPAdvertisement).
Context (Hobj : object w = Some ba) (Hown : forall n' q, local n q -> local n' q -> n' = n).

#[local] Abbreviation St := (Proc unit Output).











End agent.

(** *** The turns of all *)

(** A turn of the agent of a node, of the controller that deletes the advertisement,
    of the watcher of endpoint slices and of the controller of the blocks *)
Definition agent_turn (E : AdvertAgent.Env) (n : string) (w : World) : World :=
  match object w with
  | Some ba => effects (AdvertAgent.accepts E) n [] (sent (AdvertAgent.reconciler E ba (Build_Proc tt [])).2) w
  | None => w
  end.

Definition cleanup_turn (acc : list Output -> Output -> bool) (w : World) : World :=
  match object w with
  | Some ba =>
      match AdvertController.cleanup acc ba (Build_Proc tt []) with
      | (Ok _, _) => {| object := None; announced := announced w |}
      | (_, p) => effects acc "" [] (sent p) w
      end
  | None => w
  end.






Section runs.
Context {I : IpNetApi} (local : string -> string -> Prop).
Context (Hlocal : forall n n' q, local n q -> local n' q -> n' = n).













End runs.


(** ** The end of a deletion *)

Section completion.
Import AdvertAgent.

(** An agent whose speaker and peers are up, and whose requests are accepted *)
Record willing (E : Env) (n : string) (names : list string) : Prop := {
  wl_host : hostname_var E = Some n;
  wl_reaches t path timeout : reaches E t path timeout = true;
  wl_node t : exists nb, get_node_bgp E t n = Some nb /\ (slim_name <$> default [] (nb_peers (nb_spec nb))) = names;
  wl_peers t q : q ∈ names -> exists bp, get_peer E t q = Some bp /\ is_established bp = true;
  wl_accepts t o : accepts E t o = true;
}.

Definition all_withdraw (m : Peers) : Prop := forall q v, m !! q = Some v -> v = Withdraw.

(** What is left of the peers *)
Definition without (names : list string) (m : Peers) : Peers := filter (fun kv => kv.1 ∉ names) m.

Lemma lookup_without names m q : without names m !! q = if decide (q ∈ names) then None else m !! q.
Proof.
  unfold without. rewrite map_lookup_filter. destruct (m !! q) as [v|]; cbn; [|by case_decide]. by case_guard; case_decide.
Qed.

Lemma without_app l l' m : without l' (without l m) = without (l ++ l') m.
Proof.
  apply map_eq. intros k. rewrite !lookup_without. destruct (decide (k ∈ l')), (decide (k ∈ l)), (decide (k ∈ l ++ l')); set_solver.
Qed.

Lemma all_withdraw_without l m : all_withdraw m -> all_withdraw (without l m).
Proof. intros Hm q v. rewrite lookup_without. case_decide; [done|apply Hm]. Qed.

Context (E : Env) (n : string) (names : list string) (HE : willing E n names) (ba : BGPAdvertisement).
#[local] Abbreviation St := (Proc unit Output).

(** Only paths are deleted between the two states. *)
Definition deletes (p p' : St) : Prop := exists k, sent p' = sent p ++ repeat (DeletePath (ba_protocol (ba_spec ba)) (ba_cidr (ba_spec ba))) k.

Lemma deletes_object w p p' : deletes p p' ->
  object (effects (accepts E) n [] (sent p') w) = object (effects (accepts E) n [] (sent p) w).
Proof.
  intros [k ->]. induction k as [|k IH]; [by rewrite app_nil_r|].
  cbn [repeat]. rewrite repeat_cons, app_assoc, effects_snoc. cbn. by destruct (accepts E _ _).
Qed.

Lemma withdraw_one s q p : slim_name q ∈ names -> all_withdraw (peer_map (new_ba s)) ->
  exists s' p', advertise_peer E ba s q p = (Ok s', p') /\ deletes p p' /\
    peer_map (new_ba s') = without [slim_name q] (peer_map (new_ba s)) /\ ba_meta (new_ba s') = ba_meta (new_ba s) /\
    (need_update s' = true \/ (need_update s' = need_update s /\ new_ba s' = new_ba s)).
Proof.
  intros Hq Hw. destruct (wl_peers _ _ _ HE (sent p) _ Hq) as (bp & Hbp & Hest).
  assert (Hkeep : peer_map (new_ba s) !! slim_name q = None -> without [slim_name q] (peer_map (new_ba s)) = peer_map (new_ba s)).
  { intros Hn. apply map_eq. intros k. rewrite lookup_without. case_decide as Hd; [|done].
    apply list_elem_of_singleton in Hd as ->. by rewrite Hn. }
  unfold advertise_peer, ask. unfold mbind at 1, M_bind at 1. rewrite bind_get, Hbp. cbn. rewrite Hest. unfold advertise.
  assert (Hno : peer_map (new_ba s) !! slim_name q = None -> exists s' p', (mret s : M St AgentError Progress) p = (Ok s', p') /\ deletes p p' /\
    peer_map (new_ba s') = without [slim_name q] (peer_map (new_ba s)) /\ ba_meta (new_ba s') = ba_meta (new_ba s) /\
    (need_update s' = true \/ (need_update s' = need_update s /\ new_ba s' = new_ba s))).
  { intros Hn. exists s, p. split_and!; [done|exists 0%nat; by rewrite app_nil_r|by rewrite Hkeep|done|by right]. }
  destruct (peers_of (new_ba s)) as [peers|] eqn:Hp; [|apply Hno; unfold peer_map; by rewrite Hp].
  assert (Hpm : peers = peer_map (new_ba s)) by (unfold peer_map; by rewrite Hp).
  destruct (peers !! slim_name q) as [v|] eqn:Hn; [|apply Hno; by rewrite <-Hpm].
  assert (v = Withdraw) as -> by (apply (Hw (slim_name q)); by rewrite <-Hpm).
  unfold send, mbind, M_bind, get_st, modify. rewrite (wl_accepts _ _ _ HE). cbn. eexists _, _. split; [reflexivity|].
  split_and!; [exists 1%nat; done| |done|by left]. cbn [new_ba]. rewrite peer_map_with, Hpm. apply map_eq. intros k.
  rewrite lookup_without. destruct (decide (k = slim_name q)) as [->|Hne].
  - rewrite lookup_delete_eq, decide_True by set_solver. done.
  - rewrite lookup_delete_ne, decide_False by set_solver. done.
Qed.

Lemma withdraw_all l s p : Forall (fun q => slim_name q ∈ names) l -> all_withdraw (peer_map (new_ba s)) ->
  exists s' p', for_fold (advertise_peer E ba) l s p = (Ok s', p') /\ deletes p p' /\
    peer_map (new_ba s') = without (slim_name <$> l) (peer_map (new_ba s)) /\ ba_meta (new_ba s') = ba_meta (new_ba s) /\
    (need_update s' = true \/ (need_update s' = need_update s /\ new_ba s' = new_ba s)).
Proof.
  intros Hl. revert s p. induction Hl as [|q l Hq _ IH]; intros s p Hw.
  - exists s, p. split_and!; [done|exists 0%nat; by rewrite app_nil_r| |done|by right].
    apply map_eq. intros k. rewrite lookup_without, decide_False by set_solver. done.
  - destruct (withdraw_one s q p Hq Hw) as (s1 & p1 & H1 & [k1 D1] & M1 & T1 & U1).
    destruct (IH s1 p1) as (s2 & p2 & H2 & [k2 D2] & M2 & T2 & U2); [rewrite M1; by apply all_withdraw_without|].
    exists s2, p2. cbn [for_fold]. rewrite (bind_ok _ _ _ _ _ H1). split_and!; [done| | |congruence|].
    + exists (k1 + k2)%nat. by rewrite D2, D1, repeat_app, app_assoc.
    + by rewrite M2, M1, without_app.
    + destruct U2 as [U2|[U2 U2']]; [by left|]. destruct U1 as [U1|[U1 U1']]; [left; congruence|right; split; congruence].
Qed.

(** A turn of a willing agent removes its peers from an advertisement that is to be withdrawn. *)
Lemma turn_withdraws w ns : object w = Some ba -> all_withdraw (peer_map ba) -> m_namespace (ba_meta ba) = Some ns ->
  exists ba', object (agent_turn E n w) = Some ba' /\ ba_meta ba' = ba_meta ba /\ peer_map ba' = without names (peer_map ba).
Proof.
  intros Hw Hm Hns. unfold agent_turn. rewrite Hw. unfold reconciler. unfold mbind at 1, M_bind at 1, lift at 1. rewrite Hns.
  rewrite bind_modify. set (p0 := push Reconciliation _).
  assert (Ho : object (effects (accepts E) n [] (sent p0) w) = Some ba) by exact Hw.
  unfold reconcile. rewrite (wl_host _ _ _ HE). unfold mbind at 1, M_bind at 1, lift at 1.
  unfold ask. unfold mbind at 1, M_bind at 1. rewrite bind_get.
  destruct (wl_node _ _ _ HE (sent p0)) as (nb & -> & Hnames). unfold mret at 1, M_ret at 1.
  unfold connect_bgp_with_retry. unfold mbind at 1, M_bind at 1. rewrite bind_get, (wl_reaches _ _ _ HE).
  unfold mret at 1, M_ret at 1. cbv zeta.
  destruct (nb_peers (nb_spec nb)) as [peers|].
  2: { exists ba. split_and!; [exact Ho|done|]. rewrite <-Hnames. cbn. apply map_eq. intros k.
       rewrite lookup_without, decide_False by set_solver. done. }
  cbn in Hnames. destruct (withdraw_all peers {| new_ba := ba; need_update := false; need_requeue := false |} p0)
    as (s' & p' & Hf & Hd & M & T & U); [|done|].
  { rewrite <-Hnames. apply Forall_forall. intros q Hq. apply list_elem_of_fmap. eauto. }
  rewrite (bind_ok _ _ _ _ _ Hf). apply (deletes_object w) in Hd. rewrite Ho in Hd. rewrite Hnames in M. cbn [new_ba] in *.
  destruct (need_update s') eqn:Hu.
  - unfold send, mbind, M_bind, get_st, modify. rewrite (wl_accepts _ _ _ HE). cbn -[effects].
    eexists. rewrite effects_snoc. cbn [land]. rewrite (wl_accepts _ _ _ HE). cbn [store_status object]. rewrite Hd.
    split_and!; [reflexivity|reflexivity|]. exact M.
  - destruct U as [?|[_ U]]; [congruence|]. exists ba. split_and!; [exact Hd|done|]. by rewrite <-M, U.
Qed.
End completion.

(** The turns of the agents of all nodes *)
Definition agents_turn (nodes : list (AdvertAgent.Env * string)) (w : World) : World :=
  foldl (fun w e => agent_turn e.1 e.2 w) w nodes.

Lemma agents_gone nodes w : object w = None -> object (agents_turn nodes w) = None.
Proof.
  revert w. induction nodes as [|e nodes IH]; intros w Hw; [done|]. cbn. apply IH. unfold agent_turn. by rewrite Hw.
Qed.

Lemma agents_withdraw nodes names w ba ns : Forall2 (fun e l => willing e.1 e.2 l) nodes names ->
  object w = Some ba -> all_withdraw (peer_map ba) -> m_namespace (ba_meta ba) = Some ns ->
  exists ba', object (agents_turn nodes w) = Some ba' /\ m_namespace (ba_meta ba') = Some ns /\
    peer_map ba' = without (mjoin names) (peer_map ba).
Proof.
  intros Hn. revert w ba. induction Hn as [|e l nodes names He _ IH]; intros w ba Hw Hm Hns.
  - exists ba. split_and!; [done..|]. apply map_eq. intros k. rewrite lookup_without, decide_False by set_solver. done.
  - destruct (turn_withdraws e.1 e.2 l He ba w ns Hw Hm Hns) as (ba1 & Hw1 & Hm1 & P1).
    destruct (IH (agent_turn e.1 e.2 w) ba1) as (ba2 & Hw2 & Hm2 & P2);
      [done|rewrite P1; by apply all_withdraw_without|by rewrite Hm1|].
    exists ba2. split_and!; [done|done|]. by rewrite P2, P1, without_app.
Qed.

(** The first turn of the controller marks every peer. *)
Lemma marked w ba ns : object w = Some ba -> m_namespace (ba_meta ba) = Some ns -> peer_map ba <> ∅ ->
  exists ba1, object (cleanup_turn (fun _ _ => true) w) = Some ba1 /\ m_namespace (ba_meta ba1) = Some ns /\
    peer_map ba1 = (fun _ => Withdraw) <$> peer_map ba.
Proof.
  intros Hw Hns He. unfold cleanup_turn. rewrite Hw. unfold AdvertController.cleanup, get_namespace. rewrite Hns.
  unfold mbind at 1, M_bind at 1, lift at 1. unfold peer_map in *. destruct (peers_of ba) as [m|] eqn:Hp; [|done].
  cbn in He. rewrite decide_False by done. unfold mbind at 1, M_bind at 1. destruct (existsb _ _) eqn:Hex.
  - unfold write, mbind, M_bind, get_st, modify. cbn. rewrite Hw. cbn. eexists. split_and!; [reflexivity|done|done].
  - exists ba. cbn. split_and!; [done|done|]. rewrite Hp. cbn. apply map_eq. intros q. rewrite lookup_fmap.
    destruct (m !! q) as [v|] eqn:Hv; [|done]. cbn. f_equal. apply dec_stable. intros Hne.
    assert (Ht : existsb (fun kv => negb (bool_decide (kv.2 = Withdraw))) (map_to_list m) = true); [|congruence].
    apply existsb_exists. exists (q, v). split; [by apply list_elem_of_In, elem_of_map_to_list|].
    cbn. by rewrite bool_decide_eq_false_2.
Qed.

(** C34: once an advertisement is being deleted, one turn of the controller, one of
    the agent of every node that has peers in it, whose speakers, peers and writes
    work, and one more turn of the controller delete it. *)
Theorem deletion_completes (w : World) (ba : BGPAdvertisement) (ns : string)
  (nodes : list (AdvertAgent.Env * string)) (names : list (list string))
  (Hw : object w = Some ba) (Hns : m_namespace (ba_meta ba) = Some ns)
  (Hnodes : Forall2 (fun e l => willing e.1 e.2 l) nodes names)
  (Hall : forall q, is_Some (peer_map ba !! q) -> q ∈ mjoin names) :
  object (cleanup_turn (fun _ _ => true) (agents_turn nodes (cleanup_turn (fun _ _ => true) w))) = None.
Proof.
  assert (Hdone : forall v b, object v = Some b -> m_namespace (ba_meta b) = Some ns -> peer_map b = ∅ ->
    object (cleanup_turn (fun _ _ => true) v) = None).
  { intros v b Hv Hb Hm. unfold cleanup_turn. rewrite Hv. unfold AdvertController.cleanup, get_namespace. rewrite Hb.
    unfold peer_map in Hm. unfold mbind at 1, M_bind at 1, lift at 1. destruct (peers_of b) as [m|]; [|done].
    cbn in Hm. by rewrite decide_True. }
  destruct (decide (peer_map ba = ∅)) as [He|He].
  { assert (H0 : object (agents_turn nodes (cleanup_turn (fun _ _ => true) w)) = None) by (by eapply agents_gone, Hdone).
    unfold cleanup_turn at 1. by rewrite H0. }
  destruct (marked w ba ns Hw Hns He) as (ba1 & Hw1 & Hns1 & Hm1).
  destruct (agents_withdraw nodes names (cleanup_turn (fun _ _ => true) w) ba1 ns Hnodes Hw1) as (ba2 & Hw2 & Hns2 & Hm2);
    [intros q v; rewrite Hm1, lookup_fmap; destruct (_ !! q); naive_solver|done|].
  eapply Hdone; [done..|]. rewrite Hm2. apply map_eq. intros q. rewrite lookup_without, Hm1, lookup_fmap, lookup_empty.
  case_decide as Hq; [done|]. destruct (peer_map ba !! q) as [v|] eqn:Hv; [|done]. destruct Hq. apply Hall. by eexists.
Qed.

(** After the watcher of endpoint slices has looked at an advertisement, its
    peers are exactly the desired ones: targets are announced to unless they have
    been, and every other peer is withdrawn from; and it reports a change exactly
    when there is one. *)
Theorem targets_synchronised (peers : Peers) (targets : list string) :
  (forall k, (EndpointWatcher.sync_target_peers peers targets).1 !! k = desired peers targets k) /\
  ((EndpointWatcher.sync_target_peers peers targets).2 = true <-> (EndpointWatcher.sync_target_peers peers targets).1 <> peers).
Proof. apply sync_spec. Qed.

(** ** A deletion *)

Section witnesses.
Import AdvertAgent.
#[local] Existing Instance simple_ipnet.

Definition meta (name : string) : ObjectMeta :=
  {| m_name := name; m_namespace := Some "default"; m_uid := None; m_labels := ∅; m_annotations := ∅; m_owner_references := [] |}.
Definition speaker : SpeakerConfig := {| path := "localhost:5000"; timeout := None; multipath := None |}.
Definition peer_spec : BGPPeerSpec := {|
  bp_asn := 65000; bp_addr := "10.0.0.1"; hold_time := None; keepalive_time := None; capabilities := None;
  node_bgp_ref := "n"; cluster_bgp_ref := None; bp_speaker := speaker; groups := None |}.

Definition up_env : Env := {|
  hostname_var := Some "n"%string;
  reaches _ _ _ := true;
  get_node_bgp _ n := Some {| nb_meta := meta n; nb_status := None;
    nb_spec := {| nb_asn := 65000; nb_router_id := "10.0.0.2"; nb_speaker := speaker;
                  nb_peers := Some [{| slim_name := "p"; slim_spec := peer_spec |}] |} |};
  get_peer _ q := Some {| bp_meta := meta q; bp_spec := peer_spec;
    bp_status := Some {| bp_backoff := 0; bp_conditions := Some [{| bc_status := Established; bc_reason := "" |}] |} |};
  accepts _ _ := true;
|}.

Lemma up_willing : willing up_env "n" ["p"%string].
Proof. split; [done|done|intros t; by eexists|intros t q _; by eexists|done]. Qed.

Definition adv0 : BGPAdvertisement := {|
  ba_meta := meta "a"; ba_status := Some {| ba_peers := Some {["p"%string := NotAdvertised]} |};
  ba_spec := {| ba_cidr := "10.1.0.0/24"; ba_type := TService; ba_protocol := IPv4; attrs := None |} |}.
Definition w0 : World := {| object := Some adv0; announced := ∅ |}.
Definition yes : list Output -> Output -> bool := fun _ _ => true.

Lemma deletion_completes_witness :
  announced (agent_turn up_env "n" w0) = {["n"%string]} /\
  object (cleanup_turn yes (agents_turn [(up_env, "n"%string)] (cleanup_turn yes (agent_turn up_env "n" w0)))) = None.
Proof.
  split; [vm_compute; reflexivity|].
  destruct (object (agent_turn up_env "n" w0)) as [ba|] eqn:Hba; [|exfalso; vm_compute in Hba; discriminate Hba].
  apply (deletion_completes (agent_turn up_env "n" w0) ba "default" [(up_env, "n"%string)] [["p"%string]] Hba).
  - vm_compute in Hba. injection Hba as <-. reflexivity.
  - constructor; [apply up_willing|constructor].
  - vm_compute in Hba. injection Hba as <-. intros q Hq. cbn. change (is_Some (({["p"%string := Advertised]} : Peers) !! q)) in Hq.
    destruct Hq as [v Hq]. apply lookup_singleton_Some in Hq as [<- _]. set_solver.
Defined.



End witnesses.
End AdvertWorld.
