(* ===== verification/CniLink.v ===== *)
(** * The links of pods

    [Netlink] is [kubernetes/src/agent/cni/netlink.rs] with the part of [netns.rs]
    that the agent uses, [PodLinks] is [pod.rs]: the virtual links, addresses and
    routes of a pod, in its network namespace and on the node. The kernel is a
    parameter: what a dump returns and which requests it carries out. *)

From Stdlib Require Import Ascii.
From stdpp Require Import pretty.
From S2P Require Import Prelude.
From S2P Require Import Net.
From S2P Require Import NetText.
From S2P Require Import IpamBitset.
From S2P Require Import IpamAllocator.
From S2P Require Import KubeApi.

Module Netlink.
Import Kube.

Definition ROUTE_SCOPE_SART : Z := 50.
Definition DEFAULT_ROUTE_IPV4 : string := "0.0.0.0/0".
Definition DEFAULT_ROUTE_IPV6 : string := "::/0".

(** An error of [rtnetlink] keeps only its kind. *)
Inductive Error : Type :=
| Open
| NetlinkErr
| Veth
| NetNSErr
| LinkUp
| Link
| Address
| Route
| Rule
| LinkNotFound (s : string)
| InvalidContainerId
| InvalidAddress (s : string)
| RouteNotFound (s : string)
| InvalidMacAddress
| InvalidLinkAlias (s : string).

#[global] Instance Error_eq_dec : EqDecision Error.
Proof. solve_decision. Defined.

Inductive IpVersion : Type := V4 | V6.

Inductive RouteScope : Type := Universe | ScopeLink.

(** A network namespace: its path. *)
Record NetNS : Type := { ns_path : string }.

(** The attributes of links and routes the code looks at. *)
Inductive LinkAttribute : Type :=
| IfName (s : string)
| IfAlias (s : string)
| MacAddress (v : list Z)
| OtherLinkAttribute.

Record LinkMessage : Type := { l_index : Z; l_attributes : list LinkAttribute }.

Inductive RouteAttribute : Type :=
| Table (id : Z)
| Oif (n : Z)
| Destination (a : IpAddr)
| OtherRouteAttribute.

(** The header's prefix length and table, and the attributes *)
Record RouteMessage : Type := { r_prefix_len : Z; r_table : Z; r_attributes : list RouteAttribute }.

Record RuleMessage : Type := { rule_table : Z }.

(** [&id[..8]]: panics if the ninth byte is inside a character *)
Definition char_boundary (n : nat) (s : string) : bool :=
  match String.get n s with
  | Some c => negb ((128 <=? N_of_ascii c)%N && (N_of_ascii c <? 192)%N)
  | None => true
  end.

Definition short_id {E} (id : string) : res E string :=
  if char_boundary 8 id then Ok (String.substring 0 8 id) else Panic.

(** [{:#02x}]: the prefix is part of the width *)
Definition hex_digit (n : Z) : string :=
  match String.get (Z.to_nat n) "0123456789abcdef" with Some c => String c "" | None => "" end.
Definition show_hex (n : Z) : string :=
  "0x" +:+ (if n <? 16 then hex_digit n else hex_digit (n / 16) +:+ hex_digit (n mod 16)).

Definition show_mac (v : list Z) : string := join_on ":"%char (show_hex <$> v).

(** ** The alias of a link *)

Record ContainerLinkInfo : Type := { id : string; ifname : string; pool : string }.

#[global] Instance ContainerLinkInfo_eq_dec : EqDecision ContainerLinkInfo.
Proof. solve_decision. Defined.

Definition new (id ifname pool : string) : ContainerLinkInfo := {| id := id; ifname := ifname; pool := pool |}.

Definition to_alias (i : ContainerLinkInfo) : string := pool i +:+ "/" +:+ id i +:+ "/" +:+ ifname i.

Definition from_str (s : string) : res Error ContainerLinkInfo :=
  match split_on "/"%char s with
  | [p; i; n] => Ok {| pool := p; id := i; ifname := n |}
  | _ => Err (InvalidLinkAlias s)
  end.

Section defs.
Context {I : IpNetApi} {T : TextApi}.

(** What the agent sends: requests to the kernel, the namespace it enters, and
    requests to the API server. *)
Inductive Request : Type :=
| AddVeth (host peer : string)
| SetNetns (index : Z) (ns : NetNS)
| SetUp (index : Z)
| SetAlias (index : Z) (alias : string)
| DelLink (index : Z)
| AddAddr (index : Z) (a : IpAddr) (prefix_len : Z)
| AddRoute (scope : RouteScope) (index : Z) (table : option Z) (protocol : Z) (dst : IpNet) (gw : option IpAddr)
| DelRoute (r : RouteMessage)
| AddRule (table priority : Z) (v : IpVersion)
| DelRule (r : RuleMessage).

Inductive Output : Type :=
| Nl (r : Request)
| Enter (ns : NetNS)
| CreateRequest (br : BlockRequest)
| DeleteRequest (name : string)
| DeleteBlock (name : string)
| CniCall (cmd : string)
| CniErrors (cmd : string) (code : Z).

(** A stream of messages; [None] where reading it fails. *)
Definition Stream (A : Type) : Type := list (option A).

(** The kernel, after what was sent so far: whether a socket can be opened, what
    it dumps, which requests it carries out, and the namespaces. *)
Record Kernel : Type := {
  opens : list Output -> bool;
  does : list Output -> Request -> bool;
  enters : list Output -> NetNS -> bool;
  link_named : list Output -> string -> Stream LinkMessage;
  link_indexed : list Output -> Z -> Stream LinkMessage;
  links : list Output -> Stream LinkMessage;
  routes : list Output -> IpVersion -> Stream RouteMessage;
  rules : list Output -> IpVersion -> Stream RuleMessage;
}.

Context {C : Type} (K : Kernel).
#[local] Abbreviation H := (M (Proc C Output) Error).

(** A new connection; [tokio::spawn(conn)] only drives it. *)
Definition connect : H unit :=
  p ← get_st;
  if opens K (sent p) then mret tt else throw Open.

Definition dump {A} (f : list Output -> Stream A) : H (Stream A) :=
  p ← get_st; mret (f (sent p)).

(** [execute().await.map_err(e)] *)
Definition execute (e : Error) (r : Request) : H unit :=
  p ← get_st;
  modify (push (Nl r)) ;;
  if does K (sent p) r then mret tt else throw e.

(** ** Links *)

Definition get_link_index_by_name (name : string) : H Z :=
  s ← dump (fun t => link_named K t name);
  match s with
  | Some msg :: _ => mret (l_index msg)
  | None :: _ => throw Link
  | [] => throw (LinkNotFound name)
  end.

(** The first name among the attributes *)
Fixpoint name_of (l : list LinkAttribute) : option string :=
  match l with
  | [] => None
  | IfName n :: _ => Some n
  | _ :: l' => name_of l'
  end.

Fixpoint first_name (s : Stream LinkMessage) : res Error (option string) :=
  match s with
  | [] => Ok None
  | None :: _ => Err Link
  | Some msg :: s' => match name_of (l_attributes msg) with Some n => Ok (Some n) | None => first_name s' end
  end.

Definition get_link_name_by_index (index : Z) : H string :=
  s ← dump (fun t => link_indexed K t index);
  n ← lift (first_name s);
  match n with Some n => mret n | None => throw (LinkNotFound (pretty index)) end.

(** An alias of the container among the attributes *)
Definition alias_of (container_id : string) (a : LinkAttribute) : bool :=
  match a with
  | IfAlias alias => match from_str alias with Ok i => bool_decide (container_id = id i) | _ => false end
  | _ => false
  end.

Fixpoint find_container (container_id : string) (s : Stream LinkMessage) : res Error Z :=
  match s with
  | [] => Err (LinkNotFound container_id)
  | None :: _ => Err Link
  | Some l :: s' => if existsb (alias_of container_id) (l_attributes l) then Ok (l_index l) else find_container container_id s'
  end.

Definition get_link_by_container_id (container_id : string) : H Z :=
  s ← dump (links K);
  lift (find_container container_id s).

(** [container_id.len() < 8], and the name of the interface on the node *)
Definition host_ifname (container_id : string) : res Error string :=
  if (String.length container_id <? 8)%nat then Err InvalidContainerId
  else s ← short_id container_id; mret ("veth" +:+ s).

Definition add_veth_pair (container_id ifname : string) : H string :=
  connect ;;
  host_side ← lift (host_ifname container_id);
  execute Veth (AddVeth host_side ifname) ;;
  mret host_side.

Definition move_netns (name : string) (ns : NetNS) : H unit :=
  connect ;; index ← get_link_index_by_name name; execute NetNSErr (SetNetns index ns).

Definition del_veth (name : string) : H unit :=
  connect ;; index ← get_link_index_by_name name; execute Veth (DelLink index).

Definition link_up (name : string) : H unit :=
  connect ;; index ← get_link_index_by_name name; execute LinkUp (SetUp index).

Fixpoint mac_of (l : list LinkAttribute) : option (res Error string) :=
  match l with
  | [] => None
  | MacAddress v :: _ => Some (if (length v =? 6)%nat then Ok (show_mac v) else Err InvalidMacAddress)
  | _ :: l' => mac_of l'
  end.

Definition get_link_mac (name : string) : H string :=
  connect ;;
  s ← dump (fun t => link_named K t name);
  match s with
  | None :: _ => throw Link
  | Some msg :: _ => match mac_of (l_attributes msg) with Some r => lift r | None => throw (LinkNotFound name) end
  | [] => throw (LinkNotFound name)
  end.

Definition set_alias (name alias : string) : H unit :=
  connect ;; index ← get_link_index_by_name name; execute Link (SetAlias index alias).

Definition ipnet_addr (n : IpNet) : IpAddr :=
  match n with NV4 c => AV4 (net_addr c) | NV6 c => AV6 (net_addr c) end.

Definition add_addr (name : string) (addr : IpNet) : H unit :=
  connect ;; index ← get_link_index_by_name name;
  execute Address (AddAddr index (ipnet_addr addr) (ipnet_prefix_len addr)).

Definition del_link (name : string) : H unit :=
  connect ;; index ← get_link_index_by_name name; execute Link (DelLink index).

(** ** Routes *)

(** The gateway if it is of the family of the destination *)
Definition same_family (dst : IpNet) (gw : option IpAddr) : option IpAddr :=
  match dst, gw with
  | NV4 _, Some (AV4 g) => Some (AV4 g)
  | NV6 _, Some (AV6 g) => Some (AV6 g)
  | _, _ => None
  end.

Definition add_route (dst : IpNet) (gateway : option IpAddr) (device : string) (scope : RouteScope) : H unit :=
  connect ;; index ← get_link_index_by_name device;
  execute Route (AddRoute scope index None ROUTE_SCOPE_SART dst (same_family dst gateway)).

Definition add_route_in_table (dst : IpNet) (gateway : option IpAddr) (device : string) (scope : RouteScope)
    (table : Z) : H unit :=
  connect ;; index ← get_link_index_by_name device;
  execute Route (AddRoute scope index (Some table) ROUTE_SCOPE_SART dst (same_family dst gateway)).

Definition version (dst : IpNet) : IpVersion := match dst with NV4 _ => V4 | NV6 _ => V6 end.
Definition addr_version (a : IpAddr) : IpVersion := match a with AV4 _ => V4 | AV6 _ => V6 end.

(** [IpNet::from_str(DEFAULT_ROUTE_..)], [None] if it is not a network *)
Definition default_route (v : IpVersion) : option IpNet :=
  parse_net (match v with V4 => DEFAULT_ROUTE_IPV4 | V6 => DEFAULT_ROUTE_IPV6 end).

#[global] Instance IpVersion_eq_dec : EqDecision IpVersion.
Proof. solve_decision. Defined.

Definition is_dst (dst : IpNet) (prefix_len : Z) (a : IpAddr) : bool :=
  bool_decide (a = ipnet_addr dst) && (prefix_len =? ipnet_prefix_len dst).

(** The attributes of a route: [None] if it is the one, otherwise whether it has
    no destination *)
Fixpoint scan_route (dst : IpNet) (prefix_len : Z) (l : list RouteAttribute) (is_default : bool) : option bool :=
  match l with
  | [] => Some is_default
  | Destination a :: l' =>
      if decide (addr_version a = version dst) then
        if is_dst dst prefix_len a then None else scan_route dst prefix_len l' false
      else scan_route dst prefix_len l' is_default
  | _ :: l' => scan_route dst prefix_len l' is_default
  end.

Fixpoint find_route (dst default : IpNet) (s : Stream RouteMessage) : res Error (option RouteMessage) :=
  match s with
  | [] => Ok None
  | None :: _ => Err Route
  | Some r :: s' =>
      match scan_route dst (r_prefix_len r) (r_attributes r) true with
      | None => Ok (Some r)
      | Some is_default => if is_default && bool_decide (default = dst) then Ok (Some r) else find_route dst default s'
      end
  end.

Definition delete_found (dst : IpNet) (found : option RouteMessage) : H unit :=
  match found with
  | Some r => execute Route (DelRoute r)
  | None => throw (RouteNotFound (show_net dst))
  end.

Definition del_route (dst : IpNet) : H unit :=
  connect ;;
  s ← dump (fun t => routes K t (version dst));
  match default_route (version dst) with
  | Some d => found ← lift (find_route dst d s); delete_found dst found
  | None => panic
  end.

(** The attributes, with the table: one that names another table is passed over,
    and every other one makes the route a candidate. *)
Fixpoint scan_table (table : Z) (dst : IpNet) (prefix_len : Z) (l : list RouteAttribute) (is_default is_target : bool) :
    option (bool * bool) :=
  match l with
  | [] => Some (is_default, is_target)
  | Table id :: l' =>
      if table =? id then scan_table table dst prefix_len l' is_default true
      else scan_table table dst prefix_len l' is_default is_target
  | Destination a :: l' =>
      if decide (addr_version a = version dst) then
        if is_dst dst prefix_len a then None else scan_table table dst prefix_len l' false true
      else scan_table table dst prefix_len l' is_default true
  | _ :: l' => scan_table table dst prefix_len l' is_default true
  end.

Fixpoint find_in_table (table : Z) (dst default : IpNet) (s : Stream RouteMessage) : res Error (option RouteMessage) :=
  match s with
  | [] => Ok None
  | None :: _ => Err Route
  | Some r :: s' =>
      match scan_table table dst (r_prefix_len r) (r_attributes r) true false with
      | None => Ok (Some r)
      | Some (is_default, is_target) =>
          if is_target && is_default && bool_decide (default = dst) then Ok (Some r) else find_in_table table dst default s'
      end
  end.

Definition del_route_in_table (dst : IpNet) (table : Z) : H unit :=
  connect ;;
  s ← dump (fun t => routes K t (version dst));
  match default_route (version dst) with
  | Some d => found ← lift (find_in_table table dst d s); delete_found dst found
  | None => panic
  end.

(** ** Rules *)

Definition add_rule (table : Z) (protocol : IpAddr) : H unit :=
  connect ;; execute Rule (AddRule table 2000 (addr_version protocol)).

(** The first rule of the table, whose number is compared as one byte *)
Fixpoint find_rule (table : Z) (s : Stream RuleMessage) : res Error (option RuleMessage) :=
  match s with
  | [] => Ok None
  | None :: _ => Err Rule
  | Some r :: s' => if rule_table r =? wrap 8 table then Ok (Some r) else find_rule table s'
  end.

Definition del_rule (table : Z) (protocol : IpAddr) : H unit :=
  connect ;;
  s ← dump (fun t => rules K t (addr_version protocol));
  found ← lift (find_rule table s);
  match found with Some r => execute Rule (DelRule r) | None => mret tt end.

Definition get_rule (table : Z) (protocol : IpAddr) : H (option unit) :=
  connect ;;
  s ← dump (fun t => rules K t (addr_version protocol));
  found ← lift (find_rule table s);
  mret (match found with Some _ => Some tt | None => None end).

(** ** What there is after a restart *)

(** The last name and the last alias that can be read *)
Definition link_attr (acc : option string * option ContainerLinkInfo) (a : LinkAttribute) :
    option string * option ContainerLinkInfo :=
  match a with
  | IfAlias alias => match from_str alias with Ok i => (acc.1, Some i) | _ => acc end
  | IfName n => (Some n, acc.2)
  | _ => acc
  end.

Fixpoint collect_links (s : Stream LinkMessage) (m : gmap string ContainerLinkInfo) :
    res Error (gmap string ContainerLinkInfo) :=
  match s with
  | [] => Ok m
  | None :: _ => Err Link
  | Some l :: s' =>
      match foldl link_attr (None, None) (l_attributes l) with
      | (Some n, Some i) => collect_links s' (<[n := i]> m)
      | _ => collect_links s' m
      end
  end.

Definition link_list : H (gmap string ContainerLinkInfo) :=
  connect ;; s ← dump (links K); lift (collect_links s ∅).

(** The name of the interface and the address of a route *)
Definition route_attr (v : IpVersion) (acc : option string * option IpAddr) (a : RouteAttribute) :
    H (option string * option IpAddr) :=
  match a with
  | Oif n => name ← get_link_name_by_index n; mret (Some name, acc.2)
  | Destination d => mret (if decide (addr_version d = v) then (acc.1, Some d) else acc)
  | _ => mret acc
  end.

Fixpoint collect_routes (v : IpVersion) (table : Z) (s : Stream RouteMessage)
    (m : gmap string IpAddr) : H (gmap string IpAddr) :=
  match s with
  | [] => mret m
  | None :: _ => throw Route
  | Some r :: s' =>
      if r_table r =? wrap 8 table then
        found ← for_fold (route_attr v) (r_attributes r) (None, None);
        match found with
        | (Some n, Some a) => collect_routes v table s' (<[n := a]> m)
        | _ => collect_routes v table s' m
        end
      else collect_routes v table s' m
  end.

Definition route_list (protocol : IpAddr) (table : Z) : H (gmap string IpAddr) :=
  connect ;;
  s ← dump (fun t => routes K t (addr_version protocol));
  collect_routes (addr_version protocol) table s ∅.
End defs.
End Netlink.

(** ** Pods ([pod.rs], [error.rs], [netns.rs]) *)

Module PodLinks.
Import Kube Netlink.

Inductive NsError : Type :=
| OpenNetNS (path : string)
| NotExist (path : string)
| CloseNetNS
| SetNS
| NsNetlink.

#[global] Instance NsError_eq_dec : EqDecision NsError.
Proof. solve_decision. Defined.

(** [cni::error::Error] *)
Inductive CniError : Type :=
| NetNSE (e : NsError)
| NetlinkE (e : Netlink.Error)
| KubeE
| MissingField (s : string)
| InvalidAddressE (s : string)
| LockE
| AlreadyConfigured (key : string)
| DefaultPoolNotFound
| BlockNotFound (name : string)
| ReceiveNotify
| IpamE (e : Ipam.Error)
| PodAddressIsNotFound
| AllocationNotFound
| AddressNotMatched.

(** The result of a CNI command ([proto/cni.proto]) *)
Record Interface : Type := { i_name : string; i_mac : string; i_sandbox : string }.
Record IpConf : Type := { c_interface : Z; c_address : string; c_gateway : string }.
Record RouteConf : Type := { rc_dst : string; rc_gw : string; rc_mtu : Z; rc_advmss : Z }.
Record Dns : Type := { nameservers : list string; domain : string; search : list string; options : list string }.
Record CniResult : Type := {
  interfaces : list Interface; ips : list IpConf; cni_routes : list RouteConf; dns : option Dns }.

Definition empty_result : CniResult := {| interfaces := []; ips := []; cni_routes := []; dns := None |}.

(** ** The arguments of a command *)

Definition K8S_POD_INFRA_CONTAINER_ID : string := "K8S_POD_INFRA_CONTAINER_ID".
Definition K8S_POD_UID : string := "K8S_POD_UID".
Definition K8S_POD_NAMESPACE : string := "K8S_POD_NAMESPACE".
Definition K8S_POD_NAME : string := "K8S_POD_NAME".

Record PodInfo : Type := { container_id : string; uid : string; namespace : string; name : string }.

#[global] Instance PodInfo_eq_dec : EqDecision PodInfo.
Proof. solve_decision. Defined.

(** One [key=value] of the arguments; others and unknown keys are passed over. *)
Definition read_arg (info : PodInfo) (kv : string) : PodInfo :=
  match split_on "="%char kv with
  | [key; value] =>
      if decide (key = K8S_POD_INFRA_CONTAINER_ID) then
        {| container_id := value; uid := uid info; namespace := namespace info; name := name info |}
      else if decide (key = K8S_POD_UID) then
        {| container_id := container_id info; uid := value; namespace := namespace info; name := name info |}
      else if decide (key = K8S_POD_NAMESPACE) then
        {| container_id := container_id info; uid := uid info; namespace := value; name := name info |}
      else if decide (key = K8S_POD_NAME) then
        {| container_id := container_id info; uid := uid info; namespace := namespace info; name := value |}
      else info
  | _ => info
  end.

Definition present (field value : string) : res CniError unit :=
  if decide (value = EmptyString) then Err (MissingField field) else Ok tt.

Definition pod_from_str (s : string) : res CniError PodInfo :=
  let info := foldl read_arg {| container_id := ""; uid := ""; namespace := ""; name := "" |} (split_on ";"%char s) in
  present K8S_POD_INFRA_CONTAINER_ID (container_id info) ;;
  present K8S_POD_UID (uid info) ;;
  present K8S_POD_NAMESPACE (namespace info) ;;
  present K8S_POD_NAME (name info) ;;
  mret info.

Section defs.
Context {I : IpNetApi} {T : TextApi} {C : Type} (K : Kernel).
#[local] Abbreviation H := (M (Proc C Output) CniError).

Definition enter (ns : NetNS) : H unit :=
  p ← get_st;
  modify (push (Enter ns)) ;;
  if enters K (sent p) ns then mret tt else throw (NetNSE SetNS).

Definition nl {A} (m : M (Proc C Output) Netlink.Error A) : H A := map_err NetlinkE m.

(** The address as a network of its own *)
Definition single (a : IpAddr) : option IpNet :=
  match a with
  | AV4 x => NV4 <$> net_new x 32
  | AV6 x => NV6 <$> net_new x 128
  end.

Definition default_of (n : IpNet) : res CniError IpNet :=
  match default_route (version n) with
  | Some d => Ok d
  | None => Err (InvalidAddressE (match n with NV4 _ => DEFAULT_ROUTE_IPV4 | NV6 _ => DEFAULT_ROUTE_IPV6 end))
  end.

(** The result of both commands *)
Definition link_result (ifname mac sandbox : string) (addr : IpNet) (host_addr : IpAddr) (default : IpNet) : CniResult := {|
  interfaces := [{| i_name := ifname; i_mac := mac; i_sandbox := sandbox |}];
  ips := [{| c_interface := 0; c_address := show_net addr; c_gateway := show_addr host_addr |}];
  cni_routes := [{| rc_dst := show_net default; rc_gw := show_addr host_addr; rc_mtu := 0; rc_advmss := 0 |}];
  dns := None;
|}.

Definition setup_links (info : ContainerLinkInfo) (host_ns container_ns : NetNS) (container_addr : IpNet)
    (host_addr : IpAddr) (table : Z) : H CniResult :=
  enter container_ns ;;
  host_ifname ← nl (add_veth_pair K (id info) (ifname info));
  nl (move_netns K host_ifname host_ns) ;;
  nl (link_up K (ifname info)) ;;
  container_mac ← nl (get_link_mac K (ifname info));
  enter host_ns ;;
  nl (set_alias K host_ifname (to_alias info)) ;;
  host_net ← lift (match single host_addr with Some n => Ok n | None => Err (InvalidAddressE (show_addr host_addr)) end);
  nl (add_addr K host_ifname host_net) ;;
  nl (link_up K host_ifname) ;;
  nl (add_route_in_table K container_addr None host_ifname Universe table) ;;
  enter container_ns ;;
  nl (add_addr K (ifname info) container_addr) ;;
  nl (add_route K host_net None (ifname info) ScopeLink) ;;
  default ← lift (default_of host_net);
  nl (add_route K default (Some host_addr) (ifname info) Universe) ;;
  enter host_ns ;;
  mret (link_result (ifname info) container_mac (ns_path container_ns) container_addr host_addr default).

Definition cleanup_links (container_id : string) (host_ns : NetNS) (container_ns : option NetNS) (container_addr : IpNet)
    (host_addr : IpAddr) (container_ifname : string) (table : Z) : H CniResult :=
  container_mac ← match container_ns with
                  | Some ns => enter ns ;; nl (get_link_mac K container_ifname)
                  | None => mret ""%string
                  end;
  enter host_ns ;;
  nl (del_route_in_table K container_addr table) ;;
  host_ifname ← nl (lift (host_ifname container_id));
  nl (del_link K host_ifname) ;;
  default ← lift (default_of container_addr);
  mret (link_result container_ifname container_mac (match container_ns with Some ns => ns_path ns | None => "" end)
          container_addr host_addr default).
End defs.
End PodLinks.
