(* ===== verification/CniServer.v ===== *)
(** * The CNI server of the agent

    [CniServer] is [kubernetes/src/agent/cni/server.rs]: the commands ADD, DEL and
    CHECK for the pods of a node and the recovery of their addresses at the start;
    [Gc] is [gc.rs], the garbage collector of unused blocks. The blocks are shared
    with the controller of the agent that watches them. *)

From stdpp Require Import pretty.
From S2P Require Import Prelude.
From S2P Require Import Net.
From S2P Require Import NetText.
From S2P Require Import IpamBitset.
From S2P Require Import IpamAllocator.
From S2P Require Import IpamManager.
From S2P Require Import KubeApi.
From S2P Require Import CniLink.

Module CniServer.
Import Kube Netlink PodLinks.

#[local] Abbreviation AllocatorSet := AllocatorSetInner.AllocatorSetInner.

Definition CNI_SERVER_ENDPOINT : string := "/var/run/sart.sock".
Definition CNI_ROUTE_TABLE_ID : Z := 120.
Definition CONTAINER_INTERFACE_NAME : string := "eth0".

(** [sart::Args], the fields the server looks at *)
Record Args : Type := { args : string; netns : string }.

(** What the code looks at of a pod *)
Record PodStatus : Type := { host_ip : option string; pod_ip : option string }.
Record Pod : Type := { pod_meta : ObjectMeta; pod_status : option PodStatus }.

Section defs.
Context {I : IpNetApi} {T : TextApi} {P : Profile}.

Record PodAllocation : Type := { a_container_id : string; block : string; addr : IpNet }.

(** [CNIServerInner]; the receiver is the queue of the channel. *)
Record Inner : Type := {
  allocator : AllocatorSet;
  allocation : gmap string PodAllocation;
  node : string;
  node_addr : IpAddr;
  table : Z;
  receiver : list AddressBlock;
}.

Definition inner_new (s : AllocatorSet) (node : string) (node_addr : IpAddr) (table : Z) (receiver : list AddressBlock) : Inner :=
  {| allocator := s; allocation := ∅; node := node; node_addr := node_addr; table := table; receiver := receiver |}.

Definition set_shared (s : AllocatorSet) (q : list AddressBlock) (c : Inner) : Inner :=
  {| allocator := s; allocation := allocation c; node := node c; node_addr := node_addr c; table := table c; receiver := q |}.
Definition set_allocator (s : AllocatorSet) (c : Inner) : Inner := set_shared s (receiver c) c.
Definition set_allocation (m : gmap string PodAllocation) (c : Inner) : Inner :=
  {| allocator := allocator c; allocation := m; node := node c; node_addr := node_addr c; table := table c; receiver := receiver c |}.

#[local] Abbreviation St := (Proc Inner Output).
#[local] Abbreviation H := (M St CniError).

(** What the server relies on: the kernel, the namespaces and the API server, and
    what the other tasks of the agent do to the blocks and the channel while a
    command waits for a notification. *)
Record Env : Type := {
  kernel : Kernel;
  open_ns : list Output -> string -> res NsError NetNS;
  current_ns : list Output -> res NsError NetNS;
  get_pod : list Output -> string -> string -> option Pod;
  get_ns : list Output -> string -> option ObjectMeta;
  list_pools : list Output -> option (list AddressPool);
  list_blocks : list Output -> string -> option (list AddressBlock);
  accepts : list Output -> Output -> bool;
  meanwhile : list Output -> AllocatorSet * list AddressBlock -> AllocatorSet * list AddressBlock;
}.

Context (E : Env).
#[local] Abbreviation K := (kernel E).

(** Reads of the API server and writes to it *)
Definition ask {A} (answer : list Output -> option A) : H A :=
  p ← get_st;
  match answer (sent p) with Some a => mret a | None => throw KubeE end.
Definition tell (o : Output) : H unit :=
  p ← get_st;
  modify (push o) ;;
  if accepts E (sent p) o then mret tt else throw KubeE.

Definition ns_of (r : list Output -> res NsError NetNS) : H NetNS :=
  p ← get_st; lift (res_map_err NetNSE (r (sent p))).

(** A call on the blocks, and on one of them *)
Definition on_set {A} (m : M AllocatorSet CniError A) : H A :=
  zoom (fun p => allocator (comp p)) (fun s p => set_comp (set_allocator s (comp p)) p) m.

Definition with_allocator (a : Allocator.Allocator) (b : Block.Block) : Block.Block :=
  Block.mkBlock (Block.name b) (Block.pool_name b) a.
Definition set_block (name : string) (b : Block.Block) (s : AllocatorSet) : AllocatorSet :=
  AllocatorSetInner.get_mut name (fun _ => b) s.

Definition on_allocator {A} (name : string) (b : Block.Block) (m : M Allocator.Allocator Ipam.Error A) : M AllocatorSet CniError A :=
  let '(r, a) := m (Block.allocator b) in
  modify (set_block name (with_allocator a b)) ;; lift (res_map_err IpamE r).

Definition pod_key (i : PodInfo) : string := namespace i +:+ "/" +:+ name i.

(** ** Which pool *)

Definition default_pool (ap : AddressPool) : bool :=
  default false (ap_auto_assign (ap_spec ap)) && bool_decide (ap_type (ap_spec ap) = TPod).

Definition get_pool (i : PodInfo) (pod : Pod) : H string :=
  pool_opt ← match m_annotations (pod_meta pod) !! ADDRESS_POOL_ANNOTATION with
             | Some pool => mret (Some pool)
             | None => ns ← ask (fun t => get_ns E t (namespace i)); mret (m_annotations ns !! ADDRESS_POOL_ANNOTATION)
             end;
  match pool_opt with
  | Some pool => mret pool
  | None =>
      p ← get_st;
      match AllocatorSetInner.auto_assign (allocator (comp p)) with
      | Some pool => mret pool
      | None =>
          l ← ask (list_pools E);
          match List.find default_pool l with
          | Some ap => mret (m_name (ap_meta ap))
          | None => throw DefaultPoolNotFound
          end
      end
  end.

(** ** Addresses *)

Definition get_allocation (i : PodInfo) (c : Inner) : res CniError (option PodAllocation) :=
  match allocation c !! pod_key i with
  | Some alloc => if decide (a_container_id alloc = container_id i) then Ok (Some alloc) else Err AllocationNotFound
  | None => Ok None
  end.

(** [IpNet::new(addr, prefix)] *)
Definition ipnet_new (a : IpAddr) (len : Z) : option IpNet :=
  match a with
  | AV4 x => NV4 <$> net_new x len
  | AV6 x => NV6 <$> net_new x len
  end.

(** The next address of a block, with the prefix length of the block *)
Definition take_next (key : string) (b : Block.Block) (name : string) (i : PodInfo) : M AllocatorSet CniError PodAllocation :=
  let prefix := Allocator.prefix_len (Block.allocator b) in
  a ← on_allocator key b Allocator.allocate_next;
  match ipnet_new a prefix with
  | Some cidr => mret {| a_container_id := container_id i; block := name; addr := cidr |}
  | None => throw (InvalidAddressE (show_addr a +:+ "/" +:+ pretty prefix))
  end.

(** The names of the blocks of the pool, in order *)
Definition block_names (pool : string) (s : AllocatorSet) : list string :=
  sort_names
    (Block.name <$> List.filter (fun b => bool_decide (Block.pool_name b = pool)) (map_to_list (AllocatorSetInner.blocks s)).*2).

Fixpoint allocate_in (i : PodInfo) (names : list string) : M AllocatorSet CniError (option PodAllocation) :=
  match names with
  | [] => mret None
  | n :: names' =>
      s ← get_st;
      match AllocatorSetInner.blocks s !! n with
      | Some b => if Allocator.is_full (Block.allocator b) then allocate_in i names'
                  else a ← take_next n b (Block.name b) i; mret (Some a)
      | None => allocate_in i names'
      end
  end.

Definition allocate (pool : string) (i : PodInfo) : M AllocatorSet CniError (option PodAllocation) :=
  s ← get_st; allocate_in i (block_names pool s).

Definition allocate_with_block (n : string) (i : PodInfo) : M AllocatorSet CniError PodAllocation :=
  s ← get_st;
  match AllocatorSetInner.blocks s !! n with
  | Some b => take_next n b n i
  | None => throw (BlockNotFound n)
  end.

Definition release (n : string) (a : IpAddr) : M AllocatorSet CniError bool :=
  s ← get_st;
  match AllocatorSetInner.blocks s !! n with
  | Some b =>
      on_allocator n b (Allocator.release a) ;;
      s ← get_st;
      match AllocatorSetInner.blocks s !! n with
      | Some b => lift (known (Allocator.is_empty (Block.allocator b)))
      | None => panic
      end
  | None => throw (BlockNotFound n)
  end.

(** The block is looked up by the name of the pool. *)
Definition is_allocated (pool : string) (a : IpAddr) (s : AllocatorSet) : res CniError bool :=
  match AllocatorSetInner.blocks s !! pool with
  | Some b => known (Allocator.is_allocated (Block.allocator b) a)
  | None => Ok false
  end.

Definition get_pod_addr (pod : Pod) : option IpAddr :=
  st ← pod_status pod; ip ← host_ip st; parse_addr ip.

(** ** ADD *)

Definition block_request (pool node : string) : BlockRequest := {|
  br_meta := {| m_name := pool +:+ "-" +:+ node; m_namespace := None; m_uid := None; m_labels := ∅; m_annotations := ∅;
                m_owner_references := [] |};
  br_spec := {| br_pool := pool; br_node := node |};
|}.

(** [receiver.recv().await] *)
Definition wait (p : St) : St :=
  let '(s, q) := meanwhile E (sent p) (allocator (comp p), receiver (comp p)) in set_comp (set_shared s q (comp p)) p.

Definition recv : H AddressBlock :=
  modify wait ;;
  p ← get_st;
  match receiver (comp p) with
  | ab :: q => modify (fun p => set_comp (set_shared (allocator (comp p)) q (comp p)) p) ;; mret ab
  | [] => throw ReceiveNotify
  end.

(** No block has an address: one is requested, and the first block that was
    announced is used. *)
Definition allocate_requested (pool : string) (i : PodInfo) : H PodAllocation :=
  p ← get_st;
  let br := block_request pool (node (comp p)) in
  tell (CreateRequest br) ;;
  created ← recv;
  tell (DeleteRequest (m_name (br_meta br))) ;;
  on_set (allocate_with_block (m_name (ab_meta created)) i).

Definition own_net (n : IpNet) : option IpNet := single (ipnet_addr n).

Definition add (a : Args) : H CniResult :=
  i ← lift (pod_from_str (args a));
  ns ← ns_of (fun t => open_ns E t (netns a));
  pod ← ask (fun t => get_pod E t (namespace i) (name i));
  pool ← get_pool i pod;
  p ← get_st;
  match allocation (comp p) !! pod_key i with
  | Some _ => throw (AlreadyConfigured (pod_key i))
  | None =>
      allocated ← on_set (allocate pool i);
      alloc ← match allocated with Some alloc => mret alloc | None => allocate_requested pool i end;
      modify (fun p => set_comp (set_allocation (<[pod_key i := alloc]> (allocation (comp p))) (comp p)) p) ;;
      host_ns ← ns_of (current_ns E);
      allocated_addr ← lift (match own_net (addr alloc) with Some n => Ok n | None => Panic end);
      setup_links K (Netlink.new (container_id i) CONTAINER_INTERFACE_NAME pool) host_ns ns allocated_addr
        (node_addr (comp p)) CNI_ROUTE_TABLE_ID
  end.

(** ** DEL *)

(** [m] with its error as a value *)
Definition try_run {S E' A} (m : M S E' A) : M S E' (E' + A) := fun s =>
  match m s with
  | (Ok a, s') => (Ok (inr a), s')
  | (Err e, s') => (Ok (inl e), s')
  | (Panic, s') => (Panic, s')
  end.

(** A link or a route that is not there is no error. *)
Definition cleanup_result (r : CniError + CniResult) : res CniError CniResult :=
  match r with
  | inr r => Ok r
  | inl (NetlinkE (LinkNotFound _)) | inl (NetlinkE (RouteNotFound _)) => Ok empty_result
  | inl e => Err e
  end.

Definition container_ns (r : NsError + NetNS) : res CniError (option NetNS) :=
  match r with
  | inr ns => Ok (Some ns)
  | inl (NotExist _) => Ok None
  | inl e => Err (NetNSE e)
  end.

Definition res_sum {E' A} (r : res E' A) : res CniError (E' + A) :=
  match r with Ok a => Ok (inr a) | Err e => Ok (inl e) | Panic => Panic end.

Definition del_links (a : Args) (i : PodInfo) (alloc : PodAllocation) : H CniResult :=
  host_ns ← ns_of (current_ns E);
  p ← get_st;
  opened ← lift (res_sum (open_ns E (sent p) (netns a)));
  ns ← lift (container_ns opened);
  r ← try_run (cleanup_links K (container_id i) host_ns ns (addr alloc) (node_addr (comp p)) CONTAINER_INTERFACE_NAME
                 CNI_ROUTE_TABLE_ID);
  lift (cleanup_result r).

(** The address is released; the block is returned if it is empty then. *)
Definition del_allocation (a : Args) (i : PodInfo) (alloc : PodAllocation) : H (CniResult * option string) :=
  released ← try_run (on_set (release (block alloc) (ipnet_addr (addr alloc))));
  match released with
  | inr is_empty =>
      modify (fun p => set_comp (set_allocation (delete (pod_key i) (allocation (comp p))) (comp p)) p) ;;
      r ← del_links a i alloc;
      mret (r, if (is_empty : bool) then Some (block alloc) else None)
  | inl _ => mret (empty_result, None)
  end.

(** A write whose error is only logged *)
Definition tell_anyway (o : Output) : H unit := try_run (tell o) ;; mret tt.

Definition del_found (a : Args) (i : PodInfo) : H CniResult :=
  p ← get_st;
  let alloc_opt := match get_allocation i (comp p) with Ok o => o | _ => None end in
  '(result, deletable_block) ← match alloc_opt with
                               | Some alloc => del_allocation a i alloc
                               | None => mret (empty_result, None)
                               end;
  match deletable_block with Some b => tell_anyway (DeleteBlock b) | None => mret tt end ;;
  mret result.

Definition del (a : Args) : H CniResult :=
  i ← lift (pod_from_str (args a));
  pod ← ask (fun t => get_pod E t (namespace i) (name i));
  r ← try_run (get_pool i pod);
  match r with
  | inl DefaultPoolNotFound => mret empty_result
  | inl e => throw e
  | inr _ => del_found a i
  end.

(** ** CHECK *)

Definition check (a : Args) : H CniResult :=
  i ← lift (pod_from_str (args a));
  pod ← ask (fun t => get_pod E t (namespace i) (name i));
  pool ← get_pool i pod;
  pod_addr ← lift (match get_pod_addr pod with Some x => Ok x | None => Err PodAddressIsNotFound end);
  p ← get_st;
  alloc_opt ← lift (get_allocation i (comp p));
  match alloc_opt with
  | None => throw AllocationNotFound
  | Some alloc =>
      if decide (ipnet_addr (addr alloc) = pod_addr) then
        b ← lift (is_allocated pool (ipnet_addr (addr alloc)) (allocator (comp p)));
        if (b : bool) then mret empty_result else throw AllocationNotFound
      else throw AddressNotMatched
  end.

(** ** Recovery *)

(** The blocks of each pool *)
Definition push_block (m : gmap string (list string)) (ab : AddressBlock) : gmap string (list string) :=
  if decide (ab_type (ab_spec ab) = TPod) then
    match m !! pool_ref (ab_spec ab) with
    | Some l => <[pool_ref (ab_spec ab) := l ++ [m_name (ab_meta ab)]]> m
    | None => <[pool_ref (ab_spec ab) := [m_name (ab_meta ab)]]> m
    end
  else m.

Definition register_block (ab : AddressBlock) : M AllocatorSet CniError unit :=
  s ← get_st;
  match AllocatorSetInner.get s (m_name (ab_meta ab)) with
  | Some _ => mret tt
  | None =>
      cidr ← lift (match parse_net (ab_cidr (ab_spec ab)) with
                   | Some c => Ok c
                   | None => Err (InvalidAddressE (ab_cidr (ab_spec ab)))
                   end);
      b ← lift (res_map_err IpamE (Block.new (m_name (ab_meta ab)) (pool_ref (ab_spec ab)) cidr));
      map_err IpamE (AllocatorSetInner.insert b false) ;;
      mret tt
  end.

(** The first block that contains the address takes it. *)
Fixpoint recover_in (a : IpAddr) (names : list string) : M AllocatorSet CniError unit :=
  match names with
  | [] => mret tt
  | n :: names' =>
      s ← get_st;
      match AllocatorSetInner.blocks s !! n with
      | Some b =>
          if ipnet_contains (Allocator.cidr (Block.allocator b)) a
          then on_allocator n b (Allocator.allocate a true) ;; mret tt
          else recover_in a names'
      | None => recover_in a names'
      end
  end.

Definition recover_link (pools : gmap string (list string)) (route4 route6 : gmap string IpAddr)
    (l : string * ContainerLinkInfo) : M AllocatorSet CniError unit :=
  match match route4 !! l.1 with Some a => Some a | None => route6 !! l.1 end with
  | Some a => match pools !! pool l.2 with Some names => recover_in a names | None => mret tt end
  | None => mret tt
  end.

Definition localhost : IpAddr := AV4 2130706433.
Definition fe80 : IpAddr := AV6 (65152 * 2 ^ 112 + 1).

(** [iter] is the order in which the links are visited. *)
Definition recover (iter : gmap string ContainerLinkInfo -> list (string * ContainerLinkInfo)) : H unit :=
  link_list ← nl (Netlink.link_list K);
  p ← get_st;
  route4 ← nl (route_list K localhost (table (comp p)));
  route6 ← nl (route_list K fe80 (table (comp p)));
  blocks ← ask (fun t => list_blocks E t (node (comp p)));
  let pools := foldl push_block ∅ blocks in
  on_set (for_each register_block blocks ;; for_each (recover_link pools route4 route6) (iter link_list)).

(** ** The start of the server *)

(** [.unwrap()] *)
Definition unwrap {A} (m : H A) : H A := fun p =>
  match m p with
  | (Ok a, p') => (Ok a, p')
  | (_, p') => (Panic, p')
  end.

Definition ensure_rule (a : IpAddr) : H unit :=
  r ← unwrap (nl (get_rule K CNI_ROUTE_TABLE_ID a));
  match r with Some _ => mret tt | None => unwrap (nl (add_rule K CNI_ROUTE_TABLE_ID a)) end.

(** What [run] does before it serves *)
Definition start (iter : gmap string ContainerLinkInfo -> list (string * ContainerLinkInfo)) : H unit :=
  ensure_rule localhost ;; ensure_rule fe80 ;; unwrap (recover iter).

(** ** Errors on the wire *)

(** The errors of the [rscni] crate the code builds *)
Inductive RsError : Type :=
| Custom (code : Z) (msg details : string)
| IncompatibleVersion (d : string)
| UnsupportedNetworkConfiguration (d : string)
| RsNotExist (d : string)
| InvalidEnvValue (d : string)
| IOFailure (d : string)
| FailedToDecode (d : string)
| InvalidNetworkConfig (d : string)
| TryAgainLater (d : string).

Record CNIErrorDetail : Type := { code : Z; msg : string; details : string }.

Definition error_from_detail (res : CNIErrorDetail) : RsError :=
  if 100 <? code res then Custom (code res) (msg res) (details res)
  else match code res with
       | 1 => IncompatibleVersion (details res)
       | 2 => UnsupportedNetworkConfiguration (details res)
       | 3 => RsNotExist (details res)
       | 4 => InvalidEnvValue (details res)
       | 5 => IOFailure (details res)
       | 6 => FailedToDecode (details res)
       | 7 => InvalidNetworkConfig (details res)
       | 11 => TryAgainLater (details res)
       | _ => FailedToDecode ("unknown error code: " +:+ pretty (code res))
       end.

Definition CNI_ERROR_CODE_KUBE : Z := 200.
Definition CNI_ERROR_CODE_INTERNAL : Z := 210.
Definition CNI_ERROR_CODE_ALLOCATOR : Z := 220.
Definition CNI_ERROR_CODE_NETWORK_CONFIG : Z := 230.
Definition CNI_ERROR_CODE_IPAM : Z := 240.
Definition CNI_ERROR_CODE_NETNS : Z := 250.
Definition CNI_ERROR_CODE_NETLINK : Z := 260.

(** The text of an error of a library is a parameter. *)
Definition error_from (text : CniError -> string) (e : CniError) : RsError :=
  match e with
  | AddressNotMatched => Custom CNI_ERROR_CODE_NETWORK_CONFIG "Network configuration error" "Addresses don't match"
  | AllocationNotFound => Custom CNI_ERROR_CODE_ALLOCATOR "Allocation error" "Allocation not found"
  | BlockNotFound d => Custom CNI_ERROR_CODE_ALLOCATOR "Allocation error" d
  | DefaultPoolNotFound => TryAgainLater "default pool is not found"
  | AlreadyConfigured key => Custom CNI_ERROR_CODE_INTERNAL "Internal error" key
  | InvalidAddressE d => Custom CNI_ERROR_CODE_NETWORK_CONFIG "Network configuration error" d
  | IpamE _ => Custom CNI_ERROR_CODE_IPAM "Ipam error" (text e)
  | KubeE => Custom CNI_ERROR_CODE_KUBE "Kubernetes error" (text e)
  | LockE => Custom CNI_ERROR_CODE_INTERNAL "Internal error" "Failed to get lock"
  | MissingField d => Custom CNI_ERROR_CODE_INTERNAL "Internal error" d
  | NetNSE _ => Custom CNI_ERROR_CODE_NETNS "NetNS error" (text e)
  | NetlinkE _ => Custom CNI_ERROR_CODE_NETLINK "Netlink error" (text e)
  | PodAddressIsNotFound => Custom CNI_ERROR_CODE_INTERNAL "Internal error" "Pod address is not found"
  | ReceiveNotify => Custom CNI_ERROR_CODE_INTERNAL "Internal error" "Failed to receive notification"
  end.

(** A command as it is served: [to_detail] gives the code, the message and the
    details of an error of [rscni]. *)
Definition serve (to_detail : RsError -> CNIErrorDetail) (text : CniError -> string) (cmd : string) (m : H CniResult) :
    M St CNIErrorDetail CniResult := fun p =>
  match m p with
  | (Ok r, p') => (Ok r, push (CniCall cmd) p')
  | (Err e, p') => let d := to_detail (error_from text e) in (Err d, push (CniErrors cmd (code d)) p')
  | (Panic, p') => (Panic, p')
  end.
End defs.
End CniServer.

Module Gc.
Import Kube Netlink.

#[local] Abbreviation AllocatorSet := AllocatorSetInner.AllocatorSetInner.

Inductive GarbageCollectorMarker : Type := Unused | Deleted.

#[global] Instance marker_eq_dec : EqDecision GarbageCollectorMarker.
Proof. solve_decision. Defined.

Section defs.
Context {I : IpNetApi} {P : Profile}.

(** [GarbageCollector], with the blocks it shares with the server; the field
    [pods] is never used. *)
Record Collector : Type := { gc_allocator : AllocatorSet; gc_node : string; gc_blocks : gmap string GarbageCollectorMarker }.

Definition set_markers (m : gmap string GarbageCollectorMarker) (g : Collector) : Collector :=
  {| gc_allocator := gc_allocator g; gc_node := gc_node g; gc_blocks := m |}.

#[local] Abbreviation St := (Proc Collector Output).
#[local] Abbreviation H := (M St Error).

Context (list_blocks : list Output -> string -> option (list AddressBlock)).
Context (get_block : list Output -> string -> option (option AddressBlock)).
Context (accepts : list Output -> Output -> bool).

#[local] Abbreviation Marks := (gmap string GarbageCollectorMarker * gset string)%type.

(** A block that is not in use: it is marked, or its mark says to delete it. *)
Definition mark_unused (old : gmap string GarbageCollectorMarker) (n : string) (acc : Marks) : Marks :=
  match old !! n with
  | Some Unused => (<[n := Deleted]> acc.1, acc.2)
  | Some Deleted => acc
  | None => (<[n := Unused]> acc.1, acc.2)
  end.

Definition mark_block (old : gmap string GarbageCollectorMarker) (acc : Marks) (nb : string * Block.Block) : res Error Marks :=
  e ← known (Allocator.is_empty (Block.allocator nb.2));
  mret (if (e : bool) then mark_unused old nb.1 acc else (acc.1, {[nb.1]} ∪ acc.2)).

(** A block of the API server: the one in memory is marked under its own name. *)
Definition mark_object (s : AllocatorSet) (old : gmap string GarbageCollectorMarker) (acc : Marks) (ab : AddressBlock) : res Error Marks :=
  match AllocatorSetInner.blocks s !! m_name (ab_meta ab) with
  | Some b => mark_block old acc (Block.name b, b)
  | None => Ok (mark_unused old (m_name (ab_meta ab)) acc)
  end.

Fixpoint res_fold {E A B} (f : B -> A -> res E B) (l : list A) (b : B) : res E B :=
  match l with [] => Ok b | x :: l' => b' ← f b x; res_fold f l' b' end.

(** The markers after both loops *)
Definition marks (iter : gmap string Block.Block -> list (string * Block.Block)) (l : list AddressBlock) (g : Collector) :
    res Error (gmap string GarbageCollectorMarker) :=
  let s := gc_allocator g in
  acc ← res_fold (mark_object s (gc_blocks g)) l (∅, ∅);
  '(unused, used) ← res_fold (mark_block (gc_blocks g)) (iter (AllocatorSetInner.blocks s)) acc;
  mret (filter (fun kv => kv.1 ∉ used) (unused ∪ gc_blocks g)).

(** One marked block: whether it was deleted *)
Definition collect (n : string) : M St Error bool :=
  p ← get_st;
  match get_block (sent p) n with
  | Some (Some _) => modify (push (DeleteBlock n)) ;; mret (accepts (sent p) (DeleteBlock n))
  | _ => mret false
  end.

Definition collect_marked (acc : list string) (kv : string * GarbageCollectorMarker) : M St Error (list string) :=
  if decide (kv.2 = Deleted) then d ← collect kv.1; mret (if (d : bool) then acc ++ [kv.1] else acc) else mret acc.

(** A tick; [iter] and [iter_marks] are the orders in which maps are visited. *)
Definition tick (iter : gmap string Block.Block -> list (string * Block.Block))
    (iter_marks : gmap string GarbageCollectorMarker -> list (string * GarbageCollectorMarker)) : H unit :=
  p ← get_st;
  match list_blocks (sent p) (gc_node (comp p)) with
  | None => mret tt
  | Some l =>
      m ← lift (marks iter l (comp p));
      modify (fun p => set_comp (set_markers m (comp p)) p) ;;
      deleted ← for_fold collect_marked (iter_marks m) [];
      modify (fun p => set_comp (set_markers (foldl (fun m n => delete n m) (gc_blocks (comp p)) deleted) (comp p)) p)
  end.
End defs.
End Gc.
