(* ===== verification/CniFacts.v ===== *)
(** * The addresses of the pods of a node

    The blocks in the memory of an agent as sets of addresses; what ADD, DEL, the
    recovery and the controller of the blocks do to them; that no two pods of a
    node have the same address, and that DEL gives back what ADD took. *)

From S2P Require Import Prelude.
From S2P Require Import Net.
From S2P Require Import NetText.
From S2P Require Import IpamBitset.
From S2P Require Import IpamAllocator.
From S2P Require Import IpamManager.
From S2P Require Import KubeApi.
From S2P Require Import KubeBgpApi.
From S2P Require Import KubeAdvertise.
From S2P Require Import AgentBlock.
From S2P Require Import CniLink.
From S2P Require Import CniServer.

Module CniFacts.
Import Kube Netlink PodLinks CniServer.
Import BitAllocator(cidr_size, addr_at, index_of, repr, spec_step, run_op, OAllocate, ONext, ORelease).

#[local] Abbreviation AllocatorSet := AllocatorSetInner.AllocatorSetInner.
#[local] Abbreviation blocks := AllocatorSetInner.blocks.

Section blocks.
Context {I : IpNetApi} {L : IpNetLaws} {P : Profile}.

Definition block_cidr (b : Block.Block) : IpNet := Allocator.cidr (Block.allocator b).

(** The block has handed out exactly the addresses of the set. *)
Record has (b : Block.Block) (H : gset IpAddr) : Prop := {
  has_repr : repr (Allocator.unBit (Block.allocator b)) H (Z.of_nat (size H));
  has_size : cidr_size (block_cidr b) <= 2 ^ 32;
}.

Lemma has_contained b H x : has b H -> x ∈ H -> ipnet_contains (block_cidr b) x = true.
Proof. intros [R _] Hx. by apply (BitAllocator.r_mem _ _ _ R) in Hx as [? _]. Qed.

Lemma has_unique b H H' : has b H -> has b H' -> H = H'.
Proof.
  intros [R _] [R' _]. apply set_eq. intros x. by rewrite (BitAllocator.r_mem _ _ _ R), (BitAllocator.r_mem _ _ _ R').
Qed.

Lemma has_bound b H : has b H -> Z.of_nat (size H) <= cidr_size (block_cidr b).
Proof.
  intros Hb. pose proof (has_contained b H) as Hin. revert Hin. generalize (block_cidr b). intros c Hin.
  pose proof (BitAllocator.cidr_size_pos c) as Hpos.
  assert (Hsub : H ⊆ list_to_set (addr_at c <$> seqZ 0 (cidr_size c))).
  { intros x Hx. apply elem_of_list_to_set, list_elem_of_fmap.
    apply (Hin _ Hb), BitAllocator.contains_index in Hx as [Hi Hx].
    exists (index_of c x). split; [done|]. apply elem_of_seqZ. lia. }
  apply subseteq_size in Hsub. rewrite size_list_to_set in Hsub.
  - rewrite length_fmap, length_seqZ in Hsub. lia.
  - apply NoDup_fmap_2; [|apply NoDup_seqZ]. intros i j Hij.
    apply (f_equal (index_of c)) in Hij. by rewrite !BitAllocator.index_of_addr_at in Hij.
Qed.

(** An operation of the allocator of a block that has [H] *)
Lemma has_step b H o : has b H ->
  exists r a' H' n', Allocator.on_bit (run_op o) (Block.allocator b) = (r, a') /\
    spec_step (block_cidr b) H (Z.of_nat (size H)) o r H' n' /\
    repr (Allocator.unBit a') H' n' /\ Allocator.cidr a' = block_cidr b.
Proof.
  intros Hb. pose proof (has_bound _ _ Hb). destruct Hb as [R Hs]. unfold block_cidr, Allocator.cidr in *.
  destruct (BitAllocator.simulation _ _ _ o R ltac:(lia)) as (r & a' & H' & n' & Hrun & Hst & R' & Hc).
  exists r, (Allocator.Bit a'), H', n'. split_and!; [|done..]. unfold Allocator.on_bit, zoom. by rewrite Hrun.
Qed.

Lemma has_with b a' H' : cidr_size (block_cidr b) <= 2 ^ 32 -> repr (Allocator.unBit a') H' (Z.of_nat (size H')) ->
  Allocator.cidr a' = block_cidr b -> has (with_allocator a' b) H' /\ block_cidr (with_allocator a' b) = block_cidr b.
Proof. intros Hs R Hc. unfold block_cidr at 2. cbn. split; [|done]. split; [done|]. unfold block_cidr. cbn. by rewrite Hc. Qed.

Lemma size_add (x : IpAddr) (H : gset IpAddr) : (x ∉ H) -> Z.of_nat (size ({[x]} ∪ H)) = Z.of_nat (size H) + 1.
Proof. intros Hx. rewrite size_union, size_singleton by set_solver. lia. Qed.

Lemma has_next b H : has b H ->
  (exists x a', Allocator.allocate_next (Block.allocator b) = (Ok x, a') /\ (x ∉ H) /\
     ipnet_contains (block_cidr b) x = true /\
     has (with_allocator a' b) ({[x]} ∪ H) /\ block_cidr (with_allocator a' b) = block_cidr b) \/
  (exists e a', Allocator.allocate_next (Block.allocator b) = (Err e, a') /\
     has (with_allocator a' b) H /\ block_cidr (with_allocator a' b) = block_cidr b).
Proof.
  intros Hb. destruct (has_step b H ONext Hb) as (r & a' & H' & n' & Hrun & Hst & R & Hc).
  change (Allocator.on_bit (run_op ONext)) with Allocator.allocate_next in Hrun.
  inversion Hst as [| | |i Hi Hfree Hlow|Hfull| | |]; subst; [left|right].
  - rewrite <-(size_add (addr_at (block_cidr b) i)) in R by done. destruct (has_with b a' _ (has_size _ _ Hb) R Hc) as [Hh Hcc].
    exists (addr_at (block_cidr b) i), a'. split_and!; try done. by apply BitAllocator.addr_at_contains.
  - destruct (has_with b a' _ (has_size _ _ Hb) R Hc) as [Hh Hcc]. by exists Ipam.Full, a'.
Qed.

Lemma has_release b H x : has b H -> x ∈ H ->
  exists a', Allocator.release x (Block.allocator b) = (Ok x, a') /\
    has (with_allocator a' b) (H ∖ {[x]}) /\ block_cidr (with_allocator a' b) = block_cidr b.
Proof.
  intros Hb Hx. pose proof (has_contained _ _ _ Hb Hx) as Hc0.
  assert (Hpos : size H <> 0%nat) by (intros Hz; apply size_empty_inv in Hz; set_solver).
  destruct (has_step b H (ORelease x) Hb) as (r & a' & H' & n' & Hrun & Hst & R & Hc).
  change (Allocator.on_bit (run_op (ORelease x))) with (Allocator.release x) in Hrun.
  inversion Hst; subst; try (exfalso; first [congruence|lia]).
  assert (Z.of_nat (size H) - 1 = Z.of_nat (size (H ∖ {[x]}))) as Hn.
  { rewrite size_difference, size_singleton by set_solver. lia. }
  rewrite Hn in R. exists a'. split; [done|]. apply has_with; [apply Hb|done|done].
Qed.

Lemma has_force b H x : has b H -> (x ∉ H) -> ipnet_contains (block_cidr b) x = true ->
  exists a', Allocator.allocate x true (Block.allocator b) = (Ok x, a') /\
    has (with_allocator a' b) ({[x]} ∪ H) /\ block_cidr (with_allocator a' b) = block_cidr b.
Proof.
  intros Hb Hx Hcx. destruct (has_step b H (OAllocate x true) Hb) as (r & a' & H' & n' & Hrun & Hst & R & Hc).
  change (Allocator.on_bit (run_op (OAllocate x true))) with (Allocator.allocate x true) in Hrun.
  inversion Hst; subst; try congruence. rewrite <-(size_add x) in R by done.
  exists a'. split; [done|]. apply has_with; [apply Hb|done|done].
Qed.

Lemma has_new name pool cidr b : Block.new name pool cidr = Ok b ->
  has b ∅ /\ block_cidr b = cidr /\ Block.name b = name /\ Block.pool_name b = pool.
Proof.
  unfold Block.new, Allocator.new. intros Hb.
  assert (Hb' : cidr_size cidr <= 2 ^ 32 /\ b = Block.mkBlock name pool (Allocator.Bit (BitAllocator.new cidr))).
  { destruct cidr as [c|c]; cbn in Hb |- *.
    - injection Hb as <-. split; [|done]. pose proof (net_prefix_len_range c).
      apply Z.pow_le_mono_r; lia.
    - destruct (_ <? _) eqn:Hl; [done|]. injection Hb as <-. split; [|done]. apply Z.ltb_ge in Hl.
      apply Z.pow_le_mono_r; [lia|]. unfold Allocator.MAX_SIZE in Hl. lia. }
  destruct Hb' as [Hs ->]. split_and!; [|by destruct cidr..]. split; [|by destruct cidr].
  rewrite size_empty. cbn. apply BitAllocator.repr_new. lia.
Qed.

(** *** [is_empty] *)

(** The answer of [is_empty] is right: overflow is checked, or the addresses of
    the block fit one word. *)
Definition exact (c : IpNet) : Prop := overflow_checks = true \/ BitSet.words_for (cidr_size c) = 1.

Lemma is_empty_exact bs e : BitSet.wf bs -> overflow_checks = true \/ BitSet.words_for (BitSet.size bs) = 1 ->
  BitSet.is_empty bs = Ok e -> e = true <-> forall i, 0 <= i -> BitSet.mem bs i = false.
Proof.
  intros Hwf [Hov|Hw] He.
  - destruct P as [[]]; [|done]. by apply BitSet.is_empty_debug_spec.
  - rewrite BitSet.all_clear_words by done. destruct Hwf as [Hsz Hlen Hws]. rewrite Hw in Hlen.
    destruct (BitSet.inner bs) as [|w [|? ?]] eqn:Hin; cbn in Hlen; [lia| |lia].
    unfold BitSet.is_empty, BitSet.sum_words in He. rewrite Hin in He. cbn in He.
    inversion Hws as [|? ? Hw0 _]; subst.
    change (0 + w) with w in He. rewrite ovf_small in He by done. injection He as <-. rewrite Forall_singleton, Z.eqb_eq. done.
Qed.

Lemma has_is_empty b H : has b H -> exact (block_cidr b) -> Allocator.is_empty (Block.allocator b) = Ok true -> H = ∅.
Proof.
  intros [R _] Hex He. unfold Allocator.is_empty, BitAllocator.is_empty in He.
  destruct (is_empty_exact _ true (BitAllocator.r_wf _ _ _ R)) as [Hc _]; [|done|].
  { unfold exact, block_cidr, Allocator.cidr in Hex. by rewrite (BitAllocator.r_size _ _ _ R). }
  specialize (Hc eq_refl). apply set_eq. intros x. rewrite (BitAllocator.r_mem _ _ _ R). split; [|set_solver].
  intros [Hx Hm]. apply BitAllocator.contains_index in Hx as [Hi _]. rewrite Hc in Hm by lia. done.
Qed.

(** *** The set of blocks *)

(** Every block is filed under its name, no address belongs to two blocks, and
    [is_empty] can be relied on. *)
Record blocks_ok (s : AllocatorSet) : Prop := {
  bk_has n b : blocks s !! n = Some b -> exists H, has b H;
  bk_name n b : blocks s !! n = Some b -> Block.name b = n;
  bk_exact n b : blocks s !! n = Some b -> exact (block_cidr b);
  bk_disjoint n m b b' x : blocks s !! n = Some b -> blocks s !! m = Some b' ->
    ipnet_contains (block_cidr b) x = true -> ipnet_contains (block_cidr b') x = true -> n = m;
}.

(** The block of the name has handed out the address. *)
Definition held (s : AllocatorSet) (n : string) (x : IpAddr) : Prop :=
  exists b H, blocks s !! n = Some b /\ has b H /\ x ∈ H.

Lemma held_in s n b H x : blocks s !! n = Some b -> has b H -> held s n x <-> x ∈ H.
Proof.
  intros Hn Hb. split; [|intros Hx; by exists b, H]. intros (b' & H' & Hn' & Hb' & Hx).
  rewrite Hn in Hn'. injection Hn' as <-. by rewrite (has_unique _ _ _ Hb Hb').
Qed.

Lemma held_once s n m x : blocks_ok s -> held s n x -> held s m x -> n = m.
Proof.
  intros Hs (b & H & Hn & Hb & Hx) (b' & H' & Hm & Hb' & Hx').
  eapply bk_disjoint; eauto using has_contained.
Qed.

Lemma lookup_pod_block s n b m : is_Some (blocks s !! n) ->
  blocks (set_block n b s) !! m = if decide (n = m) then Some b else blocks s !! m.
Proof. intros [b0 Hn]. cbn. rewrite lookup_alter. case_decide; [subst; by rewrite Hn|done]. Qed.

Lemma replace_block s n b b' H' : blocks_ok s -> blocks s !! n = Some b -> has b' H' ->
  block_cidr b' = block_cidr b -> Block.name b' = Block.name b ->
  blocks_ok (set_block n b' s) /\
  (forall m x, held (set_block n b' s) m x <-> if decide (n = m) then x ∈ H' else held s m x).
Proof.
  intros Hs Hn Hb' Hc Hnm. assert (Hl : forall m, blocks (set_block n b' s) !! m = if decide (n = m) then Some b' else blocks s !! m).
  { intros m. apply lookup_pod_block. by rewrite Hn. }
  split.
  - destruct Hs as [S1 S2 S3 S4]. split.
    + intros m c. rewrite Hl. case_decide; [intros [= <-]; eauto|apply S1].
    + intros m c. rewrite Hl. case_decide; [intros [= <-]; subst; rewrite Hnm; auto|apply S2].
    + intros m c. rewrite Hl. case_decide; [intros [= <-]; subst; rewrite Hc; eauto|apply S3].
    + intros m k c c' x. rewrite !Hl.
      destruct (decide (n = m)) as [<-|], (decide (n = k)) as [<-|]; naive_solver congruence.
  - intros m x. case_decide as Hd.
    + apply (held_in _ _ b'); [|done]. by rewrite Hl, decide_True.
    + unfold held. rewrite Hl, decide_False by done. done.
Qed.

(** The address with the prefix length of the network it is in *)
Lemma net_of_contained c x : ipnet_contains c x = true ->
  exists n, ipnet_new x (ipnet_prefix_len c) = Some n /\ ipnet_addr n = x /\ ipnet_prefix_len n = ipnet_prefix_len c.
Proof.
  assert (Hv : forall w (N : NetApi w) (NL : NetLaws w) (c : Net w) (a : Z), net_contains c a = true ->
    exists n, net_new a (net_prefix_len c) = Some n /\ net_addr n = a /\ net_prefix_len n = net_prefix_len c).
  { intros w N NL d a Ha. rewrite net_contains_spec, bool_decide_eq_true in Ha. pose proof (net_network_range d).
    apply net_new_ok; [split; lia|apply net_prefix_len_range]. }
  destruct c as [c|c], x as [a|a]; cbn [ipnet_new ipnet_prefix_len ipnet_addr];
    rewrite ?ipnet_contains_v4, ?ipnet_contains_46, ?ipnet_contains_64, ?ipnet_contains_v6; try done;
    intros Ha; [apply (Hv 32 _ _) in Ha as (n & Hn & Hna & Hnl)|apply (Hv 128 _ _) in Ha as (n & Hn & Hna & Hnl)].
  - exists (NV4 n). rewrite Hn. cbn. by rewrite Hna, Hnl.
  - exists (NV6 n). rewrite Hn. cbn. by rewrite Hna, Hnl.
Qed.

(** An allocation that was made at [s] and is in [s']: its address was free. *)
Definition taken (s s' : AllocatorSet) (a : PodAllocation) : Prop :=
  held s' (block a) (ipnet_addr (addr a)) /\ (forall n, ~ held s n (ipnet_addr (addr a))).

Definition grows (s s' : AllocatorSet) : Prop := forall n x, held s n x -> held s' n x.

End blocks.

Section server.
Context {I : IpNetApi} {L : IpNetLaws} {T : TextApi} {P : Profile}.

Lemma take_next_run s n b i : blocks_ok s -> blocks s !! n = Some b ->
  (exists a s', take_next n b n i s = (Ok a, s') /\ a_container_id a = container_id i /\ block a = n /\
     ipnet_prefix_len (addr a) = ipnet_prefix_len (block_cidr b) /\
     blocks_ok s' /\ taken s s' a /\
     (forall m x, held s' m x <-> held s m x \/ (m = n /\ x = ipnet_addr (addr a)))) \/
  (exists e s', take_next n b n i s = (Err e, s') /\ blocks_ok s' /\ (forall m x, held s' m x <-> held s m x)).
Proof.
  intros Hs Hn. destruct (bk_has _ Hs _ _ Hn) as [H Hb]. unfold take_next, on_allocator. mred.
  destruct (has_next b H Hb) as [(x & a' & -> & Hx & Hcx & Hb' & Hc')|(e & a' & -> & Hb' & Hc')]; mred; [left|right].
  - destruct (net_of_contained _ _ Hcx) as (c & Hnew & Haddr & Hlen).
    unfold Allocator.prefix_len, BitAllocator.prefix_len. change (BitAllocator.cidr (Allocator.unBit (Block.allocator b))) with (block_cidr b).
    rewrite Hnew. destruct (replace_block s n b _ _ Hs Hn Hb' Hc' eq_refl) as [Hs' Hheld].
    assert (Hh : forall m y, held (set_block n (with_allocator a' b) s) m y <-> held s m y \/ (m = n /\ y = x)).
    { intros m y. rewrite Hheld. case_decide as Hd; [|naive_solver]. subst m. rewrite (held_in s n b H) by done. set_solver. }
    eexists _, _. split_and!; [done|done|done|done|done| |cbn [addr]; by rewrite Haddr].
    split; cbn [addr block]; rewrite Haddr; [apply Hh; by right|].
    intros m Hm. assert (m = n) as ->.
    { destruct Hm as (b2 & H2 & Hm & Hb2 & Hx2). apply (bk_disjoint s Hs m n b2 b x); eauto using has_contained. }
    by apply (held_in s n b H) in Hm.
  - destruct (replace_block s n b _ _ Hs Hn Hb' Hc' eq_refl) as [Hs' Hheld].
    eexists _, _. split_and!; [done|done|]. intros m y. rewrite Hheld. case_decide; [|done]. subst. by rewrite (held_in s m b H).
Qed.

Lemma allocate_in_run names s i : blocks_ok s ->
  match allocate_in i names s with
  | (Ok None, s') => s' = s
  | (Ok (Some a), s') => blocks_ok s' /\ taken s s' a /\ a_container_id a = container_id i /\
      (exists b, blocks s !! block a = Some b /\ ipnet_prefix_len (addr a) = ipnet_prefix_len (block_cidr b)) /\
      (forall m x, held s' m x <-> held s m x \/ (m = block a /\ x = ipnet_addr (addr a)))
  | (Err _, s') => blocks_ok s' /\ (forall m x, held s' m x <-> held s m x)
  | (Panic, _) => False
  end.
Proof.
  intros Hs. induction names as [|n names IH]; [done|]. cbn [allocate_in]. rewrite bind_get.
  destruct (blocks s !! n) as [b|] eqn:Hn; [|done]. destruct (Allocator.is_full _); [done|].
  rewrite (bk_name _ Hs _ _ Hn).
  destruct (take_next_run s n b i Hs Hn) as [(a & s' & Hr & Hid & Hbl & Hlen & Hs' & Ht & Hh)|(e & s' & Hr & Hs' & Hh)];
    unfold mbind, M_bind; rewrite Hr; cbn; [|done].
  rewrite Hbl. split_and!; try done. by exists b.
Qed.

Lemma pod_allocate_run pool s i : blocks_ok s ->
  match allocate pool i s with
  | (Ok None, s') => s' = s
  | (Ok (Some a), s') => blocks_ok s' /\ taken s s' a /\ a_container_id a = container_id i /\
      (exists b, blocks s !! block a = Some b /\ ipnet_prefix_len (addr a) = ipnet_prefix_len (block_cidr b)) /\
      (forall m x, held s' m x <-> held s m x \/ (m = block a /\ x = ipnet_addr (addr a)))
  | (Err _, s') => blocks_ok s' /\ (forall m x, held s' m x <-> held s m x)
  | (Panic, _) => False
  end.
Proof. intros Hs. unfold allocate. rewrite bind_get. by apply allocate_in_run. Qed.

Lemma allocate_with_block_run n s i : blocks_ok s ->
  match allocate_with_block n i s with
  | (Ok a, s') => blocks_ok s' /\ taken s s' a /\ a_container_id a = container_id i /\
      (forall m x, held s' m x <-> held s m x \/ (m = block a /\ x = ipnet_addr (addr a)))
  | (Err _, s') => blocks_ok s' /\ (forall m x, held s' m x <-> held s m x)
  | (Panic, _) => False
  end.
Proof.
  intros Hs. unfold allocate_with_block. rewrite bind_get. destruct (blocks s !! n) as [b|] eqn:Hn; [|done].
  destruct (take_next_run s n b i Hs Hn) as [(a & s' & Hr & Hid & Hbl & Hlen & Hs' & Ht & Hh)|(e & s' & Hr & Hs' & Hh)];
    rewrite Hr; [|done]. by rewrite Hbl.
Qed.

(** A release of an address that is held: it is free then, and only it. *)
Lemma pod_release_run n x s : blocks_ok s -> held s n x ->
  exists s', blocks_ok s' /\ (forall m y, held s' m y <-> held s m y /\ ~ (m = n /\ y = x)) /\
    (release n x s).2 = s' /\ forall e, (release n x s).1 <> Err e.
Proof.
  intros Hs (b & H & Hn & Hb & Hx). unfold release. rewrite bind_get, Hn.
  destruct (has_release b H x Hb Hx) as (a' & Hr & Hb' & Hc').
  destruct (replace_block s n b _ _ Hs Hn Hb' Hc' eq_refl) as [Hs' Hheld].
  exists (set_block n (with_allocator a' b) s). split; [done|]. split.
  { intros m y. rewrite Hheld. case_decide as Hd; [subst m; rewrite (held_in s n b H) by done|]; set_solver. }
  unfold on_allocator. unfold mbind at 1, M_bind at 1. cbv zeta. unfold mbind, M_bind. rewrite Hr. cbn -[set_block].
  rewrite lookup_pod_block, decide_True by (done || by rewrite Hn). cbn.
  by destruct (Allocator.is_empty a').
Qed.

(** ** The commands *)

#[local] Abbreviation St := (Proc Inner Output).
#[local] Abbreviation H := (M St CniError).

(** An action that only sends *)
Definition still {E A} (m : M St E A) : Prop := forall c, maintains (fun p => comp p = c) m.

Lemma still_connect K : still (connect K).
Proof. unfold still, connect. intros c. keep; auto. Qed.
Lemma still_dump {A} (f : list Output -> Stream A) : still (dump f).
Proof. unfold still, dump. intros c. keep; auto. Qed.
Lemma still_execute K e r : still (execute K e r).
Proof. unfold still, execute. intros c. keep; auto. Qed.
Lemma still_enter K ns : still (enter K ns).
Proof. unfold still, enter. intros c. keep; auto. Qed.
Lemma still_ask {A} (f : list Output -> option A) : still (ask f).
Proof. unfold still, ask. intros c. keep; auto. Qed.
Lemma still_tell E o : still (tell E o).
Proof. unfold still, tell. intros c. keep; auto. Qed.
Lemma still_ns_of f : still (ns_of f).
Proof. unfold still, ns_of. intros c. keep; auto. Qed.
Lemma still_try {S E' A} (J : S -> Prop) (m : M S E' A) : maintains J m -> maintains J (try_run m).
Proof.
  intros Hm s r s' Hs Hr. unfold try_run in Hr. destruct (m s) as [[a|e|] s1] eqn:E1; injection Hr as <- <-; by eapply Hm.
Qed.

#[local] Hint Resolve still_connect still_dump still_execute still_enter still_ask still_tell still_ns_of : core.

Ltac quiet := intros ?; keep; unfold still in *; auto.

Lemma still_index K name : still (get_link_index_by_name K name).
Proof. unfold get_link_index_by_name. quiet; apply still_dump. Qed.
#[local] Hint Resolve still_index : core.

Lemma still_setup K info h c a x t : still (setup_links K info h c a x t).
Proof.
  unfold setup_links, nl, add_veth_pair, move_netns, link_up, get_link_mac, set_alias, add_addr, add_route_in_table, add_route.
  intros st. keep; first [apply still_connect|apply still_dump|apply still_execute|apply still_enter|apply still_index].
Qed.

Lemma still_cleanup K i h c a x n t : still (cleanup_links K i h c a x n t).
Proof.
  unfold cleanup_links, nl, get_link_mac, del_route_in_table, delete_found, del_link.
  intros st. keep; first [apply still_connect|apply still_dump|apply still_execute|apply still_enter|apply still_index].
Qed.

Lemma still_get_pool E i pod : still (get_pool E i pod).
Proof. unfold get_pool. intros st. keep; apply still_ask. Qed.

(** *** What is true of a node *)

(** Every pod holds its address in its block, and no two pods hold the same one. *)
Record node_ok (c : Inner) : Prop := {
  nk_blocks : blocks_ok (allocator c);
  nk_held k a : allocation c !! k = Some a -> held (allocator c) (block a) (ipnet_addr (addr a));
  nk_own k k' a a' : allocation c !! k = Some a -> allocation c !! k' = Some a' ->
    ipnet_addr (addr a) = ipnet_addr (addr a') -> k = k';
}.

(** From a good node that satisfies [Pre] the action, unless it panics, leads to a
    good node, and its result satisfies [Q]. *)
Definition triple {A} (Pre : Inner -> Prop) (m : H A) (Q : A -> Inner -> Prop) : Prop :=
  forall p r p', node_ok (comp p) -> Pre (comp p) -> m p = (r, p') -> r <> Panic ->
    node_ok (comp p') /\ forall a, r = Ok a -> Q a (comp p').

Lemma triple_bind {A B} Pre (m : H A) (f : A -> H B) Q R :
  triple Pre m Q -> (forall a, triple (Q a) (f a) R) -> triple Pre (m ≫= f) R.
Proof.
  intros Hm Hf p r p' Hp Hpre Hr Hnp. unfold mbind, M_bind in Hr. destruct (m p) as [[a|e|] p1] eqn:E1.
  - destruct (Hm _ _ _ Hp Hpre E1 ltac:(done)) as [H1 HQ]. eapply Hf; eauto.
  - destruct (Hm _ _ _ Hp Hpre E1 ltac:(done)) as [H1 HQ]. by injection Hr as <- <-.
  - by injection Hr as <- <-.
Qed.

Lemma triple_still {A} Pre (m : H A) : still m -> triple Pre m (fun _ => Pre).
Proof. intros Hm p r p' Hp Hpre Hr _. rewrite (Hm (comp p) _ _ _ eq_refl Hr). done. Qed.

Lemma triple_ret {A} (Pre : Inner -> Prop) (a : A) (Q : A -> Inner -> Prop) : (forall c, Pre c -> Q a c) -> triple Pre (mret a) Q.
Proof. intros HQ p r p' Hp Hpre [= <- <-] _. split; [done|]. intros ? [= <-]. auto. Qed.

Lemma triple_get Pre : triple Pre get_st (fun p c => Pre c /\ comp p = c).
Proof. intros p r p' Hp Hpre [= <- <-] _. split; [done|]. intros ? [= <-]. auto. Qed.

Lemma triple_throw {A} Pre e (Q : A -> Inner -> Prop) : triple Pre (throw e) Q.
Proof. intros p r p' Hp _ [= <- <-] _. by split. Qed.

Lemma triple_weaken {A} (Pre Pre' : Inner -> Prop) (m : H A) (Q Q' : A -> Inner -> Prop) :
  triple Pre m Q -> (forall c, Pre' c -> Pre c) -> (forall a c, Q a c -> Q' a c) -> triple Pre' m Q'.
Proof. intros Hm Hpre HQ p r p' Hp Hp' Hr Hnp. destruct (Hm _ _ _ Hp (Hpre _ Hp') Hr Hnp) as [H1 H2]. eauto. Qed.

(** The allocation is in its block, and no pod has it. *)
Definition acquired (a : PodAllocation) (c : Inner) : Prop :=
  held (allocator c) (block a) (ipnet_addr (addr a)) /\
  forall k b, allocation c !! k = Some b -> ipnet_addr (addr b) <> ipnet_addr (addr a).

(** The blocks change, and what was held is still held. *)
Lemma node_grows c s q : node_ok c -> blocks_ok s -> grows (allocator c) s -> node_ok (set_shared s q c).
Proof. intros [N1 N2 N3] Hs Hg. split; cbn; [done|intros k a Hk; by eapply Hg, N2|done]. Qed.

Lemma triple_acquire {A} (m : M AllocatorSet CniError A) (Q : A -> PodAllocation -> Prop) :
  (forall s, blocks_ok s -> blocks_ok (m s).2 /\ grows s (m s).2 /\
     forall a, (m s).1 = Ok a -> forall x, Q a x -> taken s (m s).2 x) ->
  triple (fun _ => True) (on_set m) (fun a c => forall x, Q a x -> acquired x c).
Proof.
  intros Hm p r p' Hp _ Hr _. unfold on_set, zoom in Hr.
  destruct (Hm _ (nk_blocks _ Hp)) as (Hs & Hg & HQ). destruct (m (allocator (comp p))) as [r0 s'] eqn:Em.
  injection Hr as <- <-. cbn in *. split; [by apply node_grows|]. intros a -> x Hx. cbn.
  destruct (HQ a eq_refl x Hx) as [Hheld Hfree]. split; [done|]. intros k b Hk Heq.
  apply (Hfree (block b)). rewrite <-Heq. by apply (nk_held _ Hp k).
Qed.

Lemma triple_insert k a : triple (acquired a)
  (modify (fun p : St => set_comp (set_allocation (<[k := a]> (allocation (comp p))) (comp p)) p)) (fun _ _ => True).
Proof.
  intros p r p' [N1 N2 N3] [Hheld Hfree] [= <- <-] _. split; [|done]. split; cbn; [done|..].
  - intros k' a'. destruct (decide (k = k')) as [<-|]; simplify_map_eq; [intros [= <-]; done|by apply N2].
  - intros k1 k2 a1 a2. destruct (decide (k = k1)) as [<-|], (decide (k = k2)) as [<-|]; simplify_map_eq; [done|..].
    + intros [= <-] H2 Heq. by destruct (Hfree _ _ H2).
    + intros H1 [= <-] Heq. by destruct (Hfree _ _ H1).
    + by apply N3.
Qed.

(** *** ADD *)

(** While a command waits, the other tasks leave good blocks and take away no
    address that is held. *)
Definition tame (E : Env) : Prop := forall t s q, blocks_ok s ->
  blocks_ok (meanwhile E t (s, q)).1 /\ grows s (meanwhile E t (s, q)).1.

Lemma triple_recv E : tame E -> triple (fun _ => True) (recv E) (fun _ _ => True).
Proof.
  intros HE p r p' Hp _ Hr _. unfold recv in Hr. rewrite bind_modify in Hr.
  assert (H1 : node_ok (comp (wait E p))).
  { unfold wait. destruct (HE (sent p) _ (receiver (comp p)) (nk_blocks _ Hp)) as [Hs Hg].
    destruct (meanwhile _ _ _) as [s q]. by apply node_grows. }
  rewrite bind_get in Hr. destruct (receiver _); [by injection Hr as <- <-|]. injection Hr as <- <-. split; [|done].
  cbn. apply node_grows; [done|apply H1|by intros ? ?].
Qed.

Lemma triple_requested E pool i : tame E ->
  triple (fun _ => True) (allocate_requested E pool i) (fun a c => acquired a c).
Proof.
  intros HE. unfold allocate_requested. eapply triple_bind; [apply triple_get|]. intros p0. cbv zeta.
  eapply triple_bind; [apply triple_still, still_tell|]. intros ?.
  eapply triple_bind; [eapply triple_weaken; [by apply triple_recv|done|intros ? ? _; exact Logic.I]|]. intros ab.
  eapply triple_bind; [apply triple_still, still_tell|]. intros ?.
  eapply triple_weaken; [apply (triple_acquire _ (fun a x => x = a))|done|intros al c Hx; by apply Hx].
  intros s Hs. pose proof (allocate_with_block_run (m_name (ab_meta ab)) s i Hs) as Hrun.
  destruct (allocate_with_block _ i s) as [[al|e|] s']; cbn; [|..|done].
  - destruct Hrun as (H1 & H2 & _ & Hh). split_and!; [done|intros n x; rewrite Hh; auto|intros al0 Ha0 x Hx; injection Ha0 as <-; by rewrite Hx].
  - destruct Hrun as [H1 Hh]. split_and!; [done|intros n x; by rewrite Hh|done].
Qed.

Lemma triple_add E a : tame E -> triple (fun _ => True) (add E a) (fun _ _ => True).
Proof.
  intros HE. unfold add. eapply triple_bind; [apply triple_still; unfold still; intros c; keep|]. intros i.
  eapply triple_bind; [apply triple_still, still_ns_of|]. intros ns.
  eapply triple_bind; [apply triple_still, still_ask|]. intros pod.
  eapply triple_bind; [apply triple_still, still_get_pool|]. intros pool.
  eapply triple_bind; [apply triple_get|]. intros p0. destruct (allocation (comp p0) !! pod_key i); [apply triple_throw|].
  eapply triple_bind.
  { eapply triple_weaken; [apply (triple_acquire (allocate pool i) (fun o x => o = Some x))|done|intros o c Hx; exact Hx].
    intros s Hs. pose proof (pod_allocate_run pool s i Hs) as Hrun.
    destruct (allocate pool i s) as [[[al|]|e|] s']; cbn; [..|done].
    - destruct Hrun as (H1 & H2 & _ & _ & Hh). split_and!; [done|intros n x; rewrite Hh; auto|intros al0 Ha0 x Hx; injection Ha0 as <-; injection Hx as <-; done].
    - subst s'. split_and!; [done|by intros ? ?|intros al0 Ha0 x Hx; by injection Ha0 as <-].
    - destruct Hrun as [H1 Hh]. split_and!; [done|intros n x; by rewrite Hh|done]. }
  intros o. eapply (triple_bind _ _ _ (fun al c => acquired al c)).
  { destruct o as [al|]; [apply triple_ret; auto|]. eapply triple_weaken; [by apply triple_requested|done|done]. }
  intros al. eapply triple_bind; [apply triple_insert|]. intros ?.
  eapply triple_bind; [apply triple_still, still_ns_of|]. intros host_ns.
  eapply triple_bind; [apply triple_still; unfold still; intros c; keep|]. intros x.
  apply triple_still, still_setup.
Qed.

(** *** DEL *)

Lemma del_links_still E a i alloc : still (del_links E a i alloc).
Proof.
  unfold del_links. intros c. apply maintains_bind; [apply still_ns_of|intros host_ns]. keep. apply still_try, still_cleanup.
Qed.

(** The node without the pod and its address *)
Record freed (k : string) (alloc : PodAllocation) (c c' : Inner) : Prop := {
  fr_allocation : allocation c' = delete k (allocation c);
  fr_held n x : held (allocator c') n x <-> held (allocator c) n x /\ ~ (n = block alloc /\ x = ipnet_addr (addr alloc));
}.

Lemma freed_ok k alloc c c' : node_ok c -> allocation c !! k = Some alloc -> blocks_ok (allocator c') -> freed k alloc c c' -> node_ok c'.
Proof.
  intros [N1 N2 N3] Hk Hs [F1 F2]. split; [done|..]; rewrite F1.
  - intros k' a' [Hne Hk']%lookup_delete_Some. apply F2. split; [by eapply N2|]. intros [_ Heq]. destruct Hne. by eapply N3.
  - intros k1 k2 a1 a2 [_ H1]%lookup_delete_Some [_ H2]%lookup_delete_Some. by apply N3.
Qed.

(** The release of the address of a pod, and what is left in memory *)
Lemma del_allocation_run E a i alloc p r p' : node_ok (comp p) -> allocation (comp p) !! pod_key i = Some alloc ->
  del_allocation E a i alloc p = (r, p') -> r <> Panic ->
  blocks_ok (allocator (comp p')) /\ freed (pod_key i) alloc (comp p) (comp p').
Proof.
  intros Hp Hk Hr Hnp.
  destruct (pod_release_run (block alloc) (ipnet_addr (addr alloc)) (allocator (comp p)) (nk_blocks _ Hp) (nk_held _ Hp _ _ Hk))
    as (s' & Hs' & Hh & Hst & Hne).
  unfold del_allocation in Hr. unfold mbind at 1, M_bind at 1, try_run at 1, on_set at 1, zoom at 1 in Hr.
  destruct (release _ _ (allocator (comp p))) as [[e|e|] s1]; cbn in Hst, Hne; subst s1; [|by destruct (Hne e)|].
  - rewrite bind_modify in Hr.
    assert (Hc : comp p' = set_allocation (delete (pod_key i) (allocation (comp p))) (set_allocator s' (comp p))).
    { assert (Hm : forall c, maintains (fun q : St => comp q = c) (r ← del_links E a i alloc; mret (r, if (e : bool) then Some (block alloc) else None))).
      { intros c. apply maintains_bind; [apply del_links_still|]. intros x. keep. }
      exact (Hm _ _ _ _ eq_refl Hr). }
    rewrite Hc. cbn. split; [done|]. split; cbn; [done|exact Hh].
  - injection Hr as <- <-. done.
Qed.

Lemma triple_del E a : triple (fun _ => True) (del E a) (fun _ _ => True).
Proof.
  unfold del. eapply triple_bind; [apply triple_still; unfold still; intros c; keep|]. intros i.
  eapply triple_bind; [apply triple_still, still_ask|]. intros pod.
  eapply triple_bind; [apply triple_still; intros c; apply still_try, still_get_pool|]. intros g.
  destruct g as [e|pool]; [destruct e; first [by apply triple_ret|apply triple_throw]|].
  unfold del_found. eapply triple_bind; [apply triple_get|]. intros p0. cbv zeta.
  eapply (triple_bind _ _ _ (fun _ _ => True)).
  - unfold get_allocation. destruct (allocation (comp p0) !! pod_key i) as [alloc|] eqn:Hk; [|by apply triple_ret].
    destruct (decide _); [|by apply triple_ret]. intros p r p' Hp [_ Heq] Hr Hnp. rewrite Heq in Hk. split; [|done].
    destruct (del_allocation_run E a i alloc p r p' Hp Hk Hr Hnp). by eapply freed_ok.
  - intros [result [b|]]; (eapply triple_bind; [|intros ?; by apply triple_ret]).
    + apply triple_still. intros c. unfold tell_anyway. apply maintains_bind; [apply still_try, still_tell|]. intros ?. keep.
    + apply triple_still. intros c. keep.
Qed.

Lemma triple_check E a : triple (fun _ => True) (check E a) (fun _ _ => True).
Proof.
  apply (triple_still (fun _ => True)). intros c. unfold check. keep; first [apply still_ask|apply still_get_pool].
Qed.
End server.
End CniFacts.
