(* ===== verification/CniExample.v ===== *)
(** * A small node

    A node with one block of four addresses, a kernel that does what it is asked,
    and an API server that knows its pods: what the theorems about the CNI server
    are applied to. *)

From S2P Require Import Prelude.
From S2P Require Import Net.
From S2P Require Import NetText.
From S2P Require Import IpamBitset.
From S2P Require Import IpamAllocator.
From S2P Require Import IpamManager.
From S2P Require Import KubeApi.
From S2P Require Import CniLink.
From S2P Require Import CniServer.
From S2P Require Import CniFacts.

Module CniExample.
Import Kube Netlink PodLinks CniServer CniFacts.
#[local] Existing Instance simple_ipnet.
#[local] Existing Instance simple_ipnet_laws.
#[local] Existing Instance debug_profile.

#[local] Abbreviation AllocatorSet := AllocatorSetInner.AllocatorSetInner.
#[local] Abbreviation blocks := AllocatorSetInner.blocks.

Definition everything : Net 32 := exist _ (0, 0) Logic.I.
Definition few : Net 32 := exist _ (167772160, 30) Logic.I.

(** The texts of the example *)
Definition few_text : TextApi := {|
  show_addr _ := "";
  parse_addr s := if String.eqb s "10.0.0.0" then Some (AV4 167772160) else None;
  show_net _ := "";
  parse_net s := if String.eqb s "0.0.0.0/0" then Some (NV4 everything)
                 else if String.eqb s "10.0.0.0/30" then Some (NV4 few) else None;
|}.
#[local] Existing Instance few_text.

Definition meta (n : string) : ObjectMeta :=
  {| m_name := n; m_namespace := None; m_uid := None; m_labels := ∅; m_annotations := ∅; m_owner_references := [] |}.

Definition route_to (a len : Z) : RouteMessage :=
  {| r_prefix_len := len; r_table := 120; r_attributes := [Table 120; Destination (AV4 a); Oif 2] |}.

(** The kernel has the link of one pod, with an alias, and a route to it. *)
Definition good_kernel : Kernel := {|
  opens _ := true;
  does _ _ := true;
  enters _ _ := true;
  link_named _ n := [Some {| l_index := 2; l_attributes := [IfName n; MacAddress [2; 0; 0; 0; 0; 1]] |}];
  link_indexed _ _ := [Some {| l_index := 2; l_attributes := [IfName "vethaaaaaaaa"] |}];
  links _ := [Some {| l_index := 2; l_attributes := [IfName "vethaaaaaaaa"; IfAlias "pool/aaaaaaaa/eth0"] |}];
  routes _ v := match v with V4 => [Some (route_to 167772160 32)] | V6 => [] end;
  rules _ _ := [];
|}.

Definition listed : AddressBlock := {|
  ab_meta := meta "b"; ab_status := None;
  ab_spec := {| ab_cidr := "10.0.0.0/30"; ab_type := TPod; pool_ref := "pool"; node_ref := Some "node"; ab_auto_assign := true |};
|}.

Definition good_env : Env := {|
  kernel := good_kernel;
  open_ns _ s := Ok {| ns_path := s |};
  current_ns _ := Ok {| ns_path := "host" |};
  get_pod _ _ n := Some {| pod_meta := meta n; pod_status := Some {| host_ip := Some "10.0.0.0"; pod_ip := None |} |};
  get_ns _ n := Some (meta n);
  list_pools _ := Some [{| ap_meta := meta "pool"; ap_spec := {| ap_cidr := "10.0.0.0/30"; ap_type := TPod; alloc_type := None;
                           block_size := None; ap_auto_assign := Some true |} |}];
  list_blocks _ _ := Some [listed];
  accepts _ _ := true;
  meanwhile _ x := x;
|}.

Lemma env_tame : tame good_env.
Proof. intros t s q Hs. split; [done|]. by intros n x. Qed.

Definition few_block (n : string) : Block.Block := Block.mkBlock n "pool" (Allocator.Bit (BitAllocator.new (NV4 few))).
Definition node_with (m : gmap string Block.Block) : Inner :=
  inner_new (AllocatorSetInner.mkSet m (AllocatorSetInner.alloc_info AllocatorSetInner.new) None) "node" (AV4 3232235521) 120 [].

Lemma few_block_has n : has (few_block n) ∅.
Proof.
  split; [|vm_compute; discriminate]. rewrite size_empty. apply BitAllocator.repr_new. vm_compute. reflexivity.
Qed.

Lemma one_block_ok n : blocks_ok (allocator (node_with {[n := few_block n]})).
Proof.
  split; cbn [node_with inner_new allocator AllocatorSetInner.blocks].
  - intros m b [_ <-]%lookup_singleton_Some. exists ∅. apply few_block_has.
  - intros m b [<- <-]%lookup_singleton_Some. reflexivity.
  - intros m b [_ <-]%lookup_singleton_Some. by left.
  - intros m k b b' x [<- _]%lookup_singleton_Some [<- _]%lookup_singleton_Some _ _. reflexivity.
Qed.

(** The commands of two pods *)
Definition args_of (id n : string) : Args := {|
  args := "K8S_POD_INFRA_CONTAINER_ID=" +:+ id +:+ ";K8S_POD_UID=u;K8S_POD_NAMESPACE=default;K8S_POD_NAME=" +:+ n;
  netns := "/var/run/netns/" +:+ n;
|}.

(** What a command does to the node, and that it does not panic *)
Definition after (m : M (Proc Inner Output) CniError CniResult) (c : Inner) : Inner := comp (m (Build_Proc c [])).2.
Definition calm {A} (r : res CniError A) : bool := match r with Panic => false | _ => true end.
Definition succeeds {A} (r : res CniError A) : option A := match r with Ok a => Some a | _ => None end.

Lemma calm_no_panic {A} (r : res CniError A) : calm r = true -> r <> Panic.
Proof. by destruct r. Qed.

Lemma succeeds_ok {S A} (m : M S CniError A) s : is_Some (succeeds (m s).1) -> exists a, m s = (Ok a, (m s).2).
Proof. destruct (m s) as [[a|e|] s']; cbn; intros [x Hx]; [by exists a|done..]. Qed.

(** The address of a pod *)
Definition address_of (c : Inner) (k : string) : option IpAddr := (fun a => ipnet_addr (addr a)) <$> allocation c !! k.

Definition node0 : Inner := node_with {["b" := few_block "b"]}.
Definition node1 : Inner := after (add good_env (args_of "aaaaaaaa" "x")) node0.
Definition node2 : Inner := after (add good_env (args_of "bbbbbbbb" "y")) node1.
End CniExample.
