(* ===== verification/CniPlugin.v ===== *)
(** * The CNI plugin

    [Plugin] is [sartcni/src]: the plugin that the container runtime starts for
    every command reads its configuration ([config.rs]), sends the command to the
    CNI server of the node ([cmd/add.rs], [del.rs], [check.rs]) and turns the
    answer into that of the [rscni] crate ([proto/mod.rs]). The gRPC side of the
    server ([agent/cni/server.rs]) is the other end: what the plugin reports is
    what the server answered. *)

From stdpp Require Import pretty.
From S2P Require Import Prelude.
From S2P Require Import Net.
From S2P Require Import NetText.
From S2P Require Import KubeApi.
From S2P Require Import CniLink.
From S2P Require Import CniServer.
From S2P Require Import CniFacts.
From S2P Require Import CniExample.

Module Plugin.
Import PodLinks CniServer.

Definition ERROR_CODE_GRPC : Z := 100.
Definition ERROR_CODE_TIMEOUT : Z := 110.
Definition ERROR_MSG_GRPC : string := "Failed to connect gPRC server".
Definition ERROR_MSG_TIMEOUT : string := "Timeout for request".

(** ** Configuration *)

(** [serde_json::Value]; a number is an integer or a float; the inside of an array
    or an object is not looked at. *)
Inductive Value : Type :=
| Null
| Bool (b : bool)
| Integer (z : Z)
| Float (text : string)
| Text (s : string)
| Array
| Object.

Definition as_str (v : Value) : option string := match v with Text s => Some s | _ => None end.

(** [as_u64]: an integer of the range of [u64] *)
Definition as_u64 (v : Value) : option Z :=
  match v with Integer z => if (0 <=? z) && (z <? 2 ^ 64) then Some z else None | _ => None end.

(** [rscni::types::Args] with the [custom] entries of its configuration. A path is
    a text if [to_str] gives one. *)
Record Args : Type := {
  container_id : string;
  netns : option (option string);
  ifname : string;
  cni_args : option string;
  cni_path : list (option string);
  config : option (gmap string Value);
}.

Definition SART_CONFIG_ENDPOINT : string := "endpoint".
Definition SART_CONFIG_TIMEOUT : string := "timeout".

Record Config : Type := { endpoint : string; timeout : Z }.

Definition given {A} (o : option A) (d : string) : res RsError A :=
  match o with Some a => Ok a | None => Err (InvalidNetworkConfig d) end.

(** [Config::parse] *)
Definition parse (conf : Args) : res RsError Config :=
  match config conf with
  | Some custom =>
      v ← given (custom !! SART_CONFIG_ENDPOINT) "endpoint must be given.";
      endpoint ← given (as_str v) "endpoint parameter must be given";
      w ← given (custom !! SART_CONFIG_TIMEOUT) "timeout parameter must be given";
      timeout ← given (as_u64 w) "timeout parameter must be number";
      Ok {| endpoint := endpoint; timeout := timeout |}
  | None => Err (InvalidNetworkConfig "configuration must be given from stdin")
  end.

(** ** Conversions *)

(** [sart::Args], without the fields that are always empty *)
Record RpcArgs : Type := {
  r_container_id : string; r_netns : string; r_ifname : string; r_path : list string; r_args : string;
}.

(** [From<&Args> for sart::Args] *)
Definition rpc_args (a : Args) : RpcArgs :=
  {| r_container_id := container_id a; r_netns := default "" (netns a ≫= id); r_ifname := ifname a;
     r_path := omap id (cni_path a); r_args := default "" (cni_args a) |}.

(** What the server looks at *)
Definition server_args (a : RpcArgs) : CniServer.Args := {| CniServer.args := r_args a; CniServer.netns := r_netns a |}.

(** The types of [rscni]: what the messages leave empty or zero may be missing. *)
Record RsInterface : Type := { ri_name : string; ri_mac : string; ri_sandbox : option string }.
Record IpConfig : Type := { ic_interface : option Z; ic_address : string; ic_gateway : option string }.
Record Route : Type := { ro_dst : string; ro_gw : option string; ro_mtu : option Z; ro_advmss : option Z }.
Record RsDns : Type := {
  rd_nameservers : list string; rd_domain : option string; rd_search : option (list string); rd_options : option (list string) }.
Record CNIResult : Type := {
  rs_interfaces : list RsInterface; rs_ips : list IpConfig; rs_routes : list Route; rs_dns : option RsDns }.

(** [as i32] *)
Definition to_i32 (z : Z) : Z := let w := wrap 32 z in if w <? 2 ^ 31 then w else w - 2 ^ 32.

(** A text, a list or a number that is empty or zero is none. *)
Definition nonempty (s : string) : option string := if String.eqb s "" then None else Some s.
Definition nonempty_list (l : list string) : option (list string) := match l with [] => None | _ => Some l end.
Definition nonzero (z : Z) : option Z := if z =? 0 then None else Some z.

Definition interface_from (i : Interface) : RsInterface :=
  {| ri_name := i_name i; ri_mac := i_mac i; ri_sandbox := nonempty (i_sandbox i) |}.
Definition ip_from (i : IpConf) : IpConfig :=
  {| ic_interface := nonzero (c_interface i); ic_address := c_address i; ic_gateway := nonempty (c_gateway i) |}.
Definition route_from (r : RouteConf) : Route :=
  {| ro_dst := rc_dst r; ro_gw := nonempty (rc_gw r); ro_mtu := wrap 32 <$> nonzero (rc_mtu r);
     ro_advmss := wrap 32 <$> nonzero (rc_advmss r) |}.
Definition dns_from (d : Dns) : RsDns :=
  {| rd_nameservers := nameservers d; rd_domain := nonempty (domain d); rd_search := nonempty_list (search d);
     rd_options := nonempty_list (options d) |}.

(** [From<&sart::CniResult> for CNIResult] *)
Definition result_from (r : CniResult) : CNIResult :=
  {| rs_interfaces := map interface_from (interfaces r); rs_ips := map ip_from (ips r);
     rs_routes := map route_from (cni_routes r); rs_dns := dns_from <$> dns r |}.

Definition interface_into (i : RsInterface) : Interface :=
  {| i_name := ri_name i; i_mac := ri_mac i; i_sandbox := default "" (ri_sandbox i) |}.
Definition ip_into (i : IpConfig) : IpConf :=
  {| c_interface := default 0 (ic_interface i); c_address := ic_address i; c_gateway := default "" (ic_gateway i) |}.
Definition route_into (r : Route) : RouteConf :=
  {| rc_dst := ro_dst r; rc_gw := default "" (ro_gw r); rc_mtu := to_i32 (default 0 (ro_mtu r));
     rc_advmss := to_i32 (default 0 (ro_advmss r)) |}.
Definition dns_into (d : RsDns) : Dns :=
  {| nameservers := rd_nameservers d; domain := default "" (rd_domain d); search := default [] (rd_search d);
     options := default [] (rd_options d) |}.

(** [From<&CNIResult> for sart::CniResult] *)
Definition result_into (r : CNIResult) : CniResult :=
  {| interfaces := map interface_into (rs_interfaces r); ips := map ip_into (rs_ips r);
     cni_routes := map route_into (rs_routes r); dns := dns_into <$> rs_dns r |}.

(** ** Commands *)

(** [serde_json] of the details of an error, with its documented law *)
Class JsonApi : Type := {
  to_vec : CNIErrorDetail -> list Z;
  from_slice : list Z -> string + CNIErrorDetail;
}.
Class JsonLaws {J : JsonApi} : Prop := { from_to_vec d : uint 32 (code d) -> from_slice (to_vec d) = inr d }.

(** What a call of the server ends with *)
Inductive Outcome : Type :=
| Replied (r : CniResult)
| StatusDetails (details : list Z)
| TimedOut.

Section defs.
Context {J : JsonApi}.

(** Whether the server can be reached, or the text of the error *)
Variable connects : string -> option string.

Definition connect (ep : string) : res RsError unit :=
  match connects ep with None => Ok tt | Some e => Err (Custom ERROR_CODE_GRPC ERROR_MSG_GRPC e) end.

(** What the three commands share: [late] is the text of a timeout, [caught] what
    is put in front of an error that cannot be read. *)
Definition command (late caught : string) (call : Config -> RpcArgs -> Outcome) (a : Args) : res RsError CNIResult :=
  conf ← parse a;
  connect (endpoint conf) ;;
  match call conf (rpc_args a) with
  | TimedOut => Err (Custom ERROR_CODE_TIMEOUT ERROR_MSG_TIMEOUT late)
  | Replied r => Ok (result_from r)
  | StatusDetails v =>
      match from_slice v with
      | inr d => Err (error_from_detail d)
      | inl e => Err (FailedToDecode (caught +:+ e))
      end
  end.

Definition inner_add := command "CNI Add request timeout." "sart-cni catch: ".
Definition inner_del := command "CNI Del request timeout." "".
Definition inner_check := command "CNI Add request timeout." "".
End defs.

(** [From<&sart::ErrorResult> for Error]: the code is an [i32]. *)
Definition error_from_result (c : Z) (m d : string) : RsError :=
  if 100 <? c then Custom (wrap 32 c) m d else error_from_detail {| code := c; msg := m; details := d |}.

(** ** The server behind it *)

Section server.
Context {I : IpNetApi} {T : TextApi} {P : Profile} {J : JsonApi}.
Variable to_detail : RsError -> CNIErrorDetail.
Variable text : CniError -> string.
Variable E : CniServer.Env.

Definition serve_add (a : CniServer.Args) := serve to_detail text "add" (CniServer.add E a).
Definition serve_del (a : CniServer.Args) := serve to_detail text "del" (CniServer.del E a).
Definition serve_check (a : CniServer.Args) := serve to_detail text "check" (CniServer.check E a).

(** The answer of the server on the wire; what a client sees of a handler that
    panics is left open. *)
Definition on_wire (r : res CNIErrorDetail CniResult) : option Outcome :=
  match r with Ok x => Some (Replied x) | Err d => Some (StatusDetails (to_vec d)) | Panic => None end.

Inductive Command : Type := Add | Del | Check.

(** The handler of a command without and with its gRPC side *)
Definition command_of (c : Command) : CniServer.Args -> M (Kube.Proc Inner Netlink.Output) CniError CniResult :=
  match c with Add => CniServer.add E | Del => CniServer.del E | Check => CniServer.check E end.
Definition served (c : Command) : CniServer.Args -> M (Kube.Proc Inner Netlink.Output) CNIErrorDetail CniResult :=
  match c with Add => serve_add | Del => serve_del | Check => serve_check end.
End server.

(** ** What is reported *)

(** The errors of [rscni] have the codes of the CNI specification. *)
Definition spec_code (e : RsError) : Z :=
  match e with
  | Custom c _ _ => c
  | IncompatibleVersion _ => 1
  | UnsupportedNetworkConfiguration _ => 2
  | RsNotExist _ => 3
  | InvalidEnvValue _ => 4
  | IOFailure _ => 5
  | FailedToDecode _ => 6
  | InvalidNetworkConfig _ => 7
  | TryAgainLater _ => 11
  end.

Definition spec_details (e : RsError) : string :=
  match e with
  | Custom _ _ d | IncompatibleVersion d | UnsupportedNetworkConfiguration d | RsNotExist d | InvalidEnvValue d
  | IOFailure d | FailedToDecode d | InvalidNetworkConfig d | TryAgainLater d => d
  end.

(** [u32::from(&e)] and [e.details()] *)
Definition documented (to_detail : RsError -> CNIErrorDetail) : Prop :=
  forall e, code (to_detail e) = spec_code e /\ details (to_detail e) = spec_details e.

(** The same error up to the message, which only [Custom] has *)
Definition same_error (e e' : RsError) : Prop :=
  match e, e' with
  | Custom c _ d, Custom c' _ d' => c = c' /\ d = d'
  | _, _ => e = e'
  end.

Section facts.
Context {J : JsonApi} {JL : JsonLaws}.
Variable to_detail : RsError -> CNIErrorDetail.
Hypothesis Hdoc : documented to_detail.

(** The codes of the server are in the range of custom codes. *)
Lemma server_codes {I : IpNetApi} text (e : CniError) c m d : error_from text e = Custom c m d -> 100 < c < 2 ^ 32.
Proof. by destruct e; intros [= <- <- <-]. Qed.

Lemma detail_roundtrip e : (forall c m d, e = Custom c m d -> 100 < c) -> same_error e (error_from_detail (to_detail e)).
Proof.
  intros Hc. destruct (Hdoc e) as [H1 H2]. unfold error_from_detail. rewrite H1, H2.
  destruct e as [c m d|d|d|d|d|d|d|d|d]; cbn; [|done..].
  by rewrite (proj2 (Z.ltb_lt _ _)) by (by eapply Hc).
Qed.

Lemma spec_code_range {I : IpNetApi} text (e : CniError) : uint 32 (spec_code (error_from text e)).
Proof. by destruct e. Qed.

Lemma nonempty_default s : default "" (nonempty s) = s.
Proof. unfold nonempty. by destruct (String.eqb_spec s ""). Qed.

Lemma nonzero_default z : default 0 (nonzero z) = z.
Proof. unfold nonzero. by destruct (Z.eqb_spec z 0). Qed.

Lemma nonempty_list_default l : default [] (nonempty_list l) = l.
Proof. by destruct l. Qed.

Lemma to_i32_wrap z : - 2 ^ 31 <= z < 2 ^ 31 -> to_i32 (default 0 (wrap 32 <$> nonzero z)) = z.
Proof.
  intros Hz. unfold nonzero. destruct (Z.eqb_spec z 0) as [->|Hn]; [done|]. cbn. unfold to_i32, wrap.
  rewrite Zmod_mod. destruct (decide (0 <= z)).
  - rewrite Z.mod_small by lia. by rewrite (proj2 (Z.ltb_lt _ _)) by lia.
  - replace (z mod 2 ^ 32) with (z + 2 ^ 32) by (rewrite <- (Z.mod_add z 1) by done; rewrite Z.mod_small; lia).
    rewrite (proj2 (Z.ltb_ge _ _)) by lia. lia.
Qed.

(** The numbers of a message have the width of their fields. *)
Definition result_ok (r : CniResult) : Prop :=
  Forall (fun x => - 2 ^ 31 <= rc_mtu x < 2 ^ 31 /\ - 2 ^ 31 <= rc_advmss x < 2 ^ 31) (cni_routes r).

Lemma map_id_on {A} (f : A -> A) l : Forall (fun x => f x = x) l -> map f l = l.
Proof. induction 1 as [|x l Hx _ IH]; [done|]. cbn. by rewrite Hx, IH. Qed.

(** Nothing of an answer is lost in its conversion. *)
Lemma result_from_into r : result_ok r -> result_into (result_from r) = r.
Proof.
  intros Hr. destruct r as [l1 l2 l3 d]. unfold result_into, result_from. cbn. rewrite !map_map. f_equal.
  - apply map_id_on, Forall_true. intros [n m s]. unfold interface_into, interface_from. cbn. by rewrite nonempty_default.
  - apply map_id_on, Forall_true. intros [n a g]. unfold ip_into, ip_from. cbn. by rewrite nonempty_default, nonzero_default.
  - apply map_id_on. eapply Forall_impl; [exact Hr|]. intros [x g m v] [Hm Hv]. unfold route_into, route_from. cbn in *.
    by rewrite nonempty_default, !to_i32_wrap.
  - destruct d as [[n x s o]|]; [|done]. cbn. unfold dns_into, dns_from. cbn. by rewrite nonempty_default, !nonempty_list_default.
Qed.

Lemma serve_result {I : IpNetApi} text cmd (m : M (Kube.Proc Inner Netlink.Output) CniError CniResult) p :
  (serve to_detail text cmd m p).1 =
  match (m p).1 with Ok r => Ok r | Err e => Err (to_detail (error_from text e)) | Panic => Panic end.
Proof. unfold serve. by destruct (m p) as [[r|e|] p']. Qed.

(** What the plugin reports when the server answered in time *)
Lemma command_replied connects late caught call a conf r : parse a = Ok conf -> connects (endpoint conf) = None ->
  call conf (rpc_args a) = Replied r -> command connects late caught call a = Ok (result_from r).
Proof. intros Hp Hc Hr. unfold command, connect, mbind, res_bind. by rewrite Hp, Hc, Hr. Qed.

Lemma command_failed {I : IpNetApi} connects late caught call a conf text e : parse a = Ok conf -> connects (endpoint conf) = None ->
  call conf (rpc_args a) = StatusDetails (to_vec (to_detail (error_from text e))) ->
  exists e', command connects late caught call a = Err e' /\ same_error (error_from text e) e'.
Proof.
  intros Hp Hc Hr. unfold command, connect, mbind, res_bind. rewrite Hp, Hc, Hr, from_to_vec.
  2:{ rewrite (proj1 (Hdoc _)). apply spec_code_range. }
  eexists. split; [done|]. apply detail_roundtrip. intros c m d He. by eapply server_codes.
Qed.
End facts.

Section relay.
Context {I : IpNetApi} {T : TextApi} {P : Profile} {J : JsonApi} {JL : JsonLaws}.

(** The plugin of a command *)
Definition plugin_of (c : Command) :=
  match c with Add => inner_add | Del => inner_del | Check => inner_check end.

(** C8: whenever the plugin is configured, reaches the server and the server answers in
    time, it reports what the server did: a result of which no field is lost, or
    the error of the server with its code and its details. *)
Theorem plugin_relays_server (to_detail : RsError -> CNIErrorDetail) (text : CniError -> string) (E : CniServer.Env)
  (cmd : Command) (connects : string -> option string) (call : Config -> RpcArgs -> Outcome) (a : Args) (conf : Config)
  (p : Kube.Proc Inner Netlink.Output) (Hdoc : documented to_detail) (Hparse : parse a = Ok conf)
  (Hconn : connects (endpoint conf) = None)
  (Hcall : on_wire (served to_detail text E cmd (server_args (rpc_args a)) p).1 = Some (call conf (rpc_args a))) :
  match (command_of E cmd (server_args (rpc_args a)) p).1 with
  | Ok r => exists r', plugin_of cmd connects call a = Ok r' /\ (result_ok r -> result_into r' = r)
  | Err e => exists e', plugin_of cmd connects call a = Err e' /\ same_error (error_from text e) e'
  | Panic => False
  end.
Proof.
  assert (Hs : (served to_detail text E cmd (server_args (rpc_args a)) p).1 =
    match (command_of E cmd (server_args (rpc_args a)) p).1 with
    | Ok r => Ok r | Err e => Err (to_detail (error_from text e)) | Panic => Panic end)
    by (destruct cmd; apply serve_result).
  rewrite Hs in Hcall. destruct (command_of E cmd _ p) as [[r|e|] p']; cbn in *; [| |done]; injection Hcall as Hcall.
  - exists (result_from r). split; [|apply result_from_into].
    destruct cmd; by apply (command_replied connects _ _ call a conf r).
  - destruct cmd; by apply (command_failed to_detail Hdoc connects _ _ call a conf text e).
Qed.
End relay.

(** ** An example *)

(** JSON as the number of the fields *)
Definition simple_json : JsonApi := {|
  to_vec d := [Z.pos (countable.encode (code d, msg d, details d))];
  from_slice l := match l with
                  | [Z.pos x] => match countable.decode x : option (Z * string * string) with
                                 | Some (c, m, d) => inr {| code := c; msg := m; details := d |}
                                 | None => inl "invalid"%string
                                 end
                  | _ => inl "invalid"%string
                  end;
|}.

Lemma simple_json_laws : @JsonLaws simple_json.
Proof. constructor. intros [c m d] _. unfold from_slice, to_vec, simple_json. by rewrite countable.decode_encode. Qed.

Section witnesses.
#[local] Existing Instances simple_ipnet CniExample.few_text debug_profile simple_json simple_json_laws.

Definition plain_detail (e : RsError) : CNIErrorDetail := {| code := spec_code e; msg := "error"; details := spec_details e |}.
Definition plain_text (e : CniError) : string := "error".

(** A command without arguments: the server cannot tell which pod it is for. *)
Definition bad_args : Args := {|
  container_id := "c"; netns := None; ifname := "eth0"; cni_args := None; cni_path := [];
  config := Some (<["endpoint"%string := Text "http://localhost:6000"]> {["timeout"%string := Integer 60]}) |}.
Definition start0 : Kube.Proc Inner Netlink.Output := Kube.Build_Proc CniExample.node0 [].
Definition call0 (conf : Config) (a : RpcArgs) : Outcome :=
  default TimedOut (on_wire (served plain_detail plain_text CniExample.good_env Add (server_args a) start0).1).

Lemma plugin_relays_server_witness : exists e, inner_add (fun _ => None) call0 bad_args = Err e /\
  same_error (Custom CNI_ERROR_CODE_INTERNAL "Internal error" "K8S_POD_INFRA_CONTAINER_ID") e.
Proof.
  exact (plugin_relays_server plain_detail plain_text CniExample.good_env Add (fun _ => None) call0 bad_args
    {| endpoint := "http://localhost:6000"; timeout := 60 |} start0 (fun _ => conj eq_refl eq_refl) eq_refl eq_refl eq_refl).
Defined.
End witnesses.
End Plugin.
