(* ===== verification/CniWorld.v ===== *)
(** * A node

    The commands of the CNI server and the turns of the controller of the blocks,
    in any order: the pods of a node have addresses of their own, as long as its
    blocks have no address in common. What ADD and DEL do to the addresses, and what
    CHECK demands. *)

From S2P Require Import Prelude.
From S2P Require Import Net.
From S2P Require Import NetText.
From S2P Require Import IpamBitset.
From S2P Require Import IpamAllocator.
From S2P Require Import IpamManager.
From S2P Require Import KubeApi.
From S2P Require Import KubeBgpApi.
From S2P Require Import KubeAdvertise.
From S2P Require Import AgentBlock.
From S2P Require Import CniLink.
From S2P Require Import CniServer.
From S2P Require Import CniFacts.
From S2P Require Import CniExample.

Module CniWorld.
Import Kube Netlink PodLinks CniServer CniFacts.

#[local] Abbreviation AllocatorSet := AllocatorSetInner.AllocatorSetInner.
#[local] Abbreviation blocks := AllocatorSetInner.blocks.

Section turns.
Context {I : IpNetApi} {L : IpNetLaws} {T : TextApi} {P : Profile}.

(** ** Turns of the controller of the blocks *)

(** A block that is new has no address in common with the blocks there are. *)
Definition legit (ab : AddressBlock) (s : AllocatorSet) : Prop :=
  forall c, parse_net (ab_cidr (ab_spec ab)) = Some c -> exact c /\
    forall n b x, blocks s !! n = Some b -> n <> m_name (ab_meta ab) ->
      ipnet_contains (block_cidr b) x = true -> ipnet_contains c x = false.

(** The turns do to the blocks nothing that a pod notices. *)
Definition gentle (s s' : AllocatorSet) : Prop := blocks_ok s' /\ grows s s'.

Lemma same_blocks s s' : blocks s' = blocks s -> blocks_ok s -> gentle s s'.
Proof.
  intros Hb [S1 S2 S3 S4]. split; [split; rewrite Hb; assumption|]. intros n x. unfold held. by rewrite Hb.
Qed.

Lemma insert_new s n b : blocks_ok s -> blocks s !! n = None -> has b ∅ -> Block.name b = n -> exact (block_cidr b) ->
  (forall m c x, blocks s !! m = Some c -> ipnet_contains (block_cidr c) x = true -> ipnet_contains (block_cidr b) x = false) ->
  forall s', blocks s' = <[n := b]> (blocks s) -> gentle s s'.
Proof.
  intros [S1 S2 S3 S4] Hn Hb Hnm Hex Hdis s' Hs'. split.
  - split; rewrite Hs'.
    + intros m c. destruct (decide (n = m)) as [<-|]; simplify_map_eq; [intros [= <-]; eauto|apply S1].
    + intros m c. destruct (decide (n = m)) as [<-|]; simplify_map_eq; [intros [= <-]; done|apply S2].
    + intros m c. destruct (decide (n = m)) as [<-|]; simplify_map_eq; [intros [= <-]; done|apply S3].
    + intros m k c c' x. destruct (decide (n = m)) as [<-|], (decide (n = k)) as [<-|]; simplify_map_eq; [done|..].
      * intros [= <-] Hk Hx Hx'. by rewrite (Hdis _ _ _ Hk Hx') in Hx.
      * intros Hm [= <-] Hx Hx'. by rewrite (Hdis _ _ _ Hm Hx) in Hx'.
      * apply S4.
  - intros m x (c & H & Hm & Hc & Hx). exists c, H. rewrite Hs'. split; [|done].
    rewrite lookup_insert_ne; [done|]. intros ->. congruence.
Qed.

Lemma remove_empty s n b : blocks_ok s -> blocks s !! n = Some b -> has b ∅ ->
  forall s', blocks s' = delete n (blocks s) -> gentle s s'.
Proof.
  intros [S1 S2 S3 S4] Hn Hb s' Hs'. split.
  - split; rewrite Hs'; [intros m c Hm|intros m c Hm|intros m c Hm|intros m k c c' x Hm Hk];
      repeat match goal with H : delete _ _ !! _ = Some _ |- _ => apply lookup_delete_Some in H as [_ H] end; eauto.
  - intros m x (c & H & Hm & Hc & Hx). exists c, H. rewrite Hs'. split; [|done].
    rewrite lookup_delete_ne; [done|]. intros ->. rewrite Hn in Hm. injection Hm as <-.
    by rewrite (has_unique _ _ _ Hc Hb) in Hx.
Qed.

Section agent.
Import AgentBlock BgpCrd AdvertOut.
#[local] Abbreviation St := (Proc PodAllocator AdvertOut.Output).

Definition shared (p : St) : AllocatorSet := pa_allocator (comp p).

(** Only what the agent keeps of a block changes the blocks. *)
Lemma ask_same {A} (f : list AdvertOut.Output -> option A) s : maintains (fun p => shared p = s) (AgentBlock.ask f).
Proof. unfold AgentBlock.ask. keep; auto. Qed.
Lemma send_same E o s : maintains (fun p => shared p = s) (AgentBlock.send E o).
Proof. unfold AgentBlock.send. keep; auto. Qed.

Lemma auto_blocks pool s (p : St) r p' : enable_auto pool s p = (r, p') \/ disable_auto pool s p = (r, p') ->
  blocks (shared p') = blocks (shared p).
Proof.
  unfold enable_auto, disable_auto. intros [H|H]; revert H; [destruct (AllocatorSetInner.auto_assign s)|]; try case_decide;
    by intros [= <- <-].
Qed.

Lemma keep_block_gentle E ab cidr (p : St) r p' : parse_net (ab_cidr (ab_spec ab)) = Some cidr ->
  legit ab (shared p) -> blocks_ok (shared p) -> keep_block E ab cidr p = (r, p') -> gentle (shared p) (shared p').
Proof.
  intros Hcidr Hleg Hs. unfold keep_block. rewrite bind_get. cbv zeta. fold (shared p).
  destruct (blocks (shared p) !! m_name (ab_meta ab)) as [b0|] eqn:Hn; intros H.
  - apply same_blocks; [|done]. unfold mbind, M_bind in H.
    destruct (ab_auto_assign _); [destruct (enable_auto _ _ p) as [[[]|e|] p1] eqn:E1|destruct (disable_auto _ _ p) as [[[]|e|] p1] eqn:E1];
      injection H as <- <-; eapply auto_blocks; eauto.
  - unfold mbind at 1, M_bind at 1, lift at 1 in H.
    destruct (Block.new _ _ cidr) as [b|e|] eqn:Hb; cbn [res_map_err] in H; [|by injection H as <- <-; apply same_blocks..].
    apply has_new in Hb as (Hhas & Hc & Hnm & _). destruct (Hleg cidr Hcidr) as [Hex Hdis].
    assert (Hins : forall s', blocks s' = <[m_name (ab_meta ab) := b]> (blocks (shared p)) -> gentle (shared p) s').
    { apply insert_new; try done; [by rewrite Hc|]. intros m c x Hm Hx. rewrite Hc. eapply Hdis; eauto. intros ->. congruence. }
    unfold mbind at 1, M_bind at 1 in H.
    destruct ((if ab_auto_assign (ab_spec ab) then enable_auto (pool_ref (ab_spec ab)) (shared p) else mret tt) p) as [[[]|e|] p1] eqn:E1;
      (assert (H1 : blocks (shared p1) = blocks (shared p)) by
        (destruct (ab_auto_assign _); [eapply auto_blocks; eauto|by inversion E1]));
      [|by injection H as <- <-; apply same_blocks..].
    apply Hins. unfold AgentBlock.on_set, notify in H. rewrite bind_modify in H.
    destruct (receives E); mred in H; injection H as <- <-; unfold shared in *; cbn; by rewrite H1.
Qed.

Lemma reconcile_gentle E ab (p : St) r p' : legit ab (shared p) -> blocks_ok (shared p) ->
  AgentBlock.reconcile E ab p = (r, p') -> gentle (shared p) (shared p').
Proof.
  intros Hleg Hs. unfold AgentBlock.reconcile. unfold mbind at 1, M_bind at 1, lift at 1.
  destruct (parse_net _) as [cidr|] eqn:Hcidr; [|by intros [= <- <-]; apply same_blocks].
  unfold mbind at 1, M_bind at 1, lift at 1. destruct (node_ref _) as [node|]; [|by intros [= <- <-]; apply same_blocks].
  unfold mbind at 1, M_bind at 1. destruct (AgentBlock.ask _ p) as [ra p1] eqn:Ea.
  pose proof (ask_same _ (shared p) p ra p1 eq_refl Ea) as H1.
  destruct ra as [adv|e|]; [|intros [= <- <-]; rewrite H1; by apply same_blocks..].
  unfold mbind at 1, M_bind at 1. destruct (keep_block E ab cidr p1) as [rk p2] eqn:Ek.
  assert (Hg : gentle (shared p) (shared p2)) by (rewrite <-H1 in *; by eapply keep_block_gentle).
  destruct rk as [created|e|]; [|by intros [= <- <-]..]. intros H.
  assert (H2 : shared p' = shared p2); [|by rewrite H2].
  match type of H with ?m p2 = _ => assert (Hm : maintains (fun q => shared q = shared p2) m) end; [|by eapply Hm].
  unfold update_adv, get_target_peer. keep; first [apply ask_same|apply send_same].
Qed.

Lemma cleanup_gentle E ab (p : St) r p' : blocks_ok (shared p) ->
  AgentBlock.cleanup E ab p = (r, p') -> gentle (shared p) (shared p').
Proof.
  intros Hs. unfold AgentBlock.cleanup. rewrite bind_get. cbv zeta. fold (shared p). unfold AllocatorSetInner.get.
  destruct (blocks (shared p) !! m_name (ab_meta ab)) as [b|] eqn:Hn; [|by intros [= <- <-]; apply same_blocks].
  unfold mbind at 1, M_bind at 1, lift at 1.
  destruct (Allocator.is_empty _) as [[]|e|] eqn:He; cbn [known]; [|by intros [= <- <-]; apply same_blocks..].
  destruct (bk_has _ Hs _ _ Hn) as [H Hb]. assert (H = ∅) as -> by (eapply has_is_empty; eauto using bk_exact).
  unfold AgentBlock.on_set. rewrite bind_modify. unfold mbind, M_bind. intros H.
  match type of H with context [AgentBlock.send E ?o ?q] => destruct (AgentBlock.send E o q) as [rs p2] eqn:Es;
    pose proof (send_same E o (shared q) q rs p2 eq_refl Es) as H2 end.
  assert (H3 : shared p' = shared p2) by (destruct rs; by injection H as <- <-). rewrite H3, H2.
  by eapply remove_empty.
Qed.

Lemma turn_gentle E ev ab (p : St) r p' : legit ab (shared p) -> blocks_ok (shared p) ->
  AgentBlock.reconciler E ev ab p = (r, p') -> gentle (shared p) (shared p').
Proof.
  intros Hleg Hs. unfold AgentBlock.reconciler. rewrite bind_modify. case_decide as Hty; [|by intros [= <- <-]; apply same_blocks].
  set (q := push _ p). change (shared p) with (shared q) in *. unfold map_err. destruct ev; intros H.
  - destruct (AgentBlock.reconcile E ab q) as [[]] eqn:E1; injection H as <- <-; by eapply reconcile_gentle.
  - destruct (AgentBlock.cleanup E ab q) as [[]] eqn:E1; injection H as <- <-; by eapply cleanup_gentle.
Qed.
End agent.

(** ** Runs of a node *)

(** What the controller of the blocks does to the node *)
Definition after_block (c : Inner) (p : Proc AgentBlock.PodAllocator AdvertOut.Output) : Inner :=
  set_shared (AgentBlock.pa_allocator (comp p)) (AgentBlock.notifier (comp p)) c.
Definition before_block (c : Inner) : AgentBlock.PodAllocator :=
  {| AgentBlock.pa_allocator := allocator c; AgentBlock.notifier := receiver c |}.

(** A command, whatever it returns, or a turn of the controller of the blocks. A
    panic poisons the lock of the blocks, and nothing happens after it. *)
Inductive step : Inner -> Inner -> Prop :=
| step_add E a c t r p' : tame E -> add E a (Build_Proc c t) = (r, p') -> r <> Panic -> step c (comp p')
| step_del E a c t r p' : del E a (Build_Proc c t) = (r, p') -> r <> Panic -> step c (comp p')
| step_check E a c t r p' : check E a (Build_Proc c t) = (r, p') -> r <> Panic -> step c (comp p')
| step_block E ev ab c t r p' : legit ab (allocator c) ->
    AgentBlock.reconciler E ev ab (Build_Proc (before_block c) t) = (r, p') -> r <> Panic -> step c (after_block c p').

Lemma step_node_ok c c' : step c c' -> node_ok c -> node_ok c'.
Proof.
  intros Hst Hc. destruct Hst as [E a c t r p' HE Hr Hnp|E a c t r p' Hr Hnp|E a c t r p' Hr Hnp|E ev ab c t r p' Hleg Hr Hnp].
  - exact (proj1 (triple_add E a HE (Build_Proc c t) r p' Hc Logic.I Hr Hnp)).
  - exact (proj1 (triple_del E a (Build_Proc c t) r p' Hc Logic.I Hr Hnp)).
  - exact (proj1 (triple_check E a (Build_Proc c t) r p' Hc Logic.I Hr Hnp)).
  - destruct (turn_gentle E ev ab (Build_Proc (before_block c) t) r p' Hleg (nk_blocks _ Hc) Hr) as [Hs Hg]. by apply node_grows.
Qed.

(** A node that has been started: no pod is known, and the blocks are good. *)
Definition fresh_node (c : Inner) : Prop := allocation c = ∅ /\ blocks_ok (allocator c).

Lemma fresh_node_ok c : fresh_node c -> node_ok c.
Proof. intros [Ha Hs]. split; [done|..]; rewrite Ha; intros *; by rewrite lookup_empty. Qed.

(** C14: as long as the blocks of the node have no address in common and their
    [is_empty] can be relied on (with overflow checks, or for blocks of at most
    128 addresses), pods have their own addresses: in every run of commands and
    of turns of the controller of the blocks that starts without pods, in which
    commands wait and fail in any way, every block that is added is disjoint
    from those there are and what other tasks do while a command waits keeps the
    addresses that are held, every pod holds its address in its block and no two
    pods of the node hold the same address. (The controller that makes blocks
    does not keep them disjoint, [pod_blocks_divide_pool].) *)
Theorem pods_have_own_addresses (c0 c : Inner) (H0 : fresh_node c0) (Hrun : rtc step c0 c) :
  (forall k a, allocation c !! k = Some a -> held (allocator c) (block a) (ipnet_addr (addr a))) /\
  (forall k k' a a', allocation c !! k = Some a -> allocation c !! k' = Some a' ->
     ipnet_addr (addr a) = ipnet_addr (addr a') -> k = k').
Proof.
  assert (Hc : node_ok c); [|by destruct Hc]. apply fresh_node_ok in H0.
  induction Hrun; eauto using step_node_ok.
Qed.

(** ** What ADD and DEL do *)

(** The allocation of ADD, whichever way it is made *)
Lemma acquire_allocation E pool i p al p' : node_ok (comp p) -> tame E ->
  (o ← on_set (allocate pool i); match o with Some x => mret x | None => allocate_requested E pool i end) p = (Ok al, p') ->
  acquired al (comp p') /\ a_container_id al = container_id i /\ allocation (comp p') = allocation (comp p).
Proof.
  intros Hp HE H. apply bind_inv_ok in H as (o & p2 & H2 & H3).
  assert (Hset : forall {A} (m : M AllocatorSet CniError A) q r q', on_set m q = (r, q') ->
    allocation (comp q') = allocation (comp q) /\ m (allocator (comp q)) = (r, allocator (comp q'))).
  { intros A m q r q'. unfold on_set, zoom. destruct (m _) as [r0 s0]. by intros [= <- <-]. }
  destruct (Hset _ _ _ _ _ H2) as [A2 R2]. pose proof (pod_allocate_run pool _ i (nk_blocks _ Hp)) as Hrun. rewrite R2 in Hrun.
  assert (Hacq : forall s al, taken s (allocator (comp p')) al -> allocation (comp p') = allocation (comp p) ->
    grows (allocator (comp p)) s -> acquired al (comp p')).
  { intros s al' [T1 T2] Ha Hg. split; [done|]. rewrite Ha. intros k b Hk Heq. apply (T2 (block b)). rewrite <-Heq.
    by eapply Hg, nk_held. }
  destruct o as [x|].
  - injection H3 as <- <-. destruct Hrun as (_ & Ht & Hid & _). split_and!; [|done|done].
    by apply (Hacq (allocator (comp p))); [done|done|intros ? ?].
  - unfold allocate_requested in H3. rewrite bind_get in H3. cbv zeta in H3.
    apply bind_inv_ok in H3 as ([] & p3 & Ht1 & H3). pose proof (still_tell _ _ (comp p2) p2 _ _ eq_refl Ht1) as C3.
    apply bind_inv_ok in H3 as (ab & p4 & Hr & H3). apply bind_inv_ok in H3 as ([] & p5 & Ht2 & H3).
    pose proof (still_tell _ _ (comp p4) p4 _ _ eq_refl Ht2) as C5. destruct (Hset _ _ _ _ _ H3) as [A6 R6].
    assert (Hrecv : allocation (comp p4) = allocation (comp p3) /\ blocks_ok (allocator (comp p4)) /\
      grows (allocator (comp p3)) (allocator (comp p4))).
    { unfold recv in Hr. rewrite bind_modify, bind_get in Hr. unfold wait in Hr.
      destruct (HE (sent p3) (allocator (comp p3)) (receiver (comp p3))) as [Hs Hg].
      { rewrite C3, Hrun. apply Hp. }
      destruct (meanwhile _ _ _) as [s q]. cbn in *. destruct q as [|x q]; [done|]. by injection Hr as <- <-. }
    destruct Hrecv as (A4 & Hs4 & Hg4). rewrite C5 in A6, R6.
    pose proof (allocate_with_block_run (m_name (ab_meta ab)) _ i Hs4) as Hwb. rewrite R6 in Hwb.
    destruct Hwb as (_ & Ht & Hid & _). assert (Ha : allocation (comp p') = allocation (comp p)) by congruence.
    split_and!; [|done|done]. apply (Hacq (allocator (comp p4))); [done|done|]. rewrite C3, Hrun in Hg4. done.
Qed.

(** C28: on a node whose blocks have no address in common and report that they
    are empty only when they are, whose pods hold their addresses, and where
    what other tasks do meanwhile keeps it so, ADD, when it succeeds, gives the
    pod an address that is held in its block and that no pod of the node had,
    and changes no other pod. *)
Theorem add_takes_free_address (E : Env) (a : Args) (p : Proc Inner Output) (res : CniResult) (p' : Proc Inner Output)
  (Hp : node_ok (comp p)) (HE : tame E) (Hadd : add E a p = (Ok res, p')) :
  exists i al, pod_from_str (args a) = Ok i /\ a_container_id al = container_id i /\
    allocation (comp p) !! pod_key i = None /\
    allocation (comp p') = <[pod_key i := al]> (allocation (comp p)) /\
    held (allocator (comp p')) (block al) (ipnet_addr (addr al)) /\
    (forall k b, allocation (comp p) !! k = Some b -> ipnet_addr (addr b) <> ipnet_addr (addr al)).
Proof.
  unfold add in Hadd. apply bind_inv_ok in Hadd as (i & q1 & H1 & H). injection H1 as H1 <-.
  apply bind_inv_ok in H as (ns & q2 & H2 & H). pose proof (still_ns_of _ (comp p) p _ _ eq_refl H2) as C2.
  apply bind_inv_ok in H as (pod & q3 & H3 & H). pose proof (still_ask _ (comp q2) q2 _ _ eq_refl H3) as C3.
  apply bind_inv_ok in H as (pool & q4 & H4 & H). pose proof (still_get_pool _ _ _ (comp q3) q3 _ _ eq_refl H4) as C4.
  rewrite bind_get in H. assert (Hc : comp q4 = comp p) by congruence.
  destruct (allocation (comp q4) !! pod_key i) eqn:Hk; [done|].
  apply bind_inv_ok in H as (o & q5 & H5 & H). apply bind_inv_ok in H as (al & q6 & H6 & H). rewrite bind_modify in H.
  destruct (acquire_allocation E pool i q4 al q6) as ([Hh Hf] & Hid & Ha); [by rewrite Hc|done|by rewrite (bind_ok _ _ _ _ _ H5)|].
  set (q7 := set_comp _ _) in H. apply bind_inv_ok in H as (hns & q8 & H8 & H).
  pose proof (still_ns_of _ (comp q7) q7 _ _ eq_refl H8) as C8. apply bind_inv_ok in H as (n & q9 & H9 & H). injection H9 as _ <-.
  pose proof (still_setup _ _ _ _ _ _ _ (comp q8) q8 _ _ eq_refl H) as C9.
  exists i, al. rewrite C9, C8. subst q7. cbn. rewrite Ha in *. rewrite Hc in *. split_and!; done.
Qed.

(** DEL of a pod that the node has, for the container that was added, forgets
    the pod and gives back its address and no other, whether or not the links of
    the pod can be removed. *)
Theorem del_frees_address (E : Env) (a : Args) (p : Proc Inner Output) (r : res CniError CniResult) (p' p1 : Proc Inner Output)
  (i : PodInfo) (pod : Pod) (pool : string) (al : PodAllocation)
  (Hp : node_ok (comp p)) (Hi : pod_from_str (args a) = Ok i) (Hpod : get_pod E (sent p) (namespace i) (name i) = Some pod)
  (Hpool : get_pool E i pod p = (Ok pool, p1)) (Hal : allocation (comp p) !! pod_key i = Some al)
  (Hid : a_container_id al = container_id i) (Hdel : del E a p = (r, p')) (Hnp : r <> Panic) :
  allocation (comp p') = delete (pod_key i) (allocation (comp p)) /\
  forall n x, held (allocator (comp p')) n x <->
    held (allocator (comp p)) n x /\ ~ (n = block al /\ x = ipnet_addr (addr al)).
Proof.
  unfold del in Hdel. rewrite Hi in Hdel. unfold mbind at 1, M_bind at 1, lift at 1 in Hdel.
  unfold mbind at 1, M_bind at 1, ask at 1 in Hdel. rewrite bind_get, Hpod in Hdel. unfold mret at 1, M_ret at 1 in Hdel.
  unfold mbind at 1, M_bind at 1, try_run at 1 in Hdel. rewrite Hpool in Hdel.
  pose proof (still_get_pool _ _ _ (comp p) p _ _ eq_refl Hpool) as C1. rewrite <-C1 in *.
  unfold del_found in Hdel. rewrite bind_get in Hdel. cbv zeta in Hdel. unfold get_allocation in Hdel.
  rewrite Hal, decide_True in Hdel by done. unfold mbind at 1, M_bind at 1 in Hdel.
  destruct (del_allocation E a i al p1) as [rd p2] eqn:Ed.
  assert (Hc : rd <> Panic /\ comp p' = comp p2).
  { destruct rd as [[res [b|]]|e|]; [| |by injection Hdel as <- <-|by injection Hdel as <- <-].
    - unfold mbind at 1, M_bind at 1 in Hdel. destruct (tell_anyway E (DeleteBlock b) p2) as [rt p3] eqn:Et.
      assert (Hm : maintains (fun q : Proc Inner Output => comp q = comp p2) (tell_anyway E (DeleteBlock b))).
      { unfold tell_anyway. apply maintains_bind; [apply still_try, still_tell|]. intros ?. keep. }
      pose proof (Hm _ _ _ eq_refl Et). by destruct rt; injection Hdel as <- <-.
    - by injection Hdel as <- <-. }
  destruct Hc as [Hrd ->]. by destruct (del_allocation_run E a i al p1 rd p2 Hp Hal Ed Hrd) as [_ [F1 F2]].
Qed.

(** ** CHECK *)

(** CHECK succeeds only for a pod whose address is the address of its node and
    whose pool has a block of its own name: the address of the pod is read from
    the field of the node, and the block is looked up by the name of the pool. *)
Theorem check_demands (E : Env) (a : Args) (p p' : Proc Inner Output) (res : CniResult)
  (Hcheck : check E a p = (Ok res, p')) :
  exists i pod st ip al pool b, pod_from_str (args a) = Ok i /\ pod_status pod = Some st /\ host_ip st = Some ip /\
    parse_addr ip = Some (ipnet_addr (addr al)) /\ allocation (comp p) !! pod_key i = Some al /\
    blocks (allocator (comp p)) !! pool = Some b /\ (exists q q', comp q = comp p /\ get_pool E i pod q = (Ok pool, q')).
Proof.
  unfold check in Hcheck. apply bind_inv_ok in Hcheck as (i & q1 & H1 & H). injection H1 as H1 <-.
  apply bind_inv_ok in H as (pod & q2 & H2 & H). pose proof (still_ask _ (comp p) p _ _ eq_refl H2) as C2.
  apply bind_inv_ok in H as (pool & q3 & H3 & H). pose proof (still_get_pool _ _ _ (comp q2) q2 _ _ eq_refl H3) as C3.
  apply bind_inv_ok in H as (x & q4 & H4 & H). injection H4 as H4 <-. rewrite bind_get in H.
  apply bind_inv_ok in H as (o & q5 & H5 & H). injection H5 as H5 <-. rewrite C3, C2 in *. unfold get_allocation in H5.
  destruct (allocation (comp p) !! pod_key i) as [al|] eqn:Hal; [|by injection H5 as <-].
  destruct (decide (a_container_id al = container_id i)); [|done]. injection H5 as <-.
  destruct (decide (ipnet_addr (addr al) = x)) as [<-|]; [|done]. apply bind_inv_ok in H as (b & q6 & H6 & H).
  injection H6 as H6 <-. unfold is_allocated in H6. destruct (blocks (allocator (comp p)) !! pool) as [bl|] eqn:Hb;
    [|by injection H6 as <-].
  unfold get_pod_addr in H4. destruct (pod_status pod) as [st|] eqn:Hst; [|done]. cbn in H4.
  destruct (host_ip st) as [ip|] eqn:Hip; [|done]. cbn in H4. destruct (parse_addr ip) eqn:Hpa; [|done]. injection H4 as ->.
  exists i, pod, st, ip, al, pool, bl. split_and!; try done. exists q2, q3. done.
Qed.
End turns.

(** ** On the small node *)

Section witnesses.
Import CniExample.
#[local] Existing Instance simple_ipnet.
#[local] Existing Instance simple_ipnet_laws.
#[local] Existing Instance few_text.
#[local] Existing Instance debug_profile.

Lemma node0_fresh : fresh_node node0.
Proof. split; [reflexivity|apply one_block_ok]. Qed.

Lemma add_steps id n c : calm (add good_env (args_of id n) (Build_Proc c [])).1 = true ->
  step c (after (add good_env (args_of id n)) c).
Proof.
  intros H. eapply (step_add good_env (args_of id n) c []); [apply env_tame|apply surjective_pairing|by apply calm_no_panic].
Qed.

Lemma node1_step : step node0 node1.
Proof. apply add_steps. vm_compute. reflexivity. Qed.
Lemma node2_step : step node1 node2.
Proof. apply add_steps. vm_compute. reflexivity. Qed.

Lemma node1_ok : node_ok node1.
Proof. apply (step_node_ok node0); [apply node1_step|apply fresh_node_ok, node0_fresh]. Qed.

Lemma pods_have_own_addresses_witness :
  (forall k k' a a', allocation node2 !! k = Some a -> allocation node2 !! k' = Some a' ->
     ipnet_addr (addr a) = ipnet_addr (addr a') -> k = k') /\
  address_of node2 "default/x" = Some (AV4 167772160) /\ address_of node2 "default/y" = Some (AV4 167772161).
Proof.
  split; [|split; vm_compute; reflexivity].
  refine (proj2 (pods_have_own_addresses node0 node2 node0_fresh _)).
  exact (rtc_l _ _ _ _ node1_step (rtc_once _ _ node2_step)).
Defined.

Lemma add_takes_free_address_witness :
  exists i al, pod_from_str (args (args_of "bbbbbbbb" "y")) = Ok i /\
    allocation node2 = <[pod_key i := al]> (allocation node1) /\
    held (allocator node2) (block al) (ipnet_addr (addr al)) /\
    (forall k b, allocation node1 !! k = Some b -> ipnet_addr (addr b) <> ipnet_addr (addr al)).
Proof.
  destruct (succeeds_ok (add good_env (args_of "bbbbbbbb" "y")) (Build_Proc node1 [])) as [v Hv].
  { apply not_eq_None_Some. vm_compute. discriminate. }
  destruct (add_takes_free_address good_env (args_of "bbbbbbbb" "y") (Build_Proc node1 []) v _ node1_ok env_tame Hv)
    as (i & al & H1 & _ & _ & H4 & H5 & H6). exists i, al. split_and!; assumption.
Defined.

Lemma pool_of_x i c : AllocatorSetInner.auto_assign (allocator c) = None ->
  get_pool good_env i {| pod_meta := meta "x"; pod_status := Some {| host_ip := Some "10.0.0.0"%string; pod_ip := None |} |}
    (Build_Proc c []) = (Ok "pool"%string, Build_Proc c []).
Proof. intros H. unfold get_pool, ask. cbn. rewrite lookup_empty. mred. cbn. rewrite lookup_empty. cbn. rewrite H. reflexivity. Qed.

(** DEL of the first pod *)
Definition gone : Inner := after (del good_env (args_of "aaaaaaaa" "x")) node1.

Lemma del_frees_address_witness :
  address_of node1 "default/x" = Some (AV4 167772160) /\ address_of gone "default/x" = None /\
  exists al, allocation node1 !! "default/x"%string = Some al /\
    forall n x, held (allocator gone) n x <-> held (allocator node1) n x /\ ~ (n = block al /\ x = ipnet_addr (addr al)).
Proof.
  split; [vm_compute; reflexivity|]. split; [vm_compute; reflexivity|].
  assert (Hid : a_container_id <$> allocation node1 !! "default/x"%string = Some "aaaaaaaa"%string) by (vm_compute; reflexivity).
  destruct (allocation node1 !! "default/x"%string) as [al|] eqn:Hal; [|discriminate Hid].
  injection Hid as Hid. exists al. split; [reflexivity|].
  set (i := {| container_id := "aaaaaaaa"; uid := "u"; namespace := "default"; name := "x" |}).
  set (pod := {| pod_meta := meta "x"; pod_status := Some {| host_ip := Some "10.0.0.0"%string; pod_ip := None |} |}).
  assert (Hi : pod_from_str (args (args_of "aaaaaaaa" "x")) = Ok i) by (vm_compute; reflexivity).
  assert (Hg : get_pool good_env i pod (Build_Proc node1 []) = (Ok "pool"%string, Build_Proc node1 [])) by (apply pool_of_x; reflexivity).
  assert (Hc : (del good_env (args_of "aaaaaaaa" "x") (Build_Proc node1 [])).1 <> Panic) by (apply calm_no_panic; vm_compute; reflexivity).
  unfold gone, after.
  apply (del_frees_address good_env (args_of "aaaaaaaa" "x") (Build_Proc node1 []) _ _ (Build_Proc node1 []) i pod "pool" al
    node1_ok Hi eq_refl Hg Hal Hid (surjective_pairing _) Hc).
Defined.

(** CHECK of a pod whose address is taken for the node's, in a block that has the
    name of the pool *)
Definition checked : Inner := after (add good_env (args_of "aaaaaaaa" "x")) (node_with {["pool"%string := few_block "pool"]}).

Lemma check_demands_witness : exists v, (check good_env (args_of "aaaaaaaa" "x") (Build_Proc checked [])).1 = Ok v /\
  exists al ip, allocation checked !! "default/x"%string = Some al /\ parse_addr ip = Some (ipnet_addr (addr al)).
Proof.
  destruct (succeeds_ok (check good_env (args_of "aaaaaaaa" "x")) (Build_Proc checked [])) as [v Hv].
  { apply not_eq_None_Some. vm_compute. discriminate. }
  exists v. split; [by rewrite Hv|].
  destruct (check_demands good_env (args_of "aaaaaaaa" "x") (Build_Proc checked []) _ v Hv)
    as (i & pod & st & ip & al & pool & b & Hi & _ & _ & Hip & Hal & _). exists al, ip. split; [|exact Hip].
  assert (Hk : i = {| container_id := "aaaaaaaa"; uid := "u"; namespace := "default"; name := "x" |}) by
    (vm_compute in Hi; injection Hi as <-; reflexivity).
  rewrite Hk in Hal. exact Hal.
Defined.
End witnesses.
End CniWorld.
