(* ===== verification/CniRecovery.v ===== *)
(** * Restarts, links and garbage

    What the CNI server recovers after a restart, what is written into the aliases
    of links and read from the arguments of a command, which routes and links DEL
    removes, and which blocks the garbage collector deletes. *)

From Stdlib Require Import Ascii.
From S2P Require Import Prelude.
From S2P Require Import Net.
From S2P Require Import NetText.
From S2P Require Import IpamBitset.
From S2P Require Import IpamAllocator.
From S2P Require Import IpamManager.
From S2P Require Import KubeApi.
From S2P Require Import CniLink.
From S2P Require Import CniServer.
From S2P Require Import CniFacts.
From S2P Require Import CniExample.
From S2P Require Import CniWorld.

Module CniRecovery.
Import Kube Netlink PodLinks CniServer CniFacts CniWorld.

#[local] Abbreviation AllocatorSet := AllocatorSetInner.AllocatorSetInner.
#[local] Abbreviation blocks := AllocatorSetInner.blocks.

(** ** Texts *)

(** A value that is not empty and has no separator in it *)
Definition plain (s : string) : Prop := s <> EmptyString /\ free_of ";"%char s /\ free_of "="%char s.

Lemma present_plain f v : plain v -> present f v = Ok tt.
Proof. intros [Hv _]. unfold present. by rewrite decide_False. Qed.

Definition pair_text (kv : string * string) : string := kv.1 +:+ String "="%char kv.2.
Definition pair_free (d : ascii) (kv : string * string) : Prop := free_of d kv.1 /\ free_of d kv.2.

(** The keys and values the container runtime writes, and their text *)
Definition arg_pairs (i : PodInfo) : list (string * string) :=
  [(K8S_POD_INFRA_CONTAINER_ID, container_id i); (K8S_POD_UID, uid i); ("IgnoreUnknown", "1");
   (K8S_POD_NAMESPACE, namespace i); (K8S_POD_NAME, name i)].
Definition pod_args (i : PodInfo) : string := join_on ";"%char (map pair_text (arg_pairs i)).

(** The field an argument sets *)
Definition set_arg (info : PodInfo) (kv : string * string) : PodInfo :=
  if decide (kv.1 = K8S_POD_INFRA_CONTAINER_ID) then
    {| container_id := kv.2; uid := uid info; namespace := namespace info; name := name info |}
  else if decide (kv.1 = K8S_POD_UID) then
    {| container_id := container_id info; uid := kv.2; namespace := namespace info; name := name info |}
  else if decide (kv.1 = K8S_POD_NAMESPACE) then
    {| container_id := container_id info; uid := uid info; namespace := kv.2; name := name info |}
  else if decide (kv.1 = K8S_POD_NAME) then
    {| container_id := container_id info; uid := uid info; namespace := namespace info; name := kv.2 |}
  else info.

Lemma read_pair info kv : pair_free "="%char kv -> read_arg info (pair_text kv) = set_arg info kv.
Proof.
  destruct kv as [k v]. intros [Hk Hv]. unfold read_arg, pair_text. cbn [fst snd] in *.
  rewrite split_on_app, split_on_free by assumption. reflexivity.
Qed.

Lemma read_pairs l info : Forall (pair_free "="%char) l -> foldl read_arg info (map pair_text l) = foldl set_arg info l.
Proof.
  intros Hl. revert info. induction Hl as [|kv l Hkv _ IH]; intros info; [done|]. cbn [map foldl]. by rewrite read_pair, IH.
Qed.

Lemma pair_text_free d kv : d <> "="%char -> pair_free d kv -> free_of d (pair_text kv).
Proof.
  intros Hd [Hk Hv]. unfold pair_text. apply free_of_app; [done|]. split; [|done]. apply Ascii.eqb_neq. congruence.
Qed.

Lemma arg_pairs_free d i : d = ";"%char \/ d = "="%char ->
  free_of d (container_id i) -> free_of d (uid i) -> free_of d (namespace i) -> free_of d (name i) ->
  Forall (pair_free d) (arg_pairs i).
Proof.
  intros Hd H1 H2 H3 H4. unfold arg_pairs.
  repeat apply Forall_cons_2; [..|apply Forall_nil_2]; (split; [destruct Hd; subst d; repeat split|]); cbn [snd]; try assumption.
  destruct Hd; subst d; repeat split.
Qed.

Lemma set_arg_pairs i j : foldl set_arg j (arg_pairs i) = i.
Proof. destruct i. reflexivity. Qed.

(** The arguments of a command are read as the pod they were written for, and
    the alias of a link, from which a restarted server learns whose link it is, as
    the container, the interface and the pool it was made of. *)
Theorem texts_roundtrip (i : PodInfo) (l : ContainerLinkInfo)
  (Hi : Forall plain [container_id i; uid i; namespace i; name i])
  (Hl : Forall (free_of "/"%char) [pool l; id l; ifname l]) :
  pod_from_str (pod_args i) = Ok i /\ from_str (to_alias l) = Ok l.
Proof.
  rewrite !Forall_cons in Hi. destruct Hi as (H1 & H2 & H3 & H4 & _).
  rewrite !Forall_cons in Hl. destruct Hl as (L1 & L2 & L3 & _). split.
  - assert (Hs : Forall (pair_free ";"%char) (arg_pairs i)) by (apply arg_pairs_free; [by left|apply H1|apply H2|apply H3|apply H4]).
    assert (He : Forall (pair_free "="%char) (arg_pairs i)) by (apply arg_pairs_free; [by right|apply H1|apply H2|apply H3|apply H4]).
    unfold pod_from_str, pod_args. rewrite split_join_on.
    + change (match map pair_text (arg_pairs i) with [] => [EmptyString] | _ => map pair_text (arg_pairs i) end)
        with (map pair_text (arg_pairs i)).
      rewrite read_pairs, set_arg_pairs by exact He. cbv zeta. rewrite !present_plain by assumption. reflexivity.
    + apply Forall_map. eapply Forall_impl; [exact Hs|]. intros kv. apply pair_text_free. discriminate.
  - unfold from_str, to_alias. change ("/" +:+ ?s) with (String "/"%char s).
    rewrite split_on_app by assumption. change ("/" +:+ ifname l) with (String "/"%char (ifname l)).
    rewrite split_on_app, split_on_free by assumption. destruct l. reflexivity.
Qed.

Lemma texts_roundtrip_witness :
  let i := {| container_id := "0a6a4b09"; uid := "b0e1fc4a"; namespace := "kube-system"; name := "coredns" |} in
  let l := {| id := "0a6a4b09"; ifname := "eth0"; pool := "default" |} in
  pod_from_str (pod_args i) = Ok i /\ from_str (to_alias l) = Ok l.
Proof.
  intros i l. apply texts_roundtrip.
  - repeat constructor; discriminate.
  - repeat constructor.
Defined.

(** ** Recovery *)

Section recovery.
Context {I : IpNetApi} {L : IpNetLaws} {T : TextApi} {P : Profile}.

(** The networks of the blocks *)
Definition layout (s : AllocatorSet) (n : string) : option IpNet := block_cidr <$> blocks s !! n.

(** The blocks the API server lists for a node: their names and their networks
    are distinct, and [is_empty] can be relied on. *)
Record listing_ok (l : list AddressBlock) : Prop := {
  ls_names : NoDup (map (fun ab => m_name (ab_meta ab)) l);
  ls_exact ab c : ab ∈ l -> parse_net (ab_cidr (ab_spec ab)) = Some c -> exact c;
  ls_disjoint ab ab' c c' x : ab ∈ l -> ab' ∈ l -> parse_net (ab_cidr (ab_spec ab)) = Some c ->
    parse_net (ab_cidr (ab_spec ab')) = Some c' -> ipnet_contains c x = true -> ipnet_contains c' x = true ->
    m_name (ab_meta ab) = m_name (ab_meta ab');
}.

(** The blocks of the first objects are registered, and no address is handed out. *)
Record registered (l : list AddressBlock) (s : AllocatorSet) : Prop := {
  rg_ok : blocks_ok s;
  rg_free n x : ~ held s n x;
  rg_layout n c : layout s n = Some c <-> exists ab, ab ∈ l /\ m_name (ab_meta ab) = n /\ parse_net (ab_cidr (ab_spec ab)) = Some c;
}.

Lemma layout_none s n : layout s n = None <-> blocks s !! n = None.
Proof. unfold layout. destruct (blocks s !! n); naive_solver. Qed.

Lemma register_run l ab s s' : listing_ok (l ++ [ab]) -> registered l s -> register_block ab s = (Ok tt, s') ->
  registered (l ++ [ab]) s'.
Proof.
  intros Hl [R1 R2 R3] H. unfold register_block in H. rewrite bind_get in H. unfold AllocatorSetInner.get in H.
  assert (Hn : blocks s !! m_name (ab_meta ab) = None).
  { apply layout_none, eq_None_not_Some. intros [c (ab' & Hin & Hnm & _)%R3]. pose proof (ls_names _ Hl) as Hnd.
    rewrite map_app in Hnd. apply NoDup_app in Hnd as (_ & Hnd & _). apply (Hnd (m_name (ab_meta ab))); [|by left].
    apply list_elem_of_fmap. by exists ab'. }
  rewrite Hn in H. apply bind_inv_ok in H as (c & s1 & H1 & H). injection H1 as H1 <-.
  destruct (parse_net _) as [c'|] eqn:Hc; [|done]. injection H1 as ->.
  apply bind_inv_ok in H as (b & s2 & H2 & H). injection H2 as H2 <-.
  destruct (Block.new _ _ _) as [b'|e|] eqn:Hb; [|done..]. injection H2 as ->. apply has_new in Hb as (Hb & Hbc & Hnm & _).
  assert (Hs' : blocks s' = <[m_name (ab_meta ab) := b]> (blocks s)).
  { apply bind_inv_ok in H as (o & s3 & H3 & H). inversion H; subst s3. unfold AllocatorSetInner.insert, map_err in H3.
    mred in H3. inversion H3. cbn. by rewrite Hnm. }
  assert (Hlay : forall n, layout s' n = if decide (m_name (ab_meta ab) = n) then Some c else layout s n).
  { intros n. unfold layout. rewrite Hs', lookup_insert. case_decide; [cbn; by rewrite Hbc|done]. }
  split.
  - apply (insert_new s (m_name (ab_meta ab)) b); try done.
    + rewrite Hbc. eapply ls_exact; [done| |done]. set_solver.
    + intros m b0 x Hm Hx. rewrite Hbc. apply not_true_iff_false. intros Hx'.
      assert (Hm' : layout s m = Some (block_cidr b0)) by (unfold layout; by rewrite Hm).
      apply R3 in Hm' as (ab' & Hin & Hnm' & Hc'). assert (m = m_name (ab_meta ab)); [|congruence]. rewrite <-Hnm'.
      eapply (ls_disjoint _ Hl ab' ab); eauto; set_solver.
  - intros n x (b0 & H0 & Hb0 & Hh & Hx). rewrite Hs', lookup_insert in Hb0. case_decide as Hd.
    + injection Hb0 as <-. by rewrite (has_unique _ _ _ Hh Hb) in Hx.
    + apply (R2 n x). by exists b0, H0.
  - intros n c0. rewrite Hlay. case_decide as Hd.
    + split; [intros [= <-]; exists ab; set_solver|]. intros (ab' & Hin & Hnm' & Hc').
      apply elem_of_app in Hin as [Hin|Hin%list_elem_of_singleton]; [|congruence].
      assert (Hx : layout s n = Some c0) by (apply R3; eauto). rewrite <-Hd in Hx.
      by rewrite (proj2 (layout_none s _) Hn) in Hx.
    + rewrite R3. split; intros (ab' & Hin & Hnm' & Hc'); exists ab'; [set_solver|].
      split_and!; [|done|done]. apply elem_of_app in Hin as [Hin|Hin%list_elem_of_singleton]; [done|congruence].
Qed.

Lemma register_all l l' s s' : listing_ok (l ++ l') -> registered l s -> for_each register_block l' s = (Ok tt, s') ->
  registered (l ++ l') s'.
Proof.
  revert l s. induction l' as [|ab l' IH]; intros l s Hl Hs H.
  - inversion H; subst. by rewrite app_nil_r.
  - apply bind_inv_ok in H as ([] & s1 & H1 & H). replace (l ++ ab :: l') with ((l ++ [ab]) ++ l') in * by (by rewrite <-app_assoc).
    eapply IH; [done| |done]. eapply register_run; eauto. destruct Hl as [N1 N2 N3]. split.
    + rewrite map_app in N1. by apply NoDup_app in N1 as (N1 & _).
    + intros ab0 c Hin. apply N2. set_solver.
    + intros ab0 ab1 c c' x Hin Hin'. apply N3; set_solver.
Qed.

(** The names kept for a pool are those of its blocks for pods. *)
Lemma pool_names l m pool n :
  n ∈ default [] (foldl push_block m l !! pool) <->
  n ∈ default [] (m !! pool) \/
  exists ab, ab ∈ l /\ ab_type (ab_spec ab) = TPod /\ pool_ref (ab_spec ab) = pool /\ m_name (ab_meta ab) = n.
Proof.
  revert m. induction l as [|ab l IH]; intros m; [set_solver|]. cbn [foldl]. rewrite IH.
  assert (Hp : n ∈ default [] (push_block m ab !! pool) <-> n ∈ default [] (m !! pool) \/
    (ab_type (ab_spec ab) = TPod /\ pool_ref (ab_spec ab) = pool /\ m_name (ab_meta ab) = n)).
  { unfold push_block. case_decide as Ht; [|naive_solver]. destruct (decide (pool_ref (ab_spec ab) = pool)) as [<-|Hne].
    - destruct (m !! pool_ref (ab_spec ab)) as [names|]; rewrite lookup_insert_eq; cbn; set_solver.
    - destruct (m !! pool_ref (ab_spec ab)) as [names|]; rewrite lookup_insert_ne by done; naive_solver. }
  rewrite Hp. set_solver.
Qed.

(** An address that is held nowhere is taken in the block that contains it. *)
Lemma recover_in_run a names s : blocks_ok s -> (forall n, ~ held s n a) ->
  exists s', recover_in a names s = (Ok tt, s') /\ blocks_ok s' /\ (forall n, layout s' n = layout s n) /\
    forall m x, held s' m x <-> held s m x \/
      (x = a /\ m ∈ names /\ exists c, layout s m = Some c /\ ipnet_contains c a = true).
Proof.
  intros Hs Hfree. induction names as [|n names IH]; cbn [recover_in].
  - exists s. split_and!; [done..|]. set_solver.
  - rewrite bind_get. destruct IH as (s1 & R1 & O1 & L1 & H1).
    assert (Hskip : (forall c, layout s n = Some c -> ipnet_contains c a = false) ->
      forall m x, held s1 m x <-> held s m x \/
      (x = a /\ m ∈ n :: names /\ exists c, layout s m = Some c /\ ipnet_contains c a = true)).
    { intros Hc m x. rewrite H1, elem_of_cons. split; [naive_solver|]. intros [?|(-> & [->|?] & c & Hl & Hx)]; [by left| |naive_solver].
      by rewrite (Hc _ Hl) in Hx. }
    destruct (blocks s !! n) as [b|] eqn:Hn.
    2: { exists s1. split_and!; [done..|]. apply Hskip. intros c. unfold layout. by rewrite Hn. }
    fold (block_cidr b). destruct (ipnet_contains (block_cidr b) a) eqn:Ha.
    2: { exists s1. split_and!; [done..|]. apply Hskip. intros c. unfold layout. rewrite Hn. by intros [= <-]. }
    destruct (bk_has _ Hs _ _ Hn) as [H Hb].
    destruct (has_force b H a Hb) as (a' & Hrun & Hb' & Hc'); [|done|].
    { intros Hx. apply (Hfree n). by exists b, H. }
    destruct (replace_block s n b (with_allocator a' b) _ Hs Hn Hb' Hc' eq_refl) as [O2 H2].
    exists (set_block n (with_allocator a' b) s). split_and!; [|done|..].
    + unfold on_allocator, zoom. unfold mbind, M_bind. rewrite Hrun. done.
    + intros m. unfold layout. rewrite lookup_pod_block by (by rewrite Hn). case_decide as Hd; [|done]. subst m. rewrite Hn. exact (f_equal Some Hc').
    + intros m x. rewrite H2. case_decide as Hd.
      * subst m. rewrite (held_in _ _ _ _ x Hn Hb). split; [|set_solver].
        intros [->%elem_of_singleton|?]%elem_of_union; [|by left]. right. split_and!; [done|by left|]. exists (block_cidr b).
        unfold layout. by rewrite Hn.
      * split; [by left|]. intros [?|(-> & Hm & c & Hl & Hx)]; [done|]. unfold layout in Hl.
        destruct (blocks s !! m) as [b0|] eqn:Hm0; [|done]. injection Hl as <-. destruct Hd. by apply (bk_disjoint s Hs n m b b0 a).
Qed.

(** The address a link has by the routes of both families *)
Definition link_addr (route4 route6 : gmap string IpAddr) (n : string) : option IpAddr :=
  match route4 !! n with Some a => Some a | None => route6 !! n end.

(** The links of the list, with distinct addresses that are held nowhere yet, are
    recovered. *)
Lemma recover_link_run pools route4 route6 l s : blocks_ok s ->
  (forall a n, link_addr route4 route6 l.1 = Some a -> ~ held s n a) ->
  exists s', recover_link pools route4 route6 l s = (Ok tt, s') /\ blocks_ok s' /\
    (forall n, layout s' n = layout s n) /\
    forall m x, held s' m x <-> held s m x \/ (link_addr route4 route6 l.1 = Some x /\
      m ∈ default [] (pools !! pool l.2) /\ exists c, layout s m = Some c /\ ipnet_contains c x = true).
Proof.
  intros Hs Hfree. unfold recover_link. fold (link_addr route4 route6 l.1).
  destruct (link_addr route4 route6 l.1) as [a|]; [|exists s; split_and!; [done..|naive_solver]].
  destruct (pools !! pool l.2) as [names|]; [|exists s; split_and!; [done..|set_solver]].
  destruct (recover_in_run a names s Hs) as (s' & R & O & Ly & Hh); [naive_solver|]. exists s'. split_and!; [done..|].
  intros m x. rewrite Hh. naive_solver.
Qed.

Lemma recover_links pools route4 route6 links s : blocks_ok s ->
  NoDup (omap (fun l => link_addr route4 route6 l.1) links) ->
  (forall l a n, l ∈ links -> link_addr route4 route6 l.1 = Some a -> ~ held s n a) ->
  exists s', for_each (recover_link pools route4 route6) links s = (Ok tt, s') /\ blocks_ok s' /\
    forall m x, held s' m x <-> held s m x \/ exists l, l ∈ links /\ link_addr route4 route6 l.1 = Some x /\
      m ∈ default [] (pools !! pool l.2) /\ exists c, layout s m = Some c /\ ipnet_contains c x = true.
Proof.
  revert s. induction links as [|l links IH]; intros s Hs Hnd Hfree.
  - exists s. split_and!; [done..|]. set_solver.
  - destruct (recover_link_run pools route4 route6 l s Hs) as (s1 & R1 & O1 & L1 & H1).
    { intros a n Ha. eapply Hfree; [by left|done]. }
    assert (Hnd' : NoDup (omap (fun l => link_addr route4 route6 l.1) links) /\
      forall l' a, l' ∈ links -> link_addr route4 route6 l'.1 = Some a -> link_addr route4 route6 l.1 <> Some a).
    { cbn in Hnd. destruct (link_addr route4 route6 l.1) as [a|]; [|done]. apply NoDup_cons in Hnd as [Hnew Hnd].
      split; [done|]. intros l' a' Hin Ha' [= <-]. apply Hnew, list_elem_of_omap. by exists l'. }
    destruct Hnd' as [Hnd' Hnew]. destruct (IH s1 O1 Hnd') as (s2 & R2 & O2 & H2).
    { intros l' a' n Hin Ha' Hh. apply H1 in Hh as [Hh|(Ha & _)]; [by eapply Hfree; [right| |]|by eapply Hnew]. }
    exists s2. split_and!; [|done|].
    + cbn [for_each]. by rewrite (bind_ok _ _ _ _ _ R1).
    + intros m x. rewrite H2, H1. setoid_rewrite L1. setoid_rewrite elem_of_cons. naive_solver.
Qed.

Lemma nodup_inj {A B} (f : A -> B) l x y : NoDup (map f l) -> x ∈ l -> y ∈ l -> f x = f y -> x = y.
Proof.
  induction l as [|z l IH]; [set_solver|]. cbn. intros [Hz Hnd]%NoDup_cons Hx Hy Heq.
  apply elem_of_cons in Hx as [->|Hx], Hy as [->|Hy]; [done|destruct Hz..|auto]; apply list_elem_of_fmap; eauto.
Qed.

Lemma nodup_by_key {A K V} (f : K -> option A) (l : list (K * V)) : NoDup (map fst l) ->
  (forall k k' a, f k = Some a -> f k' = Some a -> k = k') -> NoDup (omap (fun kv => f kv.1) l).
Proof.
  intros Hnd Hf. induction l as [|[k v] l IH]; [constructor|]. apply NoDup_cons in Hnd as [Hk Hnd]. cbn.
  destruct (f k) as [a|] eqn:Ha; [|auto]. apply NoDup_cons. split; [|auto]. intros ([k' v'] & Hin & Ha')%list_elem_of_omap.
  cbn in Ha'. apply Hk. rewrite (Hf _ _ _ Ha Ha'). apply list_elem_of_fmap. by exists (k', v').
Qed.

(** Reading leaves the server as it is. *)
Lemma still_link_list K c : maintains (fun p : Proc Inner Output => comp p = c) (Netlink.link_list K).
Proof. unfold Netlink.link_list. keep; [apply still_connect|apply still_dump]. Qed.

Lemma still_routes K v t s m c : maintains (fun p : Proc Inner Output => comp p = c) (collect_routes K v t s m).
Proof.
  revert m. induction s as [|[r|] s IH]; intros m; cbn [collect_routes]; [keep| |keep]. keep; [|apply IH..].
  unfold route_attr, get_link_name_by_index. keep. apply still_dump.
Qed.

Lemma still_route_list K a t c : maintains (fun p : Proc Inner Output => comp p = c) (route_list K a t).
Proof. unfold route_list. keep; [apply still_connect|apply still_dump|apply still_routes]. Qed.

Lemma map_err_ok {S E E' A} (f : E -> E') (m : M S E A) s a s' : m s = (Ok a, s') -> map_err f m s = (Ok a, s').
Proof. intros H. unfold map_err. by rewrite H. Qed.

(** C7: a server that starts again, on a node where links have addresses of their
    own, finds in its blocks exactly the addresses of the links: an address is
    handed out if and only if it is the address of a link whose pool has the
    block, and the block contains the address. *)
Theorem recovery_restores_addresses (E : Env) (iter : gmap string ContainerLinkInfo -> list (string * ContainerLinkInfo))
  (p p1 p2 p3 p' : Proc Inner Output) (links : gmap string ContainerLinkInfo) (route4 route6 : gmap string IpAddr)
  (l : list AddressBlock)
  (Hempty : blocks (allocator (comp p)) = ∅) (Hiter : forall m, iter m ≡ₚ map_to_list m)
  (Hlinks : Netlink.link_list (kernel E) p = (Ok links, p1))
  (Hroute4 : route_list (kernel E) localhost (table (comp p)) p1 = (Ok route4, p2))
  (Hroute6 : route_list (kernel E) fe80 (table (comp p)) p2 = (Ok route6, p3))
  (Hlist : list_blocks E (sent p3) (node (comp p)) = Some l) (Hl : listing_ok l)
  (Hown : forall n n' a, link_addr route4 route6 n = Some a -> link_addr route4 route6 n' = Some a -> n = n')
  (Hrec : recover E iter p = (Ok tt, p')) :
  blocks_ok (allocator (comp p')) /\ allocation (comp p') = allocation (comp p) /\
  forall n x, held (allocator (comp p')) n x <->
    exists link info ab c, links !! link = Some info /\ link_addr route4 route6 link = Some x /\
      ab ∈ l /\ m_name (ab_meta ab) = n /\ ab_type (ab_spec ab) = TPod /\ pool_ref (ab_spec ab) = pool info /\
      parse_net (ab_cidr (ab_spec ab)) = Some c /\ ipnet_contains c x = true.
Proof.
  pose proof (still_link_list _ _ _ _ _ eq_refl Hlinks) as C1. pose proof (still_route_list _ _ _ _ _ _ _ eq_refl Hroute4) as C2.
  pose proof (still_route_list _ _ _ _ _ _ _ eq_refl Hroute6) as C3.
  unfold recover, nl in Hrec. rewrite (bind_ok _ _ _ _ _ (map_err_ok _ _ _ _ _ Hlinks)), bind_get, C1 in Hrec.
  rewrite (bind_ok _ _ _ _ _ (map_err_ok _ _ _ _ _ Hroute4)), (bind_ok _ _ _ _ _ (map_err_ok _ _ _ _ _ Hroute6)) in Hrec.
  unfold ask, mbind at 1, M_bind at 1 in Hrec. rewrite bind_get, Hlist in Hrec. cbn [mret M_ret] in Hrec. cbv zeta in Hrec.
  unfold on_set, zoom in Hrec. rewrite C3, C2, C1 in Hrec.
  destruct ((for_each register_block l ;; _) (allocator (comp p))) as [r s'] eqn:Hrun. injection Hrec as -> <-. cbn.
  apply bind_inv_ok in Hrun as ([] & s1 & H1 & H2).
  assert (Hr : registered l s1).
  { apply (register_all [] l (allocator (comp p))); [done| |done]. split.
    - split; rewrite Hempty; intros *; by rewrite lookup_empty.
    - intros n x (b & H & Hb & _). by rewrite Hempty, lookup_empty in Hb.
    - intros n c. unfold layout. rewrite Hempty, lookup_empty. split; [done|]. set_solver. }
  destruct Hr as [R1 R2 R3].
  destruct (recover_links (foldl push_block ∅ l) route4 route6 (iter links) s1 R1) as (s2 & Hs2 & O2 & Hh).
  { apply nodup_by_key; [by rewrite Hiter; apply NoDup_fst_map_to_list|]. intros k k' a. apply Hown. }
  { intros lk a n _ _. apply R2. }
  rewrite Hs2 in H2. injection H2 as <-. split_and!; [done|done|]. intros n x. rewrite Hh. split.
  - intros [?%R2|(lk & Hin & Ha & Hn & c & Hc & Hx)]; [done|]. apply pool_names in Hn as [Hn|(ab & Hab & Ht & Hp & Hnm)]; [set_solver|].
    rewrite Hiter in Hin. destruct lk as [lk info]. apply elem_of_map_to_list in Hin.
    apply R3 in Hc as (ab' & Hab' & Hnm' & Hc). assert (ab' = ab) as ->.
    { eapply (nodup_inj (fun ab => m_name (ab_meta ab))); [by apply Hl|done..|congruence]. }
    exists lk, info, ab, c. done.
  - intros (lk & info & ab & c & Hlk & Ha & Hab & Hn & Ht & Hp & Hc & Hx). right. exists (lk, info). split_and!; [|done|..].
    + rewrite Hiter. by apply elem_of_map_to_list.
    + apply pool_names. right. by exists ab.
    + exists c. split; [|done]. apply R3. by exists ab.
Qed.
End recovery.

(** ** Garbage *)

Section garbage.
Import Gc.
Context {I : IpNetApi} {L : IpNetLaws} {P : Profile}.
#[local] Abbreviation Markers := (gmap string GarbageCollectorMarker).

(** A mark to delete is put only over a mark. *)
Lemma mark_unused_spec old n (acc : Markers * gset string) k :
  ((mark_unused old n acc).1 !! k = Some Deleted -> acc.1 !! k = Some Deleted \/ is_Some (old !! k)) /\
  (mark_unused old n acc).2 = acc.2.
Proof.
  unfold mark_unused. destruct (old !! n) as [[]|] eqn:Hn; cbn; (split; [|done]);
    destruct (decide (n = k)) as [<-|]; simplify_map_eq; naive_solver.
Qed.

Lemma mark_block_spec old acc nb acc' : mark_block old acc nb = Ok acc' ->
  (forall k, acc'.1 !! k = Some Deleted -> acc.1 !! k = Some Deleted \/ is_Some (old !! k)) /\ acc.2 ⊆ acc'.2 /\
  (nb.1 ∈ acc'.2 \/ Allocator.is_empty (Block.allocator nb.2) = Ok true).
Proof.
  unfold mark_block. destruct (Allocator.is_empty _) as [[]|e|]; cbn; intros [= <-].
  - split_and!; [apply mark_unused_spec| |by right]. by rewrite (proj2 (mark_unused_spec old nb.1 acc "")).
  - split_and!; [auto|set_solver|set_solver].
Qed.

Lemma mark_objects s old l acc acc' : res_fold (mark_object s old) l acc = Ok acc' ->
  forall k, acc'.1 !! k = Some Deleted -> acc.1 !! k = Some Deleted \/ is_Some (old !! k).
Proof.
  revert acc. induction l as [|ab l IH]; intros acc H k; [injection H as <-; auto|]. cbn in H.
  destruct (mark_object s old acc ab) as [acc1|e|] eqn:H1; [|done..]. intros Hk. apply (IH _ H) in Hk as [Hk|]; [|by right].
  unfold mark_object in H1. destruct (blocks s !! _) as [b|].
  - by apply mark_block_spec in H1 as (H1 & _); auto.
  - injection H1 as <-. by apply mark_unused_spec in Hk.
Qed.

Lemma mark_blocks old l acc acc' : res_fold (mark_block old) l acc = Ok acc' ->
  (forall k, acc'.1 !! k = Some Deleted -> acc.1 !! k = Some Deleted \/ is_Some (old !! k)) /\ acc.2 ⊆ acc'.2 /\
  forall nb, nb ∈ l -> nb.1 ∈ acc'.2 \/ Allocator.is_empty (Block.allocator nb.2) = Ok true.
Proof.
  revert acc. induction l as [|nb l IH]; intros acc H; [injection H as <-; set_solver|]. cbn in H.
  destruct (mark_block old acc nb) as [acc1|e|] eqn:H1; [|done..].
  apply mark_block_spec in H1 as (A1 & A2 & A3). apply IH in H as (B1 & B2 & B3).
  split_and!; [naive_solver|set_solver|]. intros nb' [->|Hin]%elem_of_cons; [|auto]. set_solver.
Qed.

Lemma marks_spec iter l g m : (forall x, iter x ≡ₚ map_to_list x) -> marks iter l g = Ok m ->
  forall n, m !! n = Some Deleted -> is_Some (gc_blocks g !! n) /\
    forall b, blocks (gc_allocator g) !! n = Some b -> Allocator.is_empty (Block.allocator b) = Ok true.
Proof.
  intros Hiter H n Hn. unfold marks in H. destruct (res_fold (mark_object _ _) _ _) as [acc|e|] eqn:H1; [|done..]. cbn in H.
  destruct (res_fold (mark_block _) _ acc) as [[unused used]|e|] eqn:H2; [|done..]. cbn in H. injection H as <-.
  apply map_lookup_filter_Some in Hn as [Hn Hused]. cbn in Hused. apply mark_blocks in H2 as (B1 & _ & B3). split.
  - apply lookup_union_Some_raw in Hn as [Hn|[_ Hn]]; [|by exists Deleted].
    apply B1 in Hn as [Hn|]; [|done]. by apply (mark_objects _ _ _ _ _ H1) in Hn as [Hn|].
  - intros b Hb. destruct (B3 (n, b)) as [Hin|He]; [|by destruct Hused|done]. rewrite Hiter. by apply elem_of_map_to_list.
Qed.

Lemma collect_one get_block accepts acc kv (p : Proc Collector Output) :
  exists asked deleted, collect_marked get_block accepts acc kv p =
    (Ok deleted, Build_Proc (comp p) (sent p ++ map DeleteBlock asked)) /\ forall n, n ∈ asked -> kv = (n, Deleted).
Proof.
  assert (H0 : p = Build_Proc (comp p) (sent p ++ map DeleteBlock [])) by (destruct p; cbn; by rewrite app_nil_r).
  destruct kv as [n k]. unfold collect_marked. cbn [fst snd].
  case_decide as Hk; [|exists [], acc; split; [by rewrite <-H0|set_solver]]. subst k.
  unfold collect, mbind, M_bind, get_st. destruct (get_block (sent p) n) as [[ab|]|];
    [exists [n]|exists []|exists []]; eexists; (split; [|set_solver]); [reflexivity|rewrite <-H0; reflexivity..].
Qed.

(** The marked blocks are asked for, in their order. *)
Lemma collect_all get_block accepts l acc (p : Proc Collector Output) :
  exists asked deleted, for_fold (collect_marked get_block accepts) l acc p =
    (Ok deleted, Build_Proc (comp p) (sent p ++ map DeleteBlock asked)) /\ forall n, n ∈ asked -> (n, Deleted) ∈ l.
Proof.
  revert acc p. induction l as [|kv l IH]; intros acc p.
  - exists [], acc. destruct p. cbn. rewrite app_nil_r. set_solver.
  - destruct (collect_one get_block accepts acc kv p) as (ask & acc1 & Hrun & Hask).
    cbn [for_fold]. rewrite (bind_ok _ _ _ _ _ Hrun).
    destruct (IH acc1 (Build_Proc (comp p) (sent p ++ map DeleteBlock ask))) as (asked & deleted & Hrest & Hin).
    exists (ask ++ asked), deleted. split; [by rewrite Hrest, map_app, app_assoc|].
    intros n [Hn|Hn]%elem_of_app; [rewrite (Hask _ Hn); by left|right; auto].
Qed.

(** C15: a tick of the garbage collector asks for nothing but the deletion of
    blocks that an earlier tick has marked and that, if the node has them, report
    at this tick that they are empty. No pod holds an address of such a block when
    that report can be relied on: with overflow checks, or for a block of at most
    128 addresses ([is_empty_overflow] is a case where it cannot). *)
Theorem collects_idle_blocks (list_blocks : list Output -> string -> option (list AddressBlock))
  (get_block : list Output -> string -> option (option AddressBlock)) (accepts : list Output -> Output -> bool)
  (iter : gmap string Block.Block -> list (string * Block.Block))
  (iter_marks : Markers -> list (string * GarbageCollectorMarker))
  (p p' : Proc Collector Output) (r : res Error unit)
  (Hiter : forall x, iter x ≡ₚ map_to_list x)
  (Hmarks : forall x, iter_marks x ≡ₚ map_to_list x)
  (Htick : tick list_blocks get_block accepts iter iter_marks p = (r, p')) :
  gc_allocator (comp p') = gc_allocator (comp p) /\
  exists asked, sent p' = sent p ++ map DeleteBlock asked /\
    Forall (fun n => is_Some (gc_blocks (comp p) !! n) /\
      forall b, blocks (gc_allocator (comp p)) !! n = Some b -> Allocator.is_empty (Block.allocator b) = Ok true /\
        (exact (block_cidr b) -> forall x, ~ held (gc_allocator (comp p)) n x)) asked.
Proof.
  unfold tick in Htick. rewrite bind_get in Htick. destruct (list_blocks _ _) as [l|];
    [|injection Htick as <- <-; split; [done|exists []; by rewrite app_nil_r]].
  unfold mbind at 1, M_bind at 1, lift at 1 in Htick. destruct (marks iter l (comp p)) as [m|e|] eqn:Hm;
    [|injection Htick as <- <-; split; [done|exists []; by rewrite app_nil_r]..].
  rewrite bind_modify in Htick. set (p1 := set_comp _ _) in Htick.
  destruct (collect_all get_block accepts (iter_marks m) [] p1) as (asked & dels & Hrun & Hasked).
  rewrite (bind_ok _ _ _ _ _ Hrun) in Htick. injection Htick as <- <-. split; [done|]. exists asked. split; [done|].
  apply Forall_forall. intros n Hn%Hasked. rewrite Hmarks in Hn. apply elem_of_map_to_list in Hn.
  destruct (marks_spec _ _ _ _ Hiter Hm n Hn) as [Hold Hidle]. split; [done|].
  intros b Hb. split; [by apply Hidle|]. intros Hex x (b' & H & Hb' & Hh & Hx). rewrite Hb in Hb'. injection Hb' as <-.
  by rewrite (has_is_empty _ _ Hh Hex (Hidle _ Hb)) in Hx.
Qed.
End garbage.

(** ** Routes *)

Section routes.
Context {I : IpNetApi} {T : TextApi} {P : Profile}.

(** The route has an attribute that is not a table; what the kernel dumps has at
    least a destination or an interface. *)
Definition has_attribute (r : RouteMessage) : Prop := Exists (fun a => forall n, a <> Table n) (r_attributes r).

(** Scanning with a table is scanning without one. *)
Lemma scan_table_spec table dst len l d t :
  match scan_table table dst len l d t, scan_route dst len l d with
  | None, None => True
  | Some (d', t'), Some d'' => d' = d'' /\ (t = true \/ Exists (fun a => forall n, a <> Table n) l -> t' = true)
  | _, _ => False
  end.
Proof.
  revert d t. induction l as [|a l IH]; intros d t; cbn.
  - split; [done|]. intros [->|H]; [done|]. by apply Exists_nil in H.
  - assert (Hw : forall d t u, (t = true \/ Exists (fun a => forall n, a <> Table n) (a :: l) -> u = true \/ Exists (fun a => forall n, a <> Table n) l) ->
      match scan_table table dst len l d u, scan_route dst len l d with
      | None, None => True
      | Some (d', t'), Some d'' => d' = d'' /\ (t = true \/ Exists (fun a => forall n, a <> Table n) (a :: l) -> t' = true)
      | _, _ => False end).
    { intros d0 t0 u Hi. specialize (IH d0 u). destruct (scan_table _ _ _ _ _ _) as [[]|], (scan_route _ _ _ _); naive_solver. }
    destruct a as [id|n|x|].
    + destruct (table =? id); apply Hw; rewrite Exists_cons; naive_solver.
    + apply Hw. by left.
    + case_decide; [destruct (is_dst dst len x); [done|]|]; apply Hw; by left.
    + apply Hw. by left.
Qed.

Lemma find_in_table_spec table dst d s : (forall r, Some r ∈ s -> has_attribute r) ->
  find_in_table table dst d s = find_route dst d s.
Proof.
  induction s as [|[r|] s IH]; intros Hs; [done| |done]. cbn.
  pose proof (scan_table_spec table dst (r_prefix_len r) (r_attributes r) true false) as Hsc.
  rewrite IH by (intros r' Hr'; apply Hs; by right).
  destruct (scan_table _ _ _ _ _ _) as [[d1 t1]|], (scan_route _ _ _ _) as [d2|]; try done.
  destruct Hsc as [-> Ht]. rewrite Ht; [done|]. right. apply Hs. by left.
Qed.

(** The route that is removed "in a table" is the first route to the
    destination in any table: the table makes no difference. *)
Theorem table_is_ignored {C} (K : Kernel) (dst : IpNet) (table : Z) (p : Proc C Output)
  (Hattr : forall r, Some r ∈ routes K (sent p) (version dst) -> has_attribute r) :
  del_route_in_table K dst table p = del_route K dst p.
Proof.
  unfold del_route_in_table, del_route, connect, dump, mbind, M_bind, get_st.
  destruct (opens K (sent p)); [|done]. cbn. destruct (default_route _) as [d|]; [|done].
  unfold lift. by rewrite find_in_table_spec.
Qed.

(** No route goes to the network: those to its address have another length. *)
Definition no_route (K : Kernel) (dst : IpNet) : Prop :=
  default_route (version dst) <> Some dst /\
  forall t r, Some r ∈ routes K t (version dst) -> r_prefix_len r <> ipnet_prefix_len dst.

Lemma scan_misses table dst len l d t : len <> ipnet_prefix_len dst -> is_Some (scan_table table dst len l d t).
Proof.
  intros Hlen. revert d t. induction l as [|a l IH]; intros d t; cbn; [done|]. destruct a as [id|n|x|]; try apply IH.
  - destruct (_ =? _); apply IH.
  - case_decide; [|apply IH]. unfold is_dst. rewrite (proj2 (Z.eqb_neq _ _) Hlen), andb_false_r. apply IH.
Qed.

Lemma find_misses table dst d s : d <> dst -> (forall r, Some r ∈ s -> r_prefix_len r <> ipnet_prefix_len dst) ->
  find_in_table table dst d s = Ok None \/ find_in_table table dst d s = Err Route.
Proof.
  intros Hd. induction s as [|[r|] s IH]; intros Hs; [by left| |by right]. cbn.
  destruct (scan_misses table dst (r_prefix_len r) (r_attributes r) true false) as [[d1 t1] ->]; [apply Hs; by left|].
  rewrite (bool_decide_eq_false_2 _ Hd), andb_false_r. apply IH. intros r' Hr'. apply Hs. by right.
Qed.

Lemma del_route_misses {C} K dst table (p : Proc C Output) r p' : no_route K dst ->
  del_route_in_table K dst table p = (r, p') -> r <> Ok tt /\ p' = p.
Proof.
  intros [Hd Hr] H. unfold del_route_in_table, connect, dump, mbind, M_bind, get_st in H.
  destruct (opens K (sent p)); [|by injection H as <- <-]. cbn in H.
  destruct (default_route _) as [d|]; [|by injection H as <- <-]. unfold lift in H.
  destruct (find_misses table dst d (routes K (sent p) (version dst))) as [Hf|Hf]; [congruence|apply Hr|..];
    rewrite Hf in H; by injection H as <- <-.
Qed.

(** Nothing was sent after [t] but to enter namespaces. *)
Definition entered (t : list Output) (p : Proc Inner Output) : Prop := exists nss, sent p = t ++ map Enter nss.

Lemma entered_enter t K ns : maintains (entered t) (enter K ns).
Proof.
  unfold enter. keep. intros p [nss Hp]. exists (nss ++ [ns]). cbn. by rewrite Hp, map_app, app_assoc.
Qed.

Lemma entered_reads t {A} (f : list Output -> Stream A) : maintains (E := Error) (entered t) (dump f).
Proof. unfold dump. keep. Qed.

(** The steps of [cleanup_links] before the removal of the route *)
Lemma entered_cleanup t K id host ns dst x ifname table p r p' : no_route K dst -> entered t p ->
  cleanup_links K id host ns dst x ifname table p = (r, p') -> entered t p' /\ forall v, r <> Ok v.
Proof.
  intros Hno Hp H. unfold cleanup_links in H. unfold mbind at 1, M_bind at 1 in H.
  match type of H with context [match ?m p with _ => _ end] => destruct (m p) as [r1 p1] eqn:E1;
    assert (Hm : maintains (entered t) m) end.
  { keep; [apply entered_enter|]. unfold nl, get_link_mac, connect. keep; apply entered_reads. }
  pose proof (Hm _ _ _ Hp E1) as Hp1. destruct r1 as [mac|e|]; [|by injection H as <- <-..].
  unfold mbind at 1, M_bind at 1 in H. destruct (enter K host p1) as [r2 p2] eqn:E2.
  pose proof (entered_enter t _ _ _ _ _ Hp1 E2) as Hp2. destruct r2 as [[]|e|]; [|by injection H as <- <-..].
  unfold mbind at 1, M_bind at 1, nl at 1, map_err at 1 in H. destruct (del_route_in_table K dst table p2) as [r3 p3] eqn:E3.
  apply (del_route_misses _ _ _ _ _ _ Hno) in E3 as [Hr3 ->]. destruct r3 as [[]|e|]; [done|by injection H as <- <-..].
Qed.

(** DEL removes neither the route nor the link of a pod when no route has the
    length of the pod's block, and reports no error for it if the route was only
    not found: ADD makes the route with the full length of an address, and DEL
    looks for one with the length of the block. *)
Theorem del_leaves_links (E : Env) (a : Args) (i : PodInfo) (alloc : PodAllocation) (p p' : Proc Inner Output)
  (r : res CniError CniResult) (Hno : no_route (kernel E) (addr alloc)) (Hdel : del_links E a i alloc p = (r, p')) :
  (exists nss, sent p' = sent p ++ map Enter nss) /\ forall v, r = Ok v -> v = empty_result.
Proof.
  assert (Hp : entered (sent p) p) by (exists []; by rewrite app_nil_r).
  unfold del_links, ns_of in Hdel. unfold mbind at 1, M_bind at 1 in Hdel. rewrite bind_get in Hdel. unfold lift at 1 in Hdel.
  destruct (res_map_err _ (current_ns _ _)) as [host|e|]; [|by injection Hdel as <- <-..].
  rewrite bind_get in Hdel. unfold mbind at 1, M_bind at 1, lift at 1 in Hdel.
  destruct (res_sum _) as [opened|e|]; [|by injection Hdel as <- <-..].
  unfold mbind at 1, M_bind at 1, lift at 1 in Hdel. destruct (container_ns opened) as [ns|e|]; [|by injection Hdel as <- <-..].
  unfold mbind at 1, M_bind at 1, try_run in Hdel.
  destruct (cleanup_links _ _ _ _ _ _ _ _ p) as [rc pc] eqn:Ec. apply (entered_cleanup (sent p)) in Ec as [Hpc Hne]; [|done..].
  destruct rc as [v|e|]; [by destruct (Hne v)| |by injection Hdel as <- <-]. injection Hdel as <- <-. split; [done|].
  intros v. unfold cleanup_result. destruct e as [|[]| | | | | | | | | | | |]; naive_solver.
Qed.
End routes.

(** ** On the small node *)

Section witnesses.
Import CniExample.
#[local] Existing Instance simple_ipnet.
#[local] Existing Instance simple_ipnet_laws.
#[local] Existing Instance few_text.
#[local] Existing Instance debug_profile.

Lemma listed_ok : listing_ok [listed].
Proof.
  split; [apply NoDup_singleton|..].
  - intros ab c _ _. by left.
  - intros ab ab' c c' x ->%list_elem_of_singleton ->%list_elem_of_singleton. reflexivity.
Qed.

Definition restarted : Proc Inner Output := Build_Proc (node_with ∅) [].
Definition x_links : gmap string ContainerLinkInfo :=
  {["vethaaaaaaaa"%string := {| id := "aaaaaaaa"; ifname := "eth0"; pool := "pool" |}]}.
Definition x_routes : gmap string IpAddr := {["vethaaaaaaaa"%string := AV4 167772160]}.

(** A run that reads is known by its result. *)
Lemma read_eq {E A} (m : M (Proc Inner Output) E A) a : (forall c, maintains (fun p => comp p = c) m) ->
  (m restarted).1 = Ok a -> length (sent (m restarted).2) = 0%nat -> m restarted = (Ok a, restarted).
Proof.
  intros Hm. destruct (m restarted) as [r [c t]] eqn:H. cbn. intros -> ->%nil_length_inv. f_equal.
  pose proof (Hm _ _ _ _ eq_refl H) as Hc. cbn in Hc. by rewrite Hc.
Qed.

Lemma recovery_restores_addresses_witness :
  held (allocator (comp (recover good_env map_to_list restarted).2)) "b" (AV4 167772160).
Proof.
  destruct (succeeds_ok (recover good_env map_to_list) restarted) as [[] Hv].
  { apply not_eq_None_Some. vm_compute. discriminate. }
  assert (Hl : Netlink.link_list (kernel good_env) restarted = (Ok x_links, restarted)) by
    (apply read_eq; [apply still_link_list|vm_compute; reflexivity..]).
  assert (H4 : route_list (kernel good_env) localhost 120 restarted = (Ok x_routes, restarted)) by
    (apply read_eq; [apply still_route_list|vm_compute; reflexivity..]).
  assert (H6 : route_list (kernel good_env) fe80 120 restarted = (Ok ∅, restarted)) by (apply read_eq; [apply still_route_list|vm_compute; reflexivity..]).
  destruct (recovery_restores_addresses good_env map_to_list restarted restarted restarted restarted
    (recover good_env map_to_list restarted).2 x_links x_routes ∅ [listed] eq_refl ltac:(reflexivity) Hl H4 H6 eq_refl listed_ok)
    as (_ & _ & Hh); [|exact Hv|].
  - intros n n' a. unfold link_addr, x_routes. rewrite !lookup_empty.
    destruct (_ !! n) eqn:E1; [|discriminate]. destruct (_ !! n') eqn:E2; [|discriminate]. intros _ _.
    apply lookup_singleton_Some in E1 as [<- _], E2 as [<- _]. reflexivity.
  - apply Hh. exists "vethaaaaaaaa"%string. eexists _, listed, (NV4 few).
    split; [apply lookup_singleton_eq|]. split; [vm_compute; reflexivity|]. split; [by left|].
    split; [reflexivity|]. split; [reflexivity|]. split; [reflexivity|]. split; [reflexivity|]. vm_compute. reflexivity.
Defined.

(** A block that was marked at the tick before *)
Definition collector : Gc.Collector := {|
  Gc.gc_allocator := allocator node0; Gc.gc_node := "node"; Gc.gc_blocks := {["b"%string := Gc.Unused]};
|}.

Definition asked_of (l : list Output) : list string := omap (fun o => match o with DeleteBlock n => Some n | _ => None end) l.

Lemma asked_of_map l : asked_of (map DeleteBlock l) = l.
Proof. induction l as [|n l IH]; [reflexivity|]. cbn. f_equal. exact IH. Qed.

Lemma collects_idle_blocks_witness :
  exists asked, sent (Gc.tick (fun _ _ => Some [listed]) (fun _ _ => Some (Some listed)) (fun _ _ => true) map_to_list map_to_list
                        (Build_Proc collector [])).2 = map DeleteBlock asked /\ asked = ["b"%string] /\
    Forall (fun n => forall x, ~ held (allocator node0) n x) asked.
Proof.
  destruct (collects_idle_blocks (fun _ _ => Some [listed]) (fun _ _ => Some (Some listed)) (fun _ _ => true) map_to_list map_to_list
    (Build_Proc collector []) _ _ ltac:(reflexivity) ltac:(reflexivity) (surjective_pairing _))
    as (_ & asked & Hs & Hf). exists asked. split; [exact Hs|]. split.
  - rewrite <-(asked_of_map asked). change (map DeleteBlock asked) with (sent (Build_Proc collector []) ++ map DeleteBlock asked).
    rewrite <-Hs.
    vm_compute. reflexivity.
  - eapply Forall_impl; [exact Hf|]. intros n [_ Hn] x Hx. pose proof Hx as (b & _ & Hb & _).
    destruct (Hn b Hb) as [_ Hno]. by destruct (Hno (bk_exact _ (one_block_ok "b") _ _ Hb) x).
Defined.

(** A route to an address is removed whatever the table, and one with the length
    of the block is not there. *)
Definition dst32 : IpNet := NV4 (exist _ (167772160, 32) Logic.I).

Lemma table_is_ignored_witness :
  del_route_in_table good_kernel dst32 254 restarted = del_route good_kernel dst32 restarted.
Proof.
  apply table_is_ignored. intros r Hr. apply list_elem_of_singleton in Hr. injection Hr as ->.
  right. left. intros n. discriminate.
Defined.

Definition x_info : PodInfo := {| container_id := "aaaaaaaa"; uid := "u"; namespace := "default"; name := "x" |}.
Definition x_alloc : PodAllocation := {| a_container_id := "aaaaaaaa"; block := "b"; addr := NV4 few |}.

Lemma del_leaves_links_witness :
  calm (del_links good_env (args_of "aaaaaaaa" "x") x_info x_alloc restarted).1 = true /\
  exists nss, sent (del_links good_env (args_of "aaaaaaaa" "x") x_info x_alloc restarted).2 = map Enter nss /\ length nss = 2%nat.
Proof.
  split; [vm_compute; reflexivity|].
  assert (Hno : no_route (kernel good_env) (addr x_alloc)).
  { split; [discriminate|]. intros t r Hr. apply list_elem_of_singleton in Hr. injection Hr as ->. vm_compute. discriminate. }
  destruct (del_leaves_links good_env (args_of "aaaaaaaa" "x") x_info x_alloc restarted _ _ Hno (surjective_pairing _)) as [[nss Hs] _].
  exists nss. split; [exact Hs|]. rewrite <-(length_map Enter nss). 
  change (map Enter nss) with (sent restarted ++ map Enter nss). rewrite <-Hs. vm_compute. reflexivity.
Defined.
End witnesses.
End CniRecovery.
