(* ===== verification/Daemon.v ===== *)
(** * The commands of the daemon

    [cmd/src/cmd.rs] with its flags, the configurations of
    [kubernetes/src/config.rs], [agent/config.rs] and [controller/config.rs], and
    which tasks [run] of [agent/server.rs] and [controller/server.rs] start in
    which mode. Reading and parsing a file is a parameter: what the file says. *)

From S2P Require Import Prelude.
From S2P Require Import Net.
From S2P Require Import NetText.
From S2P Require Import IpamManager.
From S2P Require Import BgpEvent.
From S2P Require Import BgpServer.
From S2P Require Import BgpApi.
From S2P Require Import FibRib.
From S2P Require Import KubeApi.
From S2P Require Import KubePool.
From S2P Require Import KubeRecover.
From S2P Require Import CniServer.
From S2P Require Import FibApi.

Module Daemon.

(** ** Configurations *)

Inductive Mode : Type := LB | CNI | Dual.
#[global] Instance Mode_eq_dec : EqDecision Mode.
Proof. solve_decision. Defined.

Definition show_mode (m : Mode) : string := match m with CNI => "cni" | LB => "lb" | Dual => "dual" end.
Definition parse_mode (s : string) : option Mode :=
  if decide (s = "lb"%string) then Some LB
  else if decide (s = "cni"%string) then Some CNI
  else if decide (s = "dual"%string) then Some Dual
  else None.

Record Tls : Type := { cert : string; key : string }.

Definition DEFAULT_TLS_CERT : string := "/etc/sartd/cert/tls.crt".
Definition DEFAULT_TLS_KEY : string := "/etc/sartd/cert/tls.key".
Definition AGENT_HTTP_PORT : Z := 8000.
Definition AGENT_HTTPS_PORT : Z := 9443.
Definition CONTROLLER_HTTP_PORT : Z := 8080.
Definition CONTROLLER_HTTPS_PORT : Z := 8443.
Definition DEFAULT_ENDPOINT : string := "0.0.0.0:5002".
Definition DEFAULT_PEER_STATE_WATCHER_ENDPOINT : string := "0.0.0.0:5003".
Definition DEFAULT_REQUEUE_INTERVAL : Z := 30 * 60.

Record AgentConfig : Type := {
  a_http_port : Z; a_https_port : Z; a_endpoint : string; a_tls : Tls; a_requeue_interval : Z;
  a_peer_state_watcher : string; a_mode : Mode; a_cni_endpoint : option string;
}.

Definition default_agent : AgentConfig := {|
  a_http_port := AGENT_HTTP_PORT; a_https_port := AGENT_HTTPS_PORT; a_endpoint := DEFAULT_ENDPOINT;
  a_tls := {| cert := DEFAULT_TLS_CERT; key := DEFAULT_TLS_KEY |}; a_requeue_interval := DEFAULT_REQUEUE_INTERVAL;
  a_peer_state_watcher := DEFAULT_PEER_STATE_WATCHER_ENDPOINT; a_mode := Dual;
  a_cni_endpoint := Some CniServer.CNI_SERVER_ENDPOINT |}.

Record ControllerConfig : Type := {
  c_http_port : Z; c_https_port : Z; c_endpoint : string; c_tls : Tls; c_requeue_interval : Z; c_mode : Mode;
}.

Definition default_controller : ControllerConfig := {|
  c_http_port := CONTROLLER_HTTP_PORT; c_https_port := CONTROLLER_HTTPS_PORT; c_endpoint := DEFAULT_ENDPOINT;
  c_tls := {| cert := DEFAULT_TLS_CERT; key := DEFAULT_TLS_KEY |}; c_requeue_interval := DEFAULT_REQUEUE_INTERVAL; c_mode := Dual |}.

(** ** Flags

    The flags as they are given: [None] is a flag that is left out. *)

Record BgpCmd : Type := {
  b_file : option string; b_as : option Z; b_router_id : option string; b_fib_endpoint : option string;
  b_fib_table_id : option Z; b_exporter : option string;
}.
Record FibCmd : Type := { f_endpoint : option string; f_file : option string }.
Record AgentCmd : Type := {
  ag_endpoint : option string; ag_file : option string; ag_tls_cert : option string; ag_tls_key : option string;
  ag_http_port : option Z; ag_https_port : option Z; ag_peer_state_watcher : option string; ag_mode : option Mode;
  ag_cni_endpoint : option string;
}.
Record ControllerCmd : Type := {
  co_endpoint : option string; co_http_port : option Z; co_https_port : option Z; co_file : option string;
  co_tls_cert : option string; co_tls_key : option string; co_mode : option Mode;
}.

Inductive SubCmd : Type := Bgp (b : BgpCmd) | Fib (f : FibCmd) | Agent (a : AgentCmd) | Controller (c : ControllerCmd) | Version.

(** A value of a flag, when it is not empty *)
Definition unless_empty (s old : string) : string := if decide (s = ""%string) then old else s.

Definition override_agent (a : AgentCmd) (c : AgentConfig) : AgentConfig := {|
  a_http_port := default AGENT_HTTP_PORT (ag_http_port a);
  a_https_port := default AGENT_HTTPS_PORT (ag_https_port a);
  a_endpoint := unless_empty (default "127.0.0.5002"%string (ag_endpoint a)) (a_endpoint c);
  a_tls := {| cert := default (cert (a_tls c)) (ag_tls_cert a); key := default (key (a_tls c)) (ag_tls_key a) |};
  a_requeue_interval := a_requeue_interval c;
  a_peer_state_watcher := default (a_peer_state_watcher c) (ag_peer_state_watcher a);
  a_mode := default Dual (ag_mode a);
  a_cni_endpoint := Some (default CniServer.CNI_SERVER_ENDPOINT (ag_cni_endpoint a)) |}.

Definition override_controller (a : ControllerCmd) (c : ControllerConfig) : ControllerConfig := {|
  c_http_port := default CONTROLLER_HTTP_PORT (co_http_port a);
  c_https_port := default CONTROLLER_HTTPS_PORT (co_https_port a);
  c_endpoint := unless_empty (default "127.0.0.5003"%string (co_endpoint a)) (c_endpoint c);
  c_tls := {| cert := default (cert (c_tls c)) (co_tls_cert a); key := default (key (c_tls c)) (co_tls_key a) |};
  c_requeue_interval := c_requeue_interval c;
  c_mode := default Dual (co_mode a) |}.

Section defs.
Context {I : IpNetApi} {T : TextApi} {P : Profile}.

(** [router_id.parse().unwrap()] *)
Definition override_bgp (b : BgpCmd) (c : Config.Config) : res unit Config.Config :=
  id ← match b_router_id b with
       | Some s => match Proto.parse_v4 s with Some i => Ok i | None => Panic end
       | None => Ok (Config.router_id c)
       end;
  Ok {| Config.asn := default (Config.asn c) (b_as b); Config.router_id := id;
        Config.fib_endpoint := match b_fib_endpoint b with Some e => Some e | None => Config.fib_endpoint c end;
        Config.fib_table := match b_fib_table_id b with Some t => Some t | None => Config.fib_table c end;
        Config.exporter := match b_exporter b with Some e => Some e | None => Config.exporter c end;
        Config.neighbors := Config.neighbors c; Config.multi_path := Config.multi_path c; Config.paths := Config.paths c |}.

Definition override_fib (f : FibCmd) (c : FibApi.Config) : FibApi.Config :=
  {| FibApi.cf_endpoint := unless_empty (default "127.0.0.1:5001"%string (f_endpoint f)) (FibApi.cf_endpoint c);
     FibApi.cf_channels := FibApi.cf_channels c |}.

(** ** What is started *)

(** The tasks of the agent and of the controller *)
Inductive AgentTask : Type := NodeBgpT | BgpPeerT | BgpAdvertisementT | PeerWatcherT (endpoint : string) | PodBlockT | CniServerT (endpoint : string).
Inductive ControllerTask : Type :=
| ClusterBgpT | AddressPoolT | AddressBlockT | BlockRequestT | NodeWatcherT | ServiceWatcherT | EndpointSliceT | AdvertisementT.

(** [get_node_addr]: the first internal address of the node *)
Fixpoint get_node_addr (addresses : list (string * string)) : res unit IpAddr :=
  match addresses with
  | [] => Panic
  | (type, address) :: l =>
      if decide (type = "InternalIP"%string) then match parse_addr address with Some a => Ok a | None => Panic end
      else get_node_addr l
  end.

(** [run] of the agent: [node] has the addresses of its node, if it can be read. *)
Definition run_agent (c : AgentConfig) (node : option (list (string * string))) : res unit (list AgentTask) :=
  let base := [NodeBgpT; BgpPeerT; BgpAdvertisementT; PeerWatcherT (a_peer_state_watcher c)] in
  if bool_decide (a_mode c = CNI) || bool_decide (a_mode c = Dual) then
    _ ← match node with Some l => get_node_addr l | None => Panic end;
    match a_cni_endpoint c with
    | Some e => Ok (base ++ [PodBlockT; CniServerT e])
    | None => Panic
    end
  else Ok base.

(** [run] of the controller: its memory is recovered before the pools are looked at. *)
Definition run_controller (c : ControllerConfig) (aps : option (list Kube.AddressPool)) (abs : option (list Kube.AddressBlock)) :
    res unit (list ControllerTask * BlockAllocatorInner.BlockAllocatorInner) :=
  match Recovery.recover_or_create aps abs with
  | Ok inner =>
      Ok ([ClusterBgpT; AddressPoolT; AddressBlockT]
          ++ (if bool_decide (c_mode c = CNI) || bool_decide (c_mode c = Dual) then [BlockRequestT] else [])
          ++ [NodeWatcherT]
          ++ (if bool_decide (c_mode c = LB) || bool_decide (c_mode c = Dual) then [ServiceWatcherT; EndpointSliceT] else [])
          ++ [AdvertisementT], inner)
  | _ => Panic
  end.

(** What the files say, and what the API server lists *)
Record Env : Type := {
  bgp_file : string -> option Config.Config;
  fib_file : string -> option FibApi.Config;
  agent_file : string -> option AgentConfig;
  controller_file : string -> option ControllerConfig;
  node_addresses : option (list (string * string));
  pools_listed : option (list Kube.AddressPool);
  blocks_listed : option (list Kube.AddressBlock);
}.
Variable E : Env.

Inductive Started : Type :=
| Printed (s : string)
| StartedBgp (b : Server.Bgp)
| StartedFib (f : FibApi.Fib)
| StartedAgent (c : AgentConfig) (tasks : list AgentTask)
| StartedController (c : ControllerConfig) (tasks : list ControllerTask) (b : BlockAllocatorInner.BlockAllocatorInner).

(** A configuration from a file, or the default one; a file that cannot be read is
    a panic. *)
Definition from_file {A} (read : string -> option A) (file : option string) (def : A) : res unit A :=
  match file with
  | Some f => match read f with Some c => Ok c | None => Panic end
  | None => Ok def
  end.

Definition run (cmd : SubCmd) : res unit Started :=
  match cmd with
  | Version => Ok (Printed "dev")
  | Bgp b =>
      conf ← from_file (bgp_file E) (b_file b) Config.default;
      conf ← override_bgp b conf;
      Ok (StartedBgp (Server.new conf))
  | Fib f =>
      match f_file f with
      | None => Panic
      | Some file =>
          conf ← from_file (fib_file E) (Some file) {| FibApi.cf_endpoint := ""; FibApi.cf_channels := [] |};
          Ok (StartedFib (FibApi.fib_new (override_fib f conf)))
      end
  | Agent a =>
      conf ← from_file (agent_file E) (ag_file a) default_agent;
      let conf := override_agent a conf in
      tasks ← run_agent conf (node_addresses E);
      Ok (StartedAgent conf tasks)
  | Controller c =>
      conf ← from_file (controller_file E) (co_file c) default_controller;
      let conf := override_controller c conf in
      started ← run_controller conf (pools_listed E) (blocks_listed E);
      Ok (StartedController conf started.1 started.2)
  end.
End defs.

(** ** What files and flags decide *)

Lemma mode_roundtrip m : parse_mode (show_mode m) = Some m.
Proof. by destruct m. Qed.

Section facts.
Context {I : IpNetApi} {T : TextApi} {P : Profile}.

(** Two files that differ in ports, endpoint, mode and the endpoint of the CNI
    server make the same agent: the flags have defaults for them, which replace
    what the file says. *)
Lemma agent_file_ignored a c c' : ag_endpoint a <> Some ""%string -> a_tls c = a_tls c' ->
  a_requeue_interval c = a_requeue_interval c' -> a_peer_state_watcher c = a_peer_state_watcher c' ->
  override_agent a c = override_agent a c'.
Proof.
  intros He Ht Hr Hw. unfold override_agent, unless_empty. rewrite Ht, Hr, Hw. rewrite !decide_False; [done|..];
    destruct (ag_endpoint a) as [e|]; cbn; congruence.
Qed.

Lemma pods_mode m : bool_decide (m = CNI) || bool_decide (m = Dual) = match m with LB => false | _ => true end.
Proof. by destruct m. Qed.
Lemma services_mode m : bool_decide (m = LB) || bool_decide (m = Dual) = match m with CNI => false | _ => true end.
Proof. by destruct m. Qed.

(** The tasks of an agent and of a controller are those of the mode that their
    flags give, [Dual] without one, whatever their files say: the blocks of pods
    and the CNI server, and the requests for blocks, unless the mode is the one for
    load balancers only; the services unless it is the one for pods only. *)
Theorem mode_flag_decides (E : Env) (a : AgentCmd) (c : ControllerCmd) (conf : AgentConfig) (conf' : ControllerConfig)
  (l : list AgentTask) (l' : list ControllerTask) (inner : BlockAllocatorInner.BlockAllocatorInner)
  (Ha : run E (Agent a) = Ok (StartedAgent conf l)) (Hc : run E (Controller c) = Ok (StartedController conf' l' inner)) :
  (forall e, CniServerT e ∈ l <-> ag_mode a <> Some LB /\ e = default CniServer.CNI_SERVER_ENDPOINT (ag_cni_endpoint a)) /\
  (PodBlockT ∈ l <-> ag_mode a <> Some LB) /\
  (BlockRequestT ∈ l' <-> co_mode c <> Some LB) /\
  (ServiceWatcherT ∈ l' <-> co_mode c <> Some CNI) /\ (EndpointSliceT ∈ l' <-> co_mode c <> Some CNI).
Proof.
  cbn [run] in Ha, Hc. apply FibApi.bind_inv_res in Ha as (fa & _ & Ha). apply FibApi.bind_inv_res in Ha as (ta & Hra & Ha).
  injection Ha as <- <-. apply FibApi.bind_inv_res in Hc as (fc & _ & Hc). apply FibApi.bind_inv_res in Hc as (tc & Hrc & Hc).
  injection Hc as <- <- <-. unfold run_agent in Hra. unfold run_controller in Hrc.
  rewrite pods_mode in Hra. rewrite pods_mode, services_mode in Hrc.
  cbn [override_agent a_mode a_cni_endpoint a_peer_state_watcher] in Hra. cbn [override_controller c_mode] in Hrc.
  destruct (Recovery.recover_or_create _ _) as [b|e|]; [|done..]. injection Hrc as <-. cbn [fst].
  split; [|split].
  1: intros e.
  1,2: clear fc; destruct (ag_mode a) as [[]|]; cbn in Hra;
    [injection Hra as <-|apply FibApi.bind_inv_res in Hra as (? & _ & Hra); injection Hra as <-..];
    rewrite !elem_of_cons, elem_of_nil; naive_solver.
  clear Hra. destruct (co_mode c) as [[]|]; cbn; rewrite !elem_of_cons, !elem_of_nil; naive_solver.
Qed.

(** A block without a status stops the controller: [recover_or_create] fails and
    is unwrapped, at every start. *)
Theorem controller_stops_without_status (E : Env) (c : ControllerCmd) (conf : ControllerConfig) (aps : list Kube.AddressPool)
  (l1 l2 : list Kube.AddressBlock) (ab : Kube.AddressBlock) (pools : gmap string Pool.Pool)
  (Hsound : Forall Recovery.sound_pool aps) (Hpools : Recovery.res_fold Recovery.add_pool aps ∅ = Ok pools)
  (Hleg : Recovery.legit pools l1) (Hnum : is_Some (Recovery.block_number (Kube.m_name (Kube.ab_meta ab))))
  (Hpool : is_Some (pools !! Kube.pool_ref (Kube.ab_spec ab))) (Hst : Kube.ab_status ab = None)
  (Haps : pools_listed E = Some aps) (Habs : blocks_listed E = Some (l1 ++ ab :: l2))
  (Hfile : from_file (controller_file E) (co_file c) default_controller = Ok conf) :
  run E (Controller c) = Panic.
Proof.
  cbn [run]. rewrite Hfile. cbn [mbind res_bind]. unfold run_controller. rewrite Haps, Habs.
  by rewrite (Recovery.missing_status_fails_restart _ _ _ _ _ Hsound Hpools Hleg Hnum Hpool Hst).
Qed.
End facts.

(** ** Examples *)

Section witnesses.
#[local] Existing Instances simple_ipnet simple_ipnet_laws simple_text simple_text_laws debug_profile.

(** Files that ask for the mode for load balancers only *)
Definition w_env (abs : list Kube.AddressBlock) : Env := {|
  bgp_file _ := None; fib_file _ := None;
  agent_file _ := Some {| a_http_port := 1; a_https_port := 2; a_endpoint := "e"; a_tls := {| cert := "c"; key := "k" |};
                          a_requeue_interval := 60; a_peer_state_watcher := "w"; a_mode := LB; a_cni_endpoint := None |};
  controller_file _ := Some {| c_http_port := 1; c_https_port := 2; c_endpoint := "e"; c_tls := {| cert := "c"; key := "k" |};
                               c_requeue_interval := 60; c_mode := LB |};
  node_addresses := Some [("InternalIP"%string, show_addr (AV4 1))];
  pools_listed := Some [Recovery.w_pool];
  blocks_listed := Some abs |}.
Definition w_agent : AgentCmd := {|
  ag_endpoint := None; ag_file := Some "f"%string; ag_tls_cert := None; ag_tls_key := None; ag_http_port := None; ag_https_port := None;
  ag_peer_state_watcher := None; ag_mode := None; ag_cni_endpoint := None |}.
Definition w_controller : ControllerCmd := {|
  co_endpoint := None; co_http_port := None; co_https_port := None; co_file := Some "f"%string; co_tls_cert := None; co_tls_key := None;
  co_mode := None |}.

(** Both run the tasks for pods. *)
Lemma mode_flag_decides_witness : exists conf conf' l l' inner,
  run (w_env Recovery.w_blocks) (Agent w_agent) = Ok (StartedAgent conf l) /\ a_http_port conf = 8000 /\
  run (w_env Recovery.w_blocks) (Controller w_controller) = Ok (StartedController conf' l' inner) /\
  PodBlockT ∈ l /\ BlockRequestT ∈ l'.
Proof.
  destruct (Recovery.restarted [Recovery.w_pool] Recovery.w_blocks _ Recovery.w_sound Recovery.w_pools Recovery.w_legit) as (inner & Hrun & _).
  assert (Ha : exists conf l, run (w_env Recovery.w_blocks) (Agent w_agent) = Ok (StartedAgent conf l) /\ a_http_port conf = 8000).
  { assert (Hn : get_node_addr [("InternalIP"%string, show_addr (AV4 1))] = Ok (AV4 1)).
    { cbn [get_node_addr]. rewrite decide_True by done. by rewrite parse_show_addr. }
    eexists _, _. cbn [run from_file w_agent ag_file agent_file w_env mbind res_bind node_addresses]. unfold run_agent.
    rewrite Hn. split; reflexivity. }
  assert (Hc : exists conf l, run (w_env Recovery.w_blocks) (Controller w_controller) = Ok (StartedController conf l inner)).
  { eexists _, _. cbn [run from_file w_controller co_file controller_file w_env mbind res_bind pools_listed blocks_listed]. unfold run_controller.
    rewrite Hrun. reflexivity. }
  destruct Ha as (conf & l & Ha & Hp), Hc as (conf' & l' & Hc). exists conf, conf', l, l', inner.
  destruct (mode_flag_decides _ _ _ _ _ _ _ _ Ha Hc) as (_ & Hpod & Hreq & _).
  split; [exact Ha|]. split; [exact Hp|]. split; [exact Hc|]. split; [apply Hpod|apply Hreq]; discriminate.
Defined.

(** The block of a pool for services that is called [p-2] *)
Definition w_service_block : Kube.AddressBlock := {|
  Kube.ab_meta := Recovery.w_meta "p-2";
  Kube.ab_spec := {| Kube.ab_cidr := ""; Kube.ab_type := Kube.TService; Kube.pool_ref := "p"; Kube.node_ref := None; Kube.ab_auto_assign := false |};
  Kube.ab_status := None |}.

Lemma controller_stops_without_status_witness : run (w_env (Recovery.w_blocks ++ [w_service_block])) (Controller w_controller) = Panic.
Proof.
  eapply (controller_stops_without_status _ w_controller _ [Recovery.w_pool] Recovery.w_blocks [] w_service_block _ Recovery.w_sound Recovery.w_pools
    Recovery.w_legit); try reflexivity.
  - by eexists; vm_compute.
  - exists Recovery.w_new. apply lookup_singleton_eq.
Defined.
End witnesses.
End Daemon.
